(* ===== verification/_CoqProject ===== *)
-Q . S2P
Prelude.v
Exec.v
Link.v
GoStrings.v
Decimal.v
DecimalSpec.v
DecimalText.v
DecimalTheorems.v
Float64.v
Json.v
Http.v
Base64.v
Url.v
Uuid.v
Broker.v
Vault.v
VaultClient.v
Db.v
DbSpec.v
DbTheorems.v
Clients.v
Cache.v
Redis.v
RedisSpec.v
Effects.v
Config.v
Worker.v
Webhook.v
Service.v
TradeProtocol.v
CredsSafety.v
VaultSpec.v
TradeTheorems.v
WorkerSpec.v
Liveness.v
Concurrency.v
OrderRows.v
FillHistory.v
WebhookSpec.v
Startup.v
StartupSpec.v
Binance.v
BinanceSpec.v
BinanceQueries.v
ServiceTheorems.v
System.v
SystemSpec.v
TradeWire.v
QuotesWire.v
SyncWire.v
ReportWire.v
Replicas.v
Bodies.v
Demo.v
Witnesses.v
ClientWitnesses.v
