(* ===== verification/Prelude.v ===== *)
(** * Pregao: verification of an order execution and market data service

    Pregao (Go, under src/) executes trade intents at a broker, settles the fills, serves
    quotes and reconciles balances.  This library models its packages and proves what
    they promise each other and their clients.

    ** The program and its model

    A gRPC server (internal/service) and an HTTP webhook (internal/webhook) work on an
    orders table and a credentials table (internal/db), an exchange (internal/broker),
    a vault (internal/vault), a quotes cache (internal/cache), a ledger and a portfolio
    engine (internal/client), and share a fill processor (internal/worker).
    cmd/server/main.go wires them.

    Code that talks to anything outside itself is a [prog] over a signature of calls:
    [service] over the Go interfaces of the service layer (Effects.v), [http], [transit],
    [redis] and the remote calls of the clients, [startup] for the process.  A call's
    answer is unconstrained in the program; an environment - a relation between worlds -
    says what a theorem assumes of it.  [defer], the deferred closure over a local
    variable, panics ([Panic]) and early returns are as in the source; a call may panic
    too, and carries what its caller then still runs, its deferred calls.  Pure code is a
    function; an [int32] or [int64] is a [Z] with its wrap-around or its range check
    written out; a Go error is a value of [GoError], and messages keep their constant part.

    ** Files

    - Prelude, Exec, Link: programs; their executions, traces, weakest preconditions and
      protocols, with and without calls that panic; linking a program with implementations
      of its calls, and simulation.
    - GoStrings, Json, Url, Base64, Http, Float64: what the source uses of Go's standard
      library.  Base64, Url and Float64 come with the round trips that are needed.
    - Decimal, DecimalSpec, DecimalText, DecimalTheorems: the decimal package (vendored),
      its meaning in [Q], its text forms.  Uuid: parsing and printing (vendored).
    - Broker, Binance (internal/broker): the broker's data and the exchange client;
      BinanceSpec and BinanceQueries: what it sends and how it reads the answers.
    - Vault, VaultClient (internal/vault): credentials as aliased byte arrays on a heap,
      and the client that fills them; VaultSpec: it refines what the service assumes.
    - Db (internal/db): the tables, one definition per method, each an atomic statement
      with faults before and after it; DbSpec, DbTheorems: the unique constraints and
      what each statement changes.
    - Clients (internal/client): Livro and Ativos.  Cache, Redis, RedisSpec
      (internal/cache): the quotes cache and the life of a quote in it.
    - Effects, Service (internal/service), Worker (internal/worker), Webhook
      (internal/webhook), Config (internal/config), Startup (cmd/server, internal/db/db.go):
      one definition per handler, named as in the source.
    - TradeProtocol, TradeTheorems: [ExecuteTrade] against an automaton of the calls it
      may make.  CredsSafety: credentials in memory.  Liveness: requests return and
      duplicates are answered.  Concurrency: interleavings of any number of requests and
      fills, with faults and crashes, by rule induction; OrderRows: every row of a table so
      reached is typed and stems from a request.  WorkerSpec, WebhookSpec,
      ServiceTheorems, StartupSpec: the other handlers.  FillHistory: what the row of an
      order adds up to over a history of fill events.
    - System, SystemSpec, TradeWire, QuotesWire, SyncWire, ReportWire: the service and the
      webhook linked with the clients as main wires them, down to the wires; what the
      parts promise holds of the whole.  Replicas: any number of such requests and fills
      whose wires interleave; they refine the system of Concurrency.
      Bodies: the response bodies the clients of such a service hold open.
    - Demo, Witnesses, ClientWitnesses: concrete collaborators, and the theorems with
      hypotheses applied to them.

    ** What the theorems show

    - One order per intent: reservations gate orders, at most one acknowledged order is
      executed per intent and per idempotency key, every reservation is released or its
      order confirmed, replays answer the recorded order and send nothing.
    - Money: fills, averages, step sizes, settlements and reconciliations are exact or
      rounded once, as numbers in [Q], from the JSON text to the text on the wire; the
      fills of an order, handled one by one, add up in its row.
    - The wire: a trade is at most one signed order at the exchange, a settled fill the
      requests its deployment prescribes (one to Ativos, or Livro's capture or credit, or none
      where neither is connected), each with the request's own data, and the answer is that order's; the
      orders the exchange executes for all replicas are those of requests, of distinct intents
      unless an acknowledgement is lost; a
      reconciliation compares what the exchange and the ledger sent, and a quote outlives
      an outage of the exchange as long as the cache says.
    - Resources: no array of decoded plaintext survives a request of the deployed system, given
      a vault that answers as documented, and no response body stays open.
    - Panics: the reservations, the order at the exchange, the plaintext and the open bodies
      are accounted for whichever call of a request panics, and so are concurrent requests.
    - Results: each handler's success, refusal and failure, with the calls made for it.
    - Termination: the reservation loop has no bound in the source.  Its fuel
      [reserve_fuel] is one round per poll interval of the wait plus one (301 for the
      defaults of 30 s and 100 ms), and with a clock that advances it is never exhausted.
    Theorems that state what goes wrong (a lost acknowledgement, a replayed fill,
    two fills at once of which one is lost, a quantity beyond sixteen decimals, the report key [O], the degraded mode) are kept
    beside the ones they limit.

    ** Parameters and limits

    HMAC-SHA256 ([Hmac]), PostgreSQL's NUMERIC, VARCHAR, TEXT and TIMESTAMPTZ columns
    ([PgTypes], with the documented rounding and cutting as laws), Go's Unicode tables and
    JSON form of non-ASCII text ([GoUnicode], [JsonUnicode]) are parameters; ASCII text is
    computed.  The vault's transit engine is
    the class [VaultReplies], the clock [ClockEnv], a promise of the fill processor
    [FillProcessorOk], amounts without extreme exponents [PlainAmounts].  The exchange keeps
    its own record of the orders it executes ([places], [replica_env]): whether the client
    learns of one is its answer's doing, and [lossy] says whether an answer may be lost.  A JSON body is given decoded, except where the decoding is the
    handler's own (the webhook).

    Not modelled: logging, HTTP and gRPC transports with their time-outs, TLS, gRPC
    reflection, the generated protobuf code (its messages appear as records), random
    generation of UUIDs (an effect), the parts of the vendored packages nothing here
    calls, tests and scripts.  The heap holds the decoded credentials: copies that a Go string
    makes of the API key for a header, and the response bodies and JSON strings with the base64
    text of the plaintext, are outside it.  The webhook's paths are those the mux looks up,
    after its redirect of a path that is not clean.  Go ranges over a map in a random order;
    where the quotes of one are written to the cache the model takes [map_to_list]; for
    symbols that differ in more than case another order writes the same.  The theorems on settlements and reports (the wire of
    [ProcessFill], the webhook's answers) speak of runs in which no call panics; a request
    on a wire answers or fails, and the panics of the clients themselves are modelled. *)

From stdpp Require Import base tactics list strings gmap.
From Stdlib Require Import ZArith QArith Qpower Qabs Lia Lqa.

#[export] Set Default Goal Selector "!".

Declare Scope go_scope.
Delimit Scope go_scope with go.
#[global] Open Scope Z_scope.

(** ** Machine integers

    Go's [int32] arithmetic wraps; [w32] is that wrap-around, [in_i32] and
    [in_i64] the ranges in which it does nothing. *)

Definition MinInt32 : Z := - 2 ^ 31.
Definition MaxInt32 : Z := 2 ^ 31 - 1.
Definition MinInt64 : Z := - 2 ^ 63.
Definition MaxInt64 : Z := 2 ^ 63 - 1.

Definition w32 (z : Z) : Z := (z + 2 ^ 31) mod 2 ^ 32 - 2 ^ 31.

Definition in_i32 (z : Z) : Prop := MinInt32 <= z <= MaxInt32.
Definition in_i64 (z : Z) : Prop := MinInt64 <= z <= MaxInt64.

#[global] Instance in_i32_dec z : Decision (in_i32 z).
Proof. unfold in_i32. apply _. Defined.
#[global] Instance in_i64_dec z : Decision (in_i64 z).
Proof. unfold in_i64. apply _. Defined.

Lemma w32_id z : in_i32 z -> w32 z = z.
Proof.
  unfold in_i32, w32, MinInt32, MaxInt32. intros H.
  rewrite Z.mod_small; lia.
Qed.

Lemma w32_range z : in_i32 (w32 z).
Proof.
  unfold in_i32, w32, MinInt32, MaxInt32.
  pose proof (Z.mod_pos_bound (z + 2 ^ 31) (2 ^ 32)). lia.
Qed.

(** ** Outcomes of Go calls *)

(** gRPC status codes the service returns (google.golang.org/grpc/codes). *)
Inductive Code :=
  | OK | Canceled | InvalidArgument | DeadlineExceeded | FailedPrecondition
  | Aborted | Internal | Unavailable.

(** The sentinel errors the packages declare with [errors.New]. *)
Inductive Sentinel :=
  | ErrRateLimited | ErrOrderRejected | ErrSymbolNotFound | ErrInvalidQuantity
  | ErrOrderNotFound | ErrCredentialsNotFound
  | ErrCacheMiss
  | ErrDecryptionFailed | ErrEmptyCiphertext.

(** A Go error value.  [ErrMsg] is a leaf made by [errors.New] or by [fmt.Errorf]
    without [%w]; [ErrWrap] is [fmt.Errorf] with [%w]; [ErrStatus] a gRPC status.
    Messages keep the constant part of the format only. *)
Inductive GoError :=
  | ErrSentinel (s : Sentinel)
  | ErrMsg (msg : string)
  | ErrWrap (msg : string) (e : GoError)
  | ErrStatus (c : Code) (msg : string).

#[global] Instance Code_eq_dec : EqDecision Code.
Proof. solve_decision. Defined.
#[global] Instance Sentinel_eq_dec : EqDecision Sentinel.
Proof. solve_decision. Defined.
#[global] Instance GoError_eq_dec : EqDecision GoError.
Proof. solve_decision. Defined.

(** [errors.Is(e, s)] for a sentinel: the chain of wrapped errors is searched. *)
Fixpoint errors_Is (e : GoError) (s : Sentinel) : bool :=
  match e with
  | ErrSentinel s' => bool_decide (s' = s)
  | ErrWrap _ e' => errors_Is e' s
  | ErrMsg _ | ErrStatus _ _ => false
  end.

(** The pair [(value, error)] a Go function returns, as its callers read it. *)
Inductive Result (A : Type) :=
  | Ok (a : A)
  | Err (e : GoError).
Arguments Ok {A} a.
Arguments Err {A} e.

Definition is_ok {A} (r : Result A) : bool :=
  match r with Ok _ => true | Err _ => false end.

(** ** Programs over effects

    The code that talks to the outside world (database, broker, vault, ledger,
    clock) is a [prog]: a tree whose nodes are calls of an effect signature and
    whose leaves are a result or a panic.  A call either answers, and [k] goes on, or
    panics itself: then [unwind] runs, the calls deferred at that point.  One definition of a
    handler serves for its sequential runs and for the interleavings of concurrent
    requests. *)

Section Prog.
Context {Op : Type} {Res : Op -> Type}.

Inductive prog (A : Type) : Type :=
  | Ret (a : A)
  | Panic (msg : string)
  | Call (op : Op) (k : Res op -> prog A) (unwind : prog A).

Arguments Ret {A} a.
Arguments Panic {A} msg.
Arguments Call {A} op k unwind.

(** Nothing follows an unwinding. *)
Fixpoint bind {A B} (p : prog A) (f : A -> prog B) : prog B :=
  match p with
  | Ret a => f a
  | Panic m => Panic m
  | Call op k u => Call op (fun r => bind (k r) f) (bind u (fun _ => Panic ""))
  end.

Definition call (op : Op) : prog (Res op) := Call op Ret (Panic "").

(** [defer f]: [f] runs when the body returns and when it or one of its calls panics. *)
Fixpoint defer {A} (f : prog unit) (p : prog A) : prog A :=
  match p with
  | Ret a => bind f (fun _ => Ret a)
  | Panic m => bind f (fun _ => Panic m)
  | Call op k u => Call op (fun r => defer f (k r)) (defer f u)
  end.

(** A partial operation whose failure is a Go panic. *)
Definition or_panic {A} (msg : string) (o : option A) : prog A :=
  match o with Some a => Ret a | None => Panic msg end.

(** Sequential execution against a handler of the effects that threads a
    state and does not panic; [None] is a panic of the program. *)
Section Run.
Context {W : Type} (h : forall op, W -> Res op * W).

Fixpoint run {A} (p : prog A) (w : W) : option A * W :=
  match p with
  | Ret a => (Some a, w)
  | Panic _ => (None, w)
  | Call op k _ => let '(r, w') := h op w in run (k r) w'
  end.

Lemma run_bind {A B} (p : prog A) (f : A -> prog B) w :
  run (bind p f) w =
  match run p w with
  | (Some a, w') => run (f a) w'
  | (None, w') => (None, w')
  end.
Proof.
  revert w. induction p as [a|m|op k IH u _]; intros w; simpl; try reflexivity.
  destruct (h op w) as [r w']. apply IH.
Qed.

(** The deferred program runs after the body on both ways out. *)
Lemma run_defer {A} (f : prog unit) (p : prog A) w :
  run (defer f p) w =
  let '(o, w') := run p w in
  match run f w' with
  | (Some _, w'') => (o, w'')
  | (None, w'') => (None, w'')
  end.
Proof.
  revert w. induction p as [a|m|op k IH u _]; intros w; simpl.
  - rewrite run_bind. destruct (run f w) as [[?|] ?]; reflexivity.
  - rewrite run_bind. destruct (run f w) as [[?|] ?]; reflexivity.
  - destruct (h op w) as [r w']. apply IH.
Qed.
End Run.
End Prog.

Arguments prog {Op} Res A.
Arguments Ret {Op Res A} a.
Arguments Panic {Op Res A} msg.
Arguments Call {Op Res A} op k unwind.

(** ** A local variable captured by a deferred function

    [local_op] adds the assignment to one local variable to a signature; [with_local]
    runs a body that assigns it and then the deferred function, which reads it. *)

Inductive local_op (S Op : Type) :=
  | Do (op : Op)
  | Assign (s : S).
Arguments Do {S Op} op.
Arguments Assign {S Op} s.

Definition local_res {Op} (Res : Op -> Type) (S : Type) (op : local_op S Op) : Type :=
  match op with Do o => Res o | Assign _ => unit end.

Section Local.
Context {Op : Type} {Res : Op -> Type} {S : Type}.

(** A program that does not touch the variable. *)
Fixpoint lift {A} (p : prog Res A) : prog (local_res Res S) A :=
  match p with
  | Ret a => Ret a
  | Panic m => Panic m
  | Call op k u => Call (Res := local_res Res S) (Do op) (fun r => lift (k r)) (lift u)
  end.

Definition assign (s : S) : prog (local_res Res S) unit :=
  Call (Res := local_res Res S) (Assign s) Ret (Panic "").

Fixpoint with_local {A} (final : S -> prog Res unit) (s : S)
    (p : prog (local_res Res S) A) : prog Res A :=
  match p with
  | Ret a => bind (final s) (fun _ => Ret a)
  | Panic m => bind (final s) (fun _ => Panic m)
  | Call op k u =>
      match op return (local_res Res S op -> prog (local_res Res S) A) -> prog Res A with
      | Do o => fun k => Call o (fun r => with_local final s (k r)) (with_local final s u)
      | Assign s' => fun k => with_local final s' (k tt)
      end k
  end.
End Local.

Notation "x <- p ;; q" := (bind p (fun x => q))
  (at level 62, p at next level, right associativity) : go_scope.
Notation "' pat <- p ;; q" := (bind p (fun x => match x with pat => q end))
  (at level 62, pat pattern, p at next level, right associativity) : go_scope.
Notation "p ;;; q" := (bind p (fun _ => q))
  (at level 62, right associativity) : go_scope.
