(* ===== verification/Exec.v ===== *)
(** * Executions of effectful programs

    The environment of a program is a relation [H]: [H op w r w'] says that the call
    [op] made in world [w] can answer [r] and leave the world [w'].  [exec] are the
    executions of a program in an environment and [wp] the predicate transformer that
    proves things about all of them, the permission [allowed] to make each call
    included.  [traces] are the executions that answer anything and record the calls;
    a [protocol] is an automaton over such records. *)

From stdpp Require Import base tactics list.
From S2P Require Import Prelude.

#[local] Open Scope go_scope.

Section CallsOnly.
Context {Op : Type} {Res : Op -> Type}.

(** Programs whose calls all satisfy [ok]. *)
Fixpoint calls_only (ok : Op -> bool) {A} (p : prog Res A) : Prop :=
  match p with
  | Ret _ | Panic _ => True
  | Call op k u => (ok op = true /\ calls_only ok u) /\ forall r, calls_only ok (k r)
  end.

Lemma calls_only_bind {A B} ok (p : prog Res A) (f : A -> prog Res B) :
  calls_only ok p -> (forall a, calls_only ok (f a)) -> calls_only ok (bind p f).
Proof.
  intros Hp. revert B f. induction p as [a|m|op k IH u IHu]; simpl; intros B f Hf; [done..|].
  destruct Hp as [[Hop Hu] Hk]. split; [split; [done|by apply IHu]|]. intros r. by apply IH.
Qed.

Lemma calls_only_defer {A} ok (f : prog Res unit) (p : prog Res A) :
  calls_only ok f -> calls_only ok p -> calls_only ok (defer f p).
Proof.
  intros Hf. induction p as [a|m|op k IH u IHu]; simpl;
    [by intros _; apply calls_only_bind..|naive_solver].
Qed.
End CallsOnly.

Section Exec.
Context {Op : Type} {Res : Op -> Type} {W : Type}.
Context (H : forall op, W -> Res op -> W -> Prop).

(** [exec p w o w']: [p] started in [w] can end with [o] in [w']; [None] is a panic. *)
Fixpoint exec {A} (p : prog Res A) (w : W) (o : option A) (w' : W) : Prop :=
  match p with
  | Ret a => o = Some a /\ w' = w
  | Panic _ => o = None /\ w' = w
  | Call op k _ => exists r w1, H op w r w1 /\ exec (k r) w1 o w'
  end.

Context (allowed : Op -> W -> Prop).

Fixpoint wp {A} (p : prog Res A) (Q : option A -> W -> Prop) (w : W) : Prop :=
  match p with
  | Ret a => Q (Some a) w
  | Panic _ => Q None w
  | Call op k _ => allowed op w /\ forall r w', H op w r w' -> wp (k r) Q w'
  end.

Lemma wp_sound {A} (p : prog Res A) Q w o w' : wp p Q w -> exec p w o w' -> Q o w'.
Proof. revert w. induction p as [a|m|op k IH u IHu]; intros w; simpl; naive_solver. Qed.

Lemma wp_mono {A} (p : prog Res A) (Q Q' : option A -> W -> Prop) w :
  wp p Q w -> (forall o w', Q o w' -> Q' o w') -> wp p Q' w.
Proof. intros Hp HQ. revert w Hp. induction p as [a|m|op k IH u IHu]; simpl; naive_solver. Qed.

Lemma wp_bind {A B} (p : prog Res A) (f : A -> prog Res B) Q w :
  wp p (fun o w' => match o with Some a => wp (f a) Q w' | None => Q None w' end) w ->
  wp (bind p f) Q w.
Proof. revert w. induction p as [a|m|op k IH u IHu]; intros w; simpl; naive_solver. Qed.

(** The deferred program runs after both ways out of the body. *)
Definition finally {A} (f : prog Res unit) (Q : option A -> W -> Prop)
    (o : option A) (w : W) : Prop :=
  wp f (fun u w' => Q (match u with Some _ => o | None => None end) w') w.

Lemma wp_finally {A} (f : prog Res unit) (k : prog Res A) Q o w :
  finally f Q o w -> (forall w', Q o w' -> wp k Q w') -> wp (bind f (fun _ => k)) Q w.
Proof.
  intros Hf Hk. apply wp_bind. eapply wp_mono; [exact Hf|]. intros [u|] w'; auto.
Qed.

Lemma wp_defer {A} (f : prog Res unit) (p : prog Res A) Q w :
  wp p (finally f Q) w -> wp (defer f p) Q w.
Proof.
  revert w. induction p as [a|m|op k IH u IHu]; intros w; simpl; [..|naive_solver].
  - intros Hf. by eapply wp_finally.
  - intros Hf. by eapply wp_finally.
Qed.

Lemma wp_calls_only {A} (ok : Op -> bool) (I : W -> Prop) (p : prog Res A) w :
  (forall op v, ok op = true -> I v -> allowed op v) ->
  (forall op v r v', ok op = true -> I v -> H op v r v' -> I v') ->
  calls_only ok p -> I w -> wp p (fun _ w' => I w') w.
Proof. intros Ha HI. revert w. induction p; simpl; naive_solver. Qed.
End Exec.

Arguments exec {Op Res W} H {A} p w o w'.
Arguments wp {Op Res W} H allowed {A} p Q w.

(** ** Calls that panic

    [C op w w']: the call [op] made in [w] can panic and leave [w'].  Its caller then
    unwinds: the deferred calls run and the program ends in a panic whatever they
    answer.  [pexec] and [pwp] are [exec] and [wp] with such calls; what [pwp] proves holds
    without them as well. *)

Section Panicking.
Context {Op : Type} {Res : Op -> Type} {W : Type}.
Context (H : forall op, W -> Res op -> W -> Prop) (C : Op -> W -> W -> Prop).

Fixpoint pexec {A} (p : prog Res A) (w : W) (o : option A) (w' : W) : Prop :=
  match p with
  | Ret a => o = Some a /\ w' = w
  | Panic _ => o = None /\ w' = w
  | Call op k u =>
      (exists r w1, H op w r w1 /\ pexec (k r) w1 o w') \/
      (o = None /\ exists w1 o', C op w w1 /\ pexec u w1 o' w')
  end.

Lemma exec_pexec {A} (p : prog Res A) w o w' : exec H p w o w' -> pexec p w o w'.
Proof. revert w. induction p as [a|m|op k IH u _]; intros w; simpl; naive_solver. Qed.

Context (allowed : Op -> W -> Prop).

Fixpoint pwp {A} (p : prog Res A) (Q : option A -> W -> Prop) (w : W) : Prop :=
  match p with
  | Ret a => Q (Some a) w
  | Panic _ => Q None w
  | Call op k u =>
      (allowed op w /\ forall w', C op w w' -> pwp u (fun _ => Q None) w') /\
      forall r w', H op w r w' -> pwp (k r) Q w'
  end.

Lemma pwp_sound {A} (p : prog Res A) Q w o w' : pwp p Q w -> pexec p w o w' -> Q o w'.
Proof.
  revert Q w o. induction p as [a|m|op k IH u IHu]; intros Q w o; simpl.
  - by intros HQ [-> ->].
  - by intros HQ [-> ->].
  - intros [[_ Hu] Hk] [(r & w1 & Hr & He)|(-> & w1 & o' & Hc & He)]; [by eapply IH; eauto|].
    by apply (IHu (fun _ => Q None) w1 o'); auto.
Qed.

Lemma pwp_mono {A} (p : prog Res A) (Q Q' : option A -> W -> Prop) w :
  pwp p Q w -> (forall o w', Q o w' -> Q' o w') -> pwp p Q' w.
Proof.
  revert Q Q' w. induction p as [a|m|op k IH u IHu]; intros Q Q' w; simpl; auto.
  intros [[Ha Hu] Hk] HQ. split; [split; [done|]|]; intros; [eapply IHu|eapply IH]; eauto.
Qed.

(** What holds with panicking calls holds when no call panics. *)
Lemma pwp_wp {A} (p : prog Res A) Q w : pwp p Q w -> wp H allowed p Q w.
Proof.
  revert Q w. induction p as [a|m|op k IH u _]; intros Q w; simpl; [done..|].
  intros [[Ha _] Hk]. eauto.
Qed.

Lemma pwp_bind {A B} (p : prog Res A) (f : A -> prog Res B) Q w :
  pwp p (fun o w' => match o with Some a => pwp (f a) Q w' | None => Q None w' end) w ->
  pwp (bind p f) Q w.
Proof.
  revert B f Q w. induction p as [a|m|op k IH u IHu]; intros B f Q w; simpl; [done..|].
  intros [[Ha Hu] Hk]. split; [split; [done|]|].
  - intros w' Hc. apply IHu. eapply pwp_mono; [by apply Hu|]. by intros [].
  - intros r w' Hr. by apply IH, Hk.
Qed.

(** The deferred program runs on every way out of the body. *)
Definition pfinally {A} (f : prog Res unit) (Q : option A -> W -> Prop)
    (o : option A) (w : W) : Prop :=
  pwp f (fun u w' => Q (match u with Some _ => o | None => None end) w') w.

Lemma pwp_pfinally {A} (f : prog Res unit) (k : prog Res A) Q o w :
  pfinally f Q o w -> (forall w', Q o w' -> pwp k Q w') -> pwp (bind f (fun _ => k)) Q w.
Proof.
  intros Hf Hk. apply pwp_bind. eapply pwp_mono; [exact Hf|]. intros [u|] w'; auto.
Qed.

Lemma pfinally_unwind {A} (f : prog Res unit) (Q : option A -> W -> Prop) (o : option A) w :
  pfinally f Q None w -> pfinally f (fun _ => Q None) o w.
Proof. intros Hf. eapply pwp_mono; [exact Hf|]. by intros [[]|]. Qed.

Lemma pwp_defer {A} (f : prog Res unit) (p : prog Res A) Q w :
  pwp p (pfinally f Q) w -> pwp (defer f p) Q w.
Proof.
  revert Q w. induction p as [a|m|op k IH u IHu]; intros Q w; simpl.
  - intros Hf. by eapply pwp_pfinally.
  - intros Hf. by eapply pwp_pfinally.
  - intros [[Ha Hu] Hk]. split; [split; [done|]|].
    + intros w' Hc. apply IHu. eapply pwp_mono; [by apply Hu|].
      intros o w1. apply pfinally_unwind.
    + intros r w' Hr. by apply IH, Hk.
Qed.

Lemma pwp_calls_only {A} (ok : Op -> bool) (I : W -> Prop) (p : prog Res A) w :
  (forall op v, ok op = true -> I v -> allowed op v) ->
  (forall op v r v', ok op = true -> I v -> H op v r v' -> I v') ->
  (forall op v v', ok op = true -> I v -> C op v v' -> I v') ->
  calls_only ok p -> I w -> pwp p (fun _ w' => I w') w.
Proof. intros Ha HI HC. revert w. induction p; simpl; naive_solver. Qed.
End Panicking.

Arguments pexec {Op Res W} H C {A} p w o w'.
Arguments pwp {Op Res W} H C allowed {A} p Q w.

(** Walks a program whose calls are syntactically visible. *)
Ltac solve_calls_only :=
  repeat first
    [ progress intros
    | match goal with
      | |- calls_only _ (bind _ _) => apply calls_only_bind
      | |- calls_only _ (defer _ _) => apply calls_only_defer
      | |- calls_only _ (match ?x with _ => _ end) => destruct x
      | |- calls_only _ (or_panic _ ?x) => destruct x; unfold or_panic
      | |- calls_only _ (Call _ _ _) => split; [split|]
      | |- calls_only _ (Ret _) => split
      | |- calls_only _ (Panic _) => split
      | |- True => exact I
      | |- _ = true => reflexivity
      end ].

Definition anything {Op W : Type} (op : Op) (w : W) : Prop := True.

(** ** Programs with a local variable

    The variable becomes a component of the world. *)

Section LocalExec.
Context {Op : Type} {Res : Op -> Type} {W S : Type}.
Context (H : forall op, W -> Res op -> W -> Prop) (C : Op -> W -> W -> Prop).
Context (allowed : Op -> W -> Prop).

Definition local_env (op : local_op S Op)
    : (S * W) -> local_res Res S op -> (S * W) -> Prop :=
  match op return (S * W) -> local_res Res S op -> (S * W) -> Prop with
  | Do o => fun sw r sw' => sw'.1 = sw.1 /\ H o sw.2 r sw'.2
  | Assign s' => fun sw _ sw' => sw' = (s', sw.2)
  end.

Definition local_allowed (op : local_op S Op) (sw : S * W) : Prop :=
  match op with Do o => allowed o sw.2 | Assign _ => True end.

(** An assignment does not panic. *)
Definition local_panics (op : local_op S Op) (sw sw' : S * W) : Prop :=
  match op with Do o => sw'.1 = sw.1 /\ C o sw.2 sw'.2 | Assign _ => False end.

Lemma pwp_lift {A} (p : prog Res A) Q s w :
  pwp H C allowed p (fun o w' => Q o (s, w')) w ->
  pwp local_env local_panics local_allowed (lift p) Q (s, w).
Proof.
  revert Q w. induction p as [a|m|op k IH u IHu]; intros Q w; simpl; auto.
  intros [[Ha Hu] Hk]. split; [split; [done|]|].
  - intros [s' w'] [Hs Hc]; simpl in *; subst. by apply (IHu (fun _ => Q None)), Hu.
  - intros r [s' w'] [Hs Hr]; simpl in *; subst. auto.
Qed.

Lemma pwp_with_local {A} (final : S -> prog Res unit) (s : S)
    (p : prog (local_res Res S) A) Q w :
  pwp local_env local_panics local_allowed p
    (fun o sw => pfinally H C allowed (final sw.1) Q o sw.2) (s, w) ->
  pwp H C allowed (with_local final s p) Q w.
Proof.
  revert s Q w. induction p as [a|m|[o|s'] k IH u IHu]; intros s Q w; simpl.
  - intros Hf. by eapply pwp_pfinally.
  - intros Hf. by eapply pwp_pfinally.
  - intros [[Ha Hu] Hk]. split; [split; [done|]|].
    + intros w' Hc. apply IHu. eapply pwp_mono; [by apply (Hu (s, w'))|].
      intros o' sw. apply pfinally_unwind.
    + intros r w' Hr. apply IH. by apply (Hk r (s, w')).
  - intros [_ Hk]. apply IH. by apply (Hk tt).
Qed.

Lemma wp_lift {A} (p : prog Res A) Q s w :
  wp H allowed p (fun o w' => Q o (s, w')) w ->
  wp local_env local_allowed (lift p) Q (s, w).
Proof.
  revert w. induction p as [a|m|op k IH u IHu]; intros w; simpl; auto.
  intros [Ha Hk]. split; [done|].
  intros r [s' w'] [Hs Hr]; simpl in *; subst. auto.
Qed.

Lemma wp_with_local {A} (final : S -> prog Res unit) (s : S)
    (p : prog (local_res Res S) A) Q w :
  wp local_env local_allowed p
    (fun o sw => finally H allowed (final sw.1) Q o sw.2) (s, w) ->
  wp H allowed (with_local final s p) Q w.
Proof.
  revert s w. induction p as [a|m|[o|s'] k IH u IHu]; intros s w; simpl.
  - intros Hf. by eapply wp_finally.
  - intros Hf. by eapply wp_finally.
  - intros [Ha Hk]. split; [done|]. intros r w' Hr. apply IH. apply (Hk r (s, w')). done.
  - intros [_ Hk]. apply IH. by apply (Hk tt).
Qed.
End LocalExec.

(** ** Traces and protocols *)

Section Trace.
Context {Op : Type} {Res : Op -> Type}.

(** One call and its answer. *)
Record event := ev { ev_op : Op; ev_res : Res ev_op }.

(** Any answer is possible; the world is the list of calls so far. *)
Definition trace_env (op : Op) (tr : list event) (r : Res op) (tr' : list event) : Prop :=
  tr' = tr ++ [ev op r].

(** [traces p tr o]: a complete run of [p] makes the calls [tr] and ends in [o]. *)
Fixpoint traces {A} (p : prog Res A) (tr : list event) (o : option A) : Prop :=
  match p with
  | Ret a => tr = [] /\ o = Some a
  | Panic _ => tr = [] /\ o = None
  | Call op k _ => exists r tr', tr = ev op r :: tr' /\ traces (k r) tr' o
  end.

Lemma traces_exec {A} (p : prog Res A) tr0 tr o :
  traces p tr o -> exec trace_env p tr0 o (tr0 ++ tr).
Proof.
  revert tr0 tr. induction p as [a|m|op k IH u IHu]; intros tr0 tr; simpl.
  - intros [-> ->]. by rewrite app_nil_r.
  - intros [-> ->]. by rewrite app_nil_r.
  - intros (r & tr' & -> & Ht). exists r, (tr0 ++ [ev op r]). split; [done|].
    replace (tr0 ++ ev op r :: tr') with ((tr0 ++ [ev op r]) ++ tr') by by rewrite <- app_assoc.
    by apply IH.
Qed.

(** What [wp] proves of the list of calls holds of each run. *)
Lemma wp_traces {A} (p : prog Res A) Q tr o :
  wp trace_env (fun _ _ => True) p Q [] -> traces p tr o -> Q o tr.
Proof. intros Hp Ht. eapply wp_sound; [exact Hp|]. by apply (traces_exec p []). Qed.

Lemma traces_wp {A} (p : prog Res A) Q tr0 :
  (forall tr o, traces p tr o -> Q o (tr0 ++ tr)) -> wp trace_env (fun _ _ => True) p Q tr0.
Proof.
  revert tr0. induction p as [a|m|op k IH u IHu]; intros tr0 HQ; simpl.
  - specialize (HQ [] (Some a)). rewrite app_nil_r in HQ. by apply HQ.
  - specialize (HQ [] None). rewrite app_nil_r in HQ. by apply HQ.
  - split; [done|]. intros r tr' ->. apply IH. intros tr o Ht.
    rewrite <- app_assoc. apply HQ. simpl. eauto.
Qed.

Lemma traces_bind {A B} (p : prog Res A) (f : A -> prog Res B) tr out :
  traces (bind p f) tr out <->
  (exists tr1 tr2 a, tr = tr1 ++ tr2 /\ traces p tr1 (Some a) /\ traces (f a) tr2 out) \/
  (traces p tr None /\ out = None).
Proof.
  revert tr. induction p as [a|m|op k IH u IHu]; intros tr; simpl.
  - split; [left; exists [], tr, a; naive_solver|].
    intros [(tr1 & tr2 & b & -> & [-> [= ->]] & Ht)|[[_ ?] _]]; done.
  - split; [naive_solver|]. intros [(? & ? & ? & _ & [_ ?] & _)|?]; [done|]. naive_solver.
  - setoid_rewrite IH. split.
    + intros (r & tr' & -> & [(tr1 & tr2 & a & -> & H1 & H2)|[H1 ->]]).
      * left. exists (ev op r :: tr1), tr2, a. naive_solver.
      * right. naive_solver.
    + intros [(tr1 & tr2 & a & -> & (r & tr' & -> & H1) & H2)|[(r & tr' & -> & H1) ->]].
      * exists r, (tr' ++ tr2). split; [done|]. left. eauto 10.
      * exists r, tr'. auto.
Qed.

Lemma traces_or_panic {A B} msg (x : option A) (f : A -> prog Res B) tr out :
  traces (bind (or_panic msg x) f) tr out <->
  match x with Some a => traces (f a) tr out | None => tr = [] /\ out = None end.
Proof. by destruct x. Qed.

Lemma traces_defer {A} (f : prog Res unit) (p : prog Res A) tr out :
  traces (defer f p) tr (Some out) ->
  exists tr1 tr2, tr = tr1 ++ tr2 /\ traces p tr1 (Some out) /\ traces f tr2 (Some tt).
Proof.
  revert tr. induction p as [a|m|op k IH u IHu]; intros tr; simpl.
  - intros [(tr1 & tr2 & [] & -> & Hf & [-> [= ->]])|[_ ?]]%traces_bind; [|done].
    exists [], tr1. by rewrite app_nil_r.
  - intros [(tr1 & tr2 & u & -> & _ & [_ ?])|[_ ?]]%traces_bind; done.
  - intros (r & tr' & -> & Ht). apply IH in Ht as (tr1 & tr2 & -> & H1 & H2).
    exists (ev op r :: tr1), tr2. eauto 10.
Qed.

(** A deferred call is the last one, whatever the outcome. *)
Lemma traces_defer_call {A} op (p : prog Res A) tr out :
  traces (defer (call (Res := Res) op ;;; Ret tt) p) tr out <->
  exists tr0 r, tr = tr0 ++ [ev op r] /\ traces p tr0 out.
Proof.
  revert tr. induction p as [a|m|op' k IH u IHu]; intros tr; simpl.
  - split; [intros (r & tr' & -> & -> & ->); exists [], r; done|].
    intros (tr0 & r & -> & -> & ->). exists r, []. done.
  - split; [intros (r & tr' & -> & -> & ->); exists [], r; done|].
    intros (tr0 & r & -> & -> & ->). exists r, []. done.
  - setoid_rewrite IH. split.
    + intros (r & tr' & -> & tr0 & r' & -> & Ht). exists (ev op' r :: tr0), r'. eauto 10.
    + intros (tr0 & r & -> & r' & tr' & -> & Ht). exists r', (tr' ++ [ev op r]). eauto 10.
Qed.

Lemma traces_calls_only {A} (ok : Op -> bool) (p : prog Res A) tr out :
  calls_only ok p -> traces p tr out -> Forall (fun v => ok (ev_op v) = true) tr.
Proof.
  revert tr. induction p as [a|m|op k IH u IHu]; intros tr; simpl.
  - intros _ [-> _]. done.
  - intros _ [-> _]. done.
  - intros [[Hop _] Hk] (r & tr' & -> & Ht). constructor; [done|]. by eapply IH.
Qed.

(** A call of a run that may panic. *)
Inductive call_event := Answered (e : event) | Panicked (op : Op).

(** [runs p tr o]: a run in which calls may panic; what follows such a call is the
    unwinding of its caller. *)
Fixpoint runs {A} (p : prog Res A) (tr : list call_event) (o : option A) : Prop :=
  match p with
  | Ret a => tr = [] /\ o = Some a
  | Panic _ => tr = [] /\ o = None
  | Call op k u =>
      (exists r tr', tr = Answered (ev op r) :: tr' /\ runs (k r) tr' o) \/
      (o = None /\ exists tr' o', tr = Panicked op :: tr' /\ runs u tr' o')
  end.

Lemma traces_runs {A} (p : prog Res A) tr o : traces p tr o -> runs p (map Answered tr) o.
Proof.
  revert tr. induction p as [a|m|op k IH u _]; intros tr; simpl.
  - by intros [-> ->].
  - by intros [-> ->].
  - intros (r & tr' & -> & Ht). left. exists r, (map Answered tr'). auto.
Qed.

(** An automaton that reads the calls and their answers: a call that is not permitted
    in a phase breaks the protocol.  [answers] is what the other side promises;
    [unwinding] the phase after a call that panicked. *)
Record protocol := {
  phase : Type;
  permits : Op -> phase -> bool;
  answers : forall op, Res op -> Prop;
  next : forall op, phase -> Res op -> phase;
  unwinding : Op -> phase -> phase;
}.

Context (P : protocol).

Definition protocol_env (op : Op) (ph : phase P) (r : Res op) (ph' : phase P) : Prop :=
  answers P op r /\ ph' = next P op ph r.

Definition answered (tr : list event) : Prop :=
  Forall (fun e => answers P (ev_op e) (ev_res e)) tr.

Definition protocol_allowed (op : Op) (ph : phase P) : Prop := permits P op ph = true.

Definition protocol_panics (op : Op) (ph ph' : phase P) : Prop := ph' = unwinding P op ph.

(** The phase a sequence of calls leads to, [None] when it breaks the protocol. *)
Fixpoint follow (ph : phase P) (tr : list event) : option (phase P) :=
  match tr with
  | [] => Some ph
  | e :: tr' =>
      if permits P (ev_op e) ph then follow (next P (ev_op e) ph (ev_res e)) tr' else None
  end.

Lemma follow_app ph tr1 tr2 :
  follow ph (tr1 ++ tr2) =
  match follow ph tr1 with Some ph' => follow ph' tr2 | None => None end.
Proof.
  revert ph. induction tr1 as [|e tr1 IH]; intros ph; simpl; [done|].
  destruct (permits P (ev_op e) ph); auto.
Qed.

(** A program proved against the automaton keeps to it in each of its runs. *)
Lemma wp_follow {A} (p : prog Res A) Q ph tr o :
  wp protocol_env protocol_allowed p Q ph -> traces p tr o -> answered tr ->
  exists ph', follow ph tr = Some ph' /\ Q o ph'.
Proof.
  revert ph tr. induction p as [a|m|op k IH u _]; intros ph tr; simpl.
  - intros HQ [-> ->] _. eauto.
  - intros HQ [-> ->] _. eauto.
  - intros [Ha Hk] (r & tr' & -> & Ht) [Hr Hrs]%Forall_cons_1. simpl.
    rewrite Ha. eapply IH; [|done..]. by apply Hk.
Qed.

Definition answer_of_call (c : call_event) : option event :=
  match c with Answered e => Some e | Panicked _ => None end.

(** The calls of a run that answered. *)
Definition answers_in (tr : list call_event) : list event := omap answer_of_call tr.

Fixpoint follow_run (ph : phase P) (tr : list call_event) : option (phase P) :=
  match tr with
  | [] => Some ph
  | Answered e :: tr' =>
      if permits P (ev_op e) ph then follow_run (next P (ev_op e) ph (ev_res e)) tr' else None
  | Panicked op :: tr' =>
      if permits P op ph then follow_run (unwinding P op ph) tr' else None
  end.

Lemma follow_run_app ph tr1 tr2 :
  follow_run ph (tr1 ++ tr2) =
  match follow_run ph tr1 with Some ph' => follow_run ph' tr2 | None => None end.
Proof.
  revert ph. induction tr1 as [|[e|op] tr1 IH]; intros ph; simpl; [done|..];
    case_match; auto.
Qed.

Lemma pwp_follow {A} (p : prog Res A) Q ph tr o :
  pwp protocol_env protocol_panics protocol_allowed p Q ph -> runs p tr o ->
  answered (answers_in tr) -> exists ph', follow_run ph tr = Some ph' /\ Q o ph'.
Proof.
  revert Q ph tr o. induction p as [a|m|op k IH u IHu]; intros Q ph tr o; simpl.
  - intros HQ [-> ->] _. eauto.
  - intros HQ [-> ->] _. eauto.
  - intros [[Ha Hu] Hk] [(r & tr' & -> & Ht)|(-> & tr' & o' & -> & Ht)]; simpl; rewrite Ha.
    + intros [Hr Hrs]%Forall_cons_1. eapply IH; [|done..]. by apply Hk.
    + intros Hrs. by apply (IHu (fun _ => Q None) _ _ o'); [apply Hu|..].
Qed.
End Trace.

(** ** Executions and their calls *)

Section Explained.
Context {Op : Type} {Res : Op -> Type} {W : Type} (H : forall op, W -> Res op -> W -> Prop).

(** The environment makes these calls' answers, one after the other. *)
Fixpoint explains (tr : list (event (Res := Res))) (w w' : W) : Prop :=
  match tr with
  | [] => w' = w
  | e :: tr => exists w1, H (ev_op e) w (ev_res e) w1 /\ explains tr w1 w'
  end.

Lemma exec_traces {A} (p : prog Res A) w o w' :
  exec H p w o w' -> exists tr, traces p tr o /\ explains tr w w'.
Proof.
  revert w. induction p as [a|m|op k IH u _]; intros w; simpl.
  - intros [-> ->]. by exists [].
  - intros [-> ->]. by exists [].
  - intros (r & w1 & Hr & (tr & Ht & He)%IH). exists (ev op r :: tr). simpl. eauto 10.
Qed.

(** A run that answers had no call that panicked. *)
Lemma pexec_answered C {A} (p : prog Res A) w a w' : pexec H C p w (Some a) w' -> exec H p w (Some a) w'.
Proof.
  revert w. induction p as [b|m|op k IH u _]; intros w; simpl; [done..|].
  intros [(r & w1 & Hr & He)|[? _]]; [eauto|done].
Qed.
End Explained.

(** ** Computed executions *)

Section Computed.
Context {Op : Type} {Res : Op -> Type}.

(** The run in which the collaborators answer as [h] does. *)
Fixpoint run_trace (h : forall op, Res op) {A} (p : prog Res A)
    : list (event (Res := Res)) * option A :=
  match p with
  | Ret a => ([], Some a)
  | Panic _ => ([], None)
  | Call op k _ => let '(tr, o) := run_trace h (k (h op)) in (ev op (h op) :: tr, o)
  end.

Lemma run_trace_traces h {A} (p : prog Res A) :
  traces p (run_trace h p).1 (run_trace h p).2.
Proof.
  induction p as [a|m|op k IH u IHu]; simpl; [done..|].
  specialize (IH (h op)). destruct (run_trace h (k (h op))) as [tr o]. simpl in *. eauto.
Qed.

Lemma run_trace_answered P h {A} (p : prog Res A) :
  (forall op, answers P op (h op)) -> answered P (run_trace h p).1.
Proof.
  intros Hh. unfold answered. induction p as [a|m|op k IH u IHu]; simpl; [done..|].
  specialize (IH (h op)). destruct (run_trace h (k (h op))) as [tr o]. simpl in *.
  by constructor.
Qed.

(** [run] computes one of the executions. *)
Lemma run_exec {W} (H : forall op, W -> Res op -> W -> Prop)
    (h : forall op, W -> Res op * W) {A} (p : prog Res A) w :
  (forall op w, H op w (h op w).1 (h op w).2) ->
  exec H p w (run h p w).1 (run h p w).2.
Proof.
  intros Hh. revert w. induction p as [a|m|op k IH u IHu]; intros w; simpl; [done..|].
  specialize (Hh op w). destruct (h op w) as [r w1]. simpl in *. eauto.
Qed.

(** ... and when some calls panic. *)
Fixpoint run_calls (h : forall op, option (Res op)) {A} (p : prog Res A)
    : list (call_event (Res := Res)) * option A :=
  match p with
  | Ret a => ([], Some a)
  | Panic _ => ([], None)
  | Call op k u =>
      match h op with
      | Some r => let '(tr, o) := run_calls h (k r) in (Answered (ev op r) :: tr, o)
      | None => let '(tr, _) := run_calls h u in (Panicked op :: tr, None)
      end
  end.

Lemma run_calls_runs h {A} (p : prog Res A) : runs p (run_calls h p).1 (run_calls h p).2.
Proof.
  induction p as [a|m|op k IH u IHu]; simpl; [done..|]. destruct (h op) as [r|].
  - specialize (IH r). destruct (run_calls h (k r)) as [tr o]. left. eauto.
  - destruct (run_calls h u) as [tr o]. right. eauto 10.
Qed.

Lemma run_calls_answered P h {A} (p : prog Res A) :
  (forall op r, h op = Some r -> answers P op r) -> answered P (answers_in (run_calls h p).1).
Proof.
  intros Hh. unfold answered. induction p as [a|m|op k IH u IHu]; simpl; [done..|].
  destruct (h op) as [r|] eqn:E.
  - specialize (IH r). destruct (run_calls h (k r)) as [tr o]. simpl in *. constructor; auto.
  - by destruct (run_calls h u) as [tr o].
Qed.

Fixpoint run_panics {W} (h : forall op, W -> option (Res op) * W) {A} (p : prog Res A) (w : W)
    : option A * W :=
  match p with
  | Ret a => (Some a, w)
  | Panic _ => (None, w)
  | Call op k u =>
      let '(r, w1) := h op w in
      match r with
      | Some r => run_panics h (k r) w1
      | None => (None, (run_panics h u w1).2)
      end
  end.

Lemma run_panics_pexec {W} (H : forall op, W -> Res op -> W -> Prop) (C : Op -> W -> W -> Prop)
    (h : forall op, W -> option (Res op) * W) {A} (p : prog Res A) w :
  (forall op w, match (h op w).1 with
                | Some r => H op w r (h op w).2
                | None => C op w (h op w).2
                end) ->
  pexec H C p w (run_panics h p w).1 (run_panics h p w).2.
Proof.
  intros Hh. revert w. induction p as [a|m|op k IH u IHu]; intros w; simpl; [done..|].
  specialize (Hh op w). destruct (h op w) as [[r|] w1]; simpl in *; [left|right]; eauto 10.
Qed.
End Computed.

Arguments event {Op} Res.
Arguments ev {Op Res} ev_op ev_res.
Arguments protocol {Op} Res.
Arguments call_event {Op} Res.
