(* ===== verification/Link.v ===== *)
(** * Linking programs with the implementations of their calls

    A handler implements each call of one signature by a program of another; [interp]
    runs a program over it.  What is proved of a program against any environment holds of
    the linked program as soon as the implementations keep to that environment.  A
    panic of an implementation is a call that panics: the caller's deferred calls run. *)

From stdpp Require Import base tactics list strings.
From S2P Require Import Prelude Exec.

#[local] Open Scope go_scope.

Section Interp.
Context {Op1 : Type} {Res1 : Op1 -> Type} {Op2 : Type} {Res2 : Op2 -> Type}.
Context (h : forall op, prog Res2 (Res1 op)).

(** [p], then [f] with its result; if it panics, the caller unwinds. *)
Fixpoint catching {A B} (p : prog Res2 A) (f : A -> prog Res2 B) (unwind : prog Res2 B)
    : prog Res2 B :=
  match p with
  | Ret a => f a
  | Panic m => bind unwind (fun _ => Panic m)
  | Call op k u =>
      Call op (fun r => catching (k r) f unwind)
        (catching u (fun _ => bind unwind (fun _ => Panic "")) unwind)
  end.

Fixpoint interp {A} (p : prog Res1 A) : prog Res2 A :=
  match p with
  | Ret a => Ret a
  | Panic m => Panic m
  | Call op k u => catching (h op) (fun r => interp (k r)) (interp u)
  end.

(** ** Executions *)

Lemma exec_bind {W} (H : forall op, W -> Res2 op -> W -> Prop) {A B} (p : prog Res2 A)
    (f : A -> prog Res2 B) w o w' :
  exec H (bind p f) w o w' <->
  (exists a w1, exec H p w (Some a) w1 /\ exec H (f a) w1 o w') \/
  (exec H p w None w' /\ o = None).
Proof.
  revert w. induction p as [a|m|op k IH u _]; intros w; simpl.
  - split; [left; eauto|]. intros [(b & w1 & [[= ->] ->] & He)|[[? _] _]]; done.
  - split; [intros [-> ->]; by right|]. intros [(b & w1 & [? _] & _)|[[_ ->] ->]]; done.
  - setoid_rewrite IH. split.
    + intros (r & w1 & Hr & [(a & w2 & H1 & H2)|[H1 ->]]); [left|right]; eauto 10.
    + intros [(a & w2 & (r & w1 & Hr & H1) & H2)|[(r & w1 & Hr & H1) ->]];
        exists r, w1; (split; [done|]); [left|right]; eauto.
Qed.

Lemma exec_catching {W} (H : forall op, W -> Res2 op -> W -> Prop) {A B} (p : prog Res2 A)
    (f : A -> prog Res2 B) unwind w o w' :
  exec H (catching p f unwind) w o w' ->
  (exists a w1, exec H p w (Some a) w1 /\ exec H (f a) w1 o w') \/
  (o = None /\ exists w1 o', exec H p w None w1 /\ exec H unwind w1 o' w').
Proof.
  revert w. induction p as [a|m|op k IH u _]; intros w; simpl; [by left; eauto|..].
  - intros [(b & w1 & Hu & [-> ->])|[Hu ->]]%exec_bind; right; eauto 10.
  - intros (r & w1 & Hr & [(a & w2 & H1 & H2)|(-> & w2 & o' & H1 & H2)]%IH); [left|right]; eauto 10.
Qed.

Lemma pwp_catching {W} (H : forall op, W -> Res2 op -> W -> Prop) (C : Op2 -> W -> W -> Prop)
    allowed {A B} (p : prog Res2 A) (f : A -> prog Res2 B) unwind Q w :
  pwp H C allowed p (fun o w' =>
    match o with
    | Some a => pwp H C allowed (f a) Q w'
    | None => pwp H C allowed unwind (fun _ => Q None) w'
    end) w ->
  pwp H C allowed (catching p f unwind) Q w.
Proof.
  revert B f unwind Q w. induction p as [a|m|op k IH u IHu]; intros B f unwind Q w; simpl.
  - done.
  - intros Hu. apply pwp_bind. eapply pwp_mono; [exact Hu|]. by intros [].
  - intros [[Ha Hu] Hk]. split; [split; [done|]|].
    + intros w' Hc. apply IHu. eapply pwp_mono; [by apply Hu|].
      intros [a|] w1 Hw; [|done]. apply pwp_bind. eapply pwp_mono; [exact Hw|]. by intros [].
    + intros r w' Hr. by apply IH, Hk.
Qed.

(** The environment the implementations make up, and their panics. *)
Definition linked_env {W} (H : forall op, W -> Res2 op -> W -> Prop)
    (op : Op1) (w : W) (r : Res1 op) (w' : W) : Prop :=
  exec H (h op) w (Some r) w'.

Definition linked_panics {W} (H : forall op, W -> Res2 op -> W -> Prop)
    (op : Op1) (w w' : W) : Prop :=
  exec H (h op) w None w'.

Lemma exec_interp {W} (H : forall op, W -> Res2 op -> W -> Prop) {A} (p : prog Res1 A) w o w' :
  exec H (interp p) w o w' -> pexec (linked_env H) (linked_panics H) p w o w'.
Proof.
  revert w o. induction p as [b|m|op k IH u IHu]; intros w o; simpl; [done..|].
  intros [(r & w1 & Hr & He)|(-> & w1 & o' & Hc & He)]%exec_catching; [left|right]; eauto 10.
Qed.

(** An answered run of the linked program, call by call of the original. *)
Lemma exec_linked {W} (H : forall op, W -> Res2 op -> W -> Prop) {A} (p : prog Res1 A) w a w' :
  exec H (interp p) w (Some a) w' ->
  exists tr, traces p tr (Some a) /\ explains (linked_env H) tr w w'.
Proof. intros He%exec_interp%pexec_answered. by apply exec_traces. Qed.

(** ** Traces *)

Lemma traces_catching {A B} (p : prog Res2 A) (f : A -> prog Res2 B) unwind tr o :
  traces (catching p f unwind) tr o ->
  exists tr1 tr2, tr = (tr1 ++ tr2)%list /\
    ((exists a, traces p tr1 (Some a) /\ traces (f a) tr2 o) \/
     (o = None /\ traces p tr1 None /\ exists o', traces unwind tr2 o')).
Proof.
  revert tr. induction p as [a|m|op k IH u _]; intros tr; simpl.
  - intros Ht. exists [], tr. split; [done|]. left. eauto.
  - intros [(tr1 & tr2 & a & -> & Hu & [-> ->])|[Hu ->]]%traces_bind.
    + exists [], tr1. rewrite app_nil_r. split; [done|]. right. eauto.
    + exists [], tr. split; [done|]. right. eauto.
  - intros (r & tr' & -> & (tr1 & tr2 & -> & Ht)%IH). exists (ev op r :: tr1), tr2.
    split; [done|]. destruct Ht as [(a & H1 & H2)|(-> & H1 & H2)]; [left|right]; eauto 10.
Qed.

(** The calls of the linked program, call by call of the original. *)
Inductive linked_run : list (call_event Res1) -> list (event Res2) -> Prop :=
  | linked_run_nil : linked_run [] []
  | linked_run_answer op r tr seg tr' :
      traces (h op) seg (Some r) -> linked_run tr tr' ->
      linked_run (Answered (ev op r) :: tr) (seg ++ tr')
  | linked_run_panic op tr seg tr' :
      traces (h op) seg None -> linked_run tr tr' ->
      linked_run (Panicked op :: tr) (seg ++ tr').

Lemma runs_interp {A} (p : prog Res1 A) tr' o :
  traces (interp p) tr' o -> exists tr, runs p tr o /\ linked_run tr tr'.
Proof.
  revert tr' o. induction p as [b|m|op k IH u IHu]; intros tr' o; simpl.
  - intros [-> ->]. exists []. split; [done|constructor].
  - intros [-> ->]. exists []. split; [done|constructor].
  - intros (seg & tr2 & -> & [(r & Hs & Ht)|(-> & Hs & o' & Ht)])%traces_catching.
    + destruct (IH r _ _ Ht) as (tr & Hp & Hl). exists (Answered (ev op r) :: tr).
      split; [left; eauto|by constructor].
    + destruct (IHu _ _ Ht) as (tr & Hp & Hl). exists (Panicked op :: tr).
      split; [right; eauto|by constructor].
Qed.

(** The calls a call of the original stands for. *)
Definition implements (c : call_event Res1) (seg : list (event Res2)) : Prop :=
  match c with
  | Answered e => traces (h (ev_op e)) seg (Some (ev_res e))
  | Panicked op => traces (h op) seg None
  end.

Lemma linked_run_cons c tr tr' :
  linked_run (c :: tr) tr' ->
  exists seg rest, tr' = (seg ++ rest)%list /\ implements c seg /\ linked_run tr rest.
Proof. inversion 1; subst; eauto. Qed.

Lemma linked_run_app tr1 tr2 tr' :
  linked_run (tr1 ++ tr2) tr' ->
  exists s1 s2, tr' = (s1 ++ s2)%list /\ linked_run tr1 s1 /\ linked_run tr2 s2.
Proof.
  revert tr'. induction tr1 as [|c tr1 IH]; intros tr'; simpl.
  - intros Hl. exists [], tr'. split; [done|]. split; [constructor|done].
  - intros (seg & rest & -> & Hs & Hl)%linked_run_cons.
    destruct (IH _ Hl) as (s1 & s2 & -> & H1 & H2). exists (seg ++ s1)%list, s2.
    split; [by rewrite app_assoc|]. split; [|done].
    destruct c as [[op r]|op]; by constructor.
Qed.

(** ... and when no implementation panicked. *)
Inductive linked_trace : list (event Res1) -> list (event Res2) -> Prop :=
  | linked_nil : linked_trace [] []
  | linked_cons op r tr seg tr' :
      traces (h op) seg (Some r) -> linked_trace tr tr' ->
      linked_trace (ev op r :: tr) (seg ++ tr').

Lemma traces_interp {A} (p : prog Res1 A) tr' a :
  traces (interp p) tr' (Some a) -> exists tr, traces p tr (Some a) /\ linked_trace tr tr'.
Proof.
  revert tr'. induction p as [b|m|op k IH u _]; intros tr'; simpl.
  - intros [-> [= ->]]. exists []. split; [done|constructor].
  - by intros [_ ?].
  - intros (seg & tr2 & -> & [(r & Hs & Ht)|[? _]])%traces_catching; [|done].
    destruct (IH r _ Ht) as (tr & Hp & Hl). exists (ev op r :: tr). split; [eauto|].
    by constructor.
Qed.

Lemma linked_trace_cons op r tr tr' :
  linked_trace (ev op r :: tr) tr' ->
  exists seg rest, tr' = (seg ++ rest)%list /\ traces (h op) seg (Some r) /\ linked_trace tr rest.
Proof.
  intros Hl. remember (ev op r :: tr) as tr0 eqn:E. destruct Hl as [|op' r' tr1 seg rest Hs Hl]; [done|].
  assert (ev op r = ev op' r') as Ee by congruence. assert (tr1 = tr) as -> by congruence.
  refine (match eq_sym Ee in _ = e return
    exists seg0 rest0, (seg ++ rest)%list = (seg0 ++ rest0)%list /\
      traces (h (ev_op e)) seg0 (Some (ev_res e)) /\ linked_trace tr rest0 with eq_refl => _ end).
  simpl. eauto.
Qed.

Lemma linked_trace_app tr1 tr2 tr' :
  linked_trace (tr1 ++ tr2) tr' ->
  exists s1 s2, tr' = (s1 ++ s2)%list /\ linked_trace tr1 s1 /\ linked_trace tr2 s2.
Proof.
  revert tr'. induction tr1 as [|[op r] tr1 IH]; intros tr'; simpl.
  - intros Hl. exists [], tr'. split; [done|]. split; [constructor|done].
  - intros (seg & rest & -> & Hs & Hl)%linked_trace_cons.
    destruct (IH _ Hl) as (s1 & s2 & -> & H1 & H2). exists (seg ++ s1)%list, s2.
    split; [by rewrite app_assoc|]. split; [by constructor|done].
Qed.

Lemma linked_trace_run tr tr' : linked_trace tr tr' -> linked_run (map Answered tr) tr'.
Proof. by induction 1; constructor. Qed.

Lemma linked_trace_nil tr' : linked_trace [] tr' -> tr' = [].
Proof. by inversion 1. Qed.
End Interp.

(** ** Simulation

    The executions of a program in one environment are matched by executions in another
    one when the single steps are. *)

Section Simulation.
Context {Op : Type} {Res : Op -> Type} {W V : Type}.
Context (H1 : forall op, W -> Res op -> W -> Prop) (C1 : Op -> W -> W -> Prop).
Context (H2 : forall op, V -> Res op -> V -> Prop) (C2 : Op -> V -> V -> Prop).
Context (R : W -> V -> Prop).
Context (step : forall op w r w' v, R w v -> H1 op w r w' -> exists v', H2 op v r v' /\ R w' v').
Context (panic : forall op w w' v, R w v -> C1 op w w' -> exists v', C2 op v v' /\ R w' v').

Lemma exec_simulation {A} (p : prog Res A) w o w' v :
  R w v -> pexec H1 C1 p w o w' -> exists v', pexec H2 C2 p v o v' /\ R w' v'.
Proof.
  revert w o v. induction p as [a|m|op k IH u IHu]; intros w o v HR; simpl.
  - intros [-> ->]. eauto.
  - intros [-> ->]. eauto.
  - intros [(r & w1 & Hr & He)|(-> & w1 & o' & Hc & He)].
    + destruct (step _ _ _ _ _ HR Hr) as (v1 & Hv & HR1).
      destruct (IH r _ _ _ HR1 He) as (v' & He' & HR'). eauto 10.
    + destruct (panic _ _ _ _ HR Hc) as (v1 & Hv & HR1).
      destruct (IHu _ _ _ HR1 He) as (v' & He' & HR'). eauto 12.
Qed.
End Simulation.

(** ** Embedding one signature into a larger one *)

Section Embed.
Context {Op1 : Type} {Res1 : Op1 -> Type} {Op2 : Type} {Res2 : Op2 -> Type}.
Context (f : Op1 -> Op2) (res : forall op, Res2 (f op) -> Res1 op).

(** The calls renamed. *)
Fixpoint embed {A} (p : prog Res1 A) : prog Res2 A :=
  match p with
  | Ret a => Ret a
  | Panic m => Panic m
  | Call op k u => Call (f op) (fun r => embed (k (res op r))) (embed u)
  end.

Lemma exec_embed {W} (H1 : forall op, W -> Res1 op -> W -> Prop)
    (H2 : forall op, W -> Res2 op -> W -> Prop) {A} (p : prog Res1 A) w o w' :
  (forall op w r w', H2 (f op) w r w' -> H1 op w (res op r) w') ->
  exec H2 (embed p) w o w' -> exec H1 p w o w'.
Proof.
  intros Hs. revert w. induction p as [a|m|op k IH u IHu]; intros w; simpl; [done..|].
  intros (r & w1 & Hr & He). exists (res op r), w1. auto.
Qed.

Lemma pwp_embed {W} (H1 : forall op, W -> Res1 op -> W -> Prop) (C1 : Op1 -> W -> W -> Prop) a1
    (H2 : forall op, W -> Res2 op -> W -> Prop) (C2 : Op2 -> W -> W -> Prop) a2
    {A} (p : prog Res1 A) Q w :
  (forall op w, a1 op w -> a2 (f op) w) ->
  (forall op w w', C2 (f op) w w' -> C1 op w w') ->
  (forall op w r w', H2 (f op) w r w' -> H1 op w (res op r) w') ->
  pwp H1 C1 a1 p Q w -> pwp H2 C2 a2 (embed p) Q w.
Proof.
  intros Ha HC HH. revert Q w. induction p as [a|m|op k IH u IHu]; intros Q w; simpl; [done..|].
  intros [[Hop Hu] Hk]. split; [split|]; eauto.
Qed.

(** The calls of the embedded program are those of the original, renamed. *)
Definition renamed (e : event Res1) (e' : event Res2) : Prop :=
  exists op r, e = ev op (res op r) /\ e' = ev (f op) r.

Lemma traces_embed {A} (p : prog Res1 A) tr' o :
  traces (embed p) tr' o -> exists tr, traces p tr o /\ Forall2 renamed tr tr'.
Proof.
  revert tr'. induction p as [a|m|op k IH u IHu]; intros tr'; simpl.
  - intros [-> ->]. by exists [].
  - intros [-> ->]. by exists [].
  - intros (r & tr1 & -> & Ht). apply IH in Ht as (tr & Ht & Hr).
    exists (ev op (res op r) :: tr). split; [eauto|]. constructor; [|done]. by exists op, r.
Qed.

Lemma calls_only_embed (ok : Op2 -> bool) {A} (p : prog Res1 A) :
  calls_only (fun op => ok (f op)) p -> calls_only ok (embed p).
Proof. induction p; simpl; naive_solver. Qed.

Lemma calls_only_all (ok : Op1 -> bool) {A} (p : prog Res1 A) :
  (forall op, ok op = true) -> calls_only ok p.
Proof. intros Hok. induction p; simpl; auto 10. Qed.
End Embed.
