(* ===== verification/GoStrings.v ===== *)
(** * Go strings and integer formatting

    The part of Go's [strings] and [strconv] packages the service uses, on byte
    strings.  On strings of ASCII bytes every function is the one of the Go standard
    library; on other strings the three functions that consult the Unicode tables are
    left to the [GoUnicode] parameter. *)

From stdpp Require Import base tactics list strings.
From Stdlib Require Import ZArith Lia Ascii DecimalString DecimalN DecimalFacts.
From S2P Require Import Prelude.

#[local] Open Scope string_scope.
#[local] Open Scope Z_scope.

#[global] Arguments String.append !s1 s2 / : simpl nomatch.

(** ** Bytes and slices *)

Definition byte_code (c : ascii) : Z := Z.of_N (N_of_ascii c).

(** [b < utf8.RuneSelf]. *)
Definition is_ascii_byte (c : ascii) : bool := byte_code c <? 128.

Fixpoint str_forallb (p : ascii -> bool) (s : string) : bool :=
  match s with
  | EmptyString => true
  | String c s' => p c && str_forallb p s'
  end.

Fixpoint str_map (f : ascii -> ascii) (s : string) : string :=
  match s with
  | EmptyString => EmptyString
  | String c s' => String (f c) (str_map f s')
  end.

(** [s[:n]] and [s[n:]] for [n <= len(s)]. *)
Fixpoint str_take (n : nat) (s : string) : string :=
  match n, s with
  | S n', String c s' => String c (str_take n' s')
  | _, _ => EmptyString
  end.

Fixpoint str_drop (n : nat) (s : string) : string :=
  match n, s with
  | S n', String _ s' => str_drop n' s'
  | _, _ => s
  end.

Definition str_len (s : string) : Z := Z.of_nat (String.length s).

Definition is_ascii_string (s : string) : bool := str_forallb is_ascii_byte s.

(** [strings.Repeat]. *)
Fixpoint str_repeat (c : ascii) (n : nat) : string :=
  match n with
  | O => EmptyString
  | S n' => String c (str_repeat c n')
  end.

(** Index of the first byte satisfying [p]: [strings.Index] for a one-byte
    substring, [strings.IndexAny] for a set of ASCII bytes; [None] is [-1]. *)
Fixpoint str_index (p : ascii -> bool) (s : string) : option nat :=
  match s with
  | EmptyString => None
  | String c s' => if p c then Some O else option_map S (str_index p s')
  end.

Fixpoint str_trim_left (p : ascii -> bool) (s : string) : string :=
  match s with
  | EmptyString => EmptyString
  | String c s' => if p c then str_trim_left p s' else s
  end.

Fixpoint str_trim_right (p : ascii -> bool) (s : string) : string :=
  match s with
  | EmptyString => EmptyString
  | String c s' =>
      match str_trim_right p s' with
      | EmptyString => if p c then EmptyString else String c EmptyString
      | t => String c t
      end
  end.

(** [strings.TrimRight(s, cutset)] for a one-byte cutset. *)
Definition TrimRight (s : string) (c : ascii) : string :=
  str_trim_right (Ascii.eqb c) s.

(** ** Case and white space *)

Definition upper_byte (c : ascii) : ascii :=
  let z := byte_code c in
  if (97 <=? z) && (z <=? 122) then ascii_of_N (Z.to_N (z - 32)) else c.

Definition lower_byte (c : ascii) : ascii :=
  let z := byte_code c in
  if (65 <=? z) && (z <=? 90) then ascii_of_N (Z.to_N (z + 32)) else c.

(** The bytes Go's [asciiSpace] table marks: tab, line feed, vertical tab, form
    feed, carriage return, space. *)
Definition is_space_byte (c : ascii) : bool :=
  let z := byte_code c in ((9 <=? z) && (z <=? 13)) || (z =? 32).

(** The Unicode tables of Go's standard library, on strings with a byte of 128 or
    more. *)
Class GoUnicode := {
  uni_ToUpper : string -> string;
  uni_TrimSpace : string -> string;
  uni_EqualFold : string -> string -> bool;
}.

(** A trivial choice of the parameter, for concrete runs on ASCII inputs. *)
Definition ascii_only : GoUnicode := {|
  uni_ToUpper := fun s => s;
  uni_TrimSpace := fun s => s;
  uni_EqualFold := String.eqb;
|}.

Section Unicode.
Context `{GoUnicode}.

Definition ToUpper (s : string) : string :=
  if is_ascii_string s then str_map upper_byte s else uni_ToUpper s.

Definition TrimSpace (s : string) : string :=
  if is_ascii_string s
  then str_trim_right is_space_byte (str_trim_left is_space_byte s)
  else uni_TrimSpace s.

Definition EqualFold (s t : string) : bool :=
  if is_ascii_string s && is_ascii_string t
  then String.eqb (str_map lower_byte s) (str_map lower_byte t)
  else uni_EqualFold s t.
End Unicode.

(** ** Decimal integers *)

Definition digit_val (c : ascii) : option Z :=
  let z := byte_code c in
  if (48 <=? z) && (z <=? 57) then Some (z - 48) else None.

Definition is_digit (c : ascii) : bool :=
  match digit_val c with Some _ => true | None => false end.

Fixpoint parse_digits (acc : Z) (s : string) : option Z :=
  match s with
  | EmptyString => Some acc
  | String c s' =>
      match digit_val c with
      | Some d => parse_digits (acc * 10 + d) s'
      | None => None
      end
  end.

(** An unsigned digit string: at least one digit. *)
Definition parse_unsigned (s : string) : option Z :=
  match s with
  | EmptyString => None
  | String _ _ => parse_digits 0 s
  end.

(** The base-10 grammar [strconv.ParseInt] and [big.Int.SetString] share: an optional
    sign, then one digit or more. *)
Definition parse_signed (s : string) : option Z :=
  match s with
  | EmptyString => None
  | String c s' =>
      if Ascii.eqb c "+" then parse_unsigned s'
      else if Ascii.eqb c "-" then option_map Z.opp (parse_unsigned s')
      else parse_unsigned s
  end.

(** [strconv.ParseInt(s, 10, bits)]; [None] is a syntax or a range error. *)
Definition ParseInt (s : string) (bits : Z) : option Z :=
  match parse_signed s with
  | Some v =>
      if (- 2 ^ (bits - 1) <=? v) && (v <=? 2 ^ (bits - 1) - 1) then Some v else None
  | None => None
  end.

(** The digits of a natural number, [0] written ["0"]. *)
Definition digits_of (n : N) : string := NilZero.string_of_uint (N.to_uint n).

(** [strconv.FormatInt(z, 10)] and [big.Int.String]. *)
Definition FormatInt (z : Z) : string :=
  if z <? 0 then String "-" (digits_of (Z.to_N (- z))) else digits_of (Z.to_N z).

(** ** Lemmas *)

(** Evaluates the codes of literal bytes. *)
Ltac eval_byte_codes :=
  repeat match goal with
  | |- context [byte_code ?c] =>
      let v := eval vm_compute in (byte_code c) in change (byte_code c) with v
  end.

Lemma str_app_assoc (a b c : string) : ((a +:+ b) +:+ c) = a +:+ (b +:+ c).
Proof. induction a as [|x a IH]; simpl; [done | by rewrite IH]. Qed.

Lemma str_app_nil_r (a : string) : a +:+ "" = a.
Proof. induction a as [|x a IH]; simpl; [done | by rewrite IH]. Qed.

Lemma str_length_app (a b : string) :
  String.length (a +:+ b) = (String.length a + String.length b)%nat.
Proof. induction a as [|x a IH]; simpl; [done | by rewrite IH]. Qed.

Lemma string_compare_trans s1 s2 s3 :
  String.compare s1 s2 <> Gt -> String.compare s2 s3 <> Gt -> String.compare s1 s3 <> Gt.
Proof.
  revert s2 s3.
  induction s1 as [|c1 s1 IH]; intros [|c2 s2] [|c3 s3]; cbn [String.compare]; try done.
  unfold Ascii.compare.
  repeat case N.compare_spec; intros; try done; try (by eapply IH); exfalso; lia.
Qed.

Lemma string_leb_trans s1 s2 s3 :
  String.leb s1 s2 = true -> String.leb s2 s3 = true -> String.leb s1 s3 = true.
Proof.
  intros H12 H23. pose proof (string_compare_trans s1 s2 s3) as H. unfold String.leb in *.
  destruct (String.compare s1 s3); [done..|]. exfalso.
  apply H; [intros E|intros E|done]; by rewrite E in *.
Qed.

Lemma str_take_drop n s : str_take n s +:+ str_drop n s = s.
Proof. revert s. induction n as [|n IH]; intros [|c s]; simpl; rewrite ?IH; done. Qed.

Lemma str_take_app (a b : string) : str_take (String.length a) (a +:+ b) = a.
Proof. induction a as [|x a IH]; simpl; [by destruct b | by rewrite IH]. Qed.

Lemma str_drop_app (a b : string) : str_drop (String.length a) (a +:+ b) = b.
Proof. induction a as [|x a IH]; simpl; [by destruct b | by rewrite IH]. Qed.

Lemma str_length_take n s :
  String.length (str_take n s) = Nat.min n (String.length s).
Proof. revert s. induction n; intros [|c s]; simpl; auto. Qed.

Lemma str_length_drop n s :
  String.length (str_drop n s) = (String.length s - n)%nat.
Proof. revert s. induction n; intros [|c s]; simpl; auto. Qed.

Lemma str_length_repeat c n : String.length (str_repeat c n) = n.
Proof. induction n; simpl; congruence. Qed.

Lemma str_forallb_app p a b :
  str_forallb p (a +:+ b) = str_forallb p a && str_forallb p b.
Proof. induction a; simpl; [done|]. by rewrite IHa, andb_assoc. Qed.

Lemma str_forallb_impl (p q : ascii -> bool) s :
  (forall c, p c = true -> q c = true) -> str_forallb p s = true -> str_forallb q s = true.
Proof.
  intros Hpq. induction s as [|c s IH]; simpl; [done|].
  intros [Hc Hs]%andb_prop. rewrite (Hpq c Hc), (IH Hs). done.
Qed.

Lemma str_forallb_repeat p c n : p c = true -> str_forallb p (str_repeat c n) = true.
Proof. intros Hc. induction n; simpl; [done|]. by rewrite Hc. Qed.

Lemma str_index_none p s :
  str_forallb (fun c => negb (p c)) s = true -> str_index p s = None.
Proof.
  induction s as [|c s IH]; simpl; [done|]. intros [Hc Hs]%andb_prop.
  destruct (p c); [done|]. by rewrite IH.
Qed.

Lemma str_index_app p a c b :
  str_forallb (fun c => negb (p c)) a = true -> p c = true ->
  str_index p (a +:+ String c b) = Some (String.length a).
Proof.
  intros Ha Hc. induction a as [|d a IH]; simpl in *; [by rewrite Hc|].
  apply andb_prop in Ha as [Hd Ha]. destruct (p d); [done|]. by rewrite IH.
Qed.

(** A right trim removes a suffix of trimmed bytes only. *)
Lemma str_trim_right_split c s :
  exists n, s = str_trim_right (Ascii.eqb c) s +:+ str_repeat c n.
Proof.
  induction s as [|d s [n IH]]; simpl; [by exists O|].
  destruct (str_trim_right (Ascii.eqb c) s) as [|e t] eqn:Et.
  - simpl in IH. destruct (Ascii.eqb_spec c d) as [->|_].
    + exists (S n). simpl. congruence.
    + exists n. simpl. congruence.
  - exists n. simpl in *. congruence.
Qed.

Lemma parse_digits_app acc a b :
  parse_digits acc (a +:+ b) =
  match parse_digits acc a with Some v => parse_digits v b | None => None end.
Proof.
  revert acc. induction a as [|c a IH]; intros acc; simpl; [done|].
  destruct (digit_val c); [apply IH | done].
Qed.

Lemma parse_digits_zeros acc n :
  parse_digits acc (str_repeat "0" n) = Some (acc * 10 ^ Z.of_nat n).
Proof.
  revert acc. induction n as [|n IH]; intros acc.
  - change (10 ^ Z.of_nat 0) with 1. simpl. by rewrite Z.mul_1_r.
  - change (parse_digits (acc * 10 + 0) (str_repeat "0" n) = Some (acc * 10 ^ Z.of_nat (S n))).
    rewrite IH, Nat2Z.inj_succ, Z.pow_succ_r by lia. f_equal. ring.
Qed.

Lemma parse_digits_some s acc :
  str_forallb is_digit s = true -> exists v, parse_digits acc s = Some v.
Proof.
  revert acc. induction s as [|c s IH]; intros acc; simpl; [eauto|].
  unfold is_digit at 1. intros [Hc Hs]%andb_prop. destruct (digit_val c); [by apply IH | done].
Qed.

(** The standard library's digit printer is inverted by [parse_digits]. *)
Lemma parse_digits_uint_acc u p :
  parse_digits (Zpos p) (NilEmpty.string_of_uint u) = Some (Zpos (Pos.of_uint_acc u p)).
Proof.
  revert p. induction u as [|u IH|u IH|u IH|u IH|u IH|u IH|u IH|u IH|u IH|u IH];
    intros p; simpl; [reflexivity|..].
  all: rewrite <- IH; eval_byte_codes; apply (f_equal (fun z => parse_digits z _)); lia.
Qed.

Lemma parse_digits_uint u :
  parse_digits 0 (NilEmpty.string_of_uint u) = Some (Z.of_N (Pos.of_uint u)).
Proof.
  induction u; simpl; first [reflexivity | apply parse_digits_uint_acc | done].
Qed.

Lemma string_of_uint_digits u : str_forallb is_digit (NilEmpty.string_of_uint u) = true.
Proof. induction u; simpl; auto. Qed.

Lemma digits_of_nonempty n : digits_of n <> "".
Proof.
  unfold digits_of, NilZero.string_of_uint. destruct (N.to_uint n); discriminate.
Qed.

Lemma digits_of_digits n : str_forallb is_digit (digits_of n) = true.
Proof.
  unfold digits_of, NilZero.string_of_uint.
  destruct (N.to_uint n) eqn:E; [reflexivity|..]; apply string_of_uint_digits.
Qed.

Lemma parse_digits_of n : parse_digits 0 (digits_of n) = Some (Z.of_N n).
Proof.
  unfold digits_of, NilZero.string_of_uint.
  pose proof (DecimalN.Unsigned.of_to n) as Hn. unfold N.of_uint in Hn.
  destruct (N.to_uint n) eqn:E; [simpl in Hn; by rewrite <- Hn|..].
  all: rewrite parse_digits_uint; by rewrite Hn.
Qed.

Lemma parse_unsigned_digits_of n : parse_unsigned (digits_of n) = Some (Z.of_N n).
Proof.
  unfold parse_unsigned. pose proof (digits_of_nonempty n).
  destruct (digits_of n) eqn:E; [done|]. rewrite <- E. apply parse_digits_of.
Qed.

Lemma is_digit_not_sign c :
  is_digit c = true -> Ascii.eqb c "+" = false /\ Ascii.eqb c "-" = false.
Proof.
  intros Hc. split; apply not_true_is_false; intros ->%Ascii.eqb_eq; discriminate Hc.
Qed.

(** A digit string with no sign is read by [parse_signed] as by [parse_digits]. *)
Lemma parse_signed_digits s :
  s <> "" -> str_forallb is_digit s = true -> parse_signed s = parse_digits 0 s.
Proof.
  destruct s as [|c s]; [done|]. intros _. simpl str_forallb.
  intros [[H1 H2]%is_digit_not_sign _]%andb_prop.
  unfold parse_signed. rewrite H1, H2. reflexivity.
Qed.

Lemma parse_signed_minus s :
  s <> "" -> parse_signed (String "-" s) = option_map Z.opp (parse_digits 0 s).
Proof. destruct s; done. Qed.

Lemma parse_signed_FormatInt z : parse_signed (FormatInt z) = Some z.
Proof.
  unfold FormatInt. destruct (Z.ltb_spec z 0).
  - rewrite parse_signed_minus by apply digits_of_nonempty.
    rewrite parse_digits_of. simpl. f_equal. lia.
  - rewrite parse_signed_digits; [|apply digits_of_nonempty|apply digits_of_digits].
    rewrite parse_digits_of. f_equal. lia.
Qed.

(** What [FormatInt] prints, [ParseInt] reads back. *)
Lemma ParseInt_FormatInt z : in_i64 z -> ParseInt (FormatInt z) 64 = Some z.
Proof.
  unfold in_i64, MinInt64, MaxInt64. intros Hz. unfold ParseInt.
  rewrite parse_signed_FormatInt.
  destruct (Z.leb_spec (- 2 ^ (64 - 1)) z); [|lia].
  destruct (Z.leb_spec z (2 ^ (64 - 1) - 1)); [done|lia].
Qed.

Lemma FormatInt_inj z1 z2 : FormatInt z1 = FormatInt z2 -> z1 = z2.
Proof.
  intros H. apply (f_equal parse_signed) in H. rewrite !parse_signed_FormatInt in H.
  congruence.
Qed.

(** A digit string's value lies between [0] and a power of ten. *)
Lemma parse_digits_bound s acc v :
  0 <= acc -> parse_digits acc s = Some v ->
  acc * 10 ^ str_len s <= v < (acc + 1) * 10 ^ str_len s.
Proof.
  unfold str_len. revert acc v. induction s as [|c s IH]; intros acc v Hacc Hp.
  - injection Hp as <-. change (10 ^ Z.of_nat (String.length "")) with 1. lia.
  - simpl in Hp. destruct (digit_val c) as [d|] eqn:Hd; [|done].
    assert (0 <= d <= 9) as Hdr.
    { unfold digit_val in Hd. destruct (_ && _) eqn:E; [|done].
      apply andb_prop in E as [?%Z.leb_le ?%Z.leb_le]. injection Hd as <-. lia. }
    apply IH in Hp; [|lia]. simpl String.length. rewrite Nat2Z.inj_succ.
    rewrite Z.pow_succ_r by lia.
    pose proof (Z.pow_pos_nonneg 10 (Z.of_nat (String.length s)) ltac:(lia) ltac:(lia)).
    nia.
Qed.

(** ** Case folding on ASCII strings *)

Lemma is_ascii_str_map f s :
  (forall c, is_ascii_byte c = true -> is_ascii_byte (f c) = true) ->
  is_ascii_string s = true -> is_ascii_string (str_map f s) = true.
Proof.
  intros Hf. unfold is_ascii_string. induction s as [|c s IH]; simpl; [done|].
  intros [Hc Hs]%andb_prop. by rewrite (Hf c Hc), IH.
Qed.

Lemma upper_byte_ascii c : is_ascii_byte c = true -> is_ascii_byte (upper_byte c) = true.
Proof. destruct c as [[] [] [] [] [] [] [] []]; vm_compute; auto. Qed.

Lemma upper_byte_idemp c : upper_byte (upper_byte c) = upper_byte c.
Proof. destruct c as [[] [] [] [] [] [] [] []]; reflexivity. Qed.

(** No byte [ToUpper] yields on an ASCII string is a lower-case letter. *)
Definition is_lower_byte (c : ascii) : bool :=
  let z := byte_code c in (97 <=? z) && (z <=? 122).

Lemma upper_byte_not_lower c : is_lower_byte (upper_byte c) = false.
Proof. destruct c as [[] [] [] [] [] [] [] []]; reflexivity. Qed.

Section UpperLemmas.
Context `{GoUnicode}.

Lemma ToUpper_ascii s : is_ascii_string s = true -> is_ascii_string (ToUpper s) = true.
Proof.
  intros Hs. unfold ToUpper. rewrite Hs.
  apply is_ascii_str_map; [apply upper_byte_ascii | done].
Qed.

Lemma ToUpper_idemp s :
  is_ascii_string s = true -> ToUpper (ToUpper s) = ToUpper s.
Proof.
  intros Hs. unfold ToUpper at 1. rewrite (ToUpper_ascii s Hs).
  unfold ToUpper. rewrite Hs. clear Hs. induction s as [|c s IH]; simpl; [done|].
  by rewrite upper_byte_idemp, IH.
Qed.

Lemma ToUpper_no_lower s :
  is_ascii_string s = true ->
  str_forallb (fun c => negb (is_lower_byte c)) (ToUpper s) = true.
Proof.
  intros Hs. unfold ToUpper. rewrite Hs. clear Hs.
  induction s as [|c s IH]; simpl; [done|]. by rewrite upper_byte_not_lower, IH.
Qed.
End UpperLemmas.
