(* ===== verification/Decimal.v ===== *)
(** * The decimal numbers of the service

    The operations of [github.com/shopspring/decimal] (vendored under
    vendor/github.com/shopspring/decimal) that the service calls.  A decimal is an
    arbitrary-precision coefficient and an [int32] exponent; the nil coefficient of
    Go's zero value stands for 0, as [ensureInitialized] makes it.  [int32] arithmetic
    wraps and a Go panic is [None]. *)

From stdpp Require Import base tactics list strings.
From Stdlib Require Import ZArith Lia Ascii.
From S2P Require Import Prelude GoStrings.

#[local] Open Scope string_scope.
#[local] Open Scope Z_scope.

(** number = value * 10 ^ exp *)
Record Decimal := mkDecimal { d_value : Z; d_exp : Z }.

#[global] Instance Decimal_eq_dec : EqDecision Decimal.
Proof. solve_decision. Defined.

Definition New (value exp : Z) : Decimal := mkDecimal value exp.

Definition NewFromInt (value : Z) : Decimal := mkDecimal value 0.

(** [decimal.Zero] has exponent 1. *)
Definition Zero : Decimal := New 0 1.

(** Go's [Decimal{}]. *)
Definition zero_value : Decimal := mkDecimal 0 0.

(** DivisionPrecision *)
Definition DivisionPrecision : Z := 16.

(** [big.Int.Cmp]. *)
Definition big_Cmp (x y : Z) : Z :=
  match x ?= y with Lt => -1 | Eq => 0 | Gt => 1 end.

(** ** Rescaling *)

(** The difference of the exponents is taken on floats in the source, which is exact
    for [int32]; [Quo] truncates. *)
Definition rescale (d : Decimal) (exp : Z) : Decimal :=
  if d_exp d =? exp then mkDecimal (d_value d) (d_exp d)
  else
    let diff := Z.abs (exp - d_exp d) in
    let expScale := 10 ^ diff in
    let value :=
      if d_exp d <? exp then Z.quot (d_value d) expScale
      else if exp <? d_exp d then d_value d * expScale
      else d_value d in
    mkDecimal value exp.

Definition RescalePair (d1 d2 : Decimal) : Decimal * Decimal :=
  if d_exp d1 <? d_exp d2 then (d1, rescale d2 (d_exp d1))
  else if d_exp d2 <? d_exp d1 then (rescale d1 (d_exp d2), d2)
  else (d1, d2).

(** ** Arithmetic *)

Definition Add (d d2 : Decimal) : Decimal :=
  let '(rd, rd2) := RescalePair d d2 in
  mkDecimal (d_value rd + d_value rd2) (d_exp rd).

Definition Sub (d d2 : Decimal) : Decimal :=
  let '(rd, rd2) := RescalePair d d2 in
  mkDecimal (d_value rd - d_value rd2) (d_exp rd).

Definition Mul (d d2 : Decimal) : option Decimal :=
  let expInt64 := d_exp d + d_exp d2 in
  if (MaxInt32 <? expInt64) || (expInt64 <? MinInt32) then None
  else Some (mkDecimal (d_value d * d_value d2) expInt64).

Definition Sign (d : Decimal) : Z := Z.sgn (d_value d).

Definition IsPositive (d : Decimal) : bool := Sign d =? 1.
Definition IsNegative (d : Decimal) : bool := Sign d =? -1.
Definition IsZero (d : Decimal) : bool := Sign d =? 0.

Definition Abs (d : Decimal) : Decimal :=
  if negb (IsNegative d) then d else mkDecimal (Z.abs (d_value d)) (d_exp d).

(** ** Comparison *)

Definition Cmp (d d2 : Decimal) : Z :=
  if d_exp d =? d_exp d2 then big_Cmp (d_value d) (d_value d2)
  else
    let '(rd, rd2) := RescalePair d d2 in
    big_Cmp (d_value rd) (d_value rd2).

Definition Equal (d d2 : Decimal) : bool := Cmp d d2 =? 0.

Definition GreaterThan (d d2 : Decimal) : bool := Cmp d d2 =? 1.

Definition GreaterThanOrEqual (d d2 : Decimal) : bool :=
  let cmp := Cmp d d2 in (cmp =? 1) || (cmp =? 0).

Definition LessThan (d d2 : Decimal) : bool := Cmp d d2 =? -1.

Definition LessThanOrEqual (d d2 : Decimal) : bool :=
  let cmp := Cmp d d2 in (cmp =? -1) || (cmp =? 0).

(** ** Division *)

Definition QuoRem (d d2 : Decimal) (precision : Z) : option (Decimal * Decimal) :=
  if d_value d2 =? 0 then None
  else
    let scale := w32 (- precision) in
    let e := d_exp d - d_exp d2 - scale in
    if (MaxInt32 <? e) || (e <? MinInt32) then None
    else
      let '(aa, bb, scalerest) :=
        if e <? 0
        then (d_value d, d_value d2 * 10 ^ (- e), d_exp d)
        else (10 ^ e * d_value d, d_value d2, w32 (scale + d_exp d2)) in
      Some (mkDecimal (Z.quot aa bb) scale, mkDecimal (Z.rem aa bb) scalerest).

Definition DivRound (d d2 : Decimal) (precision : Z) : option Decimal :=
  match QuoRem d d2 precision with
  | None => None
  | Some (q, r) =>
      let rv2 := Z.abs (d_value r) * 2 in
      let r2 := mkDecimal rv2 (w32 (d_exp r + precision)) in
      let c := Cmp r2 (Abs d2) in
      if c <? 0 then Some q
      else if Sign d * Sign d2 <? 0 then Some (Sub q (New 1 (w32 (- precision))))
      else Some (Add q (New 1 (w32 (- precision))))
  end.

Definition Div (d d2 : Decimal) : option Decimal := DivRound d d2 DivisionPrecision.

(** ** Rounding *)

Definition Round (d : Decimal) (places : Z) : Decimal :=
  if d_exp d =? w32 (- places) then d
  else
    let ret := rescale d (w32 (w32 (- places) - 1)) in
    let v := if Z.sgn (d_value ret) <? 0 then d_value ret - 5 else d_value ret + 5 in
    let '(q, m) := (v / 10, v mod 10) in
    let exp := w32 (d_exp ret + 1) in
    if (Z.sgn q <? 0) && negb (big_Cmp m 0 =? 0)
    then mkDecimal (q + 1) exp
    else mkDecimal q exp.

Definition Floor (d : Decimal) : Decimal :=
  if 0 <=? d_exp d then d
  else mkDecimal (d_value d / 10 ^ (- d_exp d)) 0.

(** ** Text *)

(** The unexported method [string]. *)
Definition to_string (d : Decimal) (trimTrailingZeros : bool) : string :=
  if 0 <=? d_exp d then FormatInt (d_value (rescale d 0))
  else
    let str := digits_of (Z.to_N (Z.abs (d_value d))) in
    let dExpInt := d_exp d in
    let '(intPart, fractionalPart) :=
      if - dExpInt <? str_len str
      then (str_take (Z.to_nat (str_len str + dExpInt)) str,
            str_drop (Z.to_nat (str_len str + dExpInt)) str)
      else ("0", str_repeat "0" (Z.to_nat (- dExpInt - str_len str)) +:+ str) in
    let fractionalPart :=
      if trimTrailingZeros then TrimRight fractionalPart "0" else fractionalPart in
    let number :=
      if 0 <? str_len fractionalPart then intPart +:+ "." +:+ fractionalPart else intPart in
    if Z.sgn (d_value d) <? 0 then "-" +:+ number else number.

Definition to_String (d : Decimal) : string := to_string d true.

Definition StringFixed (d : Decimal) (places : Z) : string :=
  to_string (Round d places) false.

Definition is_dot (c : ascii) : bool := Ascii.eqb c ".".
Definition is_exp_mark (c : ascii) : bool := Ascii.eqb c "E" || Ascii.eqb c "e".

(** The tail of [NewFromString], once the exponent mark is gone: [value] is the
    mantissa and [exp] the exponent read so far. *)
Definition parse_mantissa (value : string) (exp : Z) : Result Decimal :=
  let scan :=
    match str_index is_dot value with
    | None => Some (value, exp)
    | Some pIndex =>
        let rest := str_drop (S pIndex) value in
        match str_index is_dot rest with
        | Some _ => None
        | None => Some (str_take pIndex value +:+ rest, exp - str_len rest)
        end
    end in
  match scan with
  | None => Err (ErrMsg "can't convert to decimal: too many .s")
  | Some (intString, exp) =>
      let dValue :=
        if str_len intString <=? 18 then ParseInt intString 64
        else parse_signed intString in
      match dValue with
      | None => Err (ErrMsg "can't convert to decimal")
      | Some v =>
          if (exp <? MinInt32) || (MaxInt32 <? exp)
          then Err (ErrMsg "can't convert to decimal: fractional part too long")
          else Ok (mkDecimal v exp)
      end
  end.

Definition NewFromString (value : string) : Result Decimal :=
  match str_index is_exp_mark value with
  | None => parse_mantissa value 0
  | Some eIndex =>
      match ParseInt (str_drop (S eIndex) value) 32 with
      | None => Err (ErrMsg "can't convert to decimal: exponent is not numeric")
      | Some expInt => parse_mantissa (str_take eIndex value) expInt
      end
  end.

(** [decimal.RequireFromString]; [None] is its panic. *)
Definition RequireFromString (value : string) : option Decimal :=
  match NewFromString value with Ok d => Some d | Err _ => None end.

Example div_two_thirds :
  option_map to_String (Div (NewFromInt 2) (NewFromInt 3)) = Some "0.6666666666666667".
Proof. vm_compute. reflexivity. Qed.

Example div_twenty_thousand_thirds :
  option_map to_String (Div (NewFromInt 20000) (NewFromInt 3)) = Some "6666.6666666666666667".
Proof. vm_compute. reflexivity. Qed.

Example string_fixed_545 : StringFixed (New 545 (-2)) 1 = "5.5".
Proof. vm_compute. reflexivity. Qed.

Example string_fixed_neg_places : StringFixed (New 545 0) (-1) = "550".
Proof. vm_compute. reflexivity. Qed.

Example string_negative : to_String (New (-12345) (-3)) = "-12.345".
Proof. vm_compute. reflexivity. Qed.

Example parse_scientific : NewFromString "-1.5e-3" = Ok (New (-15) (-4)).
Proof. vm_compute. reflexivity. Qed.
