(* ===== verification/DecimalSpec.v ===== *)
(** * Decimals as rational numbers

    The meaning of a decimal is the rational [dval]; the theorems of this file say
    that comparison and arithmetic compute on meanings, that division and rounding
    are rounding half away from zero, and that none of it depends on how a number is
    split into coefficient and exponent. *)

From stdpp Require Import base tactics list.
From Stdlib Require Import ZArith QArith Qpower Qabs Qround Lia Lqa Setoid Morphisms.
From S2P Require Import Prelude GoStrings Decimal.

#[local] Open Scope Z_scope.

(** ** Powers of ten *)

Definition p10 (e : Z) : Q := Qpower (10 # 1) e.

Lemma p10_pos e : (0 < p10 e)%Q.
Proof. apply Qpower_0_lt. reflexivity. Qed.

Lemma p10_nonzero e : ~ (p10 e == 0)%Q.
Proof. pose proof (p10_pos e). intros H0. rewrite H0 in H. discriminate. Qed.

Lemma p10_add a b : (p10 (a + b) == p10 a * p10 b)%Q.
Proof. apply Qpower_plus. discriminate. Qed.

(** Side conditions of [field]. *)
Ltac nonzero := repeat split; first [assumption | apply p10_nonzero].

Lemma p10_0 : (p10 0 == 1)%Q.
Proof. reflexivity. Qed.

Lemma p10_Z e : 0 <= e -> (p10 e == inject_Z (10 ^ e))%Q.
Proof.
  intros He. unfold p10. change (10 # 1)%Q with (inject_Z 10).
  symmetry. apply Zpower_Qpower. done.
Qed.

Lemma p10_opp e : (p10 (- e) * p10 e == 1)%Q.
Proof. rewrite <- p10_add, Z.add_opp_diag_l. reflexivity. Qed.

Lemma p10_inv e : (p10 e == / p10 (- e))%Q.
Proof.
  rewrite <- (Qmult_1_l (/ p10 (- e))), <- (p10_opp e). field. apply p10_nonzero.
Qed.

Lemma pow10_pos e : 0 <= e -> 0 < 10 ^ e.
Proof. intros. apply Z.pow_pos_nonneg; lia. Qed.

#[export] Hint Resolve p10_pos p10_nonzero pow10_pos : decimal.

(** ** Meaning *)

Definition dval (d : Decimal) : Q := (inject_Z (d_value d) * p10 (d_exp d))%Q.

(** Two decimals that denote the same number. *)
Definition deq (d1 d2 : Decimal) : Prop := (dval d1 == dval d2)%Q.

#[export] Instance deq_equiv : Equivalence deq.
Proof.
  unfold deq. split.
  - intros x. reflexivity.
  - intros x y H. by symmetry.
  - intros x y z H1 H2. by rewrite H1.
Qed.

#[export] Instance dval_proper : Proper (deq ==> Qeq) dval.
Proof. intros d1 d2 H. exact H. Qed.

(** A coefficient seen at a lower exponent. *)
Lemma scale_down v e m :
  m <= e -> (inject_Z v * p10 e == inject_Z (v * 10 ^ (e - m)) * p10 m)%Q.
Proof.
  intros Hm. rewrite inject_Z_mult, <- (p10_Z (e - m)) by lia.
  rewrite <- Qmult_assoc, <- p10_add. replace (e - m + m) with e by lia. reflexivity.
Qed.

Lemma dval_same_exp_le v1 v2 e :
  v1 <= v2 <-> (inject_Z v1 * p10 e <= inject_Z v2 * p10 e)%Q.
Proof. rewrite Qmult_le_r by apply p10_pos. by rewrite <- Zle_Qle. Qed.

Lemma dval_same_exp_lt v1 v2 e :
  v1 < v2 <-> (inject_Z v1 * p10 e < inject_Z v2 * p10 e)%Q.
Proof. rewrite Qmult_lt_r by apply p10_pos. by rewrite <- Zlt_Qlt. Qed.

Lemma dval_same_exp_eq v1 v2 e :
  v1 = v2 <-> (inject_Z v1 * p10 e == inject_Z v2 * p10 e)%Q.
Proof.
  split; [by intros ->|]. intros H. apply Z.le_antisymm; apply (dval_same_exp_le _ _ e);
  rewrite H; apply Qle_refl.
Qed.

(** ** Rescaling *)

Lemma rescale_exp d e : d_exp (rescale d e) = e.
Proof. unfold rescale. destruct (Z.eqb_spec (d_exp d) e); done. Qed.

Lemma rescale_value_down d e :
  e <= d_exp d -> d_value (rescale d e) = d_value d * 10 ^ (d_exp d - e).
Proof.
  intros He. unfold rescale. destruct (Z.eqb_spec (d_exp d) e) as [->|Hne].
  - simpl. rewrite Z.sub_diag. lia.
  - simpl. destruct (Z.ltb_spec (d_exp d) e); [lia|].
    destruct (Z.ltb_spec e (d_exp d)); [|lia].
    do 2 f_equal. lia.
Qed.

Lemma rescale_value_up d e :
  d_exp d < e -> d_value (rescale d e) = Z.quot (d_value d) (10 ^ (e - d_exp d)).
Proof.
  intros He. unfold rescale. destruct (Z.eqb_spec (d_exp d) e); [lia|].
  simpl. destruct (Z.ltb_spec (d_exp d) e); [|lia]. do 2 f_equal. lia.
Qed.

Lemma rescale_dval d e : e <= d_exp d -> (dval (rescale d e) == dval d)%Q.
Proof.
  intros He. unfold dval. rewrite rescale_exp, rescale_value_down by done.
  symmetry. by apply scale_down.
Qed.

(** [RescalePair] brings two numbers to the smaller exponent and changes neither. *)
Lemma RescalePair_spec d1 d2 r1 r2 :
  RescalePair d1 d2 = (r1, r2) ->
  d_exp r1 = Z.min (d_exp d1) (d_exp d2) /\ d_exp r2 = Z.min (d_exp d1) (d_exp d2) /\
  (dval r1 == dval d1)%Q /\ (dval r2 == dval d2)%Q.
Proof.
  unfold RescalePair.
  destruct (Z.ltb_spec (d_exp d1) (d_exp d2));
    [|destruct (Z.ltb_spec (d_exp d2) (d_exp d1))]; intros [= <- <-];
    rewrite ?rescale_exp, ?rescale_dval by lia; repeat split; lia || reflexivity.
Qed.

(** ** Addition, subtraction, multiplication *)

Lemma Add_exp d d2 : d_exp (Add d d2) = Z.min (d_exp d) (d_exp d2).
Proof.
  unfold Add. destruct (RescalePair d d2) as [r1 r2] eqn:E.
  apply RescalePair_spec in E. simpl. tauto.
Qed.

Lemma Add_dval d d2 : (dval (Add d d2) == dval d + dval d2)%Q.
Proof.
  unfold Add. destruct (RescalePair d d2) as [r1 r2] eqn:E.
  apply RescalePair_spec in E as (E1 & E2 & <- & <-).
  unfold dval. simpl. rewrite E1, E2, inject_Z_plus. ring.
Qed.

Lemma Sub_dval d d2 : (dval (Sub d d2) == dval d - dval d2)%Q.
Proof.
  unfold Sub. destruct (RescalePair d d2) as [r1 r2] eqn:E.
  apply RescalePair_spec in E as (E1 & E2 & <- & <-).
  unfold dval. simpl. rewrite E1, E2. unfold Z.sub. rewrite inject_Z_plus, inject_Z_opp.
  ring.
Qed.

Lemma Mul_dval d d2 m : Mul d d2 = Some m -> (dval m == dval d * dval d2)%Q.
Proof.
  unfold Mul. destruct (_ || _); [done|]. intros [= <-].
  unfold dval. simpl. rewrite inject_Z_mult, p10_add. ring.
Qed.

Lemma Mul_exp_range d d2 m : Mul d d2 = Some m -> in_i32 (d_exp m).
Proof.
  unfold Mul. destruct (_ || _) eqn:E; [done|]. intros [= <-]. simpl.
  apply orb_false_iff in E as [?%Z.ltb_ge ?%Z.ltb_ge]. done.
Qed.

Lemma Mul_defined d d2 : in_i32 (d_exp d + d_exp d2) -> is_Some (Mul d d2).
Proof.
  unfold in_i32, Mul. intros H.
  destruct (Z.ltb_spec MaxInt32 (d_exp d + d_exp d2)); [lia|].
  destruct (Z.ltb_spec (d_exp d + d_exp d2) MinInt32); [lia|]. eauto.
Qed.

Lemma Abs_dval d : (dval (Abs d) == Qabs (dval d))%Q.
Proof.
  unfold Abs, IsNegative, Sign, dval. rewrite Qabs_Qmult.
  rewrite (Qabs_pos (p10 (d_exp d))) by (apply Qlt_le_weak, p10_pos).
  assert (forall v, (Qabs (inject_Z v) == inject_Z (Z.abs v))%Q) as Habs by reflexivity.
  rewrite Habs. destruct (Z.eqb_spec (Z.sgn (d_value d)) (-1)) as [H|H]; simpl.
  - reflexivity.
  - assert (0 <= d_value d) as Hd by (destruct (d_value d); simpl in *; lia).
    by rewrite Z.abs_eq.
Qed.

(** ** Comparison *)

Lemma big_Cmp_sgn x y : big_Cmp x y = Z.sgn (x - y).
Proof. unfold big_Cmp. destruct (Z.compare_spec x y); lia. Qed.

Lemma Cmp_rescaled d d2 r1 r2 :
  RescalePair d d2 = (r1, r2) -> Cmp d d2 = Z.sgn (d_value r1 - d_value r2).
Proof.
  intros E. unfold Cmp. rewrite E. destruct (Z.eqb_spec (d_exp d) (d_exp d2)) as [He|]; [|apply big_Cmp_sgn].
  unfold RescalePair in E. rewrite He, Z.ltb_irrefl in E. injection E as <- <-.
  apply big_Cmp_sgn.
Qed.

(** [Cmp] against a number of larger or equal exponent, on coefficients. *)
Lemma Cmp_le_exp a b :
  d_exp a <= d_exp b ->
  Cmp a b = Z.sgn (d_value a - d_value b * 10 ^ (d_exp b - d_exp a)).
Proof.
  intros Hle. destruct (RescalePair a b) as [r1 r2] eqn:E.
  rewrite (Cmp_rescaled _ _ _ _ E). unfold RescalePair in E.
  destruct (Z.ltb_spec (d_exp a) (d_exp b)); [|destruct (Z.ltb_spec (d_exp b) (d_exp a)); [lia|]];
    injection E as <- <-.
  - by rewrite rescale_value_down.
  - replace (d_exp b - d_exp a) with 0 by lia. by rewrite Z.mul_1_r.
Qed.

(** [Cmp] is the order of the rationals. *)
Lemma Cmp_spec d d2 :
  (Cmp d d2 = -1 /\ (dval d < dval d2)%Q) \/
  (Cmp d d2 = 0 /\ (dval d == dval d2)%Q) \/
  (Cmp d d2 = 1 /\ (dval d2 < dval d)%Q).
Proof.
  destruct (RescalePair d d2) as [r1 r2] eqn:E.
  rewrite (Cmp_rescaled _ _ _ _ E). apply RescalePair_spec in E as (E1 & E2 & <- & <-).
  unfold dval. rewrite E1, E2.
  destruct (Z.lt_trichotomy (d_value r1) (d_value r2)) as [H|[H|H]].
  - left. split; [lia|]. by apply dval_same_exp_lt.
  - right; left. split; [lia|]. by apply dval_same_exp_eq.
  - right; right. split; [lia|]. by apply dval_same_exp_lt.
Qed.

Ltac cmp_cases d d2 :=
  let C := fresh "C" in let V := fresh "V" in
  destruct (Cmp_spec d d2) as [[C V]|[[C V]|[C V]]]; rewrite C; simpl.

Lemma LessThanOrEqual_spec d d2 : LessThanOrEqual d d2 = true <-> (dval d <= dval d2)%Q.
Proof. unfold LessThanOrEqual. cmp_cases d d2; split; try done; lra. Qed.

Lemma LessThanOrEqual_false d d2 : LessThanOrEqual d d2 = false <-> (dval d2 < dval d)%Q.
Proof. unfold LessThanOrEqual. cmp_cases d d2; split; try done; lra. Qed.

Lemma LessThan_spec d d2 : LessThan d d2 = true <-> (dval d < dval d2)%Q.
Proof. unfold LessThan. cmp_cases d d2; split; try done; lra. Qed.

Lemma GreaterThan_spec d d2 : GreaterThan d d2 = true <-> (dval d2 < dval d)%Q.
Proof. unfold GreaterThan. cmp_cases d d2; split; try done; lra. Qed.

Lemma GreaterThanOrEqual_spec d d2 :
  GreaterThanOrEqual d d2 = true <-> (dval d2 <= dval d)%Q.
Proof. unfold GreaterThanOrEqual. cmp_cases d d2; split; try done; lra. Qed.

Lemma Equal_spec d d2 : Equal d d2 = true <-> deq d d2.
Proof. unfold Equal, deq. cmp_cases d d2; split; try done; lra. Qed.

Lemma Zero_dval : (dval Zero == 0)%Q.
Proof. reflexivity. Qed.

Lemma dval_sign d :
  (Sign d = -1 /\ (dval d < 0)%Q) \/ (Sign d = 0 /\ (dval d == 0)%Q) \/
  (Sign d = 1 /\ (0 < dval d)%Q).
Proof.
  unfold Sign, dval.
  assert (0 == inject_Z 0 * p10 (d_exp d))%Q as H0 by ring.
  destruct (Z.lt_trichotomy (d_value d) 0) as [H|[H|H]].
  - left. split; [lia|]. rewrite H0. by apply dval_same_exp_lt.
  - right; left. split; [lia|]. rewrite H. ring.
  - right; right. split; [lia|]. rewrite H0. by apply dval_same_exp_lt.
Qed.

Lemma IsZero_spec d : IsZero d = true <-> (dval d == 0)%Q.
Proof.
  unfold IsZero. destruct (dval_sign d) as [[-> ?]|[[-> ?]|[-> ?]]]; simpl; split; try done; lra.
Qed.

Lemma IsPositive_spec d : IsPositive d = true <-> (0 < dval d)%Q.
Proof.
  unfold IsPositive. destruct (dval_sign d) as [[-> ?]|[[-> ?]|[-> ?]]]; simpl; split; try done; lra.
Qed.

(** Comparison and the sign tests read the meaning only. *)
#[export] Instance Cmp_proper : Proper (deq ==> deq ==> eq) Cmp.
Proof.
  intros a a' Ha b b' Hb. unfold deq in *.
  destruct (Cmp_spec a b) as [[-> ?]|[[-> ?]|[-> ?]]];
    destruct (Cmp_spec a' b') as [[-> ?]|[[-> ?]|[-> ?]]]; try done; lra.
Qed.

#[export] Instance Add_proper : Proper (deq ==> deq ==> deq) Add.
Proof. intros a a' Ha b b' Hb. unfold deq in *. rewrite !Add_dval. lra. Qed.

#[export] Instance Sub_proper : Proper (deq ==> deq ==> deq) Sub.
Proof. intros a a' Ha b b' Hb. unfold deq in *. rewrite !Sub_dval. lra. Qed.

(** ** Rounding half away from zero

    [rounds_half_away x n]: the integer [n] is the nearest to [x], and of two nearest
    ones the one further from zero. *)

Definition rounds_half_away (x : Q) (n : Z) : Prop :=
  (Qabs (inject_Z n - x) <= 1 # 2)%Q /\
  ((Qabs (inject_Z n - x) == 1 # 2)%Q -> (Qabs x <= Qabs (inject_Z n))%Q).

#[export] Instance rounds_half_away_proper :
  Proper (Qeq ==> eq ==> iff) rounds_half_away.
Proof. intros x x' Hx n n' <-. unfold rounds_half_away. by rewrite Hx. Qed.

Lemma rounds_half_away_not_lt x n m :
  rounds_half_away x n -> rounds_half_away x m -> ~ n < m.
Proof.
  intros [Hn Tn] [Hm Tm] Hnm.
  assert (inject_Z n + 1 <= inject_Z m)%Q as Hq.
  { change 1%Q with (inject_Z 1). rewrite <- inject_Z_plus, <- Zle_Qle. lia. }
  apply Qabs_Qle_condition in Hn as [Hn1 Hn2], Hm as [Hm1 Hm2].
  assert (inject_Z n - x == - (1#2))%Q as Hx by lra.
  assert (inject_Z m - x == 1#2)%Q as Hy by lra.
  rewrite Hx in Tn. rewrite Hy in Tm.
  specialize (Tn ltac:(reflexivity)). specialize (Tm ltac:(reflexivity)).
  assert (-1 < inject_Z n -> 0 <= inject_Z n)%Q as Hint.
  { change (-1)%Q with (inject_Z (-1)). change 0%Q with (inject_Z 0).
    rewrite <- Zlt_Qlt, <- Zle_Qle. lia. }
  revert Tn Tm. apply (Qabs_case x); apply (Qabs_case (inject_Z n));
    apply (Qabs_case (inject_Z m)); intros; lra.
Qed.

(** The rounding of a number is unique. *)
Lemma rounds_half_away_unique x n m :
  rounds_half_away x n -> rounds_half_away x m -> n = m.
Proof.
  intros Hn Hm. pose proof (rounds_half_away_not_lt x n m Hn Hm).
  pose proof (rounds_half_away_not_lt x m n Hm Hn). lia.
Qed.

Lemma rounds_half_away_int n : rounds_half_away (inject_Z n) n.
Proof.
  split; [|intros _; apply Qle_refl].
  rewrite (Qplus_opp_r (inject_Z n)). discriminate.
Qed.

(** A fraction [a / b] rounded: the integer criterion. *)
Lemma rounds_half_away_frac a b n :
  b <> 0 ->
  2 * Z.abs (n * b - a) <= Z.abs b ->
  (2 * Z.abs (n * b - a) = Z.abs b -> Z.abs a <= Z.abs (n * b)) ->
  rounds_half_away (inject_Z a / inject_Z b) n.
Proof.
  intros Hb Hle Htie.
  assert (~ inject_Z b == 0)%Q as Hbq by (change 0%Q with (inject_Z 0); rewrite inject_Z_injective; done).
  assert (0 < inject_Z (Z.abs b))%Q as Hb0.
  { change 0%Q with (inject_Z 0). rewrite <- Zlt_Qlt. lia. }
  assert (forall z, (Qabs (inject_Z z / inject_Z b) == inject_Z (Z.abs z) / inject_Z (Z.abs b))%Q) as Habs.
  { intros z. unfold Qdiv. rewrite Qabs_Qmult, Qabs_Qinv. reflexivity. }
  assert (inject_Z n - inject_Z a / inject_Z b == inject_Z (n * b - a) / inject_Z b)%Q as Hd.
  { unfold Z.sub. rewrite inject_Z_plus, inject_Z_opp, inject_Z_mult. field. done. }
  assert (inject_Z n == inject_Z (n * b) / inject_Z b)%Q as Hn.
  { rewrite inject_Z_mult. field. done. }
  unfold rounds_half_away. rewrite Hd, Hn, !Habs.
  assert (forall z w, (inject_Z z / inject_Z (Z.abs b) <= inject_Z w / inject_Z (Z.abs b))%Q <-> z <= w) as Hcmp.
  { intros z w. rewrite Zle_Qle. split; intros H.
    - apply (Qmult_le_r _ _ (/ inject_Z (Z.abs b))); [by apply Qinv_lt_0_compat|done].
    - apply Qmult_le_compat_r; [done|]. by apply Qlt_le_weak, Qinv_lt_0_compat. }
  assert (forall z, (inject_Z z / inject_Z (Z.abs b) * 2 == inject_Z (2 * z) / inject_Z (Z.abs b))%Q) as H2.
  { intros z. rewrite inject_Z_mult. change (inject_Z 2) with 2%Q. field. lra. }
  assert (inject_Z (Z.abs b) / inject_Z (Z.abs b) == 1)%Q as H1 by (field; lra).
  split.
  - apply Hcmp in Hle. rewrite H1, <- H2 in Hle. lra.
  - intros Ht. apply Hcmp, Htie. apply Z.le_antisymm; [done|].
    apply Hcmp. rewrite H1, <- H2. lra.
Qed.

(** ** Division *)

(** Exponents far from the ends of [int32]: every number the service handles. *)
Definition moderate (d : Decimal) : Prop := - 2 ^ 29 <= d_exp d <= 2 ^ 29.

#[global] Instance moderate_dec d : Decision (moderate d).
Proof. unfold moderate. apply _. Defined.

Lemma dval_nonzero d : d_value d <> 0 <-> ~ (dval d == 0)%Q.
Proof.
  destruct (dval_sign d) as [[H V]|[[H V]|[H V]]]; unfold Sign in H; split; intros; try lia; lra.
Qed.

(** The integer division [QuoRem] performs: numerator and denominator. *)
Definition div_frac (d d2 : Decimal) (p : Z) : Z * Z :=
  let e := d_exp d - d_exp d2 + p in
  if e <? 0 then (d_value d, d_value d2 * 10 ^ (- e))
  else (10 ^ e * d_value d, d_value d2).

Lemma div_frac_dval d d2 p aa bb :
  d_value d2 <> 0 -> div_frac d d2 p = (aa, bb) ->
  bb <> 0 /\ (dval d / dval d2 * p10 p == inject_Z aa / inject_Z bb)%Q.
Proof.
  intros Hd2 E.
  assert (~ inject_Z (d_value d2) == 0)%Q as Hq.
  { change 0%Q with (inject_Z 0). by rewrite inject_Z_injective. }
  unfold div_frac in E. set (e := d_exp d - d_exp d2 + p) in *.
  assert (p10 (d_exp d) * p10 p == p10 e * p10 (d_exp d2))%Q as Hp.
  { rewrite <- !p10_add. replace (d_exp d + p) with (e + d_exp d2) by (unfold e; lia). reflexivity. }
  assert (dval d / dval d2 * p10 p == inject_Z (d_value d) * p10 e / inject_Z (d_value d2))%Q as Hl.
  { unfold dval. transitivity (inject_Z (d_value d) * (p10 (d_exp d) * p10 p) /
      (inject_Z (d_value d2) * p10 (d_exp d2)))%Q.
    - field. nonzero.
    - rewrite Hp. field. nonzero. }
  destruct (Z.ltb_spec e 0); injection E as <- <-; rewrite Hl.
  - pose proof (pow10_pos (- e) ltac:(lia)). split; [nia|].
    rewrite inject_Z_mult, <- (p10_Z (- e)) by lia.
    rewrite (p10_inv e). field. nonzero.
  - split; [done|]. rewrite inject_Z_mult, <- (p10_Z e) by lia.
    rewrite (Qmult_comm (p10 e)). reflexivity.
Qed.

Lemma moderate_w32 d z : moderate d -> - 2 ^ 21 <= z <= 2 ^ 21 -> w32 (z + d_exp d) = z + d_exp d.
Proof. unfold moderate. intros. apply w32_id. unfold in_i32, MinInt32, MaxInt32. lia. Qed.

Lemma QuoRem_frac d d2 p aa bb :
  moderate d -> moderate d2 -> 0 <= p <= 2 ^ 20 -> d_value d2 <> 0 ->
  div_frac d d2 p = (aa, bb) ->
  exists r, QuoRem d d2 p = Some (mkDecimal (Z.quot aa bb) (- p), r) /\
    d_value r = Z.rem aa bb /\
    Cmp (mkDecimal (Z.abs (d_value r) * 2) (w32 (d_exp r + p))) (Abs d2)
    = Z.sgn (2 * Z.abs (d_value r) - Z.abs bb).
Proof.
  intros Hd Hd2 Hp Hz E. unfold QuoRem.
  destruct (Z.eqb_spec (d_value d2) 0); [done|].
  rewrite (w32_id (- p)) by (unfold in_i32, MinInt32, MaxInt32; lia).
  unfold div_frac in E. replace (d_exp d - d_exp d2 - - p) with (d_exp d - d_exp d2 + p) by lia.
  set (e := d_exp d - d_exp d2 + p) in *.
  assert (in_i32 e) as He by (unfold moderate in *; unfold in_i32, MinInt32, MaxInt32, e; lia).
  unfold in_i32 in He.
  destruct (Z.ltb_spec MaxInt32 e); [lia|]. destruct (Z.ltb_spec e MinInt32); [lia|]. simpl.
  assert (d_exp (Abs d2) = d_exp d2) as Hae by (unfold Abs; destruct (negb _); done).
  assert (d_value (Abs d2) = Z.abs (d_value d2)) as Hav.
  { unfold Abs, IsNegative, Sign. destruct (Z.eqb_spec (Z.sgn (d_value d2)) (-1)); cbn [negb d_value]; lia. }
  destruct (Z.ltb_spec e 0) as [He0|He0]; injection E as <- <-; eexists; (split; [reflexivity|]);
    (split; [reflexivity|]); cbn [d_value d_exp]; set (r := Z.rem _ _).
  - rewrite (Z.add_comm (d_exp d)), (moderate_w32 d p) by (done || lia).
    rewrite Cmp_le_exp; cbn [d_exp d_value]; rewrite Hae; [|unfold e in *; lia].
    replace (d_exp d2 - (p + d_exp d)) with (- e) by (unfold e; lia).
    rewrite Hav, Z.abs_mul, (Z.abs_eq (10 ^ - e)) by (apply Z.lt_le_incl, pow10_pos; lia).
    f_equal. ring.
  - rewrite (moderate_w32 d2 (- p)) by (done || lia).
    replace (- p + d_exp d2 + p) with (0 + d_exp d2) by lia.
    rewrite (moderate_w32 d2 0) by (done || lia).
    rewrite Cmp_le_exp; cbn [d_exp d_value]; rewrite Hae; [|lia].
    replace (d_exp d2 - (0 + d_exp d2)) with 0 by lia.
    rewrite Hav. f_equal. ring.
Qed.

Lemma quot_round_half_away aa bb :
  bb <> 0 ->
  let r := Z.rem aa bb in
  let n := Z.quot aa bb +
    (if Z.sgn (2 * Z.abs r - Z.abs bb) <? 0 then 0
     else if Z.sgn aa * Z.sgn bb <? 0 then -1 else 1) in
  rounds_half_away (inject_Z aa / inject_Z bb) n.
Proof.
  intros Hb r n.
  pose proof (Z.quot_rem' aa bb) as Hqr. fold r in Hqr.
  pose proof (Z.rem_bound_abs aa bb Hb) as Hra. fold r in Hra.
  pose proof (Z.rem_sign_mul aa bb Hb) as Hrs. fold r in Hrs.
  assert (aa < 0 /\ r <= 0 \/ aa = 0 /\ r = 0 \/ 0 < aa /\ 0 <= r) as Hr.
  { destruct (Z.lt_trichotomy aa 0) as [?|[Ha|?]]; [left; nia| |right; right; nia].
    right; left. split; [done|]. unfold r. rewrite Ha. by apply Z.rem_0_l. }
  clear Hrs.
  assert (n * bb = aa - r +
    (if Z.sgn (2 * Z.abs r - Z.abs bb) <? 0 then 0
     else if Z.sgn aa * Z.sgn bb <? 0 then -1 else 1) * bb) as Hn by (unfold n; lia).
  clearbody n r.
  assert (Z.sgn aa * Z.sgn bb = Z.sgn (aa * bb)) as Hs by (symmetry; apply Z.sgn_mul).
  apply rounds_half_away_frac; [done|..]; rewrite Hn; clear Hn Hqr;
    destruct (Z.ltb_spec (Z.sgn (2 * Z.abs r - Z.abs bb)) 0); try lia;
    destruct (Z.ltb_spec (Z.sgn aa * Z.sgn bb) 0); destruct (Z.lt_total bb 0) as [?|[?|?]];
    nia.
Qed.

(** [DivRound] is the exact quotient rounded half away from zero to [p] places. *)
Lemma DivRound_spec d d2 p :
  moderate d -> moderate d2 -> 0 <= p <= 2 ^ 20 -> d_value d2 <> 0 ->
  exists q, DivRound d d2 p = Some q /\ d_exp q = - p /\
    rounds_half_away (dval d / dval d2 * p10 p) (d_value q).
Proof.
  intros Hd Hd2 Hp Hz. destruct (div_frac d d2 p) as [aa bb] eqn:E.
  destruct (div_frac_dval _ _ _ _ _ Hz E) as [Hb Hx].
  destruct (QuoRem_frac _ _ _ _ _ Hd Hd2 Hp Hz E) as (r & HQ & Hr & HC).
  pose proof (quot_round_half_away aa bb Hb) as Hround. cbv zeta in Hround. rewrite <- Hx in Hround.
  assert (Sign d * Sign d2 = Z.sgn aa * Z.sgn bb) as Hsg.
  { unfold div_frac in E. unfold Sign. destruct (_ <? 0) eqn:He; injection E as <- <-;
      apply Z.ltb_lt in He || apply Z.ltb_ge in He; rewrite Z.sgn_mul.
    - rewrite (Z.sgn_pos (10 ^ _)) by (apply pow10_pos; lia). ring.
    - rewrite (Z.sgn_pos (10 ^ _)) by (apply pow10_pos; lia). ring. }
  unfold DivRound. rewrite HQ, HC, Hr, Hsg in *.
  rewrite (w32_id (- p)) by (unfold in_i32, MinInt32, MaxInt32; lia).
  destruct (Z.sgn (2 * Z.abs (Z.rem aa bb) - Z.abs bb) <? 0).
  - eexists. split; [reflexivity|]. split; [done|]. by rewrite Z.add_0_r in Hround.
  - destruct (Z.sgn aa * Z.sgn bb <? 0); eexists; (split; [reflexivity|]);
      unfold Sub, Add, RescalePair; cbn [d_exp d_value New]; rewrite Z.ltb_irrefl; done.
Qed.

Lemma Qabs_scaled_le (a b : Q) e : (Qabs a <= b -> Qabs (a * p10 e) <= b * p10 e)%Q.
Proof.
  intros H. rewrite Qabs_Qmult, (Qabs_pos (p10 e)) by (apply Qlt_le_weak, p10_pos).
  apply Qmult_le_compat_r; [done | apply Qlt_le_weak, p10_pos].
Qed.

(** The error of a number rounded at [p] places. *)
Lemma rounds_error x p q :
  d_exp q = - p -> rounds_half_away (x * p10 p) (d_value q) ->
  (Qabs (dval q - x) <= (1 # 2) * p10 (- p))%Q.
Proof.
  intros He [Hle _]. apply (Qabs_scaled_le _ _ (- p)) in Hle.
  assert (dval q - x == (inject_Z (d_value q) - x * p10 p) * p10 (- p))%Q as ->; [|done].
  unfold dval. rewrite He.
  transitivity (inject_Z (d_value q) * p10 (- p) - x * (p10 (- p) * p10 p))%Q; [|ring].
  rewrite p10_opp. ring.
Qed.

(** A number with at most [p] places is its own rounding. *)
Lemma rounds_exact x p q n :
  d_exp q = - p -> rounds_half_away (x * p10 p) (d_value q) ->
  (x == inject_Z n * p10 (- p))%Q -> d_value q = n /\ (dval q == x)%Q.
Proof.
  intros He Hr Hx.
  assert (x * p10 p == inject_Z n)%Q as Hxp.
  { rewrite Hx, <- Qmult_assoc, p10_opp. ring. }
  rewrite Hxp in Hr.
  pose proof (rounds_half_away_unique _ _ _ Hr (rounds_half_away_int n)).
  split; [done|]. unfold dval. rewrite He, H. by rewrite Hx.
Qed.

Lemma Div_exp d d2 q : Div d d2 = Some q -> d_exp q = -16.
Proof.
  unfold Div, DivRound, QuoRem. destruct (d_value d2 =? 0); [done|].
  destruct (_ || _); [done|]. destruct (if _ <? 0 then _ else _) as [[aa bb] scalerest].
  assert (w32 (- DivisionPrecision) = -16) as -> by reflexivity.
  assert (forall v, d_exp (Sub (mkDecimal v (-16)) (New 1 (-16))) = -16) as Hsub.
  { intros v. unfold Sub. destruct (RescalePair _ _) as [r1 r2] eqn:E. apply RescalePair_spec in E.
    simpl in *. lia. }
  destruct (_ <? 0); [by intros [= <-]|]. destruct (_ <? 0); intros [= <-]; [by rewrite Hsub|].
  by rewrite Add_exp.
Qed.

Lemma Div_spec d d2 :
  moderate d -> moderate d2 -> d_value d2 <> 0 ->
  exists q, Div d d2 = Some q /\ d_exp q = -16 /\
    rounds_half_away (dval d / dval d2 * p10 16) (d_value q).
Proof. intros. by apply DivRound_spec. Qed.

(** ** [Round] and [Floor] *)

(** The last step of [Round]: the truncated coefficient [w], which has one more digit
    than is kept, loses that digit. *)
Definition round_last_digit (w : Z) : Z :=
  let v := if Z.sgn w <? 0 then w - 5 else w + 5 in
  let '(q, m) := (v / 10, v mod 10) in
  if (Z.sgn q <? 0) && negb (big_Cmp m 0 =? 0) then q + 1 else q.

Lemma round_last_digit_spec w :
  exists m, 0 <= m <= 9 /\
    ((0 <= w /\ 10 * round_last_digit w = w + 5 - m) \/
     (w < 0 /\ 10 * round_last_digit w = w - 5 + m)).
Proof.
  unfold round_last_digit. rewrite big_Cmp_sgn.
  destruct (Z.ltb_spec (Z.sgn w) 0) as [Hw|Hw].
  - pose proof (Z.div_mod (w - 5) 10 ltac:(lia)). pose proof (Z.mod_pos_bound (w - 5) 10 ltac:(lia)).
    destruct (Z.ltb_spec (Z.sgn ((w - 5) / 10)) 0); [|lia]. simpl.
    destruct (Z.eqb_spec (Z.sgn ((w - 5) mod 10 - 0)) 0); simpl.
    + exists 0. lia.
    + exists (10 - (w - 5) mod 10). lia.
  - pose proof (Z.div_mod (w + 5) 10 ltac:(lia)). pose proof (Z.mod_pos_bound (w + 5) 10 ltac:(lia)).
    destruct (Z.ltb_spec (Z.sgn ((w + 5) / 10)) 0); [lia|]. simpl.
    exists ((w + 5) mod 10). lia.
Qed.

Lemma round_truncated v k :
  0 < k -> rounds_half_away (inject_Z v / inject_Z (10 * k)) (round_last_digit (Z.quot v k)).
Proof.
  intros Hk. set (w := Z.quot v k).
  pose proof (Z.quot_rem' v k) as Hqr. fold w in Hqr.
  pose proof (Z.rem_bound_abs v k ltac:(lia)) as Hra.
  pose proof (Z.rem_sign_mul v k ltac:(lia)) as Hrs.
  set (r := Z.rem v k) in *.
  assert (v < 0 /\ r <= 0 /\ w <= 0 \/ 0 <= v /\ 0 <= r /\ 0 <= w) as Hsg.
  { destruct (Z.lt_ge_cases v 0); [left|right]; unfold w, r.
    - split; [done|]. split; [nia|]. fold w. assert (r <= 0) by nia. nia.
    - split; [done|]. split; [apply Z.rem_nonneg; lia|]. apply Z.quot_pos; lia. }
  destruct (Z.eq_dec w 0) as [Hw0|Hw0].
  { rewrite Hw0. change (round_last_digit 0) with 0.
    clearbody w r. apply rounds_half_away_frac; lia. }
  destruct (round_last_digit_spec w) as (m & Hm & Hn). set (n := round_last_digit w) in *.
  assert (0 <= k * m <= 9 * k) as Hkm by nia.
  assert (n * (10 * k) = k * (10 * n)) as Hnk by ring.
  clearbody n w r. clear Hrs.
  apply rounds_half_away_frac; [lia|..]; rewrite Hnk;
    destruct Hn as [[? Hn]|[? Hn]]; rewrite Hn, ?Z.mul_add_distr_l, ?Z.mul_sub_distr_l; lia.
Qed.

(** [Round] is rounding half away from zero to [places] places. *)
Lemma Round_spec d places :
  in_i32 (d_exp d) -> - 2 ^ 30 <= places <= 2 ^ 30 ->
  d_exp (Round d places) = - places /\
  rounds_half_away (dval d * p10 places) (d_value (Round d places)).
Proof.
  unfold in_i32. intros Hd Hp. unfold Round.
  rewrite (w32_id (- places)) by (unfold in_i32, MinInt32, MaxInt32; lia).
  rewrite (w32_id (- places - 1)) by (unfold in_i32, MinInt32, MaxInt32; lia).
  destruct (Z.eqb_spec (d_exp d) (- places)) as [He|He].
  { split; [done|]. unfold dval. rewrite He, <- Qmult_assoc, p10_opp, Qmult_1_r.
    apply rounds_half_away_int. }
  rewrite rescale_exp. replace (- places - 1 + 1) with (- places) by lia.
  rewrite (w32_id (- places)) by (unfold in_i32, MinInt32, MaxInt32; lia).
  set (w := d_value (rescale d (- places - 1))).
  assert (rounds_half_away (dval d * p10 places) (round_last_digit w)) as HR.
  { destruct (Z.lt_ge_cases (- places - 1) (d_exp d)) as [Hlt|Hge].
    - unfold w. rewrite rescale_value_down by lia.
      replace (d_exp d - (- places - 1)) with (1 + (d_exp d + places)) by lia.
      rewrite Z.pow_add_r by lia. set (u := d_value d * 10 ^ (d_exp d + places)).
      replace (d_value d * (10 ^ 1 * 10 ^ (d_exp d + places))) with (10 * u) by (unfold u; ring).
      assert (dval d * p10 places == inject_Z u)%Q as ->.
      { unfold dval, u. rewrite inject_Z_mult, <- p10_Z, p10_add by lia. ring. }
      destruct (round_last_digit_spec (10 * u)) as (m & ? & [[? ?]|[? ?]]);
        replace (round_last_digit (10 * u)) with u by lia; apply rounds_half_away_int.
    - set (k := 10 ^ (- places - 1 - d_exp d)).
      assert (0 < k) by (apply pow10_pos; lia).
      assert (w = Z.quot (d_value d) k) as ->.
      { destruct (Z.eq_dec (d_exp d) (- places - 1)) as [Hx|].
        - unfold w, k, rescale. rewrite Hx, Z.eqb_refl, Z.sub_diag.
          cbn [d_value]. by rewrite Z.quot_1_r.
        - unfold w. by rewrite rescale_value_up by lia. }
      assert (dval d * p10 places == inject_Z (d_value d) / inject_Z (10 * k))%Q as ->;
        [|by apply round_truncated].
      assert (10 * k = 10 ^ (- (d_exp d + places))) as ->.
      { unfold k. replace (- (d_exp d + places)) with (1 + (- places - 1 - d_exp d)) by lia.
        by rewrite Z.pow_add_r by lia. }
      rewrite <- p10_Z by lia. unfold dval. rewrite <- Qmult_assoc, <- p10_add.
      by rewrite (p10_inv (d_exp d + places)). }
  unfold round_last_digit in HR. cbv zeta beta iota in HR |- *.
  destruct (_ && _); done.
Qed.

Lemma Floor_exp d : 0 <= d_exp (Floor d).
Proof. unfold Floor. destruct (Z.leb_spec 0 (d_exp d)); [done | reflexivity]. Qed.

(** [Floor] is the integer part: the largest integer not above. *)
Lemma Floor_spec d :
  exists n, (dval (Floor d) == inject_Z n)%Q /\
    (inject_Z n <= dval d)%Q /\ (dval d < inject_Z (n + 1))%Q.
Proof.
  unfold Floor. destruct (Z.leb_spec 0 (d_exp d)) as [He|He].
  - exists (d_value d * 10 ^ d_exp d).
    assert (dval d == inject_Z (d_value d * 10 ^ d_exp d))%Q as ->.
    { unfold dval. by rewrite inject_Z_mult, p10_Z. }
    rewrite <- Zle_Qle, <- Zlt_Qlt. repeat split; lia || reflexivity.
  - set (k := 10 ^ (- d_exp d)). assert (0 < k) as Hk by (apply pow10_pos; lia).
    exists (d_value d / k).
    assert (dval d == inject_Z (d_value d) / inject_Z k)%Q as ->.
    { unfold dval, k. rewrite <- p10_Z by lia. by rewrite (p10_inv (d_exp d)). }
    assert (0 < inject_Z k)%Q as Hkq by (change 0%Q with (inject_Z 0); by rewrite <- Zlt_Qlt).
    pose proof (Z.div_mod (d_value d) k ltac:(lia)). pose proof (Z.mod_pos_bound (d_value d) k Hk).
    split; [unfold dval; cbn [d_value d_exp]; rewrite p10_0; ring|].
    split.
    + apply Qle_shift_div_l; [done|]. rewrite <- inject_Z_mult, <- Zle_Qle. nia.
    + apply Qlt_shift_div_r; [done|]. rewrite <- inject_Z_mult, <- Zlt_Qlt. nia.
Qed.
