(* ===== verification/DecimalText.v ===== *)
(** * Decimals as text

    [String] and [StringFixed] are read back by [NewFromString]: printing loses no
    digit, and what is printed with a fixed number of places is exactly the rounded
    number. *)

From stdpp Require Import base tactics list strings.
From Stdlib Require Import ZArith QArith Lia Lqa Ascii.
From S2P Require Import Prelude GoStrings Decimal DecimalSpec.

#[local] Open Scope string_scope.
#[local] Open Scope Z_scope.

(** ** Reading *)

Definition sign_string (neg : bool) : string := if neg then "-" else "".
Definition signed (neg : bool) (z : Z) : Z := if neg then - z else z.

Lemma parse_signed_sign neg i v :
  i <> "" -> str_forallb is_digit i = true -> parse_digits 0 i = Some v ->
  parse_signed (sign_string neg +:+ i) = Some (signed neg v).
Proof.
  intros Hi Hd Hv. destruct neg.
  - change (parse_signed (String "-" i) = Some (- v)).
    rewrite parse_signed_minus by done. by rewrite Hv.
  - change (parse_signed i = Some v). by rewrite parse_signed_digits.
Qed.

Lemma parse_unsigned_bound s v :
  parse_unsigned s = Some v -> 0 <= v < 10 ^ str_len s.
Proof.
  destruct s as [|c s]; [done|]. intros H.
  apply parse_digits_bound in H; lia.
Qed.

Lemma parse_signed_bound s v :
  parse_signed s = Some v -> - 10 ^ str_len s < v < 10 ^ str_len s.
Proof.
  assert (forall c s', 10 ^ str_len s' <= 10 ^ str_len (String c s')) as Hmono.
  { intros c s'. apply Z.pow_le_mono_r; [lia|]. unfold str_len. simpl. lia. }
  destruct s as [|c s]; [done|]. unfold parse_signed.
  destruct (Ascii.eqb c "+"); [|destruct (Ascii.eqb c "-")].
  - intros H%parse_unsigned_bound. specialize (Hmono c s). lia.
  - destruct (parse_unsigned s) eqn:E; [|done]. apply parse_unsigned_bound in E.
    intros [= <-]. specialize (Hmono c s). lia.
  - intros H%parse_unsigned_bound. lia.
Qed.

(** The fast path for at most 18 bytes agrees with the general one. *)
Lemma read_int_fast s :
  str_len s <= 18 -> ParseInt s 64 = parse_signed s.
Proof.
  intros Hl. unfold ParseInt. destruct (parse_signed s) as [v|] eqn:E; [|done].
  apply parse_signed_bound in E.
  assert (10 ^ str_len s <= 10 ^ 18) by (apply Z.pow_le_mono_r; lia).
  destruct (Z.leb_spec (- 2 ^ (64 - 1)) v); [|lia].
  destruct (Z.leb_spec v (2 ^ (64 - 1) - 1)); [done|lia].
Qed.

Lemma read_int_any s :
  (if str_len s <=? 18 then ParseInt s 64 else parse_signed s) = parse_signed s.
Proof. destruct (Z.leb_spec (str_len s) 18); [by apply read_int_fast | done]. Qed.

(** Digits and a sign hold neither a point nor an exponent mark. *)
Lemma digit_not_mark c :
  is_digit c = true -> is_dot c = false /\ is_exp_mark c = false.
Proof. destruct c as [[] [] [] [] [] [] [] []]; vm_compute; auto. Qed.

Definition plain (c : ascii) : bool := negb (is_dot c) && negb (is_exp_mark c).

Lemma digit_plain c : is_digit c = true -> plain c = true.
Proof. intros [H1 H2]%digit_not_mark. unfold plain. by rewrite H1, H2. Qed.

Lemma plain_number neg i :
  str_forallb is_digit i = true -> str_forallb plain (sign_string neg +:+ i) = true.
Proof.
  intros Hi. rewrite str_forallb_app. apply andb_true_intro. split; [by destruct neg|].
  by apply (str_forallb_impl is_digit); [apply digit_plain|].
Qed.

Lemma plain_no_dot s :
  str_forallb plain s = true -> str_forallb (fun c => negb (is_dot c)) s = true.
Proof. apply str_forallb_impl. intros c [Hc _]%andb_prop. done. Qed.

Lemma plain_no_mark s :
  str_forallb plain s = true -> str_forallb (fun c => negb (is_exp_mark c)) s = true.
Proof. apply str_forallb_impl. intros c [_ Hc]%andb_prop. done. Qed.

Lemma NewFromString_int neg i v :
  i <> "" -> str_forallb is_digit i = true -> parse_digits 0 i = Some v ->
  NewFromString (sign_string neg +:+ i) = Ok (mkDecimal (signed neg v) 0).
Proof.
  intros Hi Hd Hv. pose proof (plain_number neg i Hd) as Hp.
  unfold NewFromString. rewrite str_index_none by (by apply plain_no_mark).
  unfold parse_mantissa. rewrite str_index_none by (by apply plain_no_dot).
  by rewrite read_int_any, (parse_signed_sign _ _ _ Hi Hd Hv).
Qed.

Lemma NewFromString_fraction neg i f v :
  i <> "" -> str_forallb is_digit i = true -> str_forallb is_digit f = true ->
  parse_digits 0 (i +:+ f) = Some v -> str_len f <= 2 ^ 31 ->
  NewFromString (sign_string neg +:+ i +:+ "." +:+ f) =
  Ok (mkDecimal (signed neg v) (- str_len f)).
Proof.
  intros Hi Hd Hf Hv Hl. pose proof (plain_number neg i Hd) as Hp.
  assert (str_forallb plain f = true) as Hpf by (by apply (str_forallb_impl is_digit); [apply digit_plain|]).
  unfold NewFromString. rewrite str_index_none.
  2:{ rewrite <- str_app_assoc, str_forallb_app, (plain_no_mark _ Hp). simpl.
      by apply plain_no_mark. }
  unfold parse_mantissa. rewrite <- str_app_assoc.
  change ("." +:+ f) with (String "." f).
  rewrite (str_index_app is_dot) by (done || by apply plain_no_dot).
  set (s := sign_string neg +:+ i).
  assert (str_drop (S (String.length s)) (s +:+ String "." f) = f) as ->.
  { change (String "." f) with ("." +:+ f). rewrite <- str_app_assoc.
    replace (S (String.length s)) with (String.length (s +:+ ".")); [apply str_drop_app|].
    rewrite str_length_app. simpl. lia. }
  rewrite str_take_app, str_index_none by (by apply plain_no_dot).
  rewrite read_int_any. unfold s. rewrite str_app_assoc.
  rewrite (parse_signed_sign neg (i +:+ f) v); [|by destruct i|by rewrite str_forallb_app, Hd|done].
  unfold MinInt32, MaxInt32. assert (0 <= str_len f) by (unfold str_len; lia).
  destruct (Z.ltb_spec (0 - str_len f) (- 2 ^ 31)); [lia|].
  destruct (Z.ltb_spec (2 ^ 31 - 1) (0 - str_len f)); [lia|]. done.
Qed.

(** ** Printing *)

(** The integer and fractional digits [string] cuts a coefficient into, before
    trailing zeros are trimmed. *)
Definition split_digits (d : Decimal) : string * string :=
  let str := digits_of (Z.to_N (Z.abs (d_value d))) in
  if - d_exp d <? str_len str
  then (str_take (Z.to_nat (str_len str + d_exp d)) str,
        str_drop (Z.to_nat (str_len str + d_exp d)) str)
  else ("0", str_repeat "0" (Z.to_nat (- d_exp d - str_len str)) +:+ str).

Lemma split_digits_spec d i f :
  d_exp d < 0 -> split_digits d = (i, f) ->
  i <> "" /\ str_forallb is_digit i = true /\ str_forallb is_digit f = true /\
  parse_digits 0 (i +:+ f) = Some (Z.abs (d_value d)) /\ str_len f = - d_exp d.
Proof.
  intros He. unfold split_digits.
  set (str := digits_of (Z.to_N (Z.abs (d_value d)))).
  assert (str_forallb is_digit str = true) as Hs by apply digits_of_digits.
  assert (parse_digits 0 str = Some (Z.abs (d_value d))) as Hv.
  { unfold str. rewrite parse_digits_of. f_equal. lia. }
  destruct (Z.ltb_spec (- d_exp d) (str_len str)) as [Hl|Hl]; intros [= <- <-].
  - set (n := Z.to_nat (str_len str + d_exp d)).
    pose proof (str_take_drop n str) as Htd.
    assert (str_forallb is_digit (str_take n str) && str_forallb is_digit (str_drop n str) = true) as [H1 H2]%andb_prop.
    { by rewrite <- str_forallb_app, Htd. }
    repeat split; try done.
    + intros H0. apply (f_equal String.length) in H0. rewrite str_length_take in H0.
      unfold str_len in *. simpl in H0. lia.
    + by rewrite Htd.
    + unfold str_len in *. rewrite str_length_drop. lia.
  - split; [done|]. split; [done|]. split.
    { rewrite str_forallb_app, Hs. by rewrite str_forallb_repeat. }
    split.
    + change ("0" +:+ ?x) with (String "0" x). simpl parse_digits.
      change (byte_code "0" - 48) with 0.
      rewrite parse_digits_app, parse_digits_zeros, Z.mul_0_l. done.
    + unfold str_len in *. rewrite str_length_app, str_length_repeat. lia.
Qed.

Lemma to_string_neg_exp d b :
  d_exp d < 0 ->
  to_string d b =
  let '(i, f) := split_digits d in
  let f := if b then TrimRight f "0" else f in
  sign_string (d_value d <? 0) +:+ (if 0 <? str_len f then i +:+ "." +:+ f else i).
Proof.
  intros He. unfold to_string. destruct (Z.leb_spec 0 (d_exp d)); [lia|].
  unfold split_digits. cbv zeta. destruct (_ <? str_len _).
  all: destruct (d_value d); simpl Z.sgn; simpl; done.
Qed.

(** Trimming zeros of a fraction divides out powers of ten. *)
Lemma trimmed_fraction i f v :
  str_forallb is_digit f = true -> parse_digits 0 (i +:+ f) = Some v ->
  exists v' n, parse_digits 0 (i +:+ TrimRight f "0") = Some v' /\
    str_forallb is_digit (TrimRight f "0") = true /\
    v = v' * 10 ^ Z.of_nat n /\ str_len f = str_len (TrimRight f "0") + Z.of_nat n.
Proof.
  intros Hf Hv. unfold TrimRight. destruct (str_trim_right_split "0" f) as [n Hn].
  set (t := str_trim_right (Ascii.eqb "0") f) in *. rewrite Hn in Hf, Hv |- *.
  rewrite <- str_app_assoc, parse_digits_app in Hv.
  rewrite str_forallb_app in Hf. apply andb_prop in Hf as [Ht _].
  destruct (parse_digits 0 (i +:+ t)) as [v'|]; [|done].
  rewrite parse_digits_zeros in Hv. injection Hv as <-.
  exists v', n. repeat split; [done|]. unfold str_len.
  rewrite str_length_app, str_length_repeat. lia.
Qed.

Lemma signed_abs v : signed (v <? 0) (Z.abs v) = v.
Proof. unfold signed. destruct (Z.ltb_spec v 0); lia. Qed.

Lemma signed_mul b x y : signed b (x * y) = signed b x * y.
Proof. destruct b; simpl; lia. Qed.

Lemma FormatInt_sign z : FormatInt z = sign_string (z <? 0) +:+ digits_of (Z.to_N (Z.abs z)).
Proof.
  unfold FormatInt. destruct (Z.ltb_spec z 0).
  - by rewrite Z.abs_neq by lia.
  - by rewrite Z.abs_eq by lia.
Qed.

Lemma FormatInt_read z : NewFromString (FormatInt z) = Ok (mkDecimal z 0).
Proof.
  rewrite FormatInt_sign, (NewFromString_int _ _ (Z.abs z)), signed_abs; [done|..].
  - apply digits_of_nonempty.
  - apply digits_of_digits.
  - rewrite parse_digits_of. f_equal. lia.
Qed.

(** A decimal with fractional places is printed untrimmed and read back as it was. *)
Lemma to_string_exact d :
  in_i32 (d_exp d) -> d_exp d <= 0 -> NewFromString (to_string d false) = Ok d.
Proof.
  unfold in_i32, MinInt32. intros Hr He. destruct (Z.eq_dec (d_exp d) 0) as [H0|].
  - destruct d as [v e]. simpl in H0. subst e. apply FormatInt_read.
  - rewrite to_string_neg_exp by lia. destruct (split_digits d) as [i f] eqn:E.
    apply split_digits_spec in E as (Hi & Hd & Hf & Hv & Hl); [|lia].
    cbv zeta. destruct (Z.ltb_spec 0 (str_len f)); [|lia].
    rewrite (NewFromString_fraction _ _ _ _ Hi Hd Hf Hv) by lia.
    rewrite signed_abs, Hl, Z.opp_involutive. by destruct d.
Qed.

(** What [String] prints, [NewFromString] reads back as the same number. *)
Lemma NewFromString_exp s d : NewFromString s = Ok d -> in_i32 (d_exp d).
Proof.
  assert (forall v e, parse_mantissa v e = Ok d -> in_i32 (d_exp d)) as Hm.
  { intros v e. unfold parse_mantissa. cbv zeta.
    match goal with |- context [match ?scan with Some _ => _ | None => Err _ end] =>
      destruct scan as [[i e']|]; [|done] end.
    destruct (if str_len i <=? 18 then _ else _) as [n|]; [|done].
    destruct (Z.ltb_spec e' MinInt32), (Z.ltb_spec MaxInt32 e'); try done. intros [= <-]. by split. }
  unfold NewFromString. destruct (str_index is_exp_mark s); [|apply Hm].
  destruct (ParseInt _ 32); [apply Hm|done].
Qed.

Lemma to_String_read d :
  in_i32 (d_exp d) -> exists d', NewFromString (to_String d) = Ok d' /\ deq d' d.
Proof.
  intros Hr. unfold to_String. destruct (Z.le_gt_cases 0 (d_exp d)) as [He|He].
  - unfold to_string. destruct (Z.leb_spec 0 (d_exp d)); [|lia].
    rewrite FormatInt_read. eexists. split; [reflexivity|].
    unfold deq. rewrite <- (rescale_dval d 0) by done. unfold dval. by rewrite rescale_exp.
  - rewrite to_string_neg_exp by lia. destruct (split_digits d) as [i f] eqn:E.
    apply split_digits_spec in E as (Hi & Hd & Hf & Hv & Hl); [|lia].
    destruct (trimmed_fraction _ _ _ Hf Hv) as (v' & n & Hv' & Ht & Hval & Hlen).
    cbv zeta. unfold in_i32, MinInt32 in Hr.
    set (t := TrimRight f "0") in *.
    assert (0 <= str_len t) as Ht0 by (unfold str_len; lia).
    assert (deq (mkDecimal (signed (d_value d <? 0) v') (- str_len t)) d) as Hdeq.
    { unfold deq, dval. cbn [d_value d_exp].
      rewrite (scale_down _ (- str_len t) (d_exp d)) by lia.
      replace (- str_len t - d_exp d) with (Z.of_nat n) by lia.
      by rewrite <- signed_mul, <- Hval, signed_abs. }
    eexists. split; [|exact Hdeq].
    destruct (Z.ltb_spec 0 (str_len t)).
    + by rewrite (NewFromString_fraction _ _ _ _ Hi Hd Ht Hv') by lia.
    + assert (t = "") as Ht1 by (destruct t; [done | unfold str_len in *; simpl in *; lia]).
      rewrite Ht1 in *. rewrite str_app_nil_r in Hv'.
      by rewrite (NewFromString_int _ _ _ Hi Hd Hv').
Qed.

(** [StringFixed] prints the rounded number exactly. *)
Lemma StringFixed_read d places :
  in_i32 (d_exp d) -> 0 <= places <= 2 ^ 30 ->
  NewFromString (StringFixed d places) = Ok (Round d places).
Proof.
  intros Hr Hp. destruct (Round_spec d places Hr ltac:(lia)) as [He _].
  apply to_string_exact; unfold in_i32, MinInt32, MaxInt32 in *; lia.
Qed.
