(* ===== verification/DecimalTheorems.v ===== *)
(** * What the decimal package guarantees

    The properties of the arithmetic and of the text forms that the service relies on,
    against exact rational numbers. *)

From stdpp Require Import base tactics list strings.
From Stdlib Require Import ZArith QArith Qabs Lia Lqa.
From S2P Require Import Prelude GoStrings Decimal DecimalSpec DecimalText.

#[local] Open Scope Z_scope.

(** C34: [Div] is within half of 1e-16 of the true quotient, and exact when the quotient has
    at most 16 decimals. *)
Theorem Div_accuracy d d2 :
  moderate d -> moderate d2 -> ~ (dval d2 == 0)%Q ->
  exists q, Div d d2 = Some q /\
    (Qabs (dval q - dval d / dval d2) <= (1 # 2) * p10 (- (16)))%Q /\
    (forall n, (dval d / dval d2 == inject_Z n * p10 (- (16)))%Q ->
       (dval q == dval d / dval d2)%Q).
Proof.
  intros Hd Hd2 Hz. destruct (Div_spec d d2 Hd Hd2) as (q & Hq & He & Hr).
  { by apply dval_nonzero. }
  exists q. split; [done|]. split; [by apply (rounds_error _ 16)|].
  intros n Hn. apply (rounds_exact _ 16 q n He Hr Hn).
Qed.

(** C33: text and back.  [String] reads back to an equal number; [StringFixed] reads back to
    exactly the number rounded half away from zero at the given places. *)
Theorem decimal_text_roundtrip d places :
  in_i32 (d_exp d) -> 0 <= places <= 2 ^ 30 ->
  (exists d', NewFromString (to_String d) = Ok d' /\ deq d' d) /\
  (exists r, NewFromString (StringFixed d places) = Ok r /\ d_exp r = - places /\
     rounds_half_away (dval d * p10 places) (d_value r)).
Proof.
  intros Hr Hp. split; [by apply to_String_read|].
  exists (Round d places). split; [by apply StringFixed_read|]. apply Round_spec; [done|lia].
Qed.

(** C35: addition, subtraction and comparison are those of the numbers, without rounding and
    for any exponents. *)
Theorem decimal_arithmetic_exact d d2 :
  (dval (Add d d2) == dval d + dval d2)%Q /\
  (dval (Sub d d2) == dval d - dval d2)%Q /\
  (forall m, Mul d d2 = Some m -> (dval m == dval d * dval d2)%Q) /\
  (LessThan d d2 = true <-> (dval d < dval d2)%Q) /\
  (LessThanOrEqual d d2 = true <-> (dval d <= dval d2)%Q) /\
  (Equal d d2 = true <-> (dval d == dval d2)%Q) /\
  (IsZero (Sub d d2) = Equal d d2).
Proof.
  split; [apply Add_dval|]. split; [apply Sub_dval|]. split; [apply Mul_dval|].
  split; [apply LessThan_spec|]. split; [apply LessThanOrEqual_spec|].
  split; [apply Equal_spec|]. apply eq_true_iff_eq.
  rewrite IsZero_spec, Equal_spec, Sub_dval. unfold deq. split; intros; lra.
Qed.
