(* ===== verification/Float64.v ===== *)
(** * JSON numbers through [float64]

    A JSON number decoded into an [interface{}] becomes a [float64], and
    [json.Marshal] writes that float in the fewest digits that read back to it.  Both
    are computed here on integers: a non-negative float is [m * 2 ^ e] with a mantissa of at
    most 53 bits.  Integers below [2 ^ 53] survive the passage. *)

From stdpp Require Import base tactics list strings.
From Stdlib Require Import ZArith Lia Ascii.
From S2P Require Import Prelude GoStrings Decimal DecimalText.

#[local] Open Scope string_scope.
#[local] Open Scope Z_scope.

(** ** Rounding to the nearest float *)

(** The magnitude [mant * 2 ^ exp]. *)
Record Magnitude := mkMagnitude { mg_mant : Z; mg_exp : Z }.

#[global] Instance Magnitude_eq_dec : EqDecision Magnitude.
Proof. solve_decision. Defined.

(** [n / d] in units of [2 ^ e], rounded down, with the remainder and its unit. *)
Definition in_units (n d e : Z) : Z * Z * Z :=
  let n' := if 0 <=? e then n else n * 2 ^ (- e) in
  let d' := if 0 <=? e then d * 2 ^ e else d in
  (n' / d', n' mod d', d').

(** Round half to even. *)
Definition round_even (n d e : Z) : Z :=
  let '(q, r, u) := in_units n d e in
  match 2 * r ?= u with
  | Lt => q
  | Gt => q + 1
  | Eq => if Z.even q then q else q + 1
  end.

(** The exponent for which [n / d] has a mantissa of 53 bits, or that of the subnormals. *)
Definition float_exp (n d : Z) : Z :=
  let e := Z.log2 n - Z.log2 d - 52 in
  let '(q, _, _) := in_units n d e in
  Z.max (-1074) (if q <? 2 ^ 52 then e - 1 else e).

(** The float nearest to [n / d]; [None] when it is out of range. *)
Definition nearest (n d : Z) : option Magnitude :=
  if n =? 0 then Some (mkMagnitude 0 (-1074))
  else
    let e := float_exp n d in
    let q := round_even n d e in
    let f := if q =? 2 ^ 53 then mkMagnitude (2 ^ 52) (e + 1) else mkMagnitude q e in
    if 971 <? mg_exp f then None else Some f.

(** [c * 10 ^ p] as a fraction. *)
Definition decimal_fraction (c p : Z) : Z * Z :=
  if 0 <=? p then (c * 10 ^ p, 1) else (c, 10 ^ (- p)).

Definition nearest_decimal (c p : Z) : option Magnitude :=
  let '(n, d) := decimal_fraction c p in nearest n d.

Definition float_fraction (f : Magnitude) : Z * Z :=
  if 0 <=? mg_exp f then (mg_mant f * 2 ^ mg_exp f, 1) else (mg_mant f, 2 ^ (- mg_exp f)).

(** ** The shortest decimal *)

Fixpoint digit_count (fuel : nat) (n : Z) : Z :=
  match fuel with
  | O => 1
  | S fuel => if n <? 10 then 1 else 1 + digit_count fuel (n / 10)
  end.

Definition count_digits (n : Z) : Z := digit_count (Z.to_nat (Z.log2 n)) n.

(** The [x] with [10 ^ (x - 1) <= n / d < 10 ^ x]. *)
Definition decimal_point (n d : Z) : Z :=
  if d <=? n then count_digits (n / d) else 1 - count_digits ((d - 1) / n).

(** A decimal [c * 10 ^ p] that reads back as [f], of the two around [f] in units of
    [10 ^ p] the closer one. *)
Definition round_trip (f : Magnitude) (p : Z) : option Z :=
  let '(n, d) := float_fraction f in
  let '(n, d) := if 0 <=? p then (n, d * 10 ^ p) else (n * 10 ^ (- p), d) in
  let c := n / d in
  let reads c := bool_decide (nearest_decimal c p = Some f) in
  match reads c, reads (c + 1) with
  | true, true => Some (if 2 * (n mod d) <? d then c else c + 1)
  | true, false => Some c
  | false, true => Some (c + 1)
  | false, false => None
  end.

(** Digits and exponent of the shortest decimal, tried from [k] digits on; 17 suffice. *)
Fixpoint shortest_from (fuel : nat) (f : Magnitude) (x k : Z) : Z * Z :=
  match fuel with
  | O => (0, 0)
  | S fuel =>
      match round_trip f (x - k) with
      | Some c => if c =? 10 ^ k then (1, x) else (c, x - k)
      | None => shortest_from fuel f x (k + 1)
      end
  end.

Definition shortest (f : Magnitude) : Z * Z :=
  let '(n, d) := float_fraction f in shortest_from 17 f (decimal_point n d) 1.

(** ** What [json.Marshal] writes for a float *)

(** Scientific notation: one digit, the rest, an exponent of two digits or more, of
    which [json.Marshal] drops the zero of a negative one. *)
Definition scientific (c p : Z) : string :=
  let ds := digits_of (Z.to_N c) in
  let x := p + str_len ds - 1 in
  let rest := str_drop 1 ds in
  str_take 1 ds +:+ (if String.eqb rest "" then "" else "." +:+ rest) +:+ "e"
    +:+ (if x <? 0 then "-" else "+") +:+ digits_of (Z.to_N (Z.abs x)).

(** [floatEncoder]: positional between [1e-6] and [1e21]. *)
Definition magnitude_text (f : Magnitude) : string :=
  if mg_mant f =? 0 then "0"
  else
    let '(c, p) := shortest f in
    let '(n, d) := float_fraction f in
    let small :=
      match nearest 1 (10 ^ 6) with
      | Some t => let '(tn, td) := float_fraction t in n * td <? tn * d
      | None => false
      end in
    if small || (10 ^ 21 * d <=? n) then scientific c p else to_String (mkDecimal c p).

(** The JSON number [+-c * 10 ^ p], decoded into an [interface{}] and marshaled again;
    [None] is the decoder's range error. *)
Definition number_text (neg : bool) (c : N) (p : Z) : option string :=
  match nearest_decimal (Z.of_N c) p with
  | Some f => Some ((if neg then "-" else "") +:+ magnitude_text f)
  | None => None
  end.

Example text_tenth : number_text false 1 (-1) = Some "0.1".
Proof. vm_compute. reflexivity. Qed.
Example text_order_id : number_text false 12345678 0 = Some "12345678".
Proof. vm_compute. reflexivity. Qed.
Example text_beyond : number_text false 9007199254740993 0 = Some "9007199254740992".
Proof. vm_compute. reflexivity. Qed.
Example text_large : number_text false 1 23 = Some "1e+23".
Proof. vm_compute. reflexivity. Qed.
Example text_small : number_text true 123 (-9) = Some "-1.23e-7".
Proof. vm_compute. reflexivity. Qed.
Example text_price : number_text false 6425012345678 (-8) = Some "64250.12345678".
Proof. vm_compute. reflexivity. Qed.
Example text_overflow : number_text false 18 307 = None.
Proof. vm_compute. reflexivity. Qed.

(** ** Integers below [2 ^ 53] survive *)

(** The float that is the integer [n]. *)
Lemma in_units_int n e : e <= 0 -> in_units n 1 e = (n * 2 ^ (- e), 0, 1).
Proof.
  intros He. unfold in_units. destruct (Z.leb_spec 0 e).
  - assert (e = 0) as -> by lia. change (1 * 2 ^ 0) with 1. change (2 ^ - 0) with 1.
    by rewrite Z.div_1_r, Z.mod_1_r, Z.mul_1_r.
  - by rewrite Z.div_1_r, Z.mod_1_r.
Qed.

Lemma float_exp_small n : 0 < n < 2 ^ 53 -> float_exp n 1 = Z.log2 n - 52.
Proof.
  intros Hn. unfold float_exp. change (Z.log2 1) with 0. rewrite Z.sub_0_r.
  assert (0 <= Z.log2 n < 53) as Hl.
  { split; [apply Z.log2_nonneg|]. apply Z.log2_lt_pow2; lia. }
  rewrite in_units_int by lia.
  pose proof (Z.log2_spec n ltac:(lia)) as [Hlo _].
  destruct (Z.ltb_spec (n * 2 ^ (- (Z.log2 n - 52))) (2 ^ 52)) as [Hlt|]; [|lia].
  exfalso. replace 52 with (Z.log2 n + - (Z.log2 n - 52)) in Hlt at 2 by lia.
  rewrite Z.pow_add_r in Hlt by lia.
  apply Z.mul_lt_mono_pos_r in Hlt; [lia|]. apply Z.pow_pos_nonneg; lia.
Qed.

Lemma round_even_exact n d e q u : in_units n d e = (q, 0, u) -> 0 < u -> round_even n d e = q.
Proof.
  intros E Hu. unfold round_even. rewrite E. rewrite Z.mul_0_r.
  by rewrite (proj2 (Z.compare_lt_iff 0 u)).
Qed.

Lemma nearest_small n :
  0 < n < 2 ^ 53 ->
  nearest n 1 = Some (mkMagnitude (n * 2 ^ (52 - Z.log2 n)) (Z.log2 n - 52)).
Proof.
  intros Hn. unfold nearest. destruct (Z.eqb_spec n 0); [lia|].
  rewrite float_exp_small by done.
  assert (0 <= Z.log2 n < 53) as Hl.
  { split; [apply Z.log2_nonneg|]. apply Z.log2_lt_pow2; lia. }
  rewrite (round_even_exact _ _ _ (n * 2 ^ (- (Z.log2 n - 52))) 1); [|apply in_units_int; lia|lia].
  replace (- (Z.log2 n - 52)) with (52 - Z.log2 n) by lia.
  pose proof (Z.log2_spec n ltac:(lia)) as [_ Hhi].
  destruct (Z.eqb_spec (n * 2 ^ (52 - Z.log2 n)) (2 ^ 53)) as [Heq|_].
  - exfalso. replace 53 with (Z.succ (Z.log2 n) + (52 - Z.log2 n)) in Heq by lia.
    rewrite Z.pow_add_r in Heq by lia. apply Z.mul_cancel_r in Heq; [lia|].
    apply Z.pow_nonzero; lia.
  - simpl. destruct (Z.ltb_spec 971 (Z.log2 n - 52)); [lia|done].
Qed.

(** An integer of [2 ^ 53] or more is rounded to one. *)
Lemma nearest_large n f : 2 ^ 53 <= n -> nearest n 1 = Some f -> 0 < mg_exp f.
Proof.
  intros Hn. unfold nearest. destruct (Z.eqb_spec n 0); [lia|].
  assert (1 <= float_exp n 1) as He.
  { unfold float_exp. change (Z.log2 1) with 0. rewrite Z.sub_0_r.
    assert (53 <= Z.log2 n) as Hl by (apply Z.log2_le_pow2; lia).
    unfold in_units. destruct (Z.leb_spec 0 (Z.log2 n - 52)); [|lia].
    pose proof (Z.log2_spec n ltac:(lia)) as [Hlo _].
    destruct (Z.ltb_spec (n / (1 * 2 ^ (Z.log2 n - 52))) (2 ^ 52)) as [Hlt|]; [|lia].
    rewrite Z.mul_1_l in Hlt. apply Z.lt_nge in Hlt. contradict Hlt.
    apply Z.div_le_lower_bound; [apply Z.pow_pos_nonneg; lia|].
    rewrite <- Z.pow_add_r by lia. by replace (Z.log2 n - 52 + 52) with (Z.log2 n) by lia. }
  destruct (_ =? 2 ^ 53); simpl.
  - destruct (_ <? _); [done|]. intros [= <-]. simpl. lia.
  - destruct (_ <? _); [done|]. intros [= <-]. simpl. lia.
Qed.

Lemma nearest_small_inj n m :
  0 < n < 2 ^ 53 -> 0 <= m -> nearest m 1 = nearest n 1 -> m = n.
Proof.
  intros Hn Hm He. rewrite (nearest_small n Hn) in He.
  assert (Z.log2 n < 53) as Hl by (apply Z.log2_lt_pow2; lia).
  destruct (Z.lt_ge_cases m (2 ^ 53)) as [Hlt|Hge].
  2: { apply nearest_large in He; [simpl in He; lia|done]. }
  destruct (Z.eq_dec m 0) as [->|Hm0].
  { unfold nearest in He. simpl in He. injection He as _ He. pose proof (Z.log2_nonneg n). lia. }
  rewrite nearest_small in He by lia. injection He as Hmant Hexp.
  replace (Z.log2 m) with (Z.log2 n) in Hmant by lia.
  apply Z.mul_cancel_r in Hmant; [done|]. apply Z.pow_nonzero; lia.
Qed.

(** The search for the shortest decimal stops at one that is the integer itself. *)
Lemma decimal_fraction_int n p :
  0 <= p -> decimal_fraction n p = (n * 10 ^ p, 1).
Proof. intros Hp. unfold decimal_fraction. by rewrite (proj2 (Z.leb_le 0 p)). Qed.

Lemma float_fraction_small n :
  0 < n < 2 ^ 53 ->
  exists d, float_fraction (mkMagnitude (n * 2 ^ (52 - Z.log2 n)) (Z.log2 n - 52)) = (n * d, d) /\ 0 < d.
Proof.
  intros Hn. assert (Z.log2 n < 53) as Hl by (apply Z.log2_lt_pow2; lia).
  unfold float_fraction. simpl. destruct (Z.leb_spec 0 (Z.log2 n - 52)).
  - exists 1. replace (Z.log2 n) with 52 by lia. split; [|lia]. f_equal. change (2 ^ (52 - 52)) with 1. lia.
  - exists (2 ^ (- (Z.log2 n - 52))). split; [|apply Z.pow_pos_nonneg; lia].
    by replace (52 - Z.log2 n) with (- (Z.log2 n - 52)) by lia.
Qed.

Lemma round_trip_small n f p c :
  0 < n < 2 ^ 53 -> nearest n 1 = Some f -> 0 <= p -> round_trip f p = Some c -> c * 10 ^ p = n.
Proof.
  intros Hn Hf Hp. pose proof Hf as Hf'. rewrite (nearest_small n Hn) in Hf'. injection Hf' as <-.
  destruct (float_fraction_small n Hn) as (d & Ed & Hd). unfold round_trip. rewrite Ed.
  rewrite (proj2 (Z.leb_le 0 p)) by done.
  assert (0 < 10 ^ p) as H10 by (apply Z.pow_pos_nonneg; lia).
  assert (forall c, 0 <= c ->
    bool_decide (nearest_decimal c p = Some (mkMagnitude (n * 2 ^ (52 - Z.log2 n)) (Z.log2 n - 52))) = true ->
    c * 10 ^ p = n) as Hread.
  { intros c' Hc Hr%bool_decide_eq_true. unfold nearest_decimal in Hr.
    rewrite decimal_fraction_int in Hr by done. rewrite <- Hf in Hr.
    apply nearest_small_inj in Hr; [done..|nia]. }
  assert (0 <= n * d / (d * 10 ^ p)) as Hc0 by (apply Z.div_pos; nia).
  destruct (bool_decide _) eqn:E1; [apply Hread in E1; [|done]|];
    (destruct (bool_decide (nearest_decimal (_ + 1) p = _)) eqn:E2; [apply Hread in E2; [|lia]|]);
    [nia|intros [= <-]; done..|done].
Qed.

Lemma round_trip_exact n f : 0 < n < 2 ^ 53 -> nearest n 1 = Some f -> round_trip f 0 = Some n.
Proof.
  intros Hn Hf. destruct (round_trip f 0) as [c|] eqn:E.
  { apply (round_trip_small n) in E; [|done..]. change (10 ^ 0) with 1 in E. f_equal. lia. }
  exfalso. pose proof Hf as Hf'. rewrite (nearest_small n Hn) in Hf'. injection Hf' as <-.
  destruct (float_fraction_small n Hn) as (d & Ed & Hd). unfold round_trip in E. rewrite Ed in E.
  cbn [Z.leb Z.compare] in E. change (10 ^ 0) with 1 in E. rewrite Z.mul_1_r, Z.div_mul in E by lia.
  rewrite bool_decide_true in E.
  - by destruct (bool_decide _).
  - unfold nearest_decimal. rewrite decimal_fraction_int by done. change (10 ^ 0) with 1.
    by rewrite Z.mul_1_r.
Qed.

Lemma digit_count_bound fuel n k :
  1 <= k -> n < 10 ^ k -> 1 <= digit_count fuel n <= k.
Proof.
  revert n k. induction fuel as [|fuel IH]; intros n k Hk Hn; simpl; [lia|].
  destruct (Z.ltb_spec n 10); [lia|].
  assert (2 <= k) as Hk2.
  { destruct (Z.eq_dec k 1) as [->|]; [change (10 ^ 1) with 10 in Hn|]; lia. }
  destruct (IH (n / 10) (k - 1)); [lia| |lia].
  apply Z.div_lt_upper_bound; [lia|]. rewrite <- Z.pow_succ_r by lia. by replace (Z.succ (k - 1)) with k by lia.
Qed.

Lemma shortest_from_small n f x k fuel :
  0 < n < 2 ^ 53 -> nearest n 1 = Some f -> k <= x -> x - k < Z.of_nat fuel ->
  exists c p, shortest_from fuel f x k = (c, p) /\ 0 <= p /\ c * 10 ^ p = n.
Proof.
  intros Hn Hf. revert k. induction fuel as [|fuel IH]; intros k Hk Hfuel; [lia|].
  cbn [shortest_from]. destruct (round_trip f (x - k)) as [c|] eqn:E.
  - apply (round_trip_small n) in E; [|done..|lia]. destruct (Z.eqb_spec c (10 ^ k)) as [->|].
    + destruct (Z.le_gt_cases 0 k).
      * exists 1, x. split; [done|]. split; [lia|]. rewrite <- Z.pow_add_r in E by lia.
        replace (k + (x - k)) with x in E by lia. lia.
      * rewrite Z.pow_neg_r in E by done. lia.
    + exists c, (x - k). split; [done|]. lia.
  - destruct (Z.eq_dec k x) as [->|].
    + rewrite Z.sub_diag, (round_trip_exact n) in E by done. done.
    + apply IH; lia.
Qed.

Lemma magnitude_text_small n f :
  0 < n < 2 ^ 53 -> nearest n 1 = Some f -> magnitude_text f = FormatInt n.
Proof.
  intros Hn Hf. pose proof (nearest_small n Hn) as Hf'. rewrite Hf in Hf'.
  destruct (float_fraction_small n Hn) as (d & Ed & Hd). unfold magnitude_text.
  assert (0 < mg_mant f) as Hm.
  { injection Hf' as ->. simpl.
    assert (Z.log2 n < 53) as Hl by (apply Z.log2_lt_pow2; lia).
    assert (0 < 2 ^ (52 - Z.log2 n)) by (apply Z.pow_pos_nonneg; lia). nia. }
  destruct (Z.eqb_spec (mg_mant f) 0); [lia|]. unfold shortest.
  injection Hf' as Ef. rewrite <- Ef in Ed. rewrite Ed.
  assert (1 <= decimal_point (n * d) d <= 16) as Hx.
  { unfold decimal_point. destruct (Z.leb_spec d (n * d)); [|nia]. rewrite Z.div_mul by lia.
    apply digit_count_bound; [lia|]. assert (2 ^ 53 < 10 ^ 16) by done. lia. }
  destruct (shortest_from_small n f (decimal_point (n * d) d) 1 17) as (c & p & -> & Hp & Hc);
    [done..|lia|lia|].
  destruct (nearest 1 (10 ^ 6)) as [t|] eqn:Et; [|vm_compute in Et; done].
  vm_compute in Et. injection Et as <-.
  destruct (float_fraction (mkMagnitude _ _)) as [tn td] eqn:Etd. vm_compute in Etd.
  injection Etd as <- <-.
  assert (d <= n * d) by nia.
  match goal with |- context [?a <? ?b] => destruct (Z.ltb_spec a b); [lia|] end.
  assert (2 ^ 53 < 10 ^ 21) by done.
  destruct (Z.leb_spec (10 ^ 21 * d) (n * d)); [nia|]. simpl orb. cbn iota.
  unfold to_String, to_string. cbn [d_exp]. rewrite (proj2 (Z.leb_le 0 p)) by done.
  unfold rescale. cbn [d_exp d_value]. destruct (Z.eqb_spec p 0) as [->|]; cbn [d_value].
  - change (10 ^ 0) with 1 in Hc. f_equal. lia.
  - destruct (Z.ltb_spec p 0); [lia|]. destruct (Z.ltb_spec 0 p); [|lia].
    replace (Z.abs (0 - p)) with p by lia. by rewrite Hc.
Qed.

(** An integer whose magnitude is below [2 ^ 53] passes through [float64] unchanged. *)
Lemma number_text_int z :
  Z.abs z < 2 ^ 53 -> number_text (z <? 0) (Z.to_N (Z.abs z)) 0 = Some (FormatInt z).
Proof.
  intros Hz. unfold number_text, nearest_decimal. rewrite Z2N.id by lia.
  rewrite decimal_fraction_int by lia. change (10 ^ 0) with 1. rewrite Z.mul_1_r.
  destruct (Z.eq_dec z 0) as [->|]; [done|].
  rewrite nearest_small by lia. erewrite magnitude_text_small; [|split; [|exact Hz]; lia|apply nearest_small; lia].
  rewrite (FormatInt_sign z). unfold FormatInt, sign_string. destruct (Z.ltb_spec (Z.abs z) 0); [lia|].
  by destruct (z <? 0).
Qed.
