(* ===== verification/Json.v ===== *)
(** * JSON texts of strings

    What [encoding/json] writes for strings and lists of strings: the HTML-safe escapes
    of [json.Marshal].  The form of text with non-ASCII bytes is a parameter. *)

From stdpp Require Import base tactics list strings.
From Stdlib Require Import ZArith Ascii.
From S2P Require Import Prelude GoStrings.

#[local] Open Scope string_scope.
#[local] Open Scope Z_scope.

(** Go's [json.Marshal] on strings with non-ASCII bytes. *)
Class JsonUnicode := uni_json_quote : string -> string.

Definition lower_hex (z : Z) : ascii :=
  ascii_of_N (Z.to_N (if z <? 10 then 48 + z else 87 + z)).

(** [json.Marshal] on a string of ASCII bytes. *)
Definition json_byte (c : ascii) : string :=
  let z := byte_code c in
  let u := "\u00" +:+ String (lower_hex (z / 16)) (String (lower_hex (z mod 16)) "") in
  if (z =? 34) || (z =? 92) then String "\" (String c "")
  else if z =? 8 then "\b" else if z =? 9 then "\t" else if z =? 10 then "\n"
  else if z =? 12 then "\f" else if z =? 13 then "\r"
  else if (z <? 32) || (z =? 60) || (z =? 62) || (z =? 38) then u
  else String c "".

Definition quote_char : ascii := ascii_of_N 34.

Fixpoint json_bytes (s : string) : string :=
  match s with
  | EmptyString => EmptyString
  | String c s' => json_byte c +:+ json_bytes s'
  end.

Definition json_quote `{JsonUnicode} (s : string) : string :=
  if is_ascii_string s
  then String quote_char (json_bytes s) +:+ String quote_char EmptyString
  else uni_json_quote s.

Fixpoint json_items `{JsonUnicode} (l : list string) : string :=
  match l with
  | [] => EmptyString
  | [s] => json_quote s
  | s :: l' => json_quote s +:+ "," +:+ json_items l'
  end.

Definition json_strings `{JsonUnicode} (l : list string) : string := "[" +:+ json_items l +:+ "]".
