(* ===== verification/Http.v ===== *)
(** * HTTP responses

    What the clients of the exchange and of the vault read of a response: its status,
    and a body that may fail to be read and may fail to be decoded. *)

From Stdlib Require Import ZArith.
From S2P Require Import Prelude.

#[local] Open Scope Z_scope.

Definition StatusOK : Z := 200.

(** [rs_Body]: the outer error is the one of [io.ReadAll], the inner one of the JSON
    decoder. *)
Record Response (B : Type) := { rs_Status : Z; rs_Body : Result (Result B) }.
Arguments rs_Status {B} _.
Arguments rs_Body {B} _.
