(* ===== verification/Base64.v ===== *)
(** * Base64

    Go's [base64.StdEncoding.DecodeString], which the vault client applies to every
    plaintext, with the encoding of RFC 4648, section 4, as its specification. *)

From stdpp Require Import base tactics list strings.
From Stdlib Require Import ZArith Lia Ascii.
From S2P Require Import Prelude GoStrings.

#[local] Open Scope Z_scope.

(** ** Decoding *)

(** The value of a character of the standard alphabet. *)
Definition b64_value (c : ascii) : option Z :=
  let z := byte_code c in
  if (65 <=? z) && (z <=? 90) then Some (z - 65)
  else if (97 <=? z) && (z <=? 122) then Some (z - 71)
  else if (48 <=? z) && (z <=? 57) then Some (z + 4)
  else if z =? 43 then Some 62
  else if z =? 47 then Some 63
  else None.

Definition pad : ascii := "="%char.

(** The three bytes of four values. *)
Definition byte0 (x y : Z) : Z := x * 4 + y / 16.
Definition byte1 (y z : Z) : Z := y mod 16 * 16 + z / 4.
Definition byte2 (z w : Z) : Z := z mod 4 * 64 + w.

(** The bytes decoded so far, and whether the whole input was well formed.  Padding ends
    the input; whatever follows it is an error. *)
Fixpoint decode_quanta (l : list ascii) : list Z * bool :=
  match l with
  | [] => ([], true)
  | a :: b :: c :: d :: rest =>
      match b64_value a, b64_value b with
      | Some x, Some y =>
          if Ascii.eqb c pad then
            if Ascii.eqb d pad
            then ([byte0 x y], match rest with [] => true | _ => false end)
            else ([], false)
          else
            match b64_value c with
            | None => ([], false)
            | Some z =>
                if Ascii.eqb d pad
                then ([byte0 x y; byte1 y z], match rest with [] => true | _ => false end)
                else
                  match b64_value d with
                  | None => ([], false)
                  | Some w =>
                      let '(bytes, ok) := decode_quanta rest in
                      (byte0 x y :: byte1 y z :: byte2 z w :: bytes, ok)
                  end
            end
      | _, _ => ([], false)
      end
  | _ => ([], false)
  end.

Definition is_newline (c : ascii) : bool := (byte_code c =? 10) || (byte_code c =? 13).

(** Line breaks are skipped wherever they stand. *)
Definition DecodeString (s : string) : list Z * bool :=
  decode_quanta (List.filter (fun c => negb (is_newline c)) (String.list_ascii_of_string s)).

(** ** Encoding *)

Definition b64_char (v : Z) : ascii :=
  ascii_of_N (Z.to_N
    (if v <? 26 then v + 65 else if v <? 52 then v + 71 else if v <? 62 then v - 4
     else if v =? 62 then 43 else 47)).

Fixpoint encode_quanta (bytes : list Z) : list ascii :=
  match bytes with
  | [] => []
  | [p] => [b64_char (p / 4); b64_char (p mod 4 * 16); pad; pad]
  | [p; q] =>
      [b64_char (p / 4); b64_char (p mod 4 * 16 + q / 16); b64_char (q mod 16 * 4); pad]
  | p :: q :: r :: rest =>
      b64_char (p / 4) :: b64_char (p mod 4 * 16 + q / 16)
        :: b64_char (q mod 16 * 4 + r / 64) :: b64_char (r mod 64) :: encode_quanta rest
  end.

Definition EncodeToString (bytes : list Z) : string :=
  String.string_of_list_ascii (encode_quanta bytes).

Definition is_byte (z : Z) : Prop := 0 <= z < 256.

(** ** Round trip *)

(** What the decoder sees of a character of the alphabet. *)
Definition char_ok (v : Z) : bool :=
  bool_decide (b64_value (b64_char v) = Some v) && negb (Ascii.eqb (b64_char v) pad) &&
  negb (is_newline (b64_char v)).

Lemma b64_chars_ok v : 0 <= v < 64 -> char_ok v = true.
Proof.
  intros Hv. assert (forallb char_ok (map Z.of_nat (seq 0 64)) = true) as Hall
    by (vm_compute; reflexivity).
  rewrite forallb_forall in Hall. apply Hall. apply in_map_iff.
  exists (Z.to_nat v). split; [lia|]. apply in_seq. lia.
Qed.

Lemma b64_char_spec v :
  0 <= v < 64 ->
  b64_value (b64_char v) = Some v /\ Ascii.eqb (b64_char v) pad = false /\
  is_newline (b64_char v) = false.
Proof.
  intros Hv%b64_chars_ok. unfold char_ok in Hv.
  rewrite !andb_true_iff, !negb_true_iff, bool_decide_eq_true in Hv. naive_solver.
Qed.

Ltac b64_bounds := unfold is_byte in *; Z.to_euclidean_division_equations; lia.

Lemma bytes_of_values p q r :
  is_byte p -> is_byte q -> is_byte r ->
  byte0 (p / 4) (p mod 4 * 16 + q / 16) = p /\
  byte1 (p mod 4 * 16 + q / 16) (q mod 16 * 4 + r / 64) = q /\
  byte2 (q mod 16 * 4 + r / 64) (r mod 64) = r.
Proof. unfold byte0, byte1, byte2. intros. repeat split; b64_bounds. Qed.

(** Three bytes at a time. *)
Lemma bytes_ind (P : list Z -> Prop) :
  P [] -> (forall p, P [p]) -> (forall p q, P [p; q]) ->
  (forall p q r rest, P rest -> P (p :: q :: r :: rest)) -> forall l, P l.
Proof.
  intros H0 H1 H2 H3. fix IH 1. intros [|p [|q [|r rest]]]; [done|apply H1|apply H2|apply H3, IH].
Qed.

Lemma decode_encode_quanta bytes :
  Forall is_byte bytes -> decode_quanta (encode_quanta bytes) = (bytes, true).
Proof.
  induction bytes as [|p|p q|p q r rest IH] using bytes_ind; intros Hb.
  - done.
  - rewrite Forall_singleton in Hb. destruct (bytes_of_values p 0 0 Hb) as (E & _); [done..|].
    rewrite Z.add_0_r in E. simpl.
    destruct (b64_char_spec (p / 4)) as (-> & _); [b64_bounds|].
    destruct (b64_char_spec (p mod 4 * 16)) as (-> & _); [b64_bounds|].
    simpl. by rewrite E.
  - rewrite Forall_cons, Forall_singleton in Hb. destruct Hb as [Hp Hq].
    destruct (bytes_of_values p q 0 Hp Hq) as (E0 & E1 & _); [done|].
    rewrite Z.add_0_r in E1. simpl.
    destruct (b64_char_spec (p / 4)) as (-> & _); [b64_bounds|].
    destruct (b64_char_spec (p mod 4 * 16 + q / 16)) as (-> & _); [b64_bounds|].
    destruct (b64_char_spec (q mod 16 * 4)) as (-> & -> & _); [b64_bounds|].
    simpl. by rewrite E0, E1.
  - rewrite !Forall_cons in Hb. destruct Hb as (Hp & Hq & Hr & Hb).
    destruct (bytes_of_values p q r Hp Hq Hr) as (E0 & E1 & E2).
    cbn [encode_quanta decode_quanta].
    destruct (b64_char_spec (p / 4)) as (-> & _); [b64_bounds|].
    destruct (b64_char_spec (p mod 4 * 16 + q / 16)) as (-> & _); [b64_bounds|].
    destruct (b64_char_spec (q mod 16 * 4 + r / 64)) as (-> & -> & _); [b64_bounds|].
    destruct (b64_char_spec (r mod 64)) as (-> & -> & _); [b64_bounds|].
    rewrite (IH Hb). by rewrite E0, E1, E2.
Qed.

Lemma encode_no_newline bytes :
  Forall is_byte bytes ->
  List.filter (fun c => negb (is_newline c)) (encode_quanta bytes) = encode_quanta bytes.
Proof.
  assert (forall v l, 0 <= v < 64 ->
    List.filter (fun c => negb (is_newline c)) (b64_char v :: l)
      = b64_char v :: List.filter (fun c => negb (is_newline c)) l) as Hc.
  { intros v l Hv. simpl. by destruct (b64_char_spec v Hv) as (_ & _ & ->). }
  induction bytes as [|p|p q|p q r rest IH] using bytes_ind; intros Hb.
  - done.
  - rewrite Forall_singleton in Hb. cbn [encode_quanta]. rewrite !Hc by b64_bounds. done.
  - rewrite Forall_cons, Forall_singleton in Hb. destruct Hb as [Hp Hq]. cbn [encode_quanta].
    rewrite !Hc by b64_bounds. done.
  - rewrite !Forall_cons in Hb. destruct Hb as (Hp & Hq & Hr & Hb). cbn [encode_quanta].
    rewrite !Hc by b64_bounds. by rewrite IH.
Qed.

(** What the vault encodes, the client decodes. *)
Lemma DecodeString_Encode bytes :
  Forall is_byte bytes -> DecodeString (EncodeToString bytes) = (bytes, true).
Proof.
  intros Hb. unfold DecodeString, EncodeToString.
  rewrite String.list_ascii_of_string_of_list_ascii, encode_no_newline by done.
  by apply decode_encode_quanta.
Qed.
