(* ===== verification/Url.v ===== *)
(** * Query strings

    The part of Go's [net/url] the Binance client uses: [QueryEscape] and
    [Values.Encode], with the decoding a server performs as their specification. *)

From stdpp Require Import base tactics list strings sorting.
From Stdlib Require Import ZArith Lia Ascii.
From S2P Require Import Prelude GoStrings.

#[local] Open Scope string_scope.
#[local] Open Scope Z_scope.

(** ** Escaping *)

(** The unreserved bytes of RFC 3986, section 2.3. *)
Definition unreserved (c : ascii) : bool :=
  let z := byte_code c in
  ((97 <=? z) && (z <=? 122)) || ((65 <=? z) && (z <=? 90)) || ((48 <=? z) && (z <=? 57)) ||
  Ascii.eqb c "-" || Ascii.eqb c "_" || Ascii.eqb c "." || Ascii.eqb c "~".

Definition upperhex (z : Z) : ascii :=
  ascii_of_N (Z.to_N (if z <? 10 then 48 + z else 55 + z)).

Definition escape_byte (c : ascii) : string :=
  if unreserved c then String c ""
  else if Ascii.eqb c " " then "+"
  else String "%" (String (upperhex (byte_code c / 16)) (String (upperhex (byte_code c mod 16)) "")).

Fixpoint QueryEscape (s : string) : string :=
  match s with
  | EmptyString => EmptyString
  | String c s' => escape_byte c +:+ QueryEscape s'
  end.

(** ** [url.Values]: one value per key, as [Set] leaves it *)

Definition Values := list (string * string).

Definition values_Set (k v : string) (q : Values) : Values :=
  (k, v) :: List.filter (fun kv => negb (String.eqb (fst kv) k)) q.

Fixpoint insert_key (kv : string * string) (q : Values) : Values :=
  match q with
  | [] => [kv]
  | kv' :: q' => if String.leb (fst kv) (fst kv') then kv :: q else kv' :: insert_key kv q'
  end.

Definition sort_keys (q : Values) : Values := foldr insert_key [] q.

Fixpoint encode_pairs (q : Values) : string :=
  match q with
  | [] => ""
  | [(k, v)] => QueryEscape k +:+ "=" +:+ QueryEscape v
  | (k, v) :: q' => QueryEscape k +:+ "=" +:+ QueryEscape v +:+ "&" +:+ encode_pairs q'
  end.

Definition values_Encode (q : Values) : string := encode_pairs (sort_keys q).

(** ** The server's side *)

Definition hex_value (c : ascii) : option Z :=
  let z := byte_code c in
  if (48 <=? z) && (z <=? 57) then Some (z - 48)
  else if (65 <=? z) && (z <=? 70) then Some (z - 55)
  else if (97 <=? z) && (z <=? 102) then Some (z - 87)
  else None.

Fixpoint QueryUnescape (s : string) : option string :=
  match s with
  | EmptyString => Some EmptyString
  | String "%" (String h (String l s')) =>
      match hex_value h, hex_value l with
      | Some a, Some b => option_map (String (ascii_of_N (Z.to_N (16 * a + b)))) (QueryUnescape s')
      | _, _ => None
      end
  | String c s' =>
      if Ascii.eqb c "%" then None
      else option_map (String (if Ascii.eqb c "+" then " "%char else c)) (QueryUnescape s')
  end.

(** The text before the first [sep], and after it if there is one. *)
Fixpoint str_cut (sep : ascii) (s : string) : string * option string :=
  match s with
  | EmptyString => (EmptyString, None)
  | String c s' =>
      if Ascii.eqb c sep then (EmptyString, Some s')
      else let '(a, b) := str_cut sep s' in (String c a, b)
  end.

Definition parse_pair (s : string) : option (string * string) :=
  match str_cut "=" s with
  | (k, Some v) =>
      match QueryUnescape k, QueryUnescape v with
      | Some k, Some v => Some (k, v)
      | _, _ => None
      end
  | (_, None) => None
  end.

(** Fuel: one unit per pair. *)
Fixpoint parse_query (fuel : nat) (s : string) : option Values :=
  match fuel with
  | O => None
  | S fuel =>
      match str_cut "&" s with
      | (p, None) => option_map (fun kv => [kv]) (parse_pair p)
      | (p, Some rest) =>
          match parse_pair p, parse_query fuel rest with
          | Some kv, Some q => Some (kv :: q)
          | _, _ => None
          end
      end
  end.

(** ** Lemmas *)

Lemma unescape_escape_byte c s :
  QueryUnescape (escape_byte c +:+ s) = option_map (String c) (QueryUnescape s).
Proof. destruct c as [[] [] [] [] [] [] [] []]; reflexivity. Qed.

(** Bytes that separate nothing. *)
Definition no_separator (c : ascii) : bool := negb (Ascii.eqb c "&") && negb (Ascii.eqb c "=").

Lemma escape_byte_clean c : str_forallb no_separator (escape_byte c) = true.
Proof. destruct c as [[] [] [] [] [] [] [] []]; reflexivity. Qed.

Lemma QueryUnescape_Escape s : QueryUnescape (QueryEscape s) = Some s.
Proof.
  induction s as [|c s IH]; [done|]. cbn [QueryEscape].
  by rewrite unescape_escape_byte, IH.
Qed.

Lemma QueryEscape_clean s : str_forallb no_separator (QueryEscape s) = true.
Proof.
  induction s as [|c s IH]; [done|]. cbn [QueryEscape].
  by rewrite str_forallb_app, escape_byte_clean, IH.
Qed.

Lemma str_cut_clean sep a b :
  str_forallb (fun c => negb (Ascii.eqb c sep)) a = true ->
  str_cut sep (a +:+ String sep b) = (a, Some b) /\ str_cut sep a = (a, None).
Proof.
  induction a as [|c a IH]; simpl; [by rewrite Ascii.eqb_refl|].
  intros [Hc Ha]%andb_prop. apply negb_true_iff in Hc. rewrite Hc.
  destruct (IH Ha) as [-> ->]. done.
Qed.

Lemma clean_no (sep : ascii) s :
  (sep = "&"%char \/ sep = "="%char) -> str_forallb no_separator s = true ->
  str_forallb (fun c => negb (Ascii.eqb c sep)) s = true.
Proof.
  intros Hsep. apply str_forallb_impl. unfold no_separator.
  intros c [H1 H2]%andb_prop. by destruct Hsep as [-> | ->].
Qed.

Lemma pair_no_ampersand k v :
  str_forallb (fun c => negb (Ascii.eqb c "&")) (QueryEscape k +:+ "=" +:+ QueryEscape v) = true.
Proof.
  rewrite !str_forallb_app. simpl.
  rewrite !(clean_no "&") by (auto using QueryEscape_clean). done.
Qed.

Lemma parse_pair_encoded k v :
  parse_pair (QueryEscape k +:+ "=" +:+ QueryEscape v) = Some (k, v).
Proof.
  unfold parse_pair.
  destruct (str_cut_clean "=" (QueryEscape k) (QueryEscape v)) as [Hc _].
  { apply clean_no; auto using QueryEscape_clean. }
  simpl in Hc |- *. by rewrite Hc, !QueryUnescape_Escape.
Qed.

(** Whatever bytes the values hold, a server splits the query into exactly the pairs
    that were encoded. *)
Lemma parse_encode_pairs q fuel :
  q <> [] -> (length q <= fuel)%nat -> parse_query fuel (encode_pairs q) = Some q.
Proof.
  revert fuel. induction q as [|[k v] q IH]; intros [|fuel] Hq Hf; try done; [simpl in Hf; lia|].
  destruct q as [|kv q].
  - cbn [encode_pairs parse_query].
    destruct (str_cut_clean "&" _ "" (pair_no_ampersand k v)) as [_ ->].
    by rewrite parse_pair_encoded.
  - change (encode_pairs ((k, v) :: kv :: q)) with
      (QueryEscape k +:+ "=" +:+ QueryEscape v +:+ "&" +:+ encode_pairs (kv :: q)).
    rewrite <- !str_app_assoc. cbn [parse_query].
    rewrite (str_app_assoc (QueryEscape k) "=" (QueryEscape v)), str_app_assoc.
    destruct (str_cut_clean "&" _ (encode_pairs (kv :: q)) (pair_no_ampersand k v)) as [Hc _].
    change ("&" +:+ encode_pairs (kv :: q)) with (String "&" (encode_pairs (kv :: q))).
    rewrite Hc, parse_pair_encoded, IH; [done|done|]. simpl in Hf |- *. lia.
Qed.

Lemma insert_key_perm kv q : Permutation (insert_key kv q) (kv :: q).
Proof.
  induction q as [|kv' q IH]; simpl; [done|]. destruct (String.leb _ _); [done|].
  rewrite IH. apply perm_swap.
Qed.

Lemma sort_keys_perm q : Permutation (sort_keys q) q.
Proof. induction q as [|kv q IH]; simpl; [done|]. by rewrite insert_key_perm, IH. Qed.
