(* ===== verification/Uuid.v ===== *)
(** * UUIDs

    [github.com/google/uuid] (vendored): the sixteen-byte identifier, [Parse] and
    [String].  A UUID is the list of its bytes; [uuid_wf] says there are sixteen of
    them, each between 0 and 255. *)

From stdpp Require Import base tactics list strings countable.
From Stdlib Require Import ZArith Lia Ascii.
From S2P Require Import Prelude GoStrings.

#[local] Open Scope string_scope.
#[local] Open Scope Z_scope.

Record UUID := mkUUID { uuid_bytes : list Z }.

#[global] Instance UUID_eq_dec : EqDecision UUID.
Proof. solve_decision. Defined.
#[global] Instance UUID_countable : Countable UUID.
Proof. by apply (inj_countable' uuid_bytes mkUUID); intros []. Defined.

Definition uuid_wf (u : UUID) : Prop :=
  length (uuid_bytes u) = 16%nat /\ Forall (fun b => 0 <= b < 256) (uuid_bytes u).

(** [uuid.Nil] *)
Definition Nil : UUID := mkUUID (replicate 16 0).

(** The table [xvalues]: the value of a hexadecimal digit, or 255. *)
Definition xvalues (c : ascii) : Z :=
  let z := byte_code c in
  if (48 <=? z) && (z <=? 57) then z - 48
  else if (65 <=? z) && (z <=? 70) then z - 55
  else if (97 <=? z) && (z <=? 102) then z - 87
  else 255.

(** [xtob]; [None] is [ok = false]. *)
Definition xtob (x1 x2 : ascii) : option Z :=
  let b1 := xvalues x1 in
  let b2 := xvalues x2 in
  if negb (b1 =? 255) && negb (b2 =? 255)
  then Some (Z.lor (Z.land (Z.shiftl b1 4) 255) b2) else None.

(** Byte [x] of a string and the one after it, as a hexadecimal pair. *)
Definition xtob_at (s : string) (x : nat) : option Z :=
  match String.get x s, String.get (S x) s with
  | Some c1, Some c2 => xtob c1 c2
  | _, _ => None
  end.

Definition is_dash_at (s : string) (i : nat) : bool :=
  match String.get i s with Some c => Ascii.eqb c "-" | None => false end.

Fixpoint collect (s : string) (offsets : list nat) : option (list Z) :=
  match offsets with
  | [] => Some []
  | x :: offsets' =>
      match xtob_at s x with
      | Some v => option_map (cons v) (collect s offsets')
      | None => None
      end
  end.

Definition hex_offsets : list nat :=
  [0; 2; 4; 6; 9; 11; 14; 16; 19; 21; 24; 26; 28; 30; 32; 34]%nat.

Definition raw_offsets : list nat :=
  [0; 2; 4; 6; 8; 10; 12; 14; 16; 18; 20; 22; 24; 26; 28; 30]%nat.

Definition of_bytes (o : option (list Z)) : Result UUID :=
  match o with
  | Some l => Ok (mkUUID l)
  | None => Err (ErrMsg "invalid UUID format")
  end.

(** The form [xxxxxxxx-xxxx-xxxx-xxxx-xxxxxxxxxxxx], from which only the first 36
    bytes are read. *)
Definition parse36 (s : string) : Result UUID :=
  if negb (is_dash_at s 8 && is_dash_at s 13 && is_dash_at s 18 && is_dash_at s 23)
  then Err (ErrMsg "invalid UUID format")
  else of_bytes (collect s hex_offsets).

Definition Parse `{GoUnicode} (s : string) : Result UUID :=
  if str_len s =? 36 then parse36 s
  else if str_len s =? 36 + 9 then
    if negb (EqualFold (str_take 9 s) "urn:uuid:")
    then Err (ErrMsg "invalid urn prefix")
    else parse36 (str_drop 9 s)
  else if str_len s =? 36 + 2 then parse36 (str_drop 1 s)
  else if str_len s =? 32 then of_bytes (collect s raw_offsets)
  else Err (ErrMsg "invalid UUID length").

(** [hex.Encode]: two lower-case digits per byte. *)
Definition hex_digit (v : Z) : ascii :=
  ascii_of_N (Z.to_N (if v <? 10 then v + 48 else v + 87)).

Definition hex_encode (l : list Z) : string :=
  foldr (fun b s => String (hex_digit (b / 16)) (String (hex_digit (b mod 16)) s)) "" l.

(** [UUID.String], through [encodeHex]. *)
Definition uuid_String (u : UUID) : string :=
  let b := uuid_bytes u in
  hex_encode (take 4 b) +:+ "-" +:+ hex_encode (take 2 (drop 4 b)) +:+ "-" +:+
  hex_encode (take 2 (drop 6 b)) +:+ "-" +:+ hex_encode (take 2 (drop 8 b)) +:+ "-" +:+
  hex_encode (drop 10 b).

(** ** Lemmas *)

Lemma xtob_hex b :
  0 <= b < 256 -> xtob (hex_digit (b / 16)) (hex_digit (b mod 16)) = Some b.
Proof.
  intros Hb.
  assert (forallb (fun n =>
    bool_decide (xtob (hex_digit (Z.of_nat n / 16)) (hex_digit (Z.of_nat n mod 16))
                 = Some (Z.of_nat n))) (seq 0 256) = true) as H by (vm_compute; reflexivity).
  rewrite forallb_forall in H. specialize (H (Z.to_nat b)).
  rewrite Z2Nat.id in H by lia. apply (bool_decide_eq_true_1 _), H. apply in_seq. lia.
Qed.

(** [Parse] accepts what [String] prints and returns the same identifier. *)
Theorem Parse_String `{GoUnicode} u : uuid_wf u -> Parse (uuid_String u) = Ok u.
Proof.
  intros [Hl Hb]. destruct u as [l]. simpl in *.
  do 16 (destruct l as [|? l]; [discriminate Hl|]). destruct l; [|discriminate Hl].
  do 16 (apply Forall_cons_1 in Hb as [? Hb]).
  unfold Parse, parse36, uuid_String. cbn [uuid_bytes take drop hex_encode foldr].
  cbn -[hex_digit Z.div Z.modulo xtob].
  rewrite !xtob_hex by done. reflexivity.
Qed.
