(* ===== verification/Broker.v ===== *)
(** * The broker abstraction

    internal/broker/enum.go and internal/broker/broker.go: broker identifiers and the
    data the [Broker] interface exchanges.  The protobuf enum is an open [int32]. *)

From stdpp Require Import base tactics list strings.
From Stdlib Require Import ZArith.
From S2P Require Import Prelude GoStrings Decimal.

#[local] Open Scope string_scope.
#[local] Open Scope Z_scope.

Definition Broker_BROKER_UNSPECIFIED : Z := 0.
Definition Broker_BROKER_BINANCE : Z := 1.

Definition ProviderName (b : Z) : string :=
  if b =? Broker_BROKER_BINANCE then "BINANCE" else "BINANCE".

Definition ParseBroker (provider : string) : Z :=
  if String.eqb provider "BINANCE" then Broker_BROKER_BINANCE
  else Broker_BROKER_UNSPECIFIED.

Definition DefaultBroker : Z := Broker_BROKER_BINANCE.

(** Best bid and ask along with the computed mid price. *)
Record BookTicker := {
  bt_Symbol : string;
  bt_BidPrice : Decimal;
  bt_BidQty : Decimal;
  bt_AskPrice : Decimal;
  bt_AskQty : Decimal;
  bt_MidPrice : Decimal;
}.

Record MarketOrderRequest := {
  mo_Symbol : string;
  mo_Side : string;
  mo_Quantity : Decimal;
  mo_ClientOrderID : string;
}.

Record OrderResult := {
  or_ProviderOrderID : string;
  or_Status : string;
  or_ExecutedQuantity : Decimal;
  or_CumulativeQuoteQuantity : Decimal;
  or_AveragePrice : Decimal;
}.

(** A recognised name survives the trip through the enum; an unknown one is mapped to
    the default. *)
Lemma ProviderName_ParseBroker p :
  ParseBroker p <> Broker_BROKER_UNSPECIFIED -> ProviderName (ParseBroker p) = p.
Proof.
  unfold ParseBroker, ProviderName. destruct (String.eqb_spec p "BINANCE") as [->|]; done.
Qed.
