(* ===== verification/Vault.v ===== *)
(** * Plaintext credentials in memory

    internal/vault/client.go: the decrypted API key and secret are byte slices behind
    one pointer, shared by the service and the broker client, and are wiped in place.
    The store [Heap] keeps the credential structs and the byte arrays apart, so that
    the aliasing is visible: a slice that was copied out before the wipe sees the
    zeros.  The store holds decoded plaintext: the response bodies the transit client reads and
    the strings parsed from them, which hold its base64 text and are never wiped, are not in it. *)

From stdpp Require Import base tactics list strings gmap.
From Stdlib Require Import ZArith Lia.
From S2P Require Import Prelude.

#[local] Open Scope Z_scope.

(** Addresses of structs and of byte arrays. *)
Definition CredPtr := nat.
Definition BufPtr := nat.

(** The two slice fields; [None] is a nil slice. *)
Record PlaintextCredentials := {
  APIKey : option BufPtr;
  APISecret : option BufPtr;
}.

Record Heap := {
  structs : gmap nat PlaintextCredentials;
  buffers : gmap nat (list Z);
}.

(** [String] and [GoString], the masks for every printing verb. *)
Definition creds_String (p : PlaintextCredentials) : string := "[REDACTED_BROKER_CREDENTIALS]"%string.
Definition creds_GoString (p : PlaintextCredentials) : string := "[REDACTED_BROKER_CREDENTIALS]"%string.

(** [for i := range b { b[i] = 0 }] *)
Definition wipe (b : BufPtr) (bufs : gmap nat (list Z)) : gmap nat (list Z) :=
  alter (fun bytes => replicate (length bytes) 0) b bufs.

Definition wipe_slice (s : option BufPtr) (bufs : gmap nat (list Z)) : gmap nat (list Z) :=
  match s with Some b => wipe b bufs | None => bufs end.

(** [(p *PlaintextCredentials) Zero()]: a nil receiver does nothing; each non-nil
    slice is overwritten and then set to nil. *)
Definition Zero (p : option CredPtr) (h : Heap) : Heap :=
  match p with
  | None => h
  | Some ptr =>
      match structs h !! ptr with
      | None => h
      | Some c =>
          {| structs := <[ptr := {| APIKey := None; APISecret := None |}]> (structs h);
             buffers := wipe_slice (APISecret c) (wipe_slice (APIKey c) (buffers h)) |}
      end
  end.

(** A byte array with nothing left in it. *)
Definition wiped (bytes : list Z) : Prop := Forall (fun b => b = 0) bytes.

Lemma wiped_replicate n : wiped (replicate n 0).
Proof. apply Forall_replicate. done. Qed.

Lemma wipe_lookup b bufs i bytes :
  wipe b bufs !! i = Some bytes ->
  (i = b /\ wiped bytes) \/ (i <> b /\ bufs !! i = Some bytes).
Proof.
  unfold wipe. rewrite lookup_alter. case_decide as Hb.
  - subst. destruct (bufs !! i); simpl; [|done]. intros [= <-]. left. eauto using wiped_replicate.
  - eauto.
Qed.

Lemma wipe_keeps_wiped b bufs i :
  (forall bytes, bufs !! i = Some bytes -> wiped bytes) ->
  forall bytes, wipe b bufs !! i = Some bytes -> wiped bytes.
Proof. intros H bytes [[_ ?]|[_ ?]]%wipe_lookup; eauto. Qed.

Lemma wipe_slice_keeps_wiped s bufs i :
  (forall bytes, bufs !! i = Some bytes -> wiped bytes) ->
  forall bytes, wipe_slice s bufs !! i = Some bytes -> wiped bytes.
Proof. destruct s; [apply wipe_keeps_wiped | done]. Qed.

(** [Zero] never brings a wiped byte back. *)
Lemma Zero_keeps_wiped p h i :
  (forall bytes, buffers h !! i = Some bytes -> wiped bytes) ->
  forall bytes, buffers (Zero p h) !! i = Some bytes -> wiped bytes.
Proof.
  intros H. destruct p as [ptr|]; simpl; [|done].
  destruct (structs h !! ptr); simpl; [|done].
  by apply wipe_slice_keeps_wiped, wipe_slice_keeps_wiped.
Qed.

(** Both slices of the struct are overwritten, whatever they held. *)
Lemma Zero_wipes ptr c h i bytes :
  structs h !! ptr = Some c ->
  APIKey c = Some i \/ APISecret c = Some i ->
  buffers (Zero (Some ptr) h) !! i = Some bytes -> wiped bytes.
Proof.
  intros Hc Hi. simpl. rewrite Hc. simpl. revert bytes.
  destruct Hi as [-> | ->]; simpl.
  - apply wipe_slice_keeps_wiped. intros bytes [[_ ?]|[? _]]%wipe_lookup; done.
  - intros bytes [[_ ?]|[? _]]%wipe_lookup; done.
Qed.

(** After the first call the pointer holds nil slices, so a second one is harmless. *)
Lemma Zero_twice p h : Zero p (Zero p h) = Zero p h.
Proof.
  destruct p as [ptr|]; [|done]. simpl.
  destruct (structs h !! ptr) eqn:E; simpl; [|by rewrite E].
  rewrite lookup_insert_eq. simpl. by rewrite insert_insert_eq.
Qed.
