(* ===== verification/VaultClient.v ===== *)
(** * The vault client

    internal/vault/client.go: [openBaoTransitClient], which decrypts the two credential
    ciphertexts in one batch request and falls back to one request each.  An HTTP
    exchange is an effect, and so is what the client does to memory: decoding allocates
    the plaintext's byte array, a failed pair is wiped in place, the result is a fresh
    struct. *)

From stdpp Require Import base tactics list strings gmap.
From Stdlib Require Import ZArith Ascii.
From S2P Require Import Prelude GoStrings Json Http Base64 Vault.

#[local] Open Scope string_scope.
#[local] Open Scope Z_scope.
#[local] Open Scope go_scope.

Record openBaoTransitClient := {
  tc_baseURL : string;
  tc_keyName : string;
  tc_token : string;
}.

(** [NewTransitClientWithHTTPClient]'s defaults. *)
Definition NewTransitClient (addr token keyName : string) : openBaoTransitClient := {|
  tc_baseURL := TrimRight addr "/";
  tc_keyName := if String.eqb keyName "" then "broker-keys" else keyName;
  tc_token := token |}.

(** ** Payloads *)

Record decryptResponse := { dr_Plaintext : string; dr_Errors : list string }.

Record batchDecryptResultItem := { bi_Plaintext : string; bi_Error : string }.
Record batchDecryptResponse := {
  br_BatchResults : list batchDecryptResultItem;
  br_Errors : list string;
}.

Inductive DecryptKind := SingleDecrypt | BatchDecrypt.

Definition DecryptBody (k : DecryptKind) : Type :=
  match k with SingleDecrypt => decryptResponse | BatchDecrypt => batchDecryptResponse end.

(** ** The client's effects *)

(** A POST with a JSON body; the token header is set unless the token is empty. *)
Record VaultRequest := {
  vr_URL : string;
  vr_Token : option string;
  vr_Body : string;
}.

Inductive VaultOp :=
  | VNewRequest (r : VaultRequest)
  | VDo (k : DecryptKind) (r : VaultRequest)
  | VClose (k : DecryptKind)
  | VAlloc (bytes : list Z)
  | VWipe (b : BufPtr)
  | VNewCreds (c : PlaintextCredentials).

Definition VaultRes (op : VaultOp) : Type :=
  match op with
  | VNewRequest _ => Result unit
  | VDo k _ => Result (Response (DecryptBody k))
  | VClose _ => unit
  | VAlloc _ => BufPtr
  | VWipe _ => unit
  | VNewCreds _ => CredPtr
  end.

Abbreviation transit := (prog VaultRes).

Definition vault_do (op : VaultOp) : transit (VaultRes op) := call (Res := VaultRes) op.

(** [defer resp.Body.Close()], registered once a response was received. *)
Definition reading {A} (k : DecryptKind) (body : transit A) : transit A :=
  defer (vault_do (VClose k) ;;; Ret tt) body.

(** ** The client *)

(** The object [json.Marshal] makes of a [decryptRequest]. *)
Definition ciphertext_object `{JsonUnicode} (ciphertext : string) : string :=
  "{" +:+ json_quote "ciphertext" +:+ ":" +:+ json_quote ciphertext +:+ "}".

Section Client.
Context `{GoUnicode} `{JsonUnicode}.
Context (c : openBaoTransitClient).

Definition decrypt_post (body : string) : VaultRequest := {|
  vr_URL := tc_baseURL c +:+ "/v1/transit/decrypt/" +:+ tc_keyName c;
  vr_Token := if String.eqb (tc_token c) "" then None else Some (tc_token c);
  vr_Body := body |}.

Definition single_request (ciphertext : string) : VaultRequest :=
  decrypt_post (ciphertext_object ciphertext).

Definition batch_request (apiKeyCiphertext apiSecretCiphertext : string) : VaultRequest :=
  decrypt_post ("{" +:+ json_quote "batch_input" +:+ ":[" +:+ ciphertext_object apiKeyCiphertext
    +:+ "," +:+ ciphertext_object apiSecretCiphertext +:+ "]}").

(** [DecodeString] allocates the array it returns, on an error with what was decoded. *)
Definition base64_decode (s : string) : transit (BufPtr * bool) :=
  let '(bytes, ok) := DecodeString s in
  b <- vault_do (VAlloc bytes) ;;
  Ret (b, ok).

(** What [Decrypt] makes of the response: the plaintext still encoded. *)
Definition decrypt_response (resp : Response decryptResponse) : Result string :=
  match rs_Body resp with
  | Err e => Err (ErrWrap "failed to read openbao response" e)
  | Ok decoded =>
      if negb (rs_Status resp =? StatusOK)
      then Err (ErrWrap "status" (ErrSentinel ErrDecryptionFailed))
      else
        match decoded with
        | Err e => Err (ErrWrap "failed to unmarshal openbao response" e)
        | Ok dResp =>
            match dr_Errors dResp with
            | _ :: _ => Err (ErrWrap "errors" (ErrSentinel ErrDecryptionFailed))
            | [] => Ok (dr_Plaintext dResp)
            end
        end
  end.

Definition Decrypt (ciphertext : string) : transit (Result BufPtr) :=
  if String.eqb (TrimSpace ciphertext) "" then Ret (Err (ErrSentinel ErrEmptyCiphertext))
  else
    let req := single_request ciphertext in
    created <- vault_do (VNewRequest req) ;;
    match created with
    | Err e => Ret (Err (ErrWrap "failed to create http request" e))
    | Ok _ =>
        resp <- vault_do (VDo SingleDecrypt req) ;;
        match resp with
        | Err e => Ret (Err (ErrWrap "openbao request failed" e))
        | Ok resp => reading SingleDecrypt
            match decrypt_response resp with
            | Err e => Ret (Err e)
            | Ok plaintext =>
                ' (decoded, ok) <- base64_decode plaintext ;;
                if ok : bool then Ret (Ok decoded)
                else Ret (Err (ErrMsg "failed to base64 decode plaintext from openbao"))
            end
        end
    end.

(** The two encoded plaintexts of a usable batch response. *)
Definition batch_plaintexts (resp : Response batchDecryptResponse) : option (string * string) :=
  if rs_Status resp =? StatusOK then
    match rs_Body resp with
    | Ok (Ok bResp) =>
        match br_BatchResults bResp with
        | [rKey; rSec] =>
            if String.eqb (bi_Error rKey) "" && String.eqb (bi_Error rSec) ""
            then Some (bi_Plaintext rKey, bi_Plaintext rSec) else None
        | _ => None
        end
    | _ => None
    end
  else None.

Definition new_creds (key secret : BufPtr) : transit CredPtr :=
  vault_do (VNewCreds {| APIKey := Some key; APISecret := Some secret |}).

(** The batch attempt once answered; every failure only leads to the fallback. *)
Definition decrypt_batch (resp : Response batchDecryptResponse) : transit (option CredPtr) :=
  match batch_plaintexts resp with
  | None => Ret None
  | Some (key, secret) =>
      ' (keyBytes, ok1) <- base64_decode key ;;
      ' (secBytes, ok2) <- base64_decode secret ;;
      if (ok1 : bool) && (ok2 : bool)
      then (p <- new_creds keyBytes secBytes ;; Ret (Some p))
      else Ret None
  end.

(** The fallback, one request for each ciphertext. *)
Definition decrypt_each (apiKeyCiphertext apiSecretCiphertext : string)
    : transit (Result CredPtr) :=
  key <- Decrypt apiKeyCiphertext ;;
  match key with
  | Err e => Ret (Err (ErrWrap "failed to decrypt api key" e))
  | Ok keyBytes =>
      secret <- Decrypt apiSecretCiphertext ;;
      match secret with
      | Err e =>
          vault_do (VWipe keyBytes) ;;;
          Ret (Err (ErrWrap "failed to decrypt api secret" e))
      | Ok secBytes =>
          p <- new_creds keyBytes secBytes ;;
          Ret (Ok p)
      end
  end.

(** The batch response stays open until the function returns, over the fallback too. *)
Definition DecryptCredentials (apiKeyCiphertext apiSecretCiphertext : string)
    : transit (Result CredPtr) :=
  let fallback := decrypt_each apiKeyCiphertext apiSecretCiphertext in
  let req := batch_request apiKeyCiphertext apiSecretCiphertext in
  created <- vault_do (VNewRequest req) ;;
  match created with
  | Err _ => fallback
  | Ok _ =>
      resp <- vault_do (VDo BatchDecrypt req) ;;
      match resp with
      | Err _ => fallback
      | Ok resp => reading BatchDecrypt
          (batch <- decrypt_batch resp ;;
           match batch with
           | Some p => Ret (Ok p)
           | None => fallback
           end)
      end
  end.
End Client.
