(* ===== verification/Db.v ===== *)
(** * The PostgreSQL repositories

    internal/db: the models, the [broker_orders] and [broker_credentials] tables of
    migrations/001_initial_schema.sql and the repository methods.  Each method issues
    one SQL statement, which the model runs atomically on the table; a statement can
    also fail, before or after the server has applied it ([Fault]).  What PostgreSQL
    does to a value stored in a [NUMERIC(p, s)], a [VARCHAR(n)] or a [TIMESTAMPTZ] column is
    the parameter [PgTypes] with its documented laws. *)

From stdpp Require Import base tactics list strings gmap.
From Stdlib Require Import ZArith QArith Lia.
From S2P Require Import Prelude GoStrings Decimal DecimalSpec Uuid.

#[local] Open Scope string_scope.
#[local] Open Scope Z_scope.

(** ** Models (internal/db/models.go) *)

Definition StatusPending : string := "PENDING".
Definition StatusSubmitted : string := "SUBMITTED".
Definition StatusPartial : string := "PARTIAL".
Definition StatusFilled : string := "FILLED".
Definition StatusCanceled : string := "CANCELED".
Definition StatusRejected : string := "REJECTED".

Definition SideBuy : string := "BUY".
Definition SideSell : string := "SELL".

(** Instants, in nanoseconds after Go's zero time. *)
Definition Time := Z.
Definition time_IsZero (t : Time) : bool := t =? 0.

Record BrokerCredential := {
  bc_ID : UUID;
  bc_TenantID : string;
  bc_Provider : string;
  bc_APIKeyCiphertext : string;
  bc_APISecretCiphertext : string;
  bc_CreatedAt : Time;
}.

Record BrokerOrder := {
  bo_ID : UUID;
  bo_TradeIntentID : UUID;
  bo_TenantID : string;
  bo_UserID : string;
  bo_Provider : string;
  bo_ProviderOrderID : string;
  bo_Symbol : string;
  bo_Side : string;
  bo_TargetQuantity : Decimal;
  bo_Status : string;
  bo_FilledQuantity : Decimal;
  bo_AverageFillPrice : Decimal;
  bo_IdempotencyKey : string;
  bo_PortfolioID : string;
  bo_LivroHoldID : string;
  bo_CreatedAt : Time;
  bo_UpdatedAt : Time;
}.

(** ** Columns *)

(** What is read back from a column in which a value was stored; [None] when the statement
    fails.
    - [numeric p s]: [NUMERIC(p, s)]; it fails with a "numeric field overflow".
    - [character (Some n)]: [VARCHAR(n)], [character None]: [TEXT]; they fail on text that
      is too long or not in the server's encoding.
    - [timestamptz]: [TIMESTAMPTZ], which keeps microseconds. *)
Class PgTypes := {
  numeric : Z -> Z -> Decimal -> option Decimal;
  character : option Z -> string -> option string;
  timestamptz : Time -> Time;
}.

(** Text of ASCII characters other than NUL. *)
Definition plain_text (s : string) : bool :=
  str_forallb (fun c => (0 <? byte_code c) && is_ascii_byte c) s.

(** PostgreSQL's documentation.  Section 8.1.2: a value of larger scale is rounded to
    the declared number of fractional digits, ties away from zero; an error is raised
    when the digits to the left of the point exceed precision minus scale.  The
    precision is at most 1000.  The driver reads a value in groups of four decimal digits,
    which bounds its exponent.  Section 8.3: a text that fits is stored as it is; a longer
    one is an error or, when the excess is spaces, cut to the declared length. *)
Class PgTypesLaws `{PgTypes} := {
  numeric_rounds : forall p s d d',
    0 <= s <= p -> p <= 1000 -> numeric p s d = Some d' ->
    exists n, rounds_half_away (dval d * p10 s) n /\ Z.abs n < 10 ^ p /\
      (dval d' == inject_Z n * p10 (- s))%Q;
  numeric_defined : forall p s d n,
    0 <= s <= p -> p <= 1000 -> rounds_half_away (dval d * p10 s) n -> Z.abs n < 10 ^ p -> is_Some (numeric p s d);
  numeric_exponent : forall p s d d',
    0 <= s <= p -> p <= 1000 -> numeric p s d = Some d' -> - (s + 4) <= d_exp d' <= p;
  character_fits : forall n s,
    plain_text s = true -> Z.of_nat (String.length s) <= n -> character (Some n) s = Some s;
  character_stored : forall limit s s',
    character limit s = Some s' -> character limit s' = Some s';
  character_readable : forall limit s s',
    character limit s = Some s' -> character None s' = Some s';
  character_empty : forall n s, 0 < n -> character (Some n) s = Some "" -> s = "";
}.

Definition numeric_qty `{PgTypes} : Decimal -> option Decimal := numeric 28 8.
Definition numeric_price `{PgTypes} : Decimal -> option Decimal := numeric 28 4.
Definition varchar `{PgTypes} (n : Z) : string -> option string := character (Some n).
Definition text `{PgTypes} : string -> option string := character None.

(** Text parameters of a WHERE clause the server can read. *)
Definition text_params `{PgTypes} (params : list string) : bool :=
  forallb (fun s => bool_decide (is_Some (text s))) params.

(** ** Rows and tables *)

Record OrderRow := {
  row_id : UUID;
  row_trade_intent_id : UUID;
  row_tenant_id : string;
  row_user_id : string;
  row_provider : string;
  row_provider_order_id : option string;
  row_symbol : string;
  row_side : string;
  row_target_quantity : Decimal;
  row_status : string;
  row_filled_quantity : Decimal;
  row_average_fill_price : Decimal;
  row_idempotency_key : option string;
  row_portfolio_id : option string;
  row_livro_hold_id : option string;
  row_created_at : Time;
  row_updated_at : Time;
}.

(** The table, by primary key. *)
Abbreviation OrderTable := (gmap UUID OrderRow).

(** The partial unique index: [(tenant_id, idempotency_key) WHERE idempotency_key <> '']. *)
Definition idem_key (r : OrderRow) : option (string * string) :=
  match row_idempotency_key r with
  | Some k => if String.eqb k "" then None else Some (row_tenant_id r, k)
  | None => None
  end.

(** Two rows a unique constraint keeps apart. *)
Definition conflicts (r1 r2 : OrderRow) : bool :=
  bool_decide (row_id r1 = row_id r2) ||
  bool_decide (row_trade_intent_id r1 = row_trade_intent_id r2) ||
  match idem_key r1 with
  | Some k => bool_decide (idem_key r2 = Some k)
  | None => false
  end.

(** Rows that satisfy a WHERE clause. *)
Definition select_where (p : OrderRow -> bool) (t : OrderTable) : list OrderRow :=
  filter (fun r => p r = true) (map snd (map_to_list t)).

(** [QueryRow]: the first row of the result.  A query without ORDER BY returns its
    rows in any order, hence [choice]. *)
Definition query_row (choice : nat) (rows : list OrderRow) : option OrderRow :=
  rows !! (choice mod length rows)%nat.

(** ** Statements *)

Inductive Fault := NoFault | FailBefore | FailAfter.

(** The outcome of [pool.Exec]: rows affected, or an error. *)
Definition db_exec {T} (f : Fault) (stmt : T -> option (nat * T)) (t : T) : Result nat * T :=
  match f, stmt t with
  | NoFault, Some (n, t') => (Ok n, t')
  | FailAfter, Some (_, t') => (Err (ErrMsg "database error"), t')
  | _, _ => (Err (ErrMsg "database error"), t)
  end.

(** INSERT ... ON CONFLICT DO NOTHING *)
Definition insert_on_conflict_do_nothing (r : OrderRow) (t : OrderTable) : nat * OrderTable :=
  match select_where (conflicts r) t with
  | [] => (1%nat, <[row_id r := r]> t)
  | _ :: _ => (0%nat, t)
  end.

(** UPDATE ... SET ... WHERE *)
Definition update_where (p : OrderRow -> bool) (f : OrderRow -> OrderRow) (t : OrderTable)
  : nat * OrderTable :=
  (length (select_where p t), (fun r => if p r then f r else r) <$> t).

(** DELETE ... WHERE *)
Definition delete_where (p : OrderRow -> bool) (t : OrderTable) : nat * OrderTable :=
  (length (select_where p t), filter (fun ir => p (snd ir) = false) t).

(** ** The orders repository (internal/db/orders_repo.go) *)

Section OrdersRepo.
Context `{PgTypes}.

(** [scanOrder]: NULL becomes the empty string. *)
Definition scanOrder (r : OrderRow) : BrokerOrder := {|
  bo_ID := row_id r;
  bo_TradeIntentID := row_trade_intent_id r;
  bo_TenantID := row_tenant_id r;
  bo_UserID := row_user_id r;
  bo_Provider := row_provider r;
  bo_ProviderOrderID := default "" (row_provider_order_id r);
  bo_Symbol := row_symbol r;
  bo_Side := row_side r;
  bo_TargetQuantity := row_target_quantity r;
  bo_Status := row_status r;
  bo_FilledQuantity := row_filled_quantity r;
  bo_AverageFillPrice := row_average_fill_price r;
  bo_IdempotencyKey := default "" (row_idempotency_key r);
  bo_PortfolioID := default "" (row_portfolio_id r);
  bo_LivroHoldID := default "" (row_livro_hold_id r);
  bo_CreatedAt := row_created_at r;
  bo_UpdatedAt := row_updated_at r;
|}.

(** The three lookups share the handling of the scanned row. *)
Definition scan_result (f : Fault) (o : option OrderRow) : Result BrokerOrder :=
  match f, o with
  | NoFault, Some r => Ok (scanOrder r)
  | NoFault, None => Err (ErrSentinel ErrOrderNotFound)
  | _, _ => Err (ErrWrap "failed to scan broker order" (ErrMsg "database error"))
  end.

(** A query with a parameter the server cannot read fails. *)
Definition readable (f : Fault) (params : list string) : Fault :=
  if text_params params then f else FailBefore.

Definition GetOrderByIntentID (f : Fault) (choice : nat) (tradeIntentID : UUID)
    (t : OrderTable) : Result BrokerOrder :=
  scan_result f (query_row choice
    (select_where (fun r => bool_decide (row_trade_intent_id r = tradeIntentID)) t)).

Definition GetOrderByIdempotencyKey (f : Fault) (choice : nat)
    (tenantID idempotencyKey : string) (t : OrderTable) : Result BrokerOrder :=
  scan_result (readable f [tenantID; idempotencyKey]) (query_row choice
    (select_where (fun r => String.eqb (row_tenant_id r) tenantID &&
       bool_decide (row_idempotency_key r = Some idempotencyKey)) t)).

Definition GetOrderByProviderOrderID (f : Fault) (choice : nat)
    (provider providerOrderID : string) (t : OrderTable) : Result BrokerOrder :=
  scan_result (readable f [provider; providerOrderID]) (query_row choice
    (select_where (fun r => String.eqb (row_provider r) provider &&
       bool_decide (row_provider_order_id r = Some providerOrderID)) t)).

(** The fields [ReserveOrder] fills in on the caller's struct. *)
Definition reserve_prepare (fresh : UUID) (now : Time) (order : BrokerOrder) : BrokerOrder := {|
  bo_ID := if decide (bo_ID order = Nil) then fresh else bo_ID order;
  bo_TradeIntentID := bo_TradeIntentID order;
  bo_TenantID := bo_TenantID order;
  bo_UserID := bo_UserID order;
  bo_Provider := bo_Provider order;
  bo_ProviderOrderID := bo_ProviderOrderID order;
  bo_Symbol := bo_Symbol order;
  bo_Side := bo_Side order;
  bo_TargetQuantity := bo_TargetQuantity order;
  bo_Status := StatusPending;
  bo_FilledQuantity := bo_FilledQuantity order;
  bo_AverageFillPrice := bo_AverageFillPrice order;
  bo_IdempotencyKey := bo_IdempotencyKey order;
  bo_PortfolioID := bo_PortfolioID order;
  bo_LivroHoldID := bo_LivroHoldID order;
  bo_CreatedAt := if time_IsZero (bo_CreatedAt order) then now else bo_CreatedAt order;
  bo_UpdatedAt := if time_IsZero (bo_UpdatedAt order) then now else bo_UpdatedAt order;
|}.

(** The row of the INSERT: every column but [provider_order_id], which stays NULL. *)
Definition reserved_row (o : BrokerOrder) : option OrderRow :=
  tenant ← varchar 64 (bo_TenantID o);
  user ← varchar 64 (bo_UserID o);
  provider ← varchar 32 (bo_Provider o);
  symbol ← varchar 32 (bo_Symbol o);
  side ← varchar 16 (bo_Side o);
  target ← numeric_qty (bo_TargetQuantity o);
  status ← varchar 32 (bo_Status o);
  filled ← numeric_qty (bo_FilledQuantity o);
  price ← numeric_price (bo_AverageFillPrice o);
  key ← varchar 128 (bo_IdempotencyKey o);
  portfolio ← varchar 64 (bo_PortfolioID o);
  hold ← varchar 64 (bo_LivroHoldID o);
  Some {|
    row_id := bo_ID o;
    row_trade_intent_id := bo_TradeIntentID o;
    row_tenant_id := tenant;
    row_user_id := user;
    row_provider := provider;
    row_provider_order_id := None;
    row_symbol := symbol;
    row_side := side;
    row_target_quantity := target;
    row_status := status;
    row_filled_quantity := filled;
    row_average_fill_price := price;
    row_idempotency_key := Some key;
    row_portfolio_id := Some portfolio;
    row_livro_hold_id := Some hold;
    row_created_at := timestamptz (bo_CreatedAt o);
    row_updated_at := timestamptz (bo_UpdatedAt o);
  |}.

(** The struct as mutated, the result, and the table. *)
Definition ReserveOrder (f : Fault) (fresh : UUID) (now : Time) (order : BrokerOrder)
    (t : OrderTable) : BrokerOrder * Result bool * OrderTable :=
  let order := reserve_prepare fresh now order in
  let stmt t :=
    match reserved_row order with
    | Some r => Some (insert_on_conflict_do_nothing r t)
    | None => None
    end in
  match db_exec f stmt t with
  | (Ok n, t') => (order, Ok (n =? 1)%nat, t')
  | (Err e, t') => (order, Err (ErrWrap "failed to reserve broker order" e), t')
  end.

(** [ConfirmOrder]'s SET clause. *)
Definition confirm_row (now : Time) (providerOrderID status : string)
    (filled price : Decimal) (r : OrderRow) : OrderRow := {|
  row_id := row_id r;
  row_trade_intent_id := row_trade_intent_id r;
  row_tenant_id := row_tenant_id r;
  row_user_id := row_user_id r;
  row_provider := row_provider r;
  row_provider_order_id := Some providerOrderID;
  row_symbol := row_symbol r;
  row_side := row_side r;
  row_target_quantity := row_target_quantity r;
  row_status := status;
  row_filled_quantity := filled;
  row_average_fill_price := price;
  row_idempotency_key := row_idempotency_key r;
  row_portfolio_id := row_portfolio_id r;
  row_livro_hold_id := row_livro_hold_id r;
  row_created_at := row_created_at r;
  row_updated_at := now;
|}.

Definition pending_with_id (id : UUID) (r : OrderRow) : bool :=
  bool_decide (row_id r = id) && String.eqb (row_status r) StatusPending.

Definition ConfirmOrder (f : Fault) (now : Time) (id : UUID)
    (providerOrderID status : string) (filledQuantity avgFillPrice : Decimal)
    (t : OrderTable) : Result unit * OrderTable :=
  let stmt t :=
    pid ← varchar 64 providerOrderID;
    st ← varchar 32 status;
    filled ← numeric_qty filledQuantity;
    price ← numeric_price avgFillPrice;
    Some (update_where (pending_with_id id) (confirm_row now pid st filled price) t) in
  match db_exec f stmt t with
  | (Ok O, t') => (Err (ErrSentinel ErrOrderNotFound), t')
  | (Ok (S _), t') => (Ok tt, t')
  | (Err e, t') => (Err (ErrWrap "failed to confirm broker order" e), t')
  end.

Definition ReleaseOrder (f : Fault) (id : UUID) (t : OrderTable)
    : Result unit * OrderTable :=
  match db_exec f (fun t => Some (delete_where (pending_with_id id) t)) t with
  | (Ok _, t') => (Ok tt, t')
  | (Err e, t') => (Err (ErrWrap "failed to release broker order reservation" e), t')
  end.

(** [UpdateOrderFill]'s SET clause. *)
Definition fill_row (now : Time) (status : string) (filled price : Decimal)
    (r : OrderRow) : OrderRow := {|
  row_id := row_id r;
  row_trade_intent_id := row_trade_intent_id r;
  row_tenant_id := row_tenant_id r;
  row_user_id := row_user_id r;
  row_provider := row_provider r;
  row_provider_order_id := row_provider_order_id r;
  row_symbol := row_symbol r;
  row_side := row_side r;
  row_target_quantity := row_target_quantity r;
  row_status := status;
  row_filled_quantity := filled;
  row_average_fill_price := price;
  row_idempotency_key := row_idempotency_key r;
  row_portfolio_id := row_portfolio_id r;
  row_livro_hold_id := row_livro_hold_id r;
  row_created_at := row_created_at r;
  row_updated_at := now;
|}.

Definition with_provider_order (provider providerOrderID : string) (r : OrderRow) : bool :=
  String.eqb (row_provider r) provider &&
  bool_decide (row_provider_order_id r = Some providerOrderID).

Definition UpdateOrderFill (f : Fault) (now : Time) (provider providerOrderID status : string)
    (filledQuantity avgFillPrice : Decimal) (t : OrderTable)
    : Result unit * OrderTable :=
  let stmt t :=
    st ← varchar 32 status;
    filled ← numeric_qty filledQuantity;
    price ← numeric_price avgFillPrice;
    if text_params [provider; providerOrderID]
    then Some (update_where (with_provider_order provider providerOrderID)
                 (fill_row now st filled price) t)
    else None in
  match db_exec f stmt t with
  | (Ok O, t') => (Err (ErrSentinel ErrOrderNotFound), t')
  | (Ok (S _), t') => (Ok tt, t')
  | (Err e, t') => (Err (ErrWrap "failed to update broker order fill" e), t')
  end.
End OrdersRepo.

(** ** The credentials repository (internal/db/credentials_repo.go) *)

(** The table by its UNIQUE (tenant_id, provider) constraint. *)
Abbreviation CredTable := (gmap (string * string) BrokerCredential).

Section CredentialsRepo.
Context `{PgTypes}.

Definition GetCredentials (f : Fault) (tenantID provider : string) (t : CredTable)
  : Result BrokerCredential :=
  match readable f [tenantID; provider], t !! (tenantID, provider) with
  | NoFault, Some c => Ok c
  | NoFault, None => Err (ErrSentinel ErrCredentialsNotFound)
  | _, _ => Err (ErrWrap "failed to query broker credentials" (ErrMsg "database error"))
  end.

(** INSERT ... ON CONFLICT (tenant_id, provider) DO UPDATE SET the two ciphertexts:
    an existing row keeps its id and creation time.  The returned struct is the
    caller's, with the fields the method fills in. *)
Definition SaveCredentials (f : Fault) (fresh : UUID) (now : Time) (cred : BrokerCredential)
    (t : CredTable) : BrokerCredential * Result unit * CredTable :=
  let cred := {|
    bc_ID := if decide (bc_ID cred = Nil) then fresh else bc_ID cred;
    bc_TenantID := bc_TenantID cred;
    bc_Provider := bc_Provider cred;
    bc_APIKeyCiphertext := bc_APIKeyCiphertext cred;
    bc_APISecretCiphertext := bc_APISecretCiphertext cred;
    bc_CreatedAt := if time_IsZero (bc_CreatedAt cred) then now else bc_CreatedAt cred;
  |} in
  let stmt (t : CredTable) :=
    tenant ← varchar 64 (bc_TenantID cred);
    provider ← varchar 32 (bc_Provider cred);
    key ← text (bc_APIKeyCiphertext cred);
    secret ← text (bc_APISecretCiphertext cred);
    match t !! (tenant, provider) with
    | Some old =>
        Some (1%nat, <[(tenant, provider) := {|
          bc_ID := bc_ID old;
          bc_TenantID := bc_TenantID old;
          bc_Provider := bc_Provider old;
          bc_APIKeyCiphertext := key;
          bc_APISecretCiphertext := secret;
          bc_CreatedAt := bc_CreatedAt old |}]> t)
    | None =>
        (* a row with this primary key under another tenant or provider *)
        if decide (map_Forall (fun _ c => bc_ID c <> bc_ID cred) t)
        then Some (1%nat, <[(tenant, provider) := {|
          bc_ID := bc_ID cred;
          bc_TenantID := tenant;
          bc_Provider := provider;
          bc_APIKeyCiphertext := key;
          bc_APISecretCiphertext := secret;
          bc_CreatedAt := timestamptz (bc_CreatedAt cred) |}]> t)
        else None
    end in
  match db_exec f stmt t with
  | (Ok _, t') => (cred, Ok tt, t')
  | (Err e, t') => (cred, Err (ErrWrap "failed to save broker credentials" e), t')
  end.
End CredentialsRepo.
