(* ===== verification/DbSpec.v ===== *)
(** * What the orders table guarantees

    The unique constraints of [broker_orders] as an invariant of the table that every
    repository method preserves, and the effect of each method on the rows. *)

From stdpp Require Import base tactics list strings gmap.
From Stdlib Require Import ZArith QArith Lia.
From S2P Require Import Prelude GoStrings Decimal DecimalSpec Uuid Db.

#[local] Open Scope string_scope.
#[local] Open Scope Z_scope.

(** Every row sits under its primary key, and no two rows break a unique constraint. *)
Record table_ok (t : OrderTable) : Prop := {
  ok_key : forall i r, t !! i = Some r -> row_id r = i;
  ok_intent : forall i j r1 r2, t !! i = Some r1 -> t !! j = Some r2 ->
    row_trade_intent_id r1 = row_trade_intent_id r2 -> i = j;
  ok_idem : forall i j r1 r2 k, t !! i = Some r1 -> t !! j = Some r2 ->
    idem_key r1 = Some k -> idem_key r2 = Some k -> i = j;
}.

Lemma table_ok_empty : table_ok ∅.
Proof. split; intros *; rewrite lookup_empty; done. Qed.

(** ** Queries *)

Lemma elem_of_select_where p t r :
  r ∈ select_where p t <-> p r = true /\ exists i, t !! i = Some r.
Proof.
  unfold select_where. rewrite list_elem_of_filter, list_elem_of_fmap. split.
  - intros [Hp [[i r'] [-> Hi]]]. apply elem_of_map_to_list in Hi. eauto.
  - intros [Hp [i Hi]]. split; [done|]. exists (i, r). split; [done|].
    by apply elem_of_map_to_list.
Qed.

Lemma select_where_nil p t :
  select_where p t = [] <-> (forall i r, t !! i = Some r -> p r = false).
Proof.
  split.
  - intros Hn i r Hi. destruct (p r) eqn:Hp; [|done].
    assert (r ∈ select_where p t) as Hin by (apply elem_of_select_where; eauto).
    rewrite Hn in Hin. by apply elem_of_nil in Hin.
  - intros Hall. destruct (select_where p t) as [|r l] eqn:E; [done|].
    assert (r ∈ select_where p t) as Hin by (rewrite E; left).
    apply elem_of_select_where in Hin as [Hp [i Hi]]. by rewrite (Hall i r Hi) in Hp.
Qed.

Lemma query_row_some c rows r : query_row c rows = Some r -> r ∈ rows.
Proof. unfold query_row. intros H. apply list_elem_of_lookup. eauto. Qed.

Lemma query_row_none c rows : query_row c rows = None <-> rows = [].
Proof.
  unfold query_row. split; [|by intros ->].
  intros H. apply lookup_ge_None in H. destruct rows as [|r rows]; [done|].
  pose proof (Nat.mod_upper_bound c (length (r :: rows)) ltac:(simpl; lia)). lia.
Qed.

(** The row a query on a unique column finds does not depend on the row order. *)
Lemma query_unique c p t i r :
  t !! i = Some r -> p r = true ->
  (forall j r', t !! j = Some r' -> p r' = true -> j = i) ->
  query_row c (select_where p t) = Some r.
Proof.
  intros Hi Hp Hu. destruct (query_row c (select_where p t)) as [r'|] eqn:E.
  - apply query_row_some, elem_of_select_where in E as [Hp' [j Hj]].
    pose proof (Hu j r' Hj Hp') as ->. congruence.
  - apply query_row_none, select_where_nil with (i := i) (r := r) in E; congruence.
Qed.

Lemma query_none c p t :
  (forall i r, t !! i = Some r -> p r = false) -> query_row c (select_where p t) = None.
Proof. intros H. apply query_row_none, select_where_nil, H. Qed.

(** ** Statements *)

(** The columns only the INSERT writes. *)
Definition fixed_columns (r : OrderRow) :=
  (row_id r, row_trade_intent_id r, row_tenant_id r, row_user_id r, row_provider r, row_symbol r,
   row_side r, row_target_quantity r, row_idempotency_key r, row_portfolio_id r,
   row_livro_hold_id r, row_created_at r).

(** The same order, at another moment of its life. *)
Definition same_keys (r r' : OrderRow) : Prop := fixed_columns r' = fixed_columns r.

#[export] Instance same_keys_equivalence : Equivalence same_keys.
Proof. unfold same_keys. split; repeat intro; congruence. Qed.

Lemma same_keys_unique r r' :
  same_keys r r' -> row_id r' = row_id r /\
    row_trade_intent_id r' = row_trade_intent_id r /\ idem_key r' = idem_key r.
Proof.
  unfold same_keys, fixed_columns, idem_key. intros [= E1 E2 E3 _ _ _ _ _ E9 _ _ _].
  by rewrite E1, E2, E3, E9.
Qed.

(** Changes to a row that leave these alone. *)
Definition keeps_keys (f : OrderRow -> OrderRow) : Prop := forall r, same_keys r (f r).

Lemma confirm_keeps_keys now pid st q p : keeps_keys (confirm_row now pid st q p).
Proof. intros r. done. Qed.

Lemma fill_keeps_keys now st q p : keeps_keys (fill_row now st q p).
Proof. intros r. done. Qed.

#[export] Hint Resolve table_ok_empty confirm_keeps_keys fill_keeps_keys : db.

Lemma update_lookup p f t i r' :
  snd (update_where p f t) !! i = Some r' <->
  exists r, t !! i = Some r /\ r' = if p r then f r else r.
Proof.
  simpl. rewrite lookup_fmap. destruct (t !! i) as [r|]; simpl; split.
  - intros [= <-]. eauto.
  - intros [r0 [[= ->] ->]]. done.
  - done.
  - intros [r0 [? _]]. done.
Qed.

Lemma update_ok p f t : keeps_keys f -> table_ok t -> table_ok (snd (update_where p f t)).
Proof.
  intros Hf [Hk Hi Hd].
  assert (forall r, row_id (if p r then f r else r) = row_id r /\
    row_trade_intent_id (if p r then f r else r) = row_trade_intent_id r /\
    idem_key (if p r then f r else r) = idem_key r) as Hg.
  { intros r. apply same_keys_unique. by destruct (p r). }
  split.
  - intros i r' [r [Hr ->]]%update_lookup. rewrite (proj1 (Hg r)). eauto.
  - intros i j r1' r2' [r1 [H1 ->]]%update_lookup [r2 [H2 ->]]%update_lookup.
    destruct (Hg r1) as (_ & -> & _), (Hg r2) as (_ & -> & _). eauto.
  - intros i j r1' r2' k [r1 [H1 ->]]%update_lookup [r2 [H2 ->]]%update_lookup.
    destruct (Hg r1) as (_ & _ & ->), (Hg r2) as (_ & _ & ->). eauto.
Qed.

Lemma delete_lookup p t i r :
  snd (delete_where p t) !! i = Some r <-> t !! i = Some r /\ p r = false.
Proof. simpl. by rewrite map_lookup_filter_Some. Qed.

Lemma delete_ok p t : table_ok t -> table_ok (snd (delete_where p t)).
Proof.
  intros [Hk Hi Hd]. split.
  - intros i r [? _]%delete_lookup. eauto.
  - intros i j r1 r2 [? _]%delete_lookup [? _]%delete_lookup. eauto.
  - intros i j r1 r2 k [? _]%delete_lookup [? _]%delete_lookup. eauto.
Qed.

Lemma conflicts_false r1 r2 :
  conflicts r1 r2 = false <->
  row_id r1 <> row_id r2 /\ row_trade_intent_id r1 <> row_trade_intent_id r2 /\
  (forall k, idem_key r1 = Some k -> idem_key r2 <> Some k).
Proof.
  unfold conflicts. rewrite !orb_false_iff, !bool_decide_eq_false.
  destruct (idem_key r1) as [k|].
  - rewrite bool_decide_eq_false. split; [|naive_solver].
    intros [[? ?] ?]. repeat split; try done. intros k' [= <-]. done.
  - naive_solver.
Qed.

(** What the INSERT does: a row that conflicts with none is added and counted, one that
    conflicts leaves the table as it was. *)
Lemma insert_spec r t n t' :
  insert_on_conflict_do_nothing r t = (n, t') ->
  (n = 1%nat /\ t' = <[row_id r := r]> t /\
     forall i r0, t !! i = Some r0 -> conflicts r r0 = false) \/
  (n = 0%nat /\ t' = t /\ exists i r0, t !! i = Some r0 /\ conflicts r r0 = true).
Proof.
  unfold insert_on_conflict_do_nothing.
  destruct (select_where (conflicts r) t) as [|r0 l] eqn:E; intros [= <- <-].
  - left. repeat split. by apply select_where_nil.
  - right. repeat split. assert (r0 ∈ select_where (conflicts r) t) as Hin by (rewrite E; left).
    apply elem_of_select_where in Hin as [? [i ?]]. eauto.
Qed.

Lemma insert_ok r t : table_ok t -> table_ok (snd (insert_on_conflict_do_nothing r t)).
Proof.
  intros Hok. destruct (insert_on_conflict_do_nothing r t) as [n t'] eqn:E. simpl.
  apply insert_spec in E as [(_ & -> & Hc)|(_ & -> & _)]; [|done].
  destruct Hok as [Hk Hi Hd].
  assert (forall i r0, t !! i = Some r0 -> row_id r <> row_id r0 /\
    row_trade_intent_id r <> row_trade_intent_id r0 /\
    (forall k, idem_key r = Some k -> idem_key r0 <> Some k)) as Hc'.
  { intros i r0 H0. by apply conflicts_false, (Hc i). }
  split.
  - intros i r0. rewrite lookup_insert. case_decide; naive_solver.
  - intros i j r1 r2. rewrite !lookup_insert.
    repeat case_decide; intros; simplify_eq; try done; [| |by eapply Hi]; exfalso.
    + by destruct (Hc' j r2) as (_ & ? & _).
    + destruct (Hc' i r1) as (_ & ? & _); [done|]. congruence.
  - intros i j r1 r2 k. rewrite !lookup_insert.
    repeat case_decide; intros; simplify_eq; try done; [| |by eapply Hd]; exfalso.
    + destruct (Hc' j r2) as (_ & _ & Hx); [done|]. by eapply Hx.
    + destruct (Hc' i r1) as (_ & _ & Hx); [done|]. by eapply Hx.
Qed.

(** Rows survive a statement with their keys, but for the one it may delete. *)
Definition keeps_rows (except : option UUID) (t t' : OrderTable) : Prop :=
  forall i r, t !! i = Some r -> except <> Some i ->
    exists r', t' !! i = Some r' /\ same_keys r r'.

Lemma keeps_rows_refl e t : keeps_rows e t t.
Proof. intros i r Hi _. exists r. done. Qed.

Lemma update_rows p f t : keeps_keys f -> keeps_rows None t (snd (update_where p f t)).
Proof.
  intros Hf i r Hi _. exists (if p r then f r else r). split; [apply update_lookup; eauto|].
  destruct (p r); [apply Hf|done].
Qed.

Lemma insert_rows r t :
  table_ok t -> keeps_rows None t (snd (insert_on_conflict_do_nothing r t)).
Proof.
  intros Hok i r0 Hi _. exists r0. split; [|done].
  destruct (insert_on_conflict_do_nothing r t) as [n t'] eqn:E.
  apply insert_spec in E as [(_ & -> & Hc)|(_ & -> & _)]; [|done]. simpl.
  rewrite lookup_insert_ne; [done|]. intros He.
  apply (Hc i r0) in Hi as Hcc. apply conflicts_false in Hcc as [Hid _].
  apply Hid. by rewrite (ok_key t Hok i r0 Hi).
Qed.

Lemma delete_rows id t :
  table_ok t -> keeps_rows (Some id) t (snd (delete_where (pending_with_id id) t)).
Proof.
  intros Hok i r Hi Hne. exists r. split; [|done]. apply delete_lookup. split; [done|].
  unfold pending_with_id. rewrite bool_decide_eq_false_2; [done|].
  rewrite (ok_key t Hok i r Hi). congruence.
Qed.

#[export] Hint Resolve keeps_rows_refl update_rows insert_rows delete_rows
  update_ok insert_ok delete_ok : db.

(** What a statement and the untouched table satisfy holds under every fault. *)
Lemma db_exec_post {T} (P : T -> Prop) f (stmt : T -> option (nat * T)) t :
  (forall n t', stmt t = Some (n, t') -> P t') -> P t -> P (snd (db_exec f stmt t)).
Proof.
  intros Hs Ht. unfold db_exec. destruct f, (stmt t) as [[n t']|] eqn:E; simpl; eauto.
Qed.

(** Reduces a method's table to the outcomes of its statement. *)
Ltac via_statement P f t :=
  match goal with
  | |- context [db_exec f ?s t] =>
      let He := fresh "He" in
      pose proof (db_exec_post P f s t) as He;
      destruct (db_exec f s t) as [[[|?]|?] ?]; apply He; try done
  end.

(** The cases of a statement that stores its columns one by one. *)
Ltac by_columns :=
  repeat match goal with
  | |- context [mbind _ ?c] => destruct c eqn:?; cbn [mbind option_bind]; try done
  | |- context [if text_params ?l then _ else _] => destruct (text_params l) eqn:?; try done
  end.

Section Methods.
Context `{PgTypes}.

(** A method leaves the table as its statement does, on the values as stored. *)
Lemma ReserveOrder_post (P : OrderTable -> Prop) f fresh now o t :
  (forall r, reserved_row (reserve_prepare fresh now o) = Some r ->
     P (snd (insert_on_conflict_do_nothing r t))) -> P t ->
  P (snd (ReserveOrder f fresh now o t)).
Proof.
  intros Hs Ht. unfold ReserveOrder.
  via_statement P f t.
  all: intros n0 t0; destruct (reserved_row _) as [r|]; [|done]; intros [= E].
  all: specialize (Hs r eq_refl); by rewrite E in Hs.
Qed.

Lemma ConfirmOrder_post (P : OrderTable -> Prop) f now id pid st q p t :
  (forall pid' st' q' p', varchar 64 pid = Some pid' -> varchar 32 st = Some st' ->
     numeric_qty q = Some q' -> numeric_price p = Some p' ->
     P (snd (update_where (pending_with_id id) (confirm_row now pid' st' q' p') t))) -> P t ->
  P (snd (ConfirmOrder f now id pid st q p t)).
Proof.
  intros Hs Ht. unfold ConfirmOrder.
  via_statement P f t.
  all: intros n0 t0; by_columns; intros [= <- <-]; by apply Hs.
Qed.

Lemma ReleaseOrder_post (P : OrderTable -> Prop) f id t :
  P (snd (delete_where (pending_with_id id) t)) -> P t -> P (snd (ReleaseOrder f id t)).
Proof.
  intros Hs Ht. unfold ReleaseOrder.
  via_statement P f t.
  all: by intros n0 t0 [= <- <-].
Qed.

Lemma UpdateOrderFill_post (P : OrderTable -> Prop) f now pr pid st q p t :
  (forall st' q' p', varchar 32 st = Some st' ->
     numeric_qty q = Some q' -> numeric_price p = Some p' ->
     P (snd (update_where (with_provider_order pr pid) (fill_row now st' q' p') t))) -> P t ->
  P (snd (UpdateOrderFill f now pr pid st q p t)).
Proof.
  intros Hs Ht. unfold UpdateOrderFill.
  via_statement P f t.
  all: intros n0 t0; by_columns; intros [= <- <-]; by apply Hs.
Qed.

(** What a method does to the table: the constraints hold on, and rows persist. *)
Definition steps_ok (except : option UUID) (t t' : OrderTable) : Prop :=
  table_ok t' /\ keeps_rows except t t'.

Lemma ReserveOrder_ok f fresh now o t :
  table_ok t -> steps_ok None t (snd (ReserveOrder f fresh now o t)).
Proof. intros Ht. apply (ReserveOrder_post (steps_ok None t)); split; auto with db. Qed.

Lemma ConfirmOrder_ok f now id pid st q p t :
  table_ok t -> steps_ok None t (snd (ConfirmOrder f now id pid st q p t)).
Proof. intros Ht. apply (ConfirmOrder_post (steps_ok None t)); split; auto with db. Qed.

Lemma ReleaseOrder_ok f id t :
  table_ok t -> steps_ok (Some id) t (snd (ReleaseOrder f id t)).
Proof. intros Ht. apply (ReleaseOrder_post (steps_ok (Some id) t)); split; auto with db. Qed.

Lemma UpdateOrderFill_ok f now pr pid st q p t :
  table_ok t -> steps_ok None t (snd (UpdateOrderFill f now pr pid st q p t)).
Proof. intros Ht. apply (UpdateOrderFill_post (steps_ok None t)); split; auto with db. Qed.

(** The key of an order under the partial unique index. *)
Definition order_idem_key (o : BrokerOrder) : option (string * string) :=
  tenant ← varchar 64 (bo_TenantID o);
  key ← varchar 128 (bo_IdempotencyKey o);
  if String.eqb key "" then None else Some (tenant, key).

(** The row an order is stored as, column by column. *)
Record stored (o : BrokerOrder) (r : OrderRow) : Prop := {
  st_id : row_id r = bo_ID o;
  st_intent : row_trade_intent_id r = bo_TradeIntentID o;
  st_tenant : varchar 64 (bo_TenantID o) = Some (row_tenant_id r);
  st_user : varchar 64 (bo_UserID o) = Some (row_user_id r);
  st_provider : varchar 32 (bo_Provider o) = Some (row_provider r);
  st_provider_order : row_provider_order_id r = None;
  st_symbol : varchar 32 (bo_Symbol o) = Some (row_symbol r);
  st_side : varchar 16 (bo_Side o) = Some (row_side r);
  st_target : numeric_qty (bo_TargetQuantity o) = Some (row_target_quantity r);
  st_status : varchar 32 (bo_Status o) = Some (row_status r);
  st_filled : numeric_qty (bo_FilledQuantity o) = Some (row_filled_quantity r);
  st_price : numeric_price (bo_AverageFillPrice o) = Some (row_average_fill_price r);
  st_key : exists k, row_idempotency_key r = Some k /\ varchar 128 (bo_IdempotencyKey o) = Some k;
  st_portfolio : exists k, row_portfolio_id r = Some k /\ varchar 64 (bo_PortfolioID o) = Some k;
  st_hold : exists k, row_livro_hold_id r = Some k /\ varchar 64 (bo_LivroHoldID o) = Some k;
}.

Lemma reserved_row_stored o r : reserved_row o = Some r -> stored o r.
Proof. unfold reserved_row. by_columns. intros [= <-]. split; simpl; eauto. Qed.

Lemma stored_key o r : stored o r -> idem_key r = order_idem_key o.
Proof.
  intros []. destruct st_key0 as (k & Hk & E). unfold idem_key, order_idem_key.
  by rewrite Hk, st_tenant0, E.
Qed.

(** [ReserveOrder] answering true: the row of the order is new in the table, and no row
    shared its id, its intent or its idempotency key. *)
Lemma ReserveOrder_true f fresh now o t o' t' :
  ReserveOrder f fresh now o t = (o', Ok true, t') ->
  o' = reserve_prepare fresh now o /\
  (exists r, reserved_row o' = Some r /\ t' = <[bo_ID o' := r]> t /\
    forall i r0, t !! i = Some r0 -> conflicts r r0 = false).
Proof.
  unfold ReserveOrder, db_exec.
  destruct (reserved_row (reserve_prepare fresh now o)) as [r|] eqn:Er; [|by destruct f].
  destruct (insert_on_conflict_do_nothing r t) as [n t0] eqn:Ei.
  destruct f; [|done..]. intros [= <- Hn <-].
  split; [done|]. exists r. split; [done|].
  apply insert_spec in Ei as [(_ & -> & Hc)|(-> & _)]; [|done].
  by rewrite (st_id _ _ (reserved_row_stored _ _ Er)).
Qed.

(** The order has its row, in whatever state. *)
Definition anchored (t : OrderTable) (o : BrokerOrder) : Prop :=
  exists r0 r, stored o r0 /\ t !! bo_ID o = Some r /\ same_keys r0 r.

Lemma anchored_unique t o :
  anchored t o -> exists r, t !! bo_ID o = Some r /\ row_trade_intent_id r = bo_TradeIntentID o /\
    idem_key r = order_idem_key o.
Proof.
  intros (r0 & r & Hs & Hr & (_ & Hi & Hk)%same_keys_unique). exists r. split; [done|].
  rewrite Hi, Hk. split; [apply Hs|by apply stored_key].
Qed.

(** What a repository call answered true guarantees under the constraints. *)
Lemma ReserveOrder_new f fresh now o t o' t' :
  table_ok t -> ReserveOrder f fresh now o t = (o', Ok true, t') ->
  t !! bo_ID o' = None /\ anchored t' o'.
Proof.
  intros Hok (_ & r & Hr & -> & Hc)%ReserveOrder_true.
  pose proof (reserved_row_stored _ _ Hr) as Hs. split.
  - destruct (t !! bo_ID o') as [r0|] eqn:E; [|done]. exfalso.
    pose proof (Hc _ _ E) as Hcc. apply conflicts_false in Hcc as [Hne _]. apply Hne.
    by rewrite (st_id _ _ Hs), (ok_key t Hok _ _ E).
  - exists r, r. by rewrite lookup_insert_eq.
Qed.
End Methods.
