(* ===== verification/DbTheorems.v ===== *)
(** * What the repositories promise

    The life of a reservation in the orders table, the precision of what is stored, and
    the credentials table. *)

From stdpp Require Import base tactics list strings gmap.
From Stdlib Require Import ZArith QArith Qabs Lia.
From S2P Require Import Prelude GoStrings Decimal DecimalSpec Uuid Db DbSpec.

#[local] Open Scope string_scope.
#[local] Open Scope Z_scope.

Section Orders.
Context `{PgTypesLaws}.

Lemma pending_stored : varchar 32 StatusPending = Some StatusPending.
Proof. by apply character_fits. Qed.

(** Two rows of one trade: the same primary key, the same intent, or the same tenant and
    non-empty idempotency key. *)
Definition same_trade (r1 r2 : OrderRow) : Prop :=
  row_id r1 = row_id r2 \/
  row_trade_intent_id r1 = row_trade_intent_id r2 \/
  row_tenant_id r1 = row_tenant_id r2 /\
    exists k, k <> "" /\ row_idempotency_key r1 = Some k /\ row_idempotency_key r2 = Some k.

Lemma idem_key_Some r tenant k :
  idem_key r = Some (tenant, k) <->
  row_tenant_id r = tenant /\ row_idempotency_key r = Some k /\ k <> "".
Proof.
  unfold idem_key. destruct (row_idempotency_key r) as [k'|]; [|naive_solver].
  destruct (String.eqb_spec k' "") as [->|]; naive_solver.
Qed.

Lemma conflicts_same_trade r1 r2 : conflicts r1 r2 = true <-> same_trade r1 r2.
Proof.
  unfold conflicts, same_trade. rewrite !orb_true_iff, !bool_decide_eq_true.
  assert (match idem_key r1 with Some k => bool_decide (idem_key r2 = Some k) | None => false end
    = true <-> row_tenant_id r1 = row_tenant_id r2 /\ exists k, k <> "" /\
      row_idempotency_key r1 = Some k /\ row_idempotency_key r2 = Some k) as ->; [|tauto].
  destruct (idem_key r1) as [[tenant k]|] eqn:E.
  - rewrite bool_decide_eq_true, idem_key_Some. apply idem_key_Some in E. naive_solver.
  - split; [done|]. intros (Ht & k & Hk & H1 & H2).
    assert (idem_key r1 = Some (row_tenant_id r1, k)) as Hi by by apply idem_key_Some. congruence.
Qed.

(** Every column has room for the order's value. *)
Definition fits (o : BrokerOrder) : Prop := exists row, stored o row.

Lemma fits_reserved_row o : fits o -> is_Some (reserved_row o).
Proof.
  intros [row []]. destruct st_key as (k1 & _ & E1), st_portfolio as (k2 & _ & E2),
    st_hold as (k3 & _ & E3).
  unfold reserved_row. rewrite st_tenant, st_user, st_provider, st_symbol, st_side, st_target,
    st_status, st_filled, st_price, E1, E2, E3. eauto.
Qed.

(** What the INSERT of an order that fits does. *)
Definition inserted (o : BrokerOrder) (t t' : OrderTable) : Prop :=
  exists row, stored o row /\ row_status row = StatusPending /\ t' = <[bo_ID o := row]> t /\
    forall i r0, t !! i = Some r0 -> ~ same_trade row r0.

Definition refused (o : BrokerOrder) (t t' : OrderTable) : Prop :=
  exists row, stored o row /\ t' = t /\ exists i r0, t !! i = Some r0 /\ same_trade row r0.

Lemma insert_order fresh now o row t n t' :
  stored (reserve_prepare fresh now o) row ->
  insert_on_conflict_do_nothing row t = (n, t') ->
  n = 1%nat /\ inserted (reserve_prepare fresh now o) t t' \/
  n = 0%nat /\ refused (reserve_prepare fresh now o) t t'.
Proof.
  intros Hs Hi.
  apply insert_spec in Hi as [(-> & -> & Hc)|(-> & -> & i & r0 & Hi & Hc)]; [left|right];
    (split; [done|]); exists row; (split; [done|]).
  - split; [|split].
    + pose proof (st_status _ _ Hs) as E. simpl in E. rewrite pending_stored in E. congruence.
    + by rewrite (st_id _ _ Hs).
    + intros i r0 Hi Hsame%conflicts_same_trade. by rewrite (Hc i r0 Hi) in Hsame.
  - split; [done|]. exists i, r0. by rewrite <- conflicts_same_trade.
Qed.

(** C24: [ReserveOrder] is the idempotency gate.  It answers true when it has added the
    PENDING row of the order, column by column, and no row of the table was of the same
    trade - the same id, the same intent, or the same tenant and non-empty idempotency
    key; it answers false when there was one, and then the table is as before.  It reports an error only
    when the database failed or a value does not fit its column, and then the table is as before
    too, unless the failure came after the row was added. *)
Theorem ReserveOrder_gate f fresh now o t :
  let o' := reserve_prepare fresh now o in
  let '(order, r, t') := ReserveOrder f fresh now o t in
  order = o' /\
  match r with
  | Ok true => inserted o' t t'
  | Ok false => refused o' t t'
  | Err _ => (f <> NoFault \/ ~ fits o') /\ (t' = t \/ f = FailAfter /\ inserted o' t t')
  end.
Proof.
  unfold ReserveOrder, db_exec.
  destruct (reserved_row (reserve_prepare fresh now o)) as [row|] eqn:Hrow.
  - apply reserved_row_stored in Hrow.
    destruct (insert_on_conflict_do_nothing row t) as [n t'] eqn:Hi.
    apply (insert_order fresh now o) in Hi as [[-> Hi]|[-> Hi]]; [| |done];
      destruct f; (split; [done|]); simpl; auto.
    destruct Hi as (_ & _ & -> & _). auto.
  - assert (~ fits (reserve_prepare fresh now o)) as Hno
      by (intros [? ?]%fits_reserved_row; congruence).
    destruct f; (split; [done|]); auto.
Qed.

Lemma lookup_by_intent t i r c :
  table_ok t -> t !! i = Some r ->
  GetOrderByIntentID NoFault c (row_trade_intent_id r) t = Ok (scanOrder r).
Proof.
  intros Hok Hi. unfold GetOrderByIntentID.
  rewrite (query_unique c _ t i r Hi); [done|by apply bool_decide_eq_true_2|].
  intros j r' Hj Hp%bool_decide_eq_true. by eapply (ok_intent t Hok).
Qed.

(** The order as the columns hold it, field by field. *)
Record as_columns (o e : BrokerOrder) : Prop := {
  rc_id : bo_ID e = bo_ID o;
  rc_intent : bo_TradeIntentID e = bo_TradeIntentID o;
  rc_tenant : varchar 64 (bo_TenantID o) = Some (bo_TenantID e);
  rc_user : varchar 64 (bo_UserID o) = Some (bo_UserID e);
  rc_provider : varchar 32 (bo_Provider o) = Some (bo_Provider e);
  rc_symbol : varchar 32 (bo_Symbol o) = Some (bo_Symbol e);
  rc_side : varchar 16 (bo_Side o) = Some (bo_Side e);
  rc_target : numeric_qty (bo_TargetQuantity o) = Some (bo_TargetQuantity e);
  rc_filled : numeric_qty (bo_FilledQuantity o) = Some (bo_FilledQuantity e);
  rc_price : numeric_price (bo_AverageFillPrice o) = Some (bo_AverageFillPrice e);
  rc_key : varchar 128 (bo_IdempotencyKey o) = Some (bo_IdempotencyKey e);
  rc_portfolio : varchar 64 (bo_PortfolioID o) = Some (bo_PortfolioID e);
  rc_hold : varchar 64 (bo_LivroHoldID o) = Some (bo_LivroHoldID e);
  rc_created : bo_CreatedAt e = timestamptz (bo_CreatedAt o);
  rc_updated : bo_UpdatedAt e = timestamptz (bo_UpdatedAt o);
}.

Lemma reserved_row_as_columns o r : reserved_row o = Some r -> as_columns o (scanOrder r).
Proof. unfold reserved_row. by_columns. intros [= <-]. by split. Qed.

(** C28: what a reservation makes visible.  After [ReserveOrder] answered true, a lookup by
    intent finds that very order, PENDING and without a provider order id, and every other
    field has the order's own value as its column holds it, whatever order the database
    returns rows in; a new order was given the fresh id and the present time. *)
Theorem reserve_then_lookup f fresh now o t o' t' c :
  table_ok t -> ReserveOrder f fresh now o t = (o', Ok true, t') ->
  exists e, GetOrderByIntentID NoFault c (bo_TradeIntentID o) t' = Ok e /\
    bo_Status e = StatusPending /\ bo_ProviderOrderID e = "" /\
    as_columns {|
      bo_ID := if decide (bo_ID o = Nil) then fresh else bo_ID o;
      bo_TradeIntentID := bo_TradeIntentID o; bo_TenantID := bo_TenantID o;
      bo_UserID := bo_UserID o; bo_Provider := bo_Provider o; bo_ProviderOrderID := "";
      bo_Symbol := bo_Symbol o; bo_Side := bo_Side o;
      bo_TargetQuantity := bo_TargetQuantity o; bo_Status := StatusPending;
      bo_FilledQuantity := bo_FilledQuantity o; bo_AverageFillPrice := bo_AverageFillPrice o;
      bo_IdempotencyKey := bo_IdempotencyKey o; bo_PortfolioID := bo_PortfolioID o;
      bo_LivroHoldID := bo_LivroHoldID o;
      bo_CreatedAt := if time_IsZero (bo_CreatedAt o) then now else bo_CreatedAt o;
      bo_UpdatedAt := if time_IsZero (bo_UpdatedAt o) then now else bo_UpdatedAt o |} e.
Proof.
  intros Hok Hres. pose proof (ReserveOrder_ok f fresh now o t Hok) as [Hok' _].
  rewrite Hres in Hok'. simpl in Hok'.
  apply ReserveOrder_true in Hres as (-> & r & Hr & -> & _).
  pose proof (reserved_row_stored _ _ Hr) as Hs.
  apply reserved_row_as_columns in Hr. exists (scanOrder r). split; [|split; [|split]].
  - replace (bo_TradeIntentID o) with (row_trade_intent_id r) by apply (st_intent _ _ Hs).
    eapply lookup_by_intent; [done|]. apply lookup_insert_eq.
  - pose proof (st_status _ _ Hs) as E. simpl in E. rewrite pending_stored in E. simpl. congruence.
  - simpl. by rewrite (st_provider_order _ _ Hs).
  - destruct Hr. by split.
Qed.

(** A confirmed order is out of reach of the release.  When [ConfirmOrder] has given a
    row a status other than PENDING, [ReleaseOrder] on its id leaves the table as it is,
    and so does a second confirmation, which is an error. *)
Theorem confirm_settles now id pid status q p t t' :
  table_ok t -> varchar 32 status <> Some StatusPending ->
  ConfirmOrder NoFault now id pid status q p t = (Ok tt, t') ->
  ReleaseOrder NoFault id t' = (Ok tt, t') /\
  (forall now' pid' st' q' p', exists e, ConfirmOrder NoFault now' id pid' st' q' p' t' = (Err e, t')).
Proof.
  intros Hok Hst Hc.
  assert (forall i r, t' !! i = Some r -> pending_with_id id r = false) as Hnone.
  { unfold ConfirmOrder, db_exec in Hc. revert Hc. by_columns.
    destruct (update_where _ _ t) as [n t0] eqn:Eu. destruct n as [|n]; [done|].
    intros [= <-] i r Hi. pose proof (f_equal (fun nt => nt.2 !! i) Eu) as Hl. simpl in Hl.
    rewrite lookup_fmap, Hi in Hl. destruct (t !! i) as [r0|]; [|done]. injection Hl as <-.
    destruct (pending_with_id id r0) eqn:E; [|done]. unfold pending_with_id. simpl.
    rewrite (proj2 (String.eqb_neq _ _)) by congruence. apply andb_false_r. }
  split.
  - unfold ReleaseOrder, db_exec, delete_where. f_equal. apply map_filter_id.
    intros i r Hi. simpl. by eapply Hnone.
  - intros now' pid' st' q' p'. unfold ConfirmOrder, db_exec. by_columns; try by eexists.
    unfold update_where. rewrite (proj2 (select_where_nil _ _) Hnone). simpl. eexists. f_equal.
    apply map_eq. intros i. rewrite lookup_fmap. destruct (t' !! i) as [r|] eqn:E; [|done].
    simpl. by rewrite (Hnone i r E).
Qed.

Lemma numeric_error p s d d' :
  0 <= s <= p -> p <= 1000 -> numeric p s d = Some d' ->
  (Qabs (dval d' - dval d) <= (1 # 2) * p10 (- s))%Q.
Proof.
  intros Hs Hp Hn. destruct (numeric_rounds p s d d' Hs Hp Hn) as (n & [Hr _] & _ & Hv).
  rewrite Hv.
  apply (Qabs_scaled_le _ _ (- s)) in Hr.
  assert (inject_Z n * p10 (- s) - dval d == (inject_Z n - dval d * p10 s) * p10 (- s))%Q as ->;
    [|done].
  transitivity (inject_Z n * p10 (- s) - dval d * (p10 (- s) * p10 s))%Q; [|ring].
  rewrite p10_opp. ring.
Qed.

(** What [UpdateOrderFill] records.  On success at least one row had the provider's
    order id; every such row now has the given status and its other columns, a quantity within half of 1e-8
    and a price within half of 1e-4 of the given ones, and every other row is unchanged. *)
Theorem UpdateOrderFill_records now provider pid status q p t t' :
  UpdateOrderFill NoFault now provider pid status q p t = (Ok tt, t') ->
  (exists i r, t !! i = Some r /\ with_provider_order provider pid r = true) /\
  forall i r, t !! i = Some r -> exists r', t' !! i = Some r' /\
    if with_provider_order provider pid r
    then varchar 32 status = Some (row_status r') /\ same_keys r r' /\
         (Qabs (dval (row_filled_quantity r') - dval q) <= (1 # 2) * p10 (- (8)))%Q /\
         (Qabs (dval (row_average_fill_price r') - dval p) <= (1 # 2) * p10 (- (4)))%Q
    else r' = r.
Proof.
  unfold UpdateOrderFill, db_exec.
  destruct (varchar 32 status) as [st|], (numeric_qty q) as [nq|] eqn:Eq, (numeric_price p) as [np|] eqn:Ep;
    try done. cbn [mbind option_bind]. destruct (text_params _); [|done].
  destruct (update_where _ _ t) as [n t0] eqn:Eu. destruct n as [|n]; [done|].
  intros [= ->]. injection Eu as Hn Ht. split.
  - destruct (select_where (with_provider_order provider pid) t) as [|r l] eqn:Es; [done|].
    assert (r ∈ select_where (with_provider_order provider pid) t) as Hin by (rewrite Es; left).
    apply elem_of_select_where in Hin as [Hp [i Hi]]. eauto.
  - intros i r Hi. subst t'. rewrite lookup_fmap, Hi. eexists. split; [reflexivity|].
    destruct (with_provider_order provider pid r); [|done]. split; [done|]. split; [done|].
    split; by apply (numeric_error 28).
Qed.
End Orders.

Section Credentials.
Context `{PgTypesLaws}.

Lemma stored_readable n s s' : varchar n s = Some s' -> text s' = Some s'.
Proof. apply character_readable. Qed.

(** C37: credentials are stored per tenant and provider: after [SaveCredentials] a lookup
    finds the new ciphertexts, under the id of the first save, and the credentials of every
    other tenant or provider are untouched. *)
Theorem SaveCredentials_upserts fresh now cred t cred' t' :
  SaveCredentials NoFault fresh now cred t = (cred', Ok tt, t') ->
  exists tenant provider,
    varchar 64 (bc_TenantID cred) = Some tenant /\ varchar 32 (bc_Provider cred) = Some provider /\
    (exists c, GetCredentials NoFault tenant provider t' = Ok c /\
       text (bc_APIKeyCiphertext cred) = Some (bc_APIKeyCiphertext c) /\
       text (bc_APISecretCiphertext cred) = Some (bc_APISecretCiphertext c) /\
       bc_ID c = match t !! (tenant, provider) with Some old => bc_ID old | None => bc_ID cred' end) /\
    (forall tenant' provider', (tenant', provider') <> (tenant, provider) ->
       GetCredentials NoFault tenant' provider' t' = GetCredentials NoFault tenant' provider' t).
Proof.
  unfold SaveCredentials, db_exec, GetCredentials. simpl.
  destruct (varchar 64 (bc_TenantID cred)) as [tenant|] eqn:E1, (varchar 32 (bc_Provider cred)) as [provider|] eqn:E2,
    (text (bc_APIKeyCiphertext cred)) as [key|], (text (bc_APISecretCiphertext cred)) as [secret|];
    try done. cbn [mbind option_bind].
  assert (readable NoFault [tenant; provider] = NoFault) as Hr.
  { unfold readable, text_params. simpl.
    by rewrite (stored_readable _ _ _ E1), (stored_readable _ _ _ E2). }
  destruct (t !! (tenant, provider)) as [old|] eqn:E; [|destruct (decide _); [|done]];
    intros [= <- <-]; exists tenant, provider; rewrite Hr, E, lookup_insert_eq; (do 3 (split; [by eauto 10|]));
    intros tenant' provider' Hne; by rewrite lookup_insert_ne.
Qed.
End Credentials.
