(* ===== verification/Clients.v ===== *)
(** * Clients of the ledger and of the portfolio engine

    internal/client/livro/client.go and internal/client/ativos/client.go: the inputs
    of the two [Client] interfaces and their gRPC implementations.  A remote procedure
    call is an effect; the messages keep the fields the clients write and read. *)

From stdpp Require Import base tactics list strings.
From Stdlib Require Import ZArith QArith Lia.
From S2P Require Import Prelude GoStrings Decimal DecimalSpec DecimalText.

#[local] Open Scope string_scope.
#[local] Open Scope Z_scope.
#[local] Open Scope go_scope.

(** ** Livro, the double-entry ledger *)

Module Livro.
Record CaptureHoldParams := {
  ch_HoldID : string;
  ch_Amount : Decimal;
  ch_DestinationAccountID : string;
  ch_Description : string;
  ch_IdempotencyKey : string;
  ch_ReleaseRemainder : bool;
}.

Record CreditParams := {
  cr_TenantID : string;
  cr_AccountID : string;
  cr_Amount : Decimal;
  cr_Currency : string;
  cr_Description : string;
  cr_Reference : string;
  cr_IdempotencyKey : string;
}.

(** Messages of livro.v1, as the client fills them in. *)
Record Scope := { sc_Type : string; sc_Id : string }.

Record CaptureHoldRequest := {
  chr_HoldId : string;
  chr_Amount : string;
  chr_DestinationAccountId : string;
  chr_Description : string;
  chr_IdempotencyKey : string;
  chr_ReleaseRemainder : bool;
}.

Record CreditRequest := {
  crr_IdempotencyKey : string;
  crr_Scope : Scope;
  crr_TargetAccountId : string;
  crr_Amount : string;
  crr_Currency : string;
  crr_Description : string;
  crr_Reference : string;
}.

Record AccountLookup := {
  al_Scope : Scope;
  al_EntityType : string;
  al_EntityId : string;
  al_AccountName : string;
  al_Currency : string;
}.

Inductive AccountType := ACCOUNT_TYPE_CUSTOMER_WALLET.

Record InitializeAccountRequest := {
  ia_Account : AccountLookup;
  ia_AccountType : AccountType;
  ia_AllowOverdraft : bool;
}.

(** Remote calls.  An account response is a nil message, a message without account
    or the account's id. *)
Inductive Rpc :=
  | RpcCaptureHold (r : CaptureHoldRequest)
  | RpcCredit (r : CreditRequest)
  | RpcGetBalance (accountId : string)
  | RpcInitializeAccount (r : InitializeAccountRequest)
  | RpcGetAccount (l : AccountLookup).

Definition AccountReply := option (option string).

Definition RpcRes (r : Rpc) : Type :=
  match r with
  | RpcCaptureHold _ | RpcCredit _ => Result unit
  | RpcGetBalance _ => Result string
  | RpcInitializeAccount _ | RpcGetAccount _ => Result AccountReply
  end.

Definition CaptureHold (params : CaptureHoldParams) : prog RpcRes (Result unit) :=
  let req := {|
    chr_HoldId := ch_HoldID params;
    chr_Amount := StringFixed (ch_Amount params) 4;
    chr_DestinationAccountId := ch_DestinationAccountID params;
    chr_Description := ch_Description params;
    chr_IdempotencyKey := ch_IdempotencyKey params;
    chr_ReleaseRemainder := ch_ReleaseRemainder params |} in
  resp <- call (Res := RpcRes) (RpcCaptureHold req) ;;
  match resp with
  | Err e => Ret (Err (ErrWrap "livro CaptureHold failed" e))
  | Ok r => Ret (Ok r)
  end.

Definition Credit (params : CreditParams) : prog RpcRes (Result unit) :=
  let req := {|
    crr_IdempotencyKey := cr_IdempotencyKey params;
    crr_Scope := {| sc_Type := "tenant"; sc_Id := cr_TenantID params |};
    crr_TargetAccountId := cr_AccountID params;
    crr_Amount := StringFixed (cr_Amount params) 4;
    crr_Currency := cr_Currency params;
    crr_Description := cr_Description params;
    crr_Reference := cr_Reference params |} in
  resp <- call (Res := RpcRes) (RpcCredit req) ;;
  match resp with
  | Err e => Ret (Err (ErrWrap "livro Credit failed" e))
  | Ok r => Ret (Ok r)
  end.

Definition GetBalance (accountID : string) : prog RpcRes (Result Decimal) :=
  resp <- call (Res := RpcRes) (RpcGetBalance accountID) ;;
  match resp with
  | Err e => Ret (Err (ErrWrap "livro GetBalance failed" e))
  | Ok balance =>
      match NewFromString balance with
      | Err e => Ret (Err (ErrWrap "failed to parse livro balance" e))
      | Ok bal => Ret (Ok bal)
      end
  end.

Definition broker_clearing (tenantID : string) : AccountLookup := {|
  al_Scope := {| sc_Type := "tenant"; sc_Id := tenantID |};
  al_EntityType := "broker";
  al_EntityId := "clearing";
  al_AccountName := "broker_usd";
  al_Currency := "USD" |}.

(** [resp != nil && resp.Account != nil && resp.Account.Id != ""] *)
Definition account_id (resp : AccountReply) : option string :=
  match resp with
  | Some (Some id) => if String.eqb id "" then None else Some id
  | _ => None
  end.

Definition lookup_broker_account (tenantID : string) : prog RpcRes (Result string) :=
  lookupResp <- call (Res := RpcRes) (RpcGetAccount (broker_clearing tenantID)) ;;
  match lookupResp with
  | Err e => Ret (Err (ErrWrap "failed to resolve broker clearing account in livro" e))
  | Ok r =>
      match account_id r with
      | Some id => Ret (Ok id)
      | None => Ret (Err (ErrMsg "empty broker clearing account returned from livro"))
      end
  end.

Definition GetOrCreateBrokerAccount (tenantID : string) : prog RpcRes (Result string) :=
  resp <- call (Res := RpcRes) (RpcInitializeAccount {|
    ia_Account := broker_clearing tenantID;
    ia_AccountType := ACCOUNT_TYPE_CUSTOMER_WALLET;
    ia_AllowOverdraft := true |}) ;;
  match resp with
  | Ok r =>
      match account_id r with
      | Some id => Ret (Ok id)
      | None => lookup_broker_account tenantID
      end
  | Err _ => lookup_broker_account tenantID
  end.
End Livro.

(** ** Ativos, the portfolio engine *)

Module Ativos.
Inductive Action := BUY | SELL.

#[export] Instance Action_eq_dec : EqDecision Action.
Proof. solve_decision. Defined.

Record SyncExecutionParams := {
  se_TenantID : string;
  se_PortfolioID : string;
  se_TradeIntentID : string;
  se_Ticker : string;
  se_Action : Action;
  se_ExecutedShares : Decimal;
  se_ExecutedPrice : Decimal;
  se_IdempotencyKey : string;
}.

Record SyncBrokerExecutionRequest := {
  sr_TenantId : string;
  sr_PortfolioId : string;
  sr_TradeIntentId : string;
  sr_Ticker : string;
  sr_Action : Action;
  sr_ExecutedShares : string;
  sr_ExecutedPrice : string;
  sr_IdempotencyKey : string;
}.

Inductive Rpc := RpcSync (r : SyncBrokerExecutionRequest).
Definition RpcRes (_ : Rpc) : Type := Result unit.

Definition SyncBrokerExecution (params : SyncExecutionParams) : prog RpcRes (Result unit) :=
  let req := {|
    sr_TenantId := se_TenantID params;
    sr_PortfolioId := se_PortfolioID params;
    sr_TradeIntentId := se_TradeIntentID params;
    sr_Ticker := se_Ticker params;
    sr_Action := se_Action params;
    sr_ExecutedShares := to_String (se_ExecutedShares params);
    sr_ExecutedPrice := to_String (se_ExecutedPrice params);
    sr_IdempotencyKey := se_IdempotencyKey params |} in
  resp <- call (Res := RpcRes) (RpcSync req) ;;
  match resp with
  | Err e => Ret (Err (ErrWrap "ativos SyncBrokerExecution failed" e))
  | Ok r => Ret (Ok r)
  end.
End Ativos.
