(* ===== verification/Cache.v ===== *)
(** * The quotes cache

    internal/cache/cache.go and internal/cache/redis.go: the cached quote and the
    Redis keys of its two copies, the fresh one (5 s) and the stale fallback (24 h). *)

From stdpp Require Import base tactics list strings.
From Stdlib Require Import ZArith Lia Ascii.
From S2P Require Import Prelude GoStrings Decimal.

#[local] Open Scope string_scope.
#[local] Open Scope Z_scope.

Record CachedQuote := {
  cq_Symbol : string;
  cq_Price : Decimal;
  cq_Timestamp : Z;
  cq_IsStaleCache : bool;
}.

(** Durations are in nanoseconds. *)
Definition Second : Z := 10 ^ 9.
Definition Hour : Z := 3600 * Second.

(** [NewRedisQuotesCache]: the two time-to-live values, defaulted. *)
Definition cache_ttls (freshTTL staleTTL : Z) : Z * Z :=
  (if freshTTL <=? 0 then 5 * Second else freshTTL,
   if staleTTL <=? 0 then 24 * Hour else staleTTL).

Section Keys.
Context `{GoUnicode}.

Definition freshKey (provider symbol : string) : string :=
  "pregao:quotes:" +:+ ToUpper provider +:+ ":" +:+ ToUpper symbol.

Definition staleKey (provider symbol : string) : string :=
  "pregao:quotes:stale:" +:+ ToUpper provider +:+ ":" +:+ ToUpper symbol.
End Keys.

(** ** Lemmas *)

Lemma str_app_inj_l a b c : a +:+ b = a +:+ c -> b = c.
Proof. induction a as [|x a IH]; simpl; [done|]. intros [= H]. auto. Qed.
