(* ===== verification/Redis.v ===== *)
(** * The Redis quotes cache

    internal/cache/redis.go: [redisQuotesCache].  A Redis command is an effect.  A value
    in Redis is the JSON document of a quote, kept as the texts of its members, or a
    text that is no such document; the price travels as the string the decimal package
    writes and is parsed again when it is read. *)

From stdpp Require Import base tactics list strings gmap.
From Stdlib Require Import ZArith.
From S2P Require Import Prelude GoStrings Decimal Cache.

#[local] Open Scope string_scope.
#[local] Open Scope Z_scope.
#[local] Open Scope go_scope.

Record redisQuotesCache := { freshTTL : Z; staleTTL : Z }.

Definition NewRedisQuotesCache (fresh stale : Z) : redisQuotesCache :=
  let '(fresh, stale) := cache_ttls fresh stale in
  {| freshTTL := fresh; staleTTL := stale |}.

(** ** Documents *)

Record QuoteDoc := {
  qd_symbol : string;
  qd_price : string;
  qd_timestamp : Z;
  qd_is_stale_cache : bool;
}.

(** [json.Marshal(quote)] *)
Definition marshal_quote (q : CachedQuote) : QuoteDoc := {|
  qd_symbol := cq_Symbol q;
  qd_price := to_String (cq_Price q);
  qd_timestamp := cq_Timestamp q;
  qd_is_stale_cache := cq_IsStaleCache q |}.

(** [json.Unmarshal] of a document: it fails if the price is not a decimal. *)
Definition unmarshal_quote (d : QuoteDoc) : Result CachedQuote :=
  match NewFromString (qd_price d) with
  | Err e => Err e
  | Ok price => Ok {|
      cq_Symbol := qd_symbol d;
      cq_Price := price;
      cq_Timestamp := qd_timestamp d;
      cq_IsStaleCache := qd_is_stale_cache d |}
  end.

(** The decoded document of a value, with the staleness the reader knows better. *)
Definition decode_value (stale : bool) (doc : option QuoteDoc) : option CachedQuote :=
  match doc with
  | None => None
  | Some d =>
      match unmarshal_quote d with
      | Err _ => None
      | Ok q => Some {| cq_Symbol := cq_Symbol q; cq_Price := cq_Price q;
                        cq_Timestamp := cq_Timestamp q; cq_IsStaleCache := stale |}
      end
  end.

(** ** Commands *)

(** One reply of MGET: nil, a string - [None] if it is no document - or another type. *)
Inductive RedisVal := NilReply | TextReply (doc : option QuoteDoc) | OtherReply.

(** The reply of GET: [redis.Nil], another error, or a string. *)
Inductive GetReply := GetNil | GetErr (e : GoError) | GetText (doc : option QuoteDoc).

Record SetCommand := { set_key : string; set_doc : QuoteDoc; set_ttl : Z }.

Inductive RedisOp :=
  | RMGet (keys : list string)
  | RGet (key : string)
  | RExec (pipe : list SetCommand).

Definition RedisRes (op : RedisOp) : Type :=
  match op with
  | RMGet _ => Result (list RedisVal)
  | RGet _ => GetReply
  | RExec _ => Result unit
  end.

Abbreviation redis := (prog RedisRes).

Definition redis_do (op : RedisOp) : redis (RedisRes op) := call (Res := RedisRes) op.

(** The quote of a reply; everything unusable is a miss. *)
Definition reply_quote (stale : bool) (r : RedisVal) : option CachedQuote :=
  match r with
  | TextReply doc => decode_value stale doc
  | NilReply | OtherReply => None
  end.

(** The loop of [GetQuotes]; [None] is the panic of an index out of range. *)
Fixpoint read_quotes (results : list RedisVal) (symbols : list string)
    (hits : gmap string CachedQuote) (misses : list string)
    : option (gmap string CachedQuote * list string) :=
  match results, symbols with
  | [], _ => Some (hits, misses)
  | _ :: _, [] => None
  | r :: results, sym :: symbols =>
      match reply_quote false r with
      | Some q => read_quotes results symbols (<[sym := q]> hits) misses
      | None => read_quotes results symbols hits (misses ++ [sym])%list
      end
  end.

(** The loop of [GetStaleQuotes]. *)
Fixpoint read_stale (results : list RedisVal) (symbols : list string)
    (result : gmap string CachedQuote) : option (gmap string CachedQuote) :=
  match results, symbols with
  | [], _ => Some result
  | _ :: _, [] => None
  | r :: results, sym :: symbols =>
      match reply_quote true r with
      | Some q => read_stale results symbols (<[sym := q]> result)
      | None => read_stale results symbols result
      end
  end.

Section Client.
Context `{GoUnicode}.
Context (c : redisQuotesCache).

Definition GetQuotes (provider : string) (symbols : list string)
    : redis (gmap string CachedQuote * list string * option GoError) :=
  match symbols with
  | [] => Ret (∅, [], None)
  | _ =>
      results <- redis_do (RMGet (map (freshKey provider) symbols)) ;;
      match results with
      | Err e => Ret (∅, symbols, Some (ErrWrap "redis MGet failed" e))
      | Ok results =>
          ' (hits, misses) <- or_panic "index out of range" (read_quotes results symbols ∅ []) ;;
          Ret (hits, misses, None)
      end
  end.

(** The two SETs of a quote. *)
Definition set_quote (provider : string) (timestamp : Z) (sp : string * Decimal)
    : list SetCommand :=
  let '(symbol, price) := sp in
  let bytes := marshal_quote {| cq_Symbol := symbol; cq_Price := price;
                                cq_Timestamp := timestamp; cq_IsStaleCache := false |} in
  [ {| set_key := freshKey provider symbol; set_doc := bytes; set_ttl := freshTTL c |};
    {| set_key := staleKey provider symbol; set_doc := bytes; set_ttl := staleTTL c |} ].

(** [SetQuotes] over a map: [quotes] lists its entries in the order Go's range visits
    them. *)
Definition SetQuotes (provider : string) (quotes : list (string * Decimal)) (timestamp : Z)
    : redis (Result unit) :=
  match quotes with
  | [] => Ret (Ok tt)
  | _ =>
      r <- redis_do (RExec (flat_map (set_quote provider timestamp) quotes)) ;;
      match r with
      | Err e => Ret (Err (ErrWrap "failed to execute pipeline set" e))
      | Ok _ => Ret (Ok tt)
      end
  end.

Definition GetStaleQuote (provider symbol : string) : redis (Result CachedQuote) :=
  val <- redis_do (RGet (staleKey provider symbol)) ;;
  match val with
  | GetNil => Ret (Err (ErrSentinel ErrCacheMiss))
  | GetErr e => Ret (Err (ErrWrap "failed to get stale quote" e))
  | GetText doc =>
      match decode_value true doc with
      | None => Ret (Err (ErrMsg "failed to unmarshal stale quote"))
      | Some q => Ret (Ok q)
      end
  end.

Definition GetStaleQuotes (provider : string) (symbols : list string)
    : redis (Result (gmap string CachedQuote)) :=
  match symbols with
  | [] => Ret (Ok ∅)
  | _ =>
      vals <- redis_do (RMGet (map (staleKey provider) symbols)) ;;
      match vals with
      | Err e => Ret (Err (ErrWrap "failed to mget stale quotes" e))
      | Ok vals =>
          result <- or_panic "index out of range" (read_stale vals symbols ∅) ;;
          Ret (Ok result)
      end
  end.
End Client.
