(* ===== verification/RedisSpec.v ===== *)
(** * The life of a cached quote

    The cache against a Redis store with expiry: what is written is read back, first as
    a fresh quote, then - the fresh copy expired - as a stale one, then not at all. *)

From stdpp Require Import base tactics list strings gmap.
From Stdlib Require Import ZArith QArith Lia Ascii.
From S2P Require Import Prelude Exec GoStrings Decimal DecimalSpec DecimalText Cache Redis.

#[local] Open Scope string_scope.
#[local] Open Scope Z_scope.
#[local] Open Scope go_scope.

(** ** Keys *)

Section Keys.
Context `{GoUnicode}.

Lemma freshKey_inj p s1 s2 : freshKey p s1 = freshKey p s2 -> ToUpper s1 = ToUpper s2.
Proof. unfold freshKey. intros He. by do 3 apply str_app_inj_l in He. Qed.

Lemma staleKey_inj p s1 s2 : staleKey p s1 = staleKey p s2 -> ToUpper s1 = ToUpper s2.
Proof. unfold staleKey. intros He. by do 3 apply str_app_inj_l in He. Qed.

(** A provider is written in upper case, the word [stale] is not. *)
Lemma fresh_not_stale p p' s s' :
  is_ascii_string p = true -> freshKey p s <> staleKey p' s'.
Proof.
  intros Hp%ToUpper_no_lower. unfold freshKey, staleKey.
  change "pregao:quotes:stale:" with ("pregao:quotes:" +:+ "stale:").
  rewrite str_app_assoc. intros He%str_app_inj_l.
  destruct (ToUpper p) as [|ch p0]; simpl in He; [by injection He|].
  injection He as -> _. by simpl in Hp.
Qed.
End Keys.

(** ** Redis *)

(** Each key with its document and the instant it expires. *)
Record RedisStore := { rd_now : Z; rd_data : gmap string (QuoteDoc * Z) }.

Definition live (w : RedisStore) (key : string) : option QuoteDoc :=
  match rd_data w !! key with
  | Some (doc, expires) => if rd_now w <? expires then Some doc else None
  | None => None
  end.

Definition value_reply (d : option QuoteDoc) : RedisVal :=
  match d with Some doc => TextReply (Some doc) | None => NilReply end.

Definition apply_set (now : Z) (m : gmap string (QuoteDoc * Z)) (s : SetCommand) :=
  <[set_key s := (set_doc s, now + set_ttl s)]> m.

(** A command is executed, or fails without a trace. *)
Definition redis_env (op : RedisOp) : RedisStore -> RedisRes op -> RedisStore -> Prop :=
  match op return RedisStore -> RedisRes op -> RedisStore -> Prop with
  | RMGet keys => fun w r w' =>
      w' = w /\ match r with Ok vals => vals = map (fun k => value_reply (live w k)) keys | Err _ => True end
  | RGet key => fun w r w' =>
      w' = w /\ match r with
                | GetNil => live w key = None
                | GetText doc => exists d, live w key = Some d /\ doc = Some d
                | GetErr _ => True
                end
  | RExec pipe => fun w r w' =>
      rd_now w' = rd_now w /\
      rd_data w' = match r with
                   | Ok _ => foldl (apply_set (rd_now w)) (rd_data w) pipe
                   | Err _ => rd_data w
                   end
  end.

(** Time passes. *)
Definition at_time (t : Z) (w : RedisStore) : RedisStore := {| rd_now := t; rd_data := rd_data w |}.

(** ** Reading *)

Definition lookup_quote (stale : bool) (w : RedisStore) (key : string) : option CachedQuote :=
  decode_value stale (live w key).

Lemma reply_lookup stale w key :
  reply_quote stale (value_reply (live w key)) = lookup_quote stale w key.
Proof. unfold lookup_quote. by destruct (live w key). Qed.

Lemma read_quotes_spec w key symbols hits0 misses0 :
  exists hits misses,
    read_quotes (map (fun k => value_reply (live w k)) (map key symbols)) symbols hits0 misses0
      = Some (hits, (misses0 ++ misses)%list) /\
    (forall s, hits !! s = if decide (s ∈ symbols) then
       match lookup_quote false w (key s) with Some q => Some q | None => hits0 !! s end
       else hits0 !! s) /\
    misses = filter (fun s => lookup_quote false w (key s) = None) symbols.
Proof.
  revert hits0 misses0. induction symbols as [|sym symbols IH]; intros hits0 misses0.
  { exists hits0, []. rewrite app_nil_r. split; [done|]. split; [|done].
    intros s. case_decide as Hs; [by apply elem_of_nil in Hs|done]. }
  cbn [map read_quotes]. rewrite reply_lookup, filter_cons.
  destruct (lookup_quote false w (key sym)) as [q|] eqn:Eq.
  - destruct (IH (<[sym:=q]> hits0) misses0) as (hits & misses & -> & Hh & ->).
    exists hits. rewrite decide_False by done. eexists. split; [done|]. split; [|done].
    intros s. rewrite Hh. destruct (decide (s = sym)) as [->|Hne].
    + rewrite lookup_insert_eq, Eq. rewrite (decide_True (P := sym ∈ sym :: symbols)) by left.
      by case_decide.
    + rewrite lookup_insert_ne by done.
      destruct (decide (s ∈ symbols)), (decide (s ∈ sym :: symbols)); set_solver.
  - destruct (IH hits0 (misses0 ++ [sym])%list) as (hits & misses & -> & Hh & ->).
    exists hits. rewrite decide_True by done. eexists.
    split; [by rewrite <- app_assoc|]. split; [|done]. intros s. rewrite Hh.
    destruct (decide (s = sym)) as [->|Hne].
    + rewrite Eq. by destruct (decide (sym ∈ symbols)), (decide (sym ∈ sym :: symbols)).
    + destruct (decide (s ∈ symbols)), (decide (s ∈ sym :: symbols)); set_solver.
Qed.

Lemma read_stale_spec w key symbols m0 :
  exists m, read_stale (map (fun k => value_reply (live w k)) (map key symbols)) symbols m0 = Some m /\
    (forall s, m !! s = if decide (s ∈ symbols) then
       match lookup_quote true w (key s) with Some q => Some q | None => m0 !! s end
       else m0 !! s).
Proof.
  revert m0. induction symbols as [|sym symbols IH]; intros m0.
  { exists m0. split; [done|]. intros s. case_decide as Hs; [by apply elem_of_nil in Hs|done]. }
  cbn [map read_stale]. rewrite reply_lookup.
  destruct (lookup_quote true w (key sym)) as [q|] eqn:Eq.
  - destruct (IH (<[sym:=q]> m0)) as (m & -> & Hm). exists m. split; [done|].
    intros s. rewrite Hm. destruct (decide (s = sym)) as [->|Hne].
    + rewrite lookup_insert_eq, Eq. rewrite (decide_True (P := sym ∈ sym :: symbols)) by left.
      by case_decide.
    + rewrite lookup_insert_ne by done.
      destruct (decide (s ∈ symbols)), (decide (s ∈ sym :: symbols)); set_solver.
  - destruct (IH m0) as (m & -> & Hm). exists m. split; [done|]. intros s. rewrite Hm.
    destruct (decide (s = sym)) as [->|Hne].
    + rewrite Eq. by destruct (decide (sym ∈ symbols)), (decide (sym ∈ sym :: symbols)).
    + destruct (decide (s ∈ symbols)), (decide (s ∈ sym :: symbols)); set_solver.
Qed.

(** ** Writing *)

Lemma apply_sets_other now pipe m k :
  k ∉ map set_key pipe -> foldl (apply_set now) m pipe !! k = m !! k.
Proof.
  revert m. induction pipe as [|s pipe IH]; intros m; simpl; [done|].
  intros [Hne Hni]%not_elem_of_cons. rewrite IH by done. by apply lookup_insert_ne.
Qed.

Lemma apply_sets_lookup now pipe m s :
  NoDup (map set_key pipe) -> s ∈ pipe ->
  foldl (apply_set now) m pipe !! set_key s = Some (set_doc s, now + set_ttl s).
Proof.
  revert m. induction pipe as [|s0 pipe IH]; intros m; simpl; [by intros _ ?%elem_of_nil|].
  intros [Hni Hd]%NoDup_cons [->|Hin]%elem_of_cons; [|by apply IH].
  rewrite apply_sets_other by done. apply lookup_insert_eq.
Qed.

Section Life.
Context `{GoUnicode}.

Lemma set_quote_keys c p ts quotes k :
  k ∈ map set_key (flat_map (set_quote c p ts) quotes) ->
  exists sp, sp ∈ quotes /\ (k = freshKey p sp.1 \/ k = staleKey p sp.1).
Proof.
  induction quotes as [|[sym price] quotes IH]; simpl; [by intros ?%elem_of_nil|].
  rewrite !elem_of_cons. intros [->|[->|Hk]].
  - exists (sym, price). split; [left|auto].
  - exists (sym, price). split; [left|auto].
  - destruct (IH Hk) as (sp & Hin & Hs). exists sp. split; [by right|done].
Qed.

Lemma set_quote_keys_nodup c p ts quotes :
  is_ascii_string p = true -> NoDup (map (fun sp => ToUpper sp.1) quotes) ->
  NoDup (map set_key (flat_map (set_quote c p ts) quotes)).
Proof.
  intros Hp. induction quotes as [|[sym price] quotes IH]; simpl; [constructor|].
  intros [Hni Hd]%NoDup_cons.
  assert (forall sp : string * Decimal, sp ∈ quotes -> ToUpper sym <> ToUpper sp.1) as Hne.
  { intros sp Hin He. apply Hni. rewrite He. by apply (list_elem_of_fmap_2 (fun sp => ToUpper sp.1)). }
  constructor; [|constructor; [|by apply IH]].
  - intros [He|Hk]%elem_of_cons; [by apply fresh_not_stale in He|].
    apply set_quote_keys in Hk as (sp & Hin & [He|He]).
    + apply freshKey_inj in He. by apply (Hne sp).
    + by apply fresh_not_stale in He.
  - intros Hk. apply set_quote_keys in Hk as (sp & Hin & [He|He]).
    + symmetry in He. by apply fresh_not_stale in He.
    + apply staleKey_inj in He. by apply (Hne sp).
Qed.

(** Both copies of a quote after the pipeline has run. *)
Lemma SetQuotes_stores c p quotes ts w w1 sym price :
  is_ascii_string p = true -> NoDup (map (fun sp => ToUpper sp.1) quotes) ->
  exec redis_env (SetQuotes c p quotes ts) w (Some (Ok tt)) w1 -> (sym, price) ∈ quotes ->
  let doc := marshal_quote {| cq_Symbol := sym; cq_Price := price; cq_Timestamp := ts;
                              cq_IsStaleCache := false |} in
  rd_data w1 !! freshKey p sym = Some (doc, rd_now w + freshTTL c) /\
  rd_data w1 !! staleKey p sym = Some (doc, rd_now w + staleTTL c).
Proof.
  intros Hp Hd He Hin doc. pose proof (set_quote_keys_nodup c p ts quotes Hp Hd) as Hnd.
  destruct quotes as [|q0 quotes]; [by apply elem_of_nil in Hin|].
  destruct He as ([[]|e] & w2 & [_ Hdata] & He); [|by destruct He].
  destruct He as [_ ->]. rewrite Hdata.
  assert (forall s, s ∈ set_quote c p ts (sym, price) ->
    foldl (apply_set (rd_now w)) (rd_data w) (flat_map (set_quote c p ts) (q0 :: quotes))
      !! set_key s = Some (set_doc s, rd_now w + set_ttl s)) as Hs.
  { intros s Hs. apply apply_sets_lookup; [exact Hnd|].
    apply list_elem_of_In, in_flat_map. exists (sym, price). by rewrite <- !list_elem_of_In. }
  split.
  - apply (Hs {| set_key := freshKey p sym; set_doc := doc; set_ttl := freshTTL c |}). left.
  - apply (Hs {| set_key := staleKey p sym; set_doc := doc; set_ttl := staleTTL c |}). right. left.
Qed.

Lemma GetQuotes_reads p asked w hits misses w' :
  exec redis_env (GetQuotes p asked) w (Some (hits, misses, None)) w' ->
  (forall s, hits !! s = if decide (s ∈ asked) then lookup_quote false w (freshKey p s) else None) /\
  misses = filter (fun s => lookup_quote false w (freshKey p s) = None) asked.
Proof.
  destruct asked as [|a asked]; [intros [[= -> ->] _]; split; [done|done]|].
  intros ([vals|e] & w1 & [-> Hv] & He); [|by destruct He]. subst vals.
  destruct (read_quotes_spec w (freshKey p) (a :: asked) ∅ []) as (h & m & Hr & Hh & ->).
  cbn [bind] in He. rewrite Hr in He. destruct He as [[= -> ->] _]. split; [|done].
  intros s. rewrite Hh, lookup_empty. case_decide; [by destruct (lookup_quote _ _ _)|done].
Qed.

Lemma GetStaleQuotes_reads p asked w result w' :
  exec redis_env (GetStaleQuotes p asked) w (Some (Ok result)) w' ->
  forall s, result !! s = if decide (s ∈ asked) then lookup_quote true w (staleKey p s) else None.
Proof.
  destruct asked as [|a asked]; [by intros [[= ->] _] s|].
  intros ([vals|e] & w1 & [-> Hv] & He); [|by destruct He]. subst vals.
  destruct (read_stale_spec w (staleKey p) (a :: asked) ∅) as (m & Hr & Hm).
  cbn [bind] in He. rewrite Hr in He. destruct He as [[= ->] _].
  intros s. rewrite Hm, lookup_empty. case_decide; [by destruct (lookup_quote _ _ _)|done].
Qed.

(** One stale quote: the value as it is read, or which error it is. *)
Lemma GetStaleQuote_reads p sym w r w' :
  exec redis_env (GetStaleQuote p sym) w (Some r) w' ->
  (exists e, r = Err (ErrWrap "failed to get stale quote" e)) \/
  r = match decode_value true (live w (staleKey p sym)) with
      | Some q => Ok q
      | None => Err (if live w (staleKey p sym) then ErrMsg "failed to unmarshal stale quote"
                     else ErrSentinel ErrCacheMiss)
      end.
Proof.
  intros (val & w1 & [-> Hv] & He). destruct val as [|e|doc].
  - destruct He as [[= ->] _]. right. by rewrite Hv.
  - destruct He as [[= ->] _]. left. eauto.
  - destruct Hv as (d & Hd & ->). right. cbn [bind] in He. rewrite Hd.
    destruct (decode_value true (Some d)); by destruct He as [[= ->] _].
Qed.

(** A copy as it is read, until it expires. *)
Lemma stored_lookup stale w key sym price price' ts was_stale expires :
  rd_data w !! key = Some (marshal_quote {| cq_Symbol := sym; cq_Price := price;
    cq_Timestamp := ts; cq_IsStaleCache := was_stale |}, expires) ->
  NewFromString (to_String price) = Ok price' ->
  lookup_quote stale w key =
    if rd_now w <? expires
    then Some {| cq_Symbol := sym; cq_Price := price'; cq_Timestamp := ts; cq_IsStaleCache := stale |}
    else None.
Proof.
  intros Hk Hread. unfold lookup_quote, live. rewrite Hk.
  destruct (rd_now w <? expires); [|done]. simpl. unfold unmarshal_quote. simpl. by rewrite Hread.
Qed.

(** What the pipeline leaves alone. *)
Lemma SetQuotes_others c p quotes ts w w1 other :
  is_ascii_string p = true -> exec redis_env (SetQuotes c p quotes ts) w (Some (Ok tt)) w1 ->
  ToUpper other ∉ map (fun sp => ToUpper sp.1) quotes ->
  rd_data w1 !! freshKey p other = rd_data w !! freshKey p other /\
  rd_data w1 !! staleKey p other = rd_data w !! staleKey p other.
Proof.
  intros Hp He Hno. destruct quotes as [|q0 quotes]; [by destruct He as [_ ->]|].
  destruct He as ([[]|e] & w2 & [_ Hdata] & He); [|by destruct He].
  destruct He as [_ ->]. rewrite Hdata.
  assert (forall sp : string * Decimal, sp ∈ q0 :: quotes -> ToUpper other <> ToUpper sp.1) as Hne.
  { intros sp Hin He. apply Hno. rewrite He. by apply (list_elem_of_fmap_2 (fun sp => ToUpper sp.1)). }
  split; apply apply_sets_other; intros (sp & Hin & [Hk|Hk])%set_quote_keys.
  - apply freshKey_inj in Hk. by apply (Hne sp).
  - by apply fresh_not_stale in Hk.
  - symmetry in Hk. by apply fresh_not_stale in Hk.
  - apply staleKey_inj in Hk. by apply (Hne sp).
Qed.

Lemma lookup_quote_data stale w w' key :
  rd_now w' = rd_now w -> rd_data w' !! key = rd_data w !! key ->
  lookup_quote stale w' key = lookup_quote stale w key.
Proof. intros Hn Hd. unfold lookup_quote, live. by rewrite Hn, Hd. Qed.

(** How the reads of the store answer for a symbol at time [t]. *)
Definition reads_as p w1 t asked s (fresh stale : option CachedQuote) : Prop :=
  (forall hits misses w2,
     exec redis_env (GetQuotes p asked) (at_time t w1) (Some (hits, misses, None)) w2 ->
     hits !! s = fresh /\ (s ∈ misses <-> fresh = None)) /\
  (forall result w2,
     exec redis_env (GetStaleQuotes p asked) (at_time t w1) (Some (Ok result)) w2 ->
     result !! s = stale) /\
  (forall q w2,
     exec redis_env (GetStaleQuote p s) (at_time t w1) (Some (Ok q)) w2 -> stale = Some q).

Lemma reads_lookup p w t asked s :
  s ∈ asked ->
  reads_as p w t asked s (lookup_quote false (at_time t w) (freshKey p s))
    (lookup_quote true (at_time t w) (staleKey p s)).
Proof.
  intros Ha. split; [|split].
  - intros hits misses w2 [Hh ->]%GetQuotes_reads. rewrite Hh, decide_True by done.
    split; [done|]. rewrite list_elem_of_filter. naive_solver.
  - intros result w2 Hres. by rewrite (GetStaleQuotes_reads _ _ _ _ _ Hres), decide_True by done.
  - intros q w2 [[e ?]|Hq]%GetStaleQuote_reads; [done|]. unfold lookup_quote.
    by destruct (decode_value _ _); simplify_eq.
Qed.

(** C20: the life of a cached quote.  After a successful [SetQuotes] - to a provider in ASCII,
    of symbols that differ in more than case - each quote is read under its symbol, in any
    case of letters: [GetQuotes] finds symbol, timestamp and a price equal as a number until the fresh copy
    expires, and from then on reports a miss; [GetStaleQuotes] finds it, marked stale, until
    the stale copy expires, and from then on does not; [GetStaleQuote], unless Redis fails,
    finds the same and otherwise answers ErrCacheMiss.  Every other symbol is read as
    before. *)
Theorem cached_quote_life fresh stale p quotes ts w w1 :
  let c := NewRedisQuotesCache fresh stale in
  is_ascii_string p = true -> NoDup (map (fun sp => ToUpper sp.1) quotes) ->
  exec redis_env (SetQuotes c p quotes ts) w (Some (Ok tt)) w1 ->
  0 < freshTTL c /\ 0 < staleTTL c /\
  (forall sym price, (sym, price) ∈ quotes -> in_i32 (d_exp price) ->
     exists price', deq price' price /\
       let q stale := {| cq_Symbol := sym; cq_Price := price'; cq_Timestamp := ts;
                         cq_IsStaleCache := stale |} in
       forall t asked s, s ∈ asked -> ToUpper s = ToUpper sym ->
         reads_as p w1 t asked s
           (if t <? rd_now w + freshTTL c then Some (q false) else None)
           (if t <? rd_now w + staleTTL c then Some (q true) else None) /\
         (forall r w2,
            exec redis_env (GetStaleQuote p s) (at_time t w1) (Some r) w2 ->
            (exists e, r = Err (ErrWrap "failed to get stale quote" e)) \/
            r = if t <? rd_now w + staleTTL c then Ok (q true) else Err (ErrSentinel ErrCacheMiss))) /\
  (forall t asked other, other ∈ asked -> ToUpper other ∉ map (fun sp => ToUpper sp.1) quotes ->
     exists fresh stale, reads_as p w1 t asked other fresh stale /\
       reads_as p w t asked other fresh stale).
Proof.
  intros c Hp Hd Hset. split; [|split; [|split]].
  1, 2: unfold c, NewRedisQuotesCache, cache_ttls, Second, Hour; simpl;
    destruct (Z.leb_spec fresh 0), (Z.leb_spec stale 0); unfold Second; lia.
  - intros sym price Hin Hr.
    destruct (SetQuotes_stores c p quotes ts w w1 sym price Hp Hd Hset Hin) as [Efresh Estale].
    destruct (to_String_read price Hr) as (price' & Hread & Heq).
    exists price'. split; [done|]. intros q t asked s Ha Hs.
    assert (freshKey p s = freshKey p sym /\ staleKey p s = staleKey p sym) as [Kf Ks]
      by (unfold freshKey, staleKey; by rewrite Hs).
    pose proof (fun st => stored_lookup st (at_time t w1) _ _ _ _ _ _ _ Estale Hread) as Lstale.
    split.
    + pose proof (reads_lookup p w1 t asked s Ha) as Hreads. rewrite Kf, Ks, (Lstale true),
        (stored_lookup false (at_time t w1) _ _ _ _ _ _ _ Efresh Hread) in Hreads. exact Hreads.
    + intros r w2 [?| ->]%GetStaleQuote_reads; [by left|right]. rewrite Ks.
      specialize (Lstale true). unfold lookup_quote in Lstale. rewrite Lstale.
      unfold live. simpl. rewrite Estale. by destruct (t <? _).
  - intros t asked other Ha Hno. do 2 eexists. split; [by apply reads_lookup|].
    destruct (SetQuotes_others c p quotes ts w w1 other Hp Hset Hno) as [Ef Es].
    rewrite (lookup_quote_data false (at_time t w) (at_time t w1) (freshKey p other)) by done.
    rewrite (lookup_quote_data true (at_time t w) (at_time t w1) (staleKey p other)) by done.
    by apply reads_lookup.
Qed.
End Life.
