(* ===== verification/Effects.v ===== *)
(** * The interfaces of the service

    The service layer talks to its collaborators through Go interfaces:
    [OrdersRepository], [CredentialsRepository], [TransitClient], [Broker],
    [QuotesCache], [livro.Client], [ativos.Client], and to the runtime (clock, UUIDs,
    the [select] on the request context, the memory behind the credentials).  One
    operation of [Op] is one call of such a method and [Res] the type of what it
    returns; service programs are [prog Res]. *)

From stdpp Require Import base tactics list strings gmap.
From Stdlib Require Import ZArith.
From S2P Require Import Prelude GoStrings Decimal Uuid Broker Vault Db Clients Cache.

#[local] Open Scope Z_scope.

Inductive Op :=
  (* runtime *)
  | TimeNow
  | UuidNew
  | SelectDoneOrAfter (poll : Z)
  | CredsZero (p : CredPtr)
  (* db.OrdersRepository *)
  | OrdersReserve (o : BrokerOrder)
  | OrdersGetByIntent (tradeIntentID : UUID)
  | OrdersGetByIdempotencyKey (tenantID idempotencyKey : string)
  | OrdersGetByProviderOrderID (provider providerOrderID : string)
  | OrdersConfirm (id : UUID) (providerOrderID status : string) (filled price : Decimal)
  | OrdersRelease (id : UUID)
  | OrdersUpdateFill (provider providerOrderID status : string) (filled price : Decimal)
  (* db.CredentialsRepository *)
  | CredentialsGet (tenantID provider : string)
  (* vault.TransitClient *)
  | VaultDecryptCredentials (apiKeyCiphertext apiSecretCiphertext : string)
  (* broker.Broker *)
  | BrokerGetBookTickers (symbols : list string)
  | BrokerValidateSymbols (symbols : list string)
  | BrokerPlaceMarketOrder (creds : CredPtr) (req : MarketOrderRequest)
  | BrokerGetAccountBalances (creds : CredPtr)
  (* cache.QuotesCache *)
  | CacheGetQuotes (provider : string) (symbols : list string)
  | CacheSetQuotes (provider : string) (quotes : gmap string Decimal) (timestamp : Z)
  | CacheGetStaleQuotes (provider : string) (symbols : list string)
  (* livro.Client *)
  | LivroCaptureHold (p : Livro.CaptureHoldParams)
  | LivroCredit (p : Livro.CreditParams)
  | LivroGetBalance (accountID : string)
  | LivroGetOrCreateBrokerAccount (tenantID : string)
  (* ativos.Client *)
  | AtivosSyncBrokerExecution (p : Ativos.SyncExecutionParams).

(** Why [ctx.Done()] fired. *)
Inductive CtxErr := CtxCanceled | CtxDeadlineExceeded.

(** [OrdersReserve] also returns the struct it was given, as mutated;
    [CacheGetQuotes] returns hits, misses and the error together;
    [SelectDoneOrAfter] returns [None] when the timer fired. *)
Definition Res (op : Op) : Type :=
  match op with
  | TimeNow => Time
  | UuidNew => UUID
  | SelectDoneOrAfter _ => option CtxErr
  | CredsZero _ => unit
  | OrdersReserve _ => BrokerOrder * Result bool
  | OrdersGetByIntent _ | OrdersGetByIdempotencyKey _ _
  | OrdersGetByProviderOrderID _ _ => Result BrokerOrder
  | OrdersConfirm _ _ _ _ _ | OrdersRelease _ | OrdersUpdateFill _ _ _ _ _ => Result unit
  | CredentialsGet _ _ => Result BrokerCredential
  | VaultDecryptCredentials _ _ => Result CredPtr
  | BrokerGetBookTickers _ => Result (gmap string BookTicker)
  | BrokerValidateSymbols _ => Result (gmap string bool)
  | BrokerPlaceMarketOrder _ _ => Result OrderResult
  | BrokerGetAccountBalances _ => Result (gmap string Decimal)
  | CacheGetQuotes _ _ => gmap string CachedQuote * list string * option GoError
  | CacheSetQuotes _ _ _ => Result unit
  | CacheGetStaleQuotes _ _ => Result (gmap string CachedQuote)
  | LivroCaptureHold _ | LivroCredit _ => Result unit
  | LivroGetBalance _ => Result Decimal
  | LivroGetOrCreateBrokerAccount _ => Result string
  | AtivosSyncBrokerExecution _ => Result unit
  end.

(** A program of the service layer. *)
Abbreviation service := (prog Res).

Definition perform (op : Op) : service (Res op) := call (Res := Res) op.
