(* ===== verification/Config.v ===== *)
(** * The configuration

    internal/config/config.go: the configuration is read from the environment once, at
    start-up; a required variable that is blank is a panic. *)

From stdpp Require Import base tactics list strings.
From Stdlib Require Import ZArith Ascii.
From S2P Require Import Prelude GoStrings Broker Cache.

#[local] Open Scope string_scope.
#[local] Open Scope Z_scope.
#[local] Open Scope go_scope.

(** Durations are in nanoseconds. *)
Record Config := {
  GRPCPort : string;
  HTTPPort : string;
  DatabaseURL : string;
  RedisAddr : string;
  RedisPassword : string;
  RedisDB : Z;
  OpenBaoAddr : string;
  OpenBaoToken : string;
  OpenBaoTransitKey : string;
  BinanceBaseURL : string;
  LivroGRPCAddr : string;
  AtivosGRPCAddr : string;
  cf_DefaultBroker : Z;
  CacheFreshTTL : Z;
  CacheStaleTTL : Z;
  BinanceRecvWindow : Z;
  BinanceHTTPTimeout : Z;
}.

(** [os.Getenv] *)
Inductive EnvOp := Getenv (key : string).
Definition EnvRes (op : EnvOp) : Type := string.

Definition getenv (key : string) : prog EnvRes string := call (Res := EnvRes) (Getenv key).

Section Config.
Context `{GoUnicode}.

Definition requireEnv (key : string) : prog EnvRes string :=
  raw <- getenv key ;;
  let val := TrimSpace raw in
  if String.eqb val "" then Panic ("missing required environment variable: " +:+ key)
  else Ret val.

Definition Load : prog EnvRes Config :=
  port <- requireEnv "PORT" ;;
  httpPort <- requireEnv "HTTP_PORT" ;;
  databaseURL <- requireEnv "DATABASE_URL" ;;
  redisAddr <- requireEnv "REDIS_ADDR" ;;
  redisPassword <- getenv "REDIS_PASSWORD" ;;
  baoAddr <- requireEnv "OPENBAO_ADDR" ;;
  baoToken <- requireEnv "OPENBAO_TOKEN" ;;
  baoKey <- requireEnv "OPENBAO_TRANSIT_KEY" ;;
  binanceURL <- requireEnv "BINANCE_BASE_URL" ;;
  livroAddr <- requireEnv "LIVRO_GRPC_ADDR" ;;
  ativosAddr <- requireEnv "ATIVOS_GRPC_ADDR" ;;
  defaultBroker <- requireEnv "DEFAULT_BROKER" ;;
  Ret {|
    GRPCPort := port;
    HTTPPort := httpPort;
    DatabaseURL := databaseURL;
    RedisAddr := redisAddr;
    RedisPassword := TrimSpace redisPassword;
    RedisDB := 0;
    OpenBaoAddr := baoAddr;
    OpenBaoToken := baoToken;
    OpenBaoTransitKey := baoKey;
    BinanceBaseURL := TrimRight binanceURL "/"%char;
    LivroGRPCAddr := livroAddr;
    AtivosGRPCAddr := ativosAddr;
    cf_DefaultBroker := ParseBroker (ToUpper defaultBroker);
    CacheFreshTTL := 5 * Second;
    CacheStaleTTL := 24 * Hour;
    BinanceRecvWindow := 5000;
    BinanceHTTPTimeout := 10 * Second |}.

(** ** What is loaded *)

Definition required : list string :=
  ["PORT"; "HTTP_PORT"; "DATABASE_URL"; "REDIS_ADDR"; "OPENBAO_ADDR"; "OPENBAO_TOKEN";
   "OPENBAO_TRANSIT_KEY"; "BINANCE_BASE_URL"; "LIVRO_GRPC_ADDR"; "ATIVOS_GRPC_ADDR";
   "DEFAULT_BROKER"].

(** The process environment. *)
Definition environ (env : string -> string) (op : EnvOp) (_ : unit) : EnvRes op * unit :=
  match op with Getenv key => (env key, tt) end.

Lemma requireEnv_run env key {A} (k : string -> prog EnvRes A) :
  run (environ env) (bind (requireEnv key) k) tt =
  if String.eqb (TrimSpace (env key)) "" then (None, tt)
  else run (environ env) (k (TrimSpace (env key))) tt.
Proof. cbn. by destruct (String.eqb _ _). Qed.

(** What each field of the configuration holds. *)
Definition configured (env : string -> string) (cfg : Config) : Prop :=
  GRPCPort cfg = TrimSpace (env "PORT") /\
  HTTPPort cfg = TrimSpace (env "HTTP_PORT") /\
  DatabaseURL cfg = TrimSpace (env "DATABASE_URL") /\
  RedisAddr cfg = TrimSpace (env "REDIS_ADDR") /\
  RedisPassword cfg = TrimSpace (env "REDIS_PASSWORD") /\ RedisDB cfg = 0 /\
  OpenBaoAddr cfg = TrimSpace (env "OPENBAO_ADDR") /\
  OpenBaoToken cfg = TrimSpace (env "OPENBAO_TOKEN") /\
  OpenBaoTransitKey cfg = TrimSpace (env "OPENBAO_TRANSIT_KEY") /\
  BinanceBaseURL cfg = TrimRight (TrimSpace (env "BINANCE_BASE_URL")) "/"%char /\
  LivroGRPCAddr cfg = TrimSpace (env "LIVRO_GRPC_ADDR") /\
  AtivosGRPCAddr cfg = TrimSpace (env "ATIVOS_GRPC_ADDR") /\
  cf_DefaultBroker cfg = ParseBroker (ToUpper (TrimSpace (env "DEFAULT_BROKER"))) /\
  CacheFreshTTL cfg = 5 * Second /\ CacheStaleTTL cfg = 24 * Hour /\
  BinanceRecvWindow cfg = 5000 /\ BinanceHTTPTimeout cfg = 10 * Second.

Definition complete (env : string -> string) : Prop :=
  Forall (fun key => TrimSpace (env key) <> "") required.

(** Start-up panics exactly when a required variable is blank; otherwise every variable
    ends up in its field. *)
Lemma Load_spec env :
  match (run (environ env) Load tt).1 with
  | Some cfg => complete env /\ configured env cfg
  | None => ~ complete env
  end.
Proof.
  enough (forall P, (complete env <-> P) ->
    match (run (environ env) Load tt).1 with
    | Some cfg => P /\ configured env cfg
    | None => ~ P
    end) as Hp by by apply Hp.
  unfold Load, complete, required. intros P HP. rewrite !Forall_cons, Forall_nil in HP.
  repeat match goal with
  | |- context [run _ (bind (requireEnv ?key) _) _] =>
      rewrite requireEnv_run; destruct (String.eqb_spec (TrimSpace (env key)) "") as [?|?]; [simpl; tauto|]
  | |- context [run _ (bind (getenv _) _) _] => cbn [bind getenv call run environ]
  end.
  cbn [run fst]. split; [tauto|]. done.
Qed.
End Config.
