(* ===== verification/Worker.v ===== *)
(** * The fill processor

    internal/worker/fill_processor.go: one execution report of the broker applied to
    the order it belongs to, settled with Ativos or with Livro, and recorded. *)

From stdpp Require Import base tactics list strings gmap.
From Stdlib Require Import ZArith.
From S2P Require Import Prelude GoStrings Decimal Uuid Db Clients Effects.

#[local] Open Scope string_scope.
#[local] Open Scope Z_scope.
#[local] Open Scope go_scope.

Record FillEvent := {
  fe_Provider : string;
  fe_ProviderOrderID : string;
  fe_Symbol : string;
  fe_Side : string;
  fe_Status : string;
  fe_ExecutedQuantity : Decimal;
  fe_FillPrice : Decimal;
}.

(** The processor's collaborators that can be nil interfaces. *)
Record fillProcessor := {
  has_livroClient : bool;
  has_ativosClient : bool;
}.

Definition NewFillProcessor (livroClient ativosClient : bool) : fillProcessor :=
  {| has_livroClient := livroClient; has_ativosClient := ativosClient |}.

(** What one fill makes of the order: the numbers of lines 60 to 78. *)
Record FillUpdate := {
  fu_exactFiatValue : Decimal;
  fu_newFilledQty : Decimal;
  fu_newAvgPrice : Decimal;
  fu_newStatus : string;
}.

Section Worker.
Context `{GoUnicode}.

(** The arithmetic of a fill; [None] is a panic of the decimal package. *)
Definition fill_update (order : BrokerOrder) (event : FillEvent) : option FillUpdate :=
  match Mul (fe_ExecutedQuantity event) (fe_FillPrice event) with
  | None => None
  | Some exactFiatValue =>
      let newFilledQty := Add (bo_FilledQuantity order) (fe_ExecutedQuantity event) in
      let newAvgPrice :=
        if IsZero (bo_FilledQuantity order) then Some (fe_FillPrice event)
        else
          match Mul (bo_FilledQuantity order) (bo_AverageFillPrice order) with
          | None => None
          | Some prevTotalFiat => Div (Add prevTotalFiat exactFiatValue) newFilledQty
          end in
      match newAvgPrice with
      | None => None
      | Some newAvgPrice =>
          let newStatus :=
            if EqualFold (fe_Status event) StatusFilled
               || GreaterThanOrEqual newFilledQty (bo_TargetQuantity order)
            then StatusFilled else StatusPartial in
          Some {| fu_exactFiatValue := exactFiatValue;
                  fu_newFilledQty := newFilledQty;
                  fu_newAvgPrice := newAvgPrice;
                  fu_newStatus := newStatus |}
      end
  end.

(** The idempotency keys: a prefix, the intent, the broker's order and the new
    cumulative quantity. *)
Definition fill_key (prefix : string) (order : BrokerOrder) (u : FillUpdate) : string :=
  prefix +:+ uuid_String (bo_TradeIntentID order) +:+ "-" +:+ bo_ProviderOrderID order
    +:+ "-" +:+ to_String (fu_newFilledQty u).

Definition sync_params (order : BrokerOrder) (event : FillEvent) (u : FillUpdate)
  : Ativos.SyncExecutionParams := {|
  Ativos.se_TenantID := bo_TenantID order;
  Ativos.se_PortfolioID := bo_PortfolioID order;
  Ativos.se_TradeIntentID := uuid_String (bo_TradeIntentID order);
  Ativos.se_Ticker := bo_Symbol order;
  Ativos.se_Action :=
    if EqualFold (bo_Side order) SideSell then Ativos.SELL else Ativos.BUY;
  Ativos.se_ExecutedShares := fe_ExecutedQuantity event;
  Ativos.se_ExecutedPrice := fe_FillPrice event;
  Ativos.se_IdempotencyKey := fill_key "sync-ativos-" order u |}.

Definition capture_params (order : BrokerOrder) (u : FillUpdate) (destAccID : string)
  : Livro.CaptureHoldParams := {|
  Livro.ch_HoldID :=
    if String.eqb (bo_LivroHoldID order) "" then uuid_String (bo_TradeIntentID order)
    else bo_LivroHoldID order;
  Livro.ch_Amount := fu_exactFiatValue u;
  Livro.ch_DestinationAccountID := destAccID;
  Livro.ch_Description := "Execution fill for order " +:+ bo_ProviderOrderID order;
  Livro.ch_IdempotencyKey := fill_key "cap-" order u;
  Livro.ch_ReleaseRemainder := String.eqb (fu_newStatus u) StatusFilled |}.

Definition credit_params (order : BrokerOrder) (u : FillUpdate) : Livro.CreditParams := {|
  Livro.cr_TenantID := bo_TenantID order;
  Livro.cr_AccountID := bo_UserID order;
  Livro.cr_Amount := fu_exactFiatValue u;
  Livro.cr_Currency := "USD";
  Livro.cr_Description := "Sale execution proceeds for order " +:+ bo_ProviderOrderID order;
  Livro.cr_Reference := uuid_String (bo_TradeIntentID order);
  Livro.cr_IdempotencyKey := fill_key "credit-" order u |}.

(** Step 2 of [ProcessFill]: with Ativos connected it alone settles; in standalone
    mode Livro is settled directly; with neither nothing is settled. *)
Definition settle (p : fillProcessor) (order : BrokerOrder) (event : FillEvent)
    (u : FillUpdate) : service (Result unit) :=
  if has_ativosClient p then
    r <- perform (AtivosSyncBrokerExecution (sync_params order event u)) ;;
    match r with
    | Err e => Ret (Err (ErrWrap "ativos SyncBrokerExecution failed" e))
    | Ok _ => Ret (Ok tt)
    end
  else if has_livroClient p then
    if EqualFold (bo_Side order) SideBuy then
      acc <- perform (LivroGetOrCreateBrokerAccount (bo_TenantID order)) ;;
      match acc with
      | Err e => Ret (Err (ErrWrap "failed to resolve broker clearing account in livro" e))
      | Ok destAccID =>
          r <- perform (LivroCaptureHold (capture_params order u destAccID)) ;;
          match r with
          | Err e => Ret (Err (ErrWrap "livro CaptureHold failed" e))
          | Ok _ => Ret (Ok tt)
          end
      end
    else if EqualFold (bo_Side order) SideSell then
      r <- perform (LivroCredit (credit_params order u)) ;;
      match r with
      | Err e => Ret (Err (ErrWrap "livro Credit failed" e))
      | Ok _ => Ret (Ok tt)
      end
    else Ret (Ok tt)
  else Ret (Ok tt).

Definition ProcessFill (p : fillProcessor) (event : FillEvent) : service (Result unit) :=
  if LessThanOrEqual (fe_ExecutedQuantity event) Zero
  then Ret (Err (ErrMsg "invalid executed quantity"))
  else if LessThanOrEqual (fe_FillPrice event) Zero
  then Ret (Err (ErrMsg "invalid fill price"))
  else
    found <- perform (OrdersGetByProviderOrderID (fe_Provider event) (fe_ProviderOrderID event)) ;;
    match found with
    | Err e => Ret (Err (ErrWrap "failed to lookup order by provider_order_id" e))
    | Ok order =>
        u <- or_panic "decimal" (fill_update order event) ;;
        settled <- settle p order event u ;;
        match settled with
        | Err e => Ret (Err e)
        | Ok _ =>
            r <- perform (OrdersUpdateFill (bo_Provider order) (bo_ProviderOrderID order)
                   (fu_newStatus u) (fu_newFilledQty u) (fu_newAvgPrice u)) ;;
            match r with
            | Err e => Ret (Err (ErrWrap "failed to update broker_orders record" e))
            | Ok _ => Ret (Ok tt)
            end
        end
    end.
End Worker.
