(* ===== verification/Webhook.v ===== *)
(** * The webhook

    internal/webhook/handler.go: execution reports posted by the broker.  The body is
    decoded into a [map[string]interface{}], marshaled again and decoded once more into
    a struct, so every number passes through [float64] and every key is matched with
    the struct's names first exactly and then up to case, in the sorted order in which
    [json.Marshal] writes a map. *)

From stdpp Require Import base tactics list strings gmap sorting.
From Stdlib Require Import ZArith String.
From S2P Require Import Prelude GoStrings Decimal Float64 Json Http Effects Worker.

#[local] Open Scope string_scope.
#[local] Open Scope Z_scope.
#[local] Open Scope go_scope.

(** ** JSON documents *)

(** [JNum neg c p] is the literal [+-c * 10 ^ p]. *)
Inductive json :=
  | JNull
  | JBool (b : bool)
  | JNum (neg : bool) (c : N) (p : Z)
  | JStr (s : string)
  | JArr (items : list json)
  | JObj (members : list (string * json)).

(** Every number of the document is in the range of [float64]. *)
Fixpoint numbers_fit (j : json) : bool :=
  match j with
  | JNum neg c p => bool_decide (is_Some (number_text neg c p))
  | JArr items => forallb numbers_fit items
  | JObj members => forallb (fun kv => numbers_fit kv.2) members
  | JNull | JBool _ | JStr _ => true
  end.

(** The values of the marshaled map, as far as a struct field of type [string], [int64]
    or [Decimal] tells them apart. *)
Inductive literal :=
  | LNull
  | LBool (b : bool)
  | LNumber (text : string)
  | LString (s : string)
  | LComposite.

Definition reencode (j : json) : literal :=
  match j with
  | JNull => LNull
  | JBool b => LBool b
  | JNum neg c p => LNumber (default "" (number_text neg c p))
  | JStr s => LString s
  | JArr _ | JObj _ => LComposite
  end.

(** The map an object decodes to: of members with the same key the last one counts. *)
Definition decode_map (members : list (string * json)) : gmap string json :=
  foldl (fun m kv => <[kv.1 := kv.2]> m) ∅ members.

Definition key_le (a b : string * literal) : Prop := String.leb a.1 b.1 = true.

#[global] Instance key_le_dec a b : Decision (key_le a b).
Proof. unfold key_le. apply _. Defined.

(** [json.Marshal(rawMap)]: the members sorted by key. *)
Definition marshal_map (m : gmap string json) : list (string * literal) :=
  merge_sort key_le (map (fun kv => (kv.1, reencode kv.2)) (map_to_list m)).

(** ** Decoding into a struct *)

(** A value stored into a field that holds [old]; [None] is a decoding error.  [null]
    leaves the field as it is. *)
Definition store_string (old : string) (l : literal) : option string :=
  match l with LNull => Some old | LString s => Some s | _ => None end.

Definition store_int64 (old : Z) (l : literal) : option Z :=
  match l with LNull => Some old | LNumber text => ParseInt text 64 | _ => None end.

(** [Decimal.UnmarshalJSON] reads what is between the quotes, or the number itself. *)
Definition store_decimal (old : Decimal) (l : literal) : option Decimal :=
  match l with
  | LNull => Some old
  | LString text | LNumber text =>
      match NewFromString text with Ok d => Some d | Err _ => None end
  | LBool _ | LComposite => None
  end.

Section Webhook.
Context `{GoUnicode}.

(** The field a key is decoded into: the one of that name, or else the first one that
    differs in case only. *)
Definition find_field (names : list string) (key : string) : option string :=
  if bool_decide (key ∈ names) then Some key else List.find (EqualFold key) names.

(** The values decoded into a field, in order. *)
Definition assigned (names : list string) (members : list (string * literal)) (name : string)
    : list literal :=
  map snd (List.filter (fun kv => bool_decide (find_field names kv.1 = Some name)) members).

Definition decode_field {A} (names : list string) (members : list (string * literal))
    (store : A -> literal -> option A) (zero : A) (name : string) : option A :=
  foldl (fun v l => v ≫= fun v => store v l) (Some zero) (assigned names members name).

Record RawBinanceExecutionReport := {
  EventType : string;
  EventTime : Z;
  Symbol : string;
  ClientOrderID : string;
  Side : string;
  OrderType : string;
  OriginalQuantity : string;
  Price : string;
  ExecutionType : string;
  OrderStatus : string;
  OrderID : Z;
  LastExecutedQuantity : string;
  CumulativeFilledQty : string;
  LastExecutedPrice : string;
  CumulativeQuoteQuantity : string;
}.

Definition report_names : list string :=
  ["e"; "E"; "s"; "c"; "S"; "o"; "q"; "p"; "x"; "X"; "i"; "l"; "z"; "L"; "Z"].

Definition fill_event_names : list string :=
  ["provider"; "provider_order_id"; "symbol"; "side"; "status"; "executed_quantity"; "fill_price"].

Definition unmarshal_report (members : list (string * literal))
    : option RawBinanceExecutionReport :=
  let str := decode_field report_names members store_string "" in
  let int := decode_field report_names members store_int64 0 in
  e ← str "e"; E ← int "E"; s ← str "s"; c ← str "c"; S ← str "S"; o ← str "o"; q ← str "q";
  p ← str "p"; x ← str "x"; X ← str "X"; i ← int "i"; l ← str "l"; z ← str "z"; L ← str "L";
  Z ← str "Z";
  Some {| EventType := e; EventTime := E; Symbol := s; ClientOrderID := c; Side := S;
          OrderType := o; OriginalQuantity := q; Price := p; ExecutionType := x;
          OrderStatus := X; OrderID := i; LastExecutedQuantity := l; CumulativeFilledQty := z;
          LastExecutedPrice := L; CumulativeQuoteQuantity := Z |}.

Definition unmarshal_fill_event (members : list (string * literal)) : option FillEvent :=
  let str := decode_field fill_event_names members store_string "" in
  let dec := decode_field fill_event_names members store_decimal zero_value in
  provider ← str "provider"; id ← str "provider_order_id"; symbol ← str "symbol";
  side ← str "side"; status ← str "status"; quantity ← dec "executed_quantity";
  price ← dec "fill_price";
  Some {| fe_Provider := provider; fe_ProviderOrderID := id; fe_Symbol := symbol;
          fe_Side := side; fe_Status := status; fe_ExecutedQuantity := quantity;
          fe_FillPrice := price |}.

(** ** The handler *)

Definition StatusBadRequest : Z := 400.
Definition StatusMethodNotAllowed : Z := 405.
Definition StatusInternalServerError : Z := 500.

(** Of an error page the constant part is kept. *)
Record HttpReply := { rp_Status : Z; rp_Body : string }.

Record Server := { sv_processor : FillEvent -> service (Result unit) }.

Definition NewServer (processor : FillEvent -> service (Result unit)) : Server :=
  {| sv_processor := processor |}.

Definition http_reply (status : Z) (body : string) : service HttpReply :=
  Ret {| rp_Status := status; rp_Body := body |}.

(** The document with the one member [status]. *)
Definition quoted (s : string) : string := String quote_char s +:+ String quote_char EmptyString.
Definition status_document (status : string) : string :=
  "{" +:+ quoted "status" +:+ ":" +:+ quoted status +:+ "}".

Definition handleHealthCheck : service HttpReply := http_reply StatusOK (status_document "OK").

(** What a native report is turned into. *)
Inductive ReportVerdict :=
  | Ignored
  | BadQuantity
  | Fill (event : FillEvent).

Definition is_fill (r : RawBinanceExecutionReport) : bool :=
  String.eqb (ExecutionType r) "TRADE" || String.eqb (OrderStatus r) "FILLED"
  || String.eqb (OrderStatus r) "PARTIALLY_FILLED".

(** The last executed quantity, or else the cumulative one. *)
Definition report_quantity (r : RawBinanceExecutionReport) : option Decimal :=
  let fallback :=
    match NewFromString (CumulativeFilledQty r) with Ok d => Some d | Err _ => None end in
  match NewFromString (LastExecutedQuantity r) with
  | Ok d => if IsZero d then fallback else Some d
  | Err _ => fallback
  end.

(** The last executed price, or else the cumulative quote quantity divided by the
    quantity; the outer [None] is a panic of the decimal package. *)
Definition report_price (r : RawBinanceExecutionReport) (lastQty : Decimal) : option Decimal :=
  let fallback lastPrice :=
    match NewFromString (CumulativeQuoteQuantity r) with
    | Ok cumQuote =>
        if GreaterThan lastQty Zero then Div cumQuote lastQty else Some lastPrice
    | Err _ => Some lastPrice
    end in
  match NewFromString (LastExecutedPrice r) with
  | Ok d => if IsZero d then fallback d else Some d
  | Err _ => fallback zero_value
  end.

Definition report_verdict (r : RawBinanceExecutionReport) : option ReportVerdict :=
  if negb (is_fill r) then Some Ignored
  else
    match report_quantity r with
    | None => Some BadQuantity
    | Some lastQty =>
        match report_price r lastQty with
        | None => None
        | Some lastPrice => Some (Fill {|
            fe_Provider := "BINANCE";
            fe_ProviderOrderID := FormatInt (OrderID r);
            fe_Symbol := Symbol r;
            fe_Side := Side r;
            fe_Status := OrderStatus r;
            fe_ExecutedQuantity := lastQty;
            fe_FillPrice := lastPrice |})
        end
    end.

(** [s.processor.ProcessFill] and the reply. *)
Definition process (s : Server) (event : FillEvent) : service HttpReply :=
  r <- sv_processor s event ;;
  match r with
  | Err _ => http_reply StatusInternalServerError "fill processing failed"
  | Ok _ => http_reply StatusOK (status_document "PROCESSED")
  end.

(** [body]: the members of the JSON object in the request, in their order, or the error
    of a body that cannot be read or is neither an object nor [null], which decodes to
    no members. *)
Definition handleBinanceOrderWebhook (s : Server) (method : string)
    (body : Result (list (string * json))) : service HttpReply :=
  if negb (String.eqb method "POST") then http_reply StatusMethodNotAllowed "method not allowed"
  else
    match body with
    | Err _ => http_reply StatusBadRequest "invalid json payload"
    | Ok members =>
        if negb (forallb (fun kv => numbers_fit kv.2) members)
        then http_reply StatusBadRequest "invalid json payload"
        else
          let rawMap := decode_map members in
          let payload := marshal_map rawMap in
          match rawMap !! "provider_order_id", rawMap !! "e" with
          | Some _, _ =>
              match unmarshal_fill_event payload with
              | None => http_reply StatusBadRequest "invalid fill event payload"
              | Some event => process s event
              end
          | None, Some _ =>
              match unmarshal_report payload with
              | None => http_reply StatusBadRequest "invalid binance execution report"
              | Some report =>
                  verdict <- or_panic "decimal" (report_verdict report) ;;
                  match verdict with
                  | Ignored => http_reply StatusOK (status_document "ignored")
                  | BadQuantity => http_reply StatusBadRequest "invalid execution quantity"
                  | Fill event => process s event
                  end
              end
          | None, None => http_reply StatusBadRequest "unrecognized webhook payload format"
          end
    end.

(** ** Routes *)

Inductive Route := HealthCheck | BinanceOrderWebhook.

(** [RegisterRoutes]: the patterns and their handlers; neither ends in a slash, so each
    matches its own path only.  The path is the one the mux looks up: [http.ServeMux] first
    redirects a request whose path is not clean, such as [//healthz], to the clean one, and
    no handler runs. *)
Definition RegisterRoutes : list (string * Route) :=
  [("/healthz", HealthCheck); ("/webhooks/binance/order", BinanceOrderWebhook)].

Definition StatusNotFound : Z := 404.

Definition ServeHTTP (s : Server) (path method : string) (body : Result (list (string * json)))
    : service HttpReply :=
  match List.find (fun pr => String.eqb pr.1 path) RegisterRoutes with
  | Some (_, HealthCheck) => handleHealthCheck
  | Some (_, BinanceOrderWebhook) => handleBinanceOrderWebhook s method body
  | None => http_reply StatusNotFound "404 page not found"
  end.
End Webhook.
