(* ===== verification/Service.v ===== *)
(** * The gRPC service

    internal/service/service.go: [PregaoServer] and its handlers.  A handler is a
    [service] program over the interfaces of Effects.v; the response values are the
    messages of pregao.v1. *)

From stdpp Require Import base tactics list strings gmap.
From Stdlib Require Import ZArith.
From S2P Require Import Prelude GoStrings Uuid Broker Vault Decimal Db Clients Cache Effects.
From S2P Require Import Worker.

#[local] Open Scope string_scope.
#[local] Open Scope Z_scope.
#[local] Open Scope go_scope.

(** ** The server *)

Definition Millisecond : Z := 10 ^ 6.

Definition reservationWriteTimeout : Z := 5 * Second.
Definition defaultReservationWait : Z := 30 * Second.
Definition defaultReservationPoll : Z := 100 * Millisecond.

(** The collaborators that are never nil are the interfaces of [Op]; the two the code
    compares with nil are fields. *)
Record PregaoServer := {
  defaultBroker : Z;
  has_livro : bool;
  fillProcessor_ : option (FillEvent -> service (Result unit));
  reservationWait : Z;
  reservationPoll : Z;
}.

Record ServerParams := {
  sp_DefaultBroker : Z;
  sp_LivroClient : bool;
  sp_FillProcessor : option (FillEvent -> service (Result unit));
}.

Definition NewPregaoServer (params : ServerParams) : PregaoServer := {|
  defaultBroker :=
    if sp_DefaultBroker params =? Broker_BROKER_UNSPECIFIED then DefaultBroker
    else sp_DefaultBroker params;
  has_livro := sp_LivroClient params;
  fillProcessor_ := sp_FillProcessor params;
  reservationWait := defaultReservationWait;
  reservationPoll := defaultReservationPoll |}.

(** ** Messages of pregao.v1 *)

Record Quote := {
  q_Symbol : string;
  q_Price : string;
  q_Timestamp : Z;
  q_IsStaleCache : bool;
}.

Record GetQuotesRequest := { gq_Symbols : list string; gq_Provider : string }.

(** [ExecuteTradeRequest_Side] is an open enum. *)
Definition ExecuteTradeRequest_BUY : Z := 0.
Definition ExecuteTradeRequest_SELL : Z := 1.

Record ExecuteTradeRequest := {
  et_TradeIntentId : string;
  et_TenantId : string;
  et_UserId : string;
  et_Provider : string;
  et_Symbol : string;
  et_Side : Z;
  et_Quantity : string;
  et_IdempotencyKey : string;
  et_PortfolioId : string;
  et_LivroHoldId : string;
}.

Record ExecuteTradeResponse := { er_ProviderOrderId : string; er_Status : string }.

#[global] Instance ExecuteTradeResponse_eq_dec : EqDecision ExecuteTradeResponse.
Proof. solve_decision. Defined.

Record SyncBrokerBalancesRequest := {
  sb_TenantId : string;
  sb_UserId : string;
  sb_Provider : string;
}.

Record SyncBrokerBalancesResponse := { sr_InSync : bool; sr_NetFiatAdjustment : string }.

(** [t.Unix()]: whole seconds after 1970 of an instant counted from Go's zero time. *)
Definition time_Unix (t : Time) : Z := t / Second - 62135596800.

Section Service.
Context `{GoUnicode}.

(** ** Shared steps *)

(** The broker enum from the wire string, or the service default. *)
Definition resolve_provider (s : PregaoServer) (wire : string) : string :=
  let b := ParseBroker (ToUpper (TrimSpace wire)) in
  let b := if b =? Broker_BROKER_UNSPECIFIED then defaultBroker s else b in
  ProviderName b.

Definition blank (s : string) : bool := String.eqb (TrimSpace s) "".

(** ** Market data *)

(** The loop that cleans and deduplicates the requested symbols. *)
Fixpoint clean_loop (syms : list string) (symbolSet : gset string)
    (cleanSymbols : list string) : list string :=
  match syms with
  | [] => cleanSymbols
  | sym :: syms' =>
      let sClean := ToUpper (TrimSpace sym) in
      if String.eqb sClean "" then clean_loop syms' symbolSet cleanSymbols
      else if decide (sClean ∈ symbolSet) then clean_loop syms' symbolSet cleanSymbols
      else clean_loop syms' ({[sClean]} ∪ symbolSet) (cleanSymbols ++ [sClean])
  end.

Definition clean_symbols (syms : list string) : list string := clean_loop syms ∅ [].

Definition quote_of_cached (stale : bool) (c : CachedQuote) : Quote := {|
  q_Symbol := cq_Symbol c;
  q_Price := to_String (cq_Price c);
  q_Timestamp := cq_Timestamp c;
  q_IsStaleCache := stale |}.

Definition quote_of_ticker (nowUnix : Z) (t : BookTicker) : Quote := {|
  q_Symbol := bt_Symbol t;
  q_Price := to_String (bt_MidPrice t);
  q_Timestamp := nowUnix;
  q_IsStaleCache := false |}.

(** Later steps overwrite the entries of earlier ones: a left-biased union. *)
Definition GetQuotes (s : PregaoServer) (req : GetQuotesRequest)
    : service (Result (gmap string Quote)) :=
  match gq_Symbols req with
  | [] => Ret (Ok ∅)
  | _ =>
      let provider := resolve_provider s (gq_Provider req) in
      let cleanSymbols := clean_symbols (gq_Symbols req) in
      ' (hits, misses, _) <- perform (CacheGetQuotes provider cleanSymbols) ;;
      let resultQuotes : gmap string Quote := quote_of_cached false <$> hits in
      match misses with
      | [] => Ret (Ok resultQuotes)
      | _ =>
          tickers <- perform (BrokerGetBookTickers misses) ;;
          match tickers with
          | Ok tickers =>
              now <- perform TimeNow ;;
              let nowUnix := time_Unix now in
              _ <- perform (CacheSetQuotes provider (bt_MidPrice <$> tickers) nowUnix) ;;
              Ret (Ok ((quote_of_ticker nowUnix <$> tickers) ∪ resultQuotes))
          | Err _ =>
              staleQuotes <- perform (CacheGetStaleQuotes provider misses) ;;
              match staleQuotes with
              | Ok staleQuotes =>
                  Ret (Ok ((quote_of_cached true <$> staleQuotes) ∪ resultQuotes))
              | Err _ => Ret (Ok resultQuotes)
              end
          end
      end
  end.

Definition ValidateTickers (symbols : list string)
    : service (Result (gmap string bool)) :=
  match symbols with
  | [] => Ret (Ok ∅)
  | _ =>
      validMap <- perform (BrokerValidateSymbols symbols) ;;
      match validMap with
      | Err _ => Ret (Err (ErrStatus Unavailable "failed to validate tickers with broker"))
      | Ok m => Ret (Ok m)
      end
  end.

(** ** Reservations *)

(** [status.FromContextError(ctx.Err()).Err()] *)
Definition FromContextError (e : CtxErr) : GoError :=
  match e with
  | CtxCanceled => ErrStatus Canceled "context canceled"
  | CtxDeadlineExceeded => ErrStatus DeadlineExceeded "context deadline exceeded"
  end.

Definition out_of_fuel : string := "out of fuel".

(** [err] is [ErrOrderNotFound], possibly wrapped. *)
Definition not_found {A} (r : Result A) : bool :=
  match r with Err e => errors_Is e ErrOrderNotFound | Ok _ => false end.

(** The conflicting order, by intent and then by idempotency key. *)
Definition find_existing (order : BrokerOrder) : service (Result BrokerOrder) :=
  existing <- perform (OrdersGetByIntent (bo_TradeIntentID order)) ;;
  if not_found existing && negb (String.eqb (bo_IdempotencyKey order) "")
  then perform (OrdersGetByIdempotencyKey (bo_TenantID order) (bo_IdempotencyKey order))
  else Ret existing.

(** What the [switch] makes of it: [Some] ends the loop. *)
Definition existing_verdict (existing : Result BrokerOrder)
    : option (Result (option BrokerOrder)) :=
  match existing with
  | Err e =>
      if errors_Is e ErrOrderNotFound then None
      else Some (Err (ErrStatus Internal "database error loading existing order"))
  | Ok o =>
      if String.eqb (bo_Status o) StatusPending then None else Some (Ok (Some o))
  end.

(** The [for] loop of [reserveOrder], with the struct the caller shares with it; the
    loop has no bound in the code, so the program carries fuel. *)
Fixpoint reserve_loop (fuel : nat) (s : PregaoServer) (deadline : Time)
    (order : BrokerOrder) : service (BrokerOrder * Result (option BrokerOrder)) :=
  match fuel with
  | O => Panic out_of_fuel
  | S fuel =>
      ' (order, reserved) <- perform (OrdersReserve order) ;;
      match reserved with
      | Err _ =>
          Ret (order, Err (ErrStatus Internal "database error reserving trade execution"))
      | Ok true => Ret (order, Ok None)
      | Ok false =>
          existing <- find_existing order ;;
          match existing_verdict existing with
          | Some verdict => Ret (order, verdict)
          | None =>
              now <- perform TimeNow ;;
              if negb (now <? deadline)
              then Ret (order, Err (ErrStatus Aborted
                     "trade intent is still being executed by another request"))
              else
                sel <- perform (SelectDoneOrAfter (reservationPoll s)) ;;
                match sel with
                | Some e => Ret (order, Err (FromContextError e))
                | None => reserve_loop fuel s deadline order
                end
          end
      end
  end.

Definition reserveOrder (fuel : nat) (s : PregaoServer) (order : BrokerOrder)
    : service (BrokerOrder * Result (option BrokerOrder)) :=
  now <- perform TimeNow ;;
  reserve_loop fuel s (now + reservationWait s) order.

Definition releaseReservation (order : BrokerOrder) : service unit :=
  perform (OrdersRelease (bo_ID order)) ;;; Ret tt.

(** ** Trade execution *)

(** The first of the five required fields that is blank. *)
Definition missing_field (req : ExecuteTradeRequest) : option string :=
  if blank (et_TradeIntentId req) then Some "trade_intent_id is required"
  else if blank (et_TenantId req) then Some "tenant_id is required"
  else if blank (et_UserId req) then Some "user_id is required"
  else if blank (et_Symbol req) then Some "symbol is required"
  else if blank (et_Quantity req) then Some "quantity is required"
  else None.

Definition side_string (req : ExecuteTradeRequest) : string :=
  if et_Side req =? ExecuteTradeRequest_SELL then SideSell else SideBuy.

(** The validation before the reservation: the parsed intent and quantity. *)
Definition validate_trade (req : ExecuteTradeRequest) : Result (UUID * Decimal) :=
  match missing_field req with
  | Some msg => Err (ErrStatus InvalidArgument msg)
  | None =>
      match Parse (et_TradeIntentId req) with
      | Err _ => Err (ErrStatus InvalidArgument "invalid trade_intent_id UUID format")
      | Ok tradeIntentUUID =>
          match NewFromString (et_Quantity req) with
          | Err _ => Err (ErrStatus InvalidArgument "invalid quantity")
          | Ok qty =>
              if LessThanOrEqual qty Zero
              then Err (ErrStatus InvalidArgument "invalid quantity")
              else Ok (tradeIntentUUID, qty)
          end
      end
  end.

(** The struct literal of step 1; the fields it leaves out are zero values. *)
Definition new_order (id intent : UUID) (provider : string) (qty : Decimal)
    (req : ExecuteTradeRequest) : BrokerOrder := {|
  bo_ID := id;
  bo_TradeIntentID := intent;
  bo_TenantID := et_TenantId req;
  bo_UserID := et_UserId req;
  bo_Provider := provider;
  bo_ProviderOrderID := "";
  bo_Symbol := ToUpper (et_Symbol req);
  bo_Side := side_string req;
  bo_TargetQuantity := qty;
  bo_Status := StatusPending;
  bo_FilledQuantity := zero_value;
  bo_AverageFillPrice := zero_value;
  bo_IdempotencyKey := et_IdempotencyKey req;
  bo_PortfolioID := et_PortfolioId req;
  bo_LivroHoldID := et_LivroHoldId req;
  bo_CreatedAt := 0;
  bo_UpdatedAt := 0 |}.

Definition market_order (qty : Decimal) (req : ExecuteTradeRequest) : MarketOrderRequest := {|
  mo_Symbol := ToUpper (et_Symbol req);
  mo_Side := side_string req;
  mo_Quantity := qty;
  mo_ClientOrderID := et_TradeIntentId req |}.

Definition order_status (r : OrderResult) : string :=
  if String.eqb (or_Status r) "" then StatusSubmitted else or_Status r.

(** The quantities the confirmed row starts with: zero when [ProcessFill] will add
    the fill. *)
Definition confirm_amounts (s : PregaoServer) (r : OrderResult) : Decimal * Decimal :=
  match fillProcessor_ s with
  | Some _ => (Zero, Zero)
  | None => (or_ExecutedQuantity r, or_AveragePrice r)
  end.

Definition sync_fill_event (provider : string) (req : ExecuteTradeRequest)
    (r : OrderResult) : FillEvent := {|
  fe_Provider := provider;
  fe_ProviderOrderID := or_ProviderOrderID r;
  fe_Symbol := ToUpper (et_Symbol req);
  fe_Side := side_string req;
  fe_Status := order_status r;
  fe_ExecutedQuantity := or_ExecutedQuantity r;
  fe_FillPrice := or_AveragePrice r |}.

(** Steps 5 and 6, once the broker has accepted the order: nothing in them fails the
    request. *)
Definition record_execution (s : PregaoServer) (provider : string)
    (req : ExecuteTradeRequest) (order : BrokerOrder) (r : OrderResult)
    : service (Result ExecuteTradeResponse) :=
  let orderStatus := order_status r in
  let '(filledQty, avgPrice) := confirm_amounts s r in
  _ <- perform (OrdersConfirm (bo_ID order) (or_ProviderOrderID r) orderStatus
                  filledQty avgPrice) ;;
  (match fillProcessor_ s with
   | Some processFill =>
       if IsPositive (or_ExecutedQuantity r)
       then processFill (sync_fill_event provider req r) ;;; Ret tt
       else Ret tt
   | None => Ret tt
   end) ;;;
  Ret (Ok {| er_ProviderOrderId := or_ProviderOrderID r; er_Status := orderStatus |}).

Definition cred_error {A} (notFound otherwise : string) (e : GoError) : Result A :=
  if errors_Is e ErrCredentialsNotFound
  then Err (ErrStatus FailedPrecondition notFound)
  else Err (ErrStatus Internal otherwise).

(** The body under the two deferred calls; the local variable is [dispatched]. *)
Definition execute_reserved (s : PregaoServer) (provider : string) (qty : Decimal)
    (req : ExecuteTradeRequest) (order : BrokerOrder)
    : prog (local_res Res bool) (Result ExecuteTradeResponse) :=
  cred <- lift (perform (CredentialsGet (et_TenantId req) provider)) ;;
  match cred with
  | Err e => Ret (cred_error "broker credentials not found"
                    "database error loading broker credentials" e)
  | Ok cred =>
      creds <- lift (perform (VaultDecryptCredentials (bc_APIKeyCiphertext cred)
                                (bc_APISecretCiphertext cred))) ;;
      match creds with
      | Err _ => Ret (Err (ErrStatus Internal "cryptographic transit decryption failed"))
      | Ok plaintextCreds =>
          defer (lift (perform (CredsZero plaintextCreds)))
            (placed <- lift (perform (BrokerPlaceMarketOrder plaintextCreds
                                        (market_order qty req))) ;;
             match placed with
             | Err _ => Ret (Err (ErrStatus Unavailable "broker rejected order execution"))
             | Ok orderResult =>
                 assign true ;;;
                 lift (record_execution s provider req order orderResult)
             end)
      end
  end.

Definition ExecuteTrade (fuel : nat) (s : PregaoServer) (req : ExecuteTradeRequest)
    : service (Result ExecuteTradeResponse) :=
  match validate_trade req with
  | Err e => Ret (Err e)
  | Ok (tradeIntentUUID, qty) =>
      let provider := resolve_provider s (et_Provider req) in
      id <- perform UuidNew ;;
      ' (order, existing) <- reserveOrder fuel s
           (new_order id tradeIntentUUID provider qty req) ;;
      match existing with
      | Err e => Ret (Err e)
      | Ok (Some existingOrder) =>
          Ret (Ok {| er_ProviderOrderId := bo_ProviderOrderID existingOrder;
                     er_Status := bo_Status existingOrder |})
      | Ok None =>
          with_local (fun dispatched =>
              if dispatched : bool then Ret tt else releaseReservation order)
            false (execute_reserved s provider qty req order)
      end
  end.

(** ** Reconciliation *)

(** The first of the fiat assets with a positive balance. *)
Fixpoint first_positive (assets : list string) (balances : gmap string Decimal) : Decimal :=
  match assets with
  | [] => Zero
  | asset :: assets' =>
      match balances !! asset with
      | Some bal => if GreaterThan bal Zero then bal else first_positive assets' balances
      | None => first_positive assets' balances
      end
  end.

Definition fiat_assets : list string := ["USDT"; "USD"; "BUSD"; "USDC"].

(** The ledger side; any failure counts as a zero balance. *)
Definition ledger_balance (s : PregaoServer) (req : SyncBrokerBalancesRequest)
    : service Decimal :=
  if has_livro s then
    accountID <-
      (if blank (sb_UserId req) then
         r <- perform (LivroGetOrCreateBrokerAccount (sb_TenantId req)) ;;
         match r with Ok clearingAccID => Ret clearingAccID | Err _ => Ret "" end
       else Ret (TrimSpace (sb_UserId req))) ;;
    if String.eqb accountID "" then Ret Zero
    else
      lBal <- perform (LivroGetBalance accountID) ;;
      match lBal with Ok b => Ret b | Err _ => Ret Zero end
  else Ret Zero.

Definition SyncBrokerBalances (s : PregaoServer) (req : SyncBrokerBalancesRequest)
    : service (Result SyncBrokerBalancesResponse) :=
  if blank (sb_TenantId req) then Ret (Err (ErrStatus InvalidArgument "tenant_id is required"))
  else
    let provider := resolve_provider s (sb_Provider req) in
    cred <- perform (CredentialsGet (sb_TenantId req) provider) ;;
    match cred with
    | Err e => Ret (cred_error "broker credentials not configured" "database error" e)
    | Ok cred =>
        creds <- perform (VaultDecryptCredentials (bc_APIKeyCiphertext cred)
                            (bc_APISecretCiphertext cred)) ;;
        match creds with
        | Err _ => Ret (Err (ErrStatus Internal "failed to decrypt broker credentials"))
        | Ok plaintextCreds =>
            defer (perform (CredsZero plaintextCreds))
              (balances <- perform (BrokerGetAccountBalances plaintextCreds) ;;
               match balances with
               | Err _ => Ret (Err (ErrStatus Unavailable "failed to fetch broker balances"))
               | Ok balances =>
                   let brokerFiatBal := first_positive fiat_assets balances in
                   ledgerBal <- ledger_balance s req ;;
                   let netAdjustment := Sub brokerFiatBal ledgerBal in
                   Ret (Ok {| sr_InSync := IsZero netAdjustment;
                              sr_NetFiatAdjustment := StringFixed netAdjustment 4 |})
               end)
        end
    end.
End Service.
