(* ===== verification/TradeProtocol.v ===== *)
(** * The protocol of a trade

    What [ExecuteTrade] does to its collaborators, as an automaton over its calls: an
    order is sent at most once and only under a reservation, a reservation is released
    exactly when no order was accepted, and the ledger moves only for an accepted
    order.  [ExecuteTrade] is proved against it for every answer of the collaborators;
    the fill processor it is given is known by its promise [FillProcessorOk] alone. *)

From stdpp Require Import base tactics list strings gmap.
From Stdlib Require Import ZArith QArith Lia Lqa.
From S2P Require Import Prelude Exec GoStrings Uuid Broker Vault Decimal DecimalSpec Db Clients.
From S2P Require Import Cache Effects Worker Service.

#[local] Open Scope string_scope.
#[local] Open Scope Z_scope.
#[local] Open Scope go_scope.

(** ** The promise of a fill processor *)

(** It looks the order up, settles with the downstream services and records the fill;
    it makes no other call. *)
Definition fill_op (op : Op) : bool :=
  match op with
  | OrdersGetByProviderOrderID _ _ | OrdersUpdateFill _ _ _ _ _
  | LivroCaptureHold _ | LivroCredit _ | LivroGetOrCreateBrokerAccount _
  | AtivosSyncBrokerExecution _ => true
  | _ => false
  end.

Class FillProcessorOk (f : FillEvent -> service (Result unit)) : Prop :=
  fill_calls : forall e, calls_only fill_op (f e).

(** A server whose processor, if it has one, keeps the promise. *)
Class ServerOk (s : PregaoServer) : Prop :=
  server_fill : forall f, fillProcessor_ s = Some f -> FillProcessorOk f.

#[export] Instance ProcessFill_promise `{GoUnicode} p : FillProcessorOk (ProcessFill p).
Proof. intros e. unfold ProcessFill, settle, perform, call. solve_calls_only. Qed.

#[export] Instance NewPregaoServer_ok params :
  (forall f, sp_FillProcessor params = Some f -> FillProcessorOk f) ->
  ServerOk (NewPregaoServer params).
Proof. done. Qed.

(** ** The automaton

    [Ended] and [Failing] carry the gRPC code the request will fail with: without a
    reservation, or with one that is still to be given back.  A call that panics leads to
    [Dead], or to [Dying] when there is a reservation to give back; once the order is
    accepted it changes nothing. *)

Inductive TradePhase :=
  | Idle
  | Ended (c : Code)
  | Replaying (existing : BrokerOrder)
  | Held (o : BrokerOrder)
  | Failing (o : BrokerOrder) (c : Code)
  | Accepted (o : BrokerOrder) (r : OrderResult)
  | Recorded (o : BrokerOrder) (r : OrderResult)
  | Released (o : BrokerOrder) (c : Code)
  | Dying (o : BrokerOrder)
  | Dead.

Section Automaton.
Context `{GoUnicode}.

(** The required fields are not blank. *)
Definition required_fields (req : ExecuteTradeRequest) : bool :=
  forallb (fun f => negb (String.eqb (TrimSpace f) ""))
    [et_TradeIntentId req; et_TenantId req; et_UserId req; et_Symbol req; et_Quantity req].

(** A valid request, with its intent and its quantity. *)
Definition valid_trade (req : ExecuteTradeRequest) : option (UUID * Decimal) :=
  match Parse (et_TradeIntentId req), NewFromString (et_Quantity req) with
  | Ok intent, Ok qty =>
      if required_fields req && (0 <? d_value qty) then Some (intent, qty) else None
  | _, _ => None
  end.

(** The order carries the data of a valid request, and nothing has happened to it. *)
Definition order_for (req : ExecuteTradeRequest) (o : BrokerOrder) : bool :=
  match valid_trade req with
  | None => false
  | Some (intent, qty) =>
      bool_decide (bo_TradeIntentID o = intent) && bool_decide (bo_TargetQuantity o = qty) &&
      String.eqb (bo_TenantID o) (et_TenantId req) &&
      String.eqb (bo_UserID o) (et_UserId req) &&
      String.eqb (bo_Provider o) "BINANCE" && String.eqb (bo_ProviderOrderID o) "" &&
      String.eqb (bo_Symbol o) (ToUpper (et_Symbol req)) &&
      String.eqb (bo_Side o) (if et_Side req =? 1 then "SELL" else "BUY") &&
      String.eqb (bo_Status o) "PENDING" &&
      bool_decide (bo_FilledQuantity o = zero_value) &&
      bool_decide (bo_AverageFillPrice o = zero_value) &&
      String.eqb (bo_IdempotencyKey o) (et_IdempotencyKey req) &&
      String.eqb (bo_PortfolioID o) (et_PortfolioId req) &&
      String.eqb (bo_LivroHoldID o) (et_LivroHoldId req)
  end.

(** The order sent to the broker is the one that was reserved. *)
Definition order_matches (req : ExecuteTradeRequest) (mo : MarketOrderRequest)
    (o : BrokerOrder) : bool :=
  String.eqb (mo_Symbol mo) (bo_Symbol o) && String.eqb (mo_Side mo) (bo_Side o) &&
  bool_decide (mo_Quantity mo = bo_TargetQuantity o) &&
  String.eqb (mo_ClientOrderID mo) (et_TradeIntentId req).

(** The status an acknowledged order is recorded and answered with. *)
Definition answered_status (r : OrderResult) : string :=
  if String.eqb (or_Status r) "" then "SUBMITTED" else or_Status r.

(** The quantity and price it is recorded with: nothing when a fill processor will add
    the fill, so that no fill counts twice. *)
Definition answered_amounts (s : PregaoServer) (r : OrderResult) : Decimal * Decimal :=
  if fillProcessor_ s then (Zero, Zero) else (or_ExecutedQuantity r, or_AveragePrice r).

Definition trade_permits (s : PregaoServer) (req : ExecuteTradeRequest) (op : Op)
    (ph : TradePhase) : bool :=
  match op, ph with
  | (TimeNow | UuidNew), Idle => true
  | SelectDoneOrAfter poll, Idle => poll =? reservationPoll s
  | OrdersReserve o, Idle => order_for req o
  | OrdersGetByIntent i, Idle => bool_decide (fst <$> valid_trade req = Some i)
  | OrdersGetByIdempotencyKey tenant key, Idle =>
      String.eqb tenant (et_TenantId req) && String.eqb key (et_IdempotencyKey req) &&
      negb (String.eqb key "")
  | CredentialsGet tenant provider, Held o =>
      String.eqb tenant (bo_TenantID o) && String.eqb provider (bo_Provider o)
  | VaultDecryptCredentials _ _, Held _ => true
  | BrokerPlaceMarketOrder _ mo, Held o => order_matches req mo o
  | CredsZero _, (Failing _ _ | Recorded _ _ | Dying _) => true
  | OrdersRelease id, (Failing o _ | Dying o) => bool_decide (id = bo_ID o)
  | OrdersConfirm id pid status filled price, Accepted o r =>
      bool_decide (id = bo_ID o) && String.eqb pid (or_ProviderOrderID r) &&
      String.eqb status (answered_status r) &&
      bool_decide ((filled, price) = answered_amounts s r)
  | op, Recorded _ _ => fill_op op
  | _, _ => false
  end.

(** The other side: [ReserveOrder] gives the caller's struct back with the fields it
    fills in, and nothing else changed. *)
Definition trade_answers (op : Op) : Res op -> Prop :=
  match op with
  | OrdersReserve o => fun r => exists fresh now, r.1 = reserve_prepare fresh now o
  | _ => fun _ => True
  end.

(** A lookup that finds a settled order ends the search. *)
Definition after_lookup (r : Result BrokerOrder) : TradePhase :=
  match r with
  | Ok e => if String.eqb (bo_Status e) StatusPending then Idle else Replaying e
  | Err e => if errors_Is e ErrOrderNotFound then Idle else Ended Internal
  end.

(** A failure under a reservation decides how the request ends. *)
Definition after_failure {A} (c : GoError -> Code) (r : Result A) (ph : TradePhase) : TradePhase :=
  match ph, r with
  | Held o, Err e => Failing o (c e)
  | _, _ => ph
  end.

Definition trade_next (op : Op) : TradePhase -> Res op -> TradePhase :=
  match op with
  | SelectDoneOrAfter _ => fun ph r =>
      match r with
      | Some CtxCanceled => Ended Canceled
      | Some CtxDeadlineExceeded => Ended DeadlineExceeded
      | None => ph
      end
  | OrdersReserve _ => fun ph r =>
      match r.2 with Ok true => Held r.1 | Ok false => ph | Err _ => Ended Internal end
  | OrdersGetByIntent _ | OrdersGetByIdempotencyKey _ _ => fun _ r => after_lookup r
  | CredentialsGet _ _ => fun ph r =>
      after_failure (fun e =>
        if errors_Is e ErrCredentialsNotFound then FailedPrecondition else Internal) r ph
  | VaultDecryptCredentials _ _ => fun ph r => after_failure (fun _ => Internal) r ph
  | BrokerPlaceMarketOrder _ _ => fun ph r =>
      match ph, r with
      | Held o, Ok res => Accepted o res
      | _, _ => after_failure (fun _ => Unavailable) r ph
      end
  | OrdersConfirm _ _ _ _ _ => fun ph _ =>
      match ph with Accepted o res => Recorded o res | _ => ph end
  | OrdersRelease _ => fun ph _ =>
      match ph with Failing o c => Released o c | Dying _ => Dead | _ => ph end
  | _ => fun ph _ => ph
  end.

(** The phase after a call that panicked: a reservation is still to be given back, unless
    giving it back was the call. *)
Definition trade_unwinding (op : Op) (ph : TradePhase) : TradePhase :=
  match ph with
  | Idle => Dead
  | Held o => Dying o
  | Failing o _ | Dying o => match op with OrdersRelease _ => Dead | _ => Dying o end
  | Accepted o r => Recorded o r
  | Ended _ | Replaying _ | Recorded _ _ | Released _ _ | Dead => ph
  end.

Definition trade_protocol (s : PregaoServer) (req : ExecuteTradeRequest) : protocol Res := {|
  phase := TradePhase;
  permits := trade_permits s req;
  answers := trade_answers;
  next := trade_next;
  unwinding := trade_unwinding;
|}.

Definition fails_with (c : Code) (out : option (Result ExecuteTradeResponse)) : Prop :=
  exists msg, out = Some (Err (ErrStatus c msg)).

(** How a run may end.  Idle: the request was invalid, or the reservation was still held
    by another request at the deadline; only the fuel of [reserveOrder] can be missing.
    A panic before the order was accepted ends in [Dead]. *)
Definition trade_ends (req : ExecuteTradeRequest)
    (out : option (Result ExecuteTradeResponse)) (ph : TradePhase) : Prop :=
  match ph with
  | Idle => out = None \/ fails_with (if valid_trade req then Aborted else InvalidArgument) out
  | Ended c => fails_with c out
  | Replaying e =>
      bo_Status e <> StatusPending /\
      out = Some (Ok {| er_ProviderOrderId := bo_ProviderOrderID e; er_Status := bo_Status e |})
  | Released _ c => fails_with c out
  | Recorded _ r =>
      out = None \/
      out = Some (Ok {| er_ProviderOrderId := or_ProviderOrderID r;
                        er_Status := answered_status r |})
  | Dead => out = None
  | Held _ | Failing _ _ | Accepted _ _ | Dying _ => False
  end.

(** ** Validation *)

Lemma missing_field_required req : missing_field req = None <-> required_fields req = true.
Proof.
  unfold missing_field, required_fields, blank, forallb.
  repeat case_match; simpl; split; congruence.
Qed.

Lemma positive_quantity qty : LessThanOrEqual qty Zero = negb (0 <? d_value qty).
Proof.
  apply eq_true_iff_eq. rewrite LessThanOrEqual_spec, Zero_dval, negb_true_iff, Z.ltb_ge.
  unfold dval. pose proof (p10_pos (d_exp qty)). split; intros Hd.
  - destruct (Z.le_gt_cases (d_value qty) 0) as [|Hv]; [done|].
    rewrite Zlt_Qlt in Hv. change (inject_Z 0) with 0%Q in Hv. exfalso. nra.
  - rewrite Zle_Qle in Hd. change (inject_Z 0) with 0%Q in Hd. nra.
Qed.

Lemma validate_trade_spec req :
  match validate_trade req with
  | Ok iq => valid_trade req = Some iq
  | Err e => valid_trade req = None /\ exists msg, e = ErrStatus InvalidArgument msg
  end.
Proof.
  unfold validate_trade, valid_trade. pose proof (missing_field_required req) as Hm.
  destruct (missing_field req) as [msg|], (required_fields req);
    try (by destruct Hm as [Hm1 Hm2]; (discriminate Hm1 || discriminate Hm2); auto).
  - split; [by repeat case_match|eauto].
  - destruct (Parse (et_TradeIntentId req)); [|eauto].
    destruct (NewFromString (et_Quantity req)) as [qty|]; [|eauto].
    rewrite positive_quantity. destruct (0 <? d_value qty); simpl; eauto.
Qed.

(** ** The order of a request *)

Lemma order_for_prepare req fresh now o :
  order_for req o = true -> order_for req (reserve_prepare fresh now o) = true.
Proof.
  unfold order_for. destruct (valid_trade req) as [[intent qty]|]; [|done]. simpl.
  rewrite !andb_true_iff. naive_solver.
Qed.

Lemma order_for_new req id intent qty provider :
  valid_trade req = Some (intent, qty) -> provider = "BINANCE" ->
  order_for req (new_order id intent provider qty req) = true.
Proof.
  unfold order_for. intros -> ->. simpl. unfold side_string, ExecuteTradeRequest_SELL.
  rewrite !String.eqb_refl, !bool_decide_eq_true_2 by done. by destruct (et_Side req =? 1).
Qed.

(** What the calls made for an order take from it. *)
Record trade_data (req : ExecuteTradeRequest) (o : BrokerOrder) (intent : UUID)
    (qty : Decimal) : Prop := {
  td_valid : valid_trade req = Some (intent, qty);
  td_intent : bo_TradeIntentID o = intent;
  td_target : bo_TargetQuantity o = qty;
  td_tenant : bo_TenantID o = et_TenantId req;
  td_provider : bo_Provider o = "BINANCE";
  td_symbol : bo_Symbol o = ToUpper (et_Symbol req);
  td_side : bo_Side o = if et_Side req =? 1 then "SELL" else "BUY";
  td_key : bo_IdempotencyKey o = et_IdempotencyKey req;
  td_user : bo_UserID o = et_UserId req;
  td_portfolio : bo_PortfolioID o = et_PortfolioId req;
  td_hold : bo_LivroHoldID o = et_LivroHoldId req;
  td_nothing : bo_FilledQuantity o = zero_value /\ bo_AverageFillPrice o = zero_value;
}.

Lemma order_for_data req o :
  order_for req o = true -> exists intent qty, trade_data req o intent qty.
Proof.
  unfold order_for. destruct (valid_trade req) as [[intent qty]|] eqn:E; [|done].
  rewrite !andb_true_iff, !bool_decide_eq_true, !String.eqb_eq. intros Ho.
  exists intent, qty. by split; destruct_and?.
Qed.

Lemma market_order_matches req o intent qty :
  trade_data req o intent qty -> order_matches req (market_order qty req) o = true.
Proof.
  intros []. unfold order_matches, market_order, side_string, ExecuteTradeRequest_SELL. simpl.
  rewrite td_symbol0, td_side0, td_target0. rewrite !String.eqb_refl.
  rewrite bool_decide_eq_true_2 by done. by destruct (et_Side req =? 1).
Qed.

Lemma order_status_answered r : order_status r = answered_status r.
Proof. done. Qed.

Lemma confirm_amounts_answered s r : confirm_amounts s r = answered_amounts s r.
Proof. unfold confirm_amounts, answered_amounts. by destruct (fillProcessor_ s). Qed.
End Automaton.

#[export] Hint Resolve order_for_prepare : trade.

(** ** [ExecuteTrade] keeps to it *)

Abbreviation keeps_protocol s req :=
  (pwp (protocol_env (trade_protocol s req)) (protocol_panics (trade_protocol s req))
    (protocol_allowed (trade_protocol s req))).

Lemma keeps_perform `{GoUnicode} s req op Q ph :
  trade_permits s req op ph = true -> Q None (trade_unwinding op ph) ->
  (forall r, trade_answers op r -> Q (Some r) (trade_next op ph r)) ->
  keeps_protocol s req (perform op) Q ph.
Proof.
  intros Hp Hn Hq. split; [split; [done|]|]; [by intros ph' ->|].
  by intros r ph' [Hr ->]; apply Hq.
Qed.

(** The continuation of one call. *)
Lemma keeps_call `{GoUnicode} {A} s req op (k : Res op -> service A) Q ph :
  trade_permits s req op ph = true -> Q None (trade_unwinding op ph) ->
  (forall r, trade_answers op r -> keeps_protocol s req (k r) Q (trade_next op ph r)) ->
  keeps_protocol s req (bind (perform op) k) Q ph.
Proof. intros Hp Hn Hq. apply pwp_bind, keeps_perform; done. Qed.

(** A step of the proof: the next call is permitted, and so is its panic. *)
Ltac call_step :=
  apply keeps_call; [try reflexivity | try (simpl; auto; done) |
    let r := fresh "r" in let Hr := fresh "Hr" in intros r Hr; simpl trade_next; simpl in Hr].

Section Protocol.
Context `{GoUnicode}.
Context (s : PregaoServer) (req : ExecuteTradeRequest).

Definition reserved_ends (out : option (BrokerOrder * Result (option BrokerOrder)))
    (ph : TradePhase) : Prop :=
  match out with
  | Some (o, Ok None) => ph = Held o /\ order_for req o = true
  | Some (_, Ok (Some e)) => ph = Replaying e /\ bo_Status e <> StatusPending
  | Some (_, Err e) => exists c msg, e = ErrStatus c msg /\
      (ph = Ended c \/ (ph = Idle /\ c = Aborted))
  | None => ph = Idle \/ ph = Dead
  end.

(** A lookup ends with its verdict, or a panic. *)
Definition lookup_ends (out : option (Result BrokerOrder)) (ph : TradePhase) : Prop :=
  match out with Some r => ph = after_lookup r | None => ph = Dead end.

Lemma find_existing_protocol order :
  order_for req order = true ->
  keeps_protocol s req (find_existing order) lookup_ends Idle.
Proof.
  intros (intent & qty & Hd)%order_for_data. unfold find_existing. apply keeps_call; [|done|].
  { simpl. apply bool_decide_eq_true. by rewrite (td_valid _ _ _ _ Hd), (td_intent _ _ _ _ Hd). }
  intros r _. simpl trade_next.
  destruct (not_found r && negb (String.eqb (bo_IdempotencyKey order) "")) eqn:E; [|done].
  apply andb_true_iff in E as [Hnf Hkey]. destruct r as [e|e]; [done|].
  simpl in Hnf. simpl after_lookup. rewrite Hnf. apply keeps_perform; [|done..].
  simpl. by rewrite Hkey, (td_tenant _ _ _ _ Hd), (td_key _ _ _ _ Hd), !String.eqb_refl.
Qed.

Lemma verdict_protocol order r verdict :
  existing_verdict r = Some verdict -> reserved_ends (Some (order, verdict)) (after_lookup r).
Proof.
  unfold existing_verdict, after_lookup. destruct r as [e|e].
  - destruct (String.eqb_spec (bo_Status e) StatusPending); [done|]. by intros [= <-].
  - destruct (errors_Is e ErrOrderNotFound); [done|]. intros [= <-]. simpl. eauto.
Qed.

Lemma no_verdict_idle r : existing_verdict r = None -> after_lookup r = Idle.
Proof. unfold existing_verdict, after_lookup. by repeat case_match. Qed.

Lemma reserve_loop_protocol fuel deadline order :
  order_for req order = true ->
  keeps_protocol s req (reserve_loop fuel s deadline order) reserved_ends Idle.
Proof.
  revert order. induction fuel as [|fuel IH]; intros order Hfor; [by left|].
  cbn [reserve_loop]. apply keeps_call; [done|by right|]. intros r Hr. simpl trade_next.
  destruct r as [order' reserved]. destruct Hr as (fresh & now & Hr). simpl in Hr.
  assert (order_for req order' = true) as Hfor' by (subst; auto with trade).
  destruct reserved as [[]|e]; [done| |simpl; eauto].
  apply pwp_bind. eapply pwp_mono; [by apply find_existing_protocol|].
  intros [r|] ph ->; [|by right].
  destruct (existing_verdict r) as [verdict|] eqn:Ev; [by apply verdict_protocol|].
  rewrite (no_verdict_idle r Ev). call_step. case_match; [simpl; eauto 6|].
  apply keeps_call; [apply Z.eqb_refl|by right|]. intros [[]|] _; simpl; [eauto..|].
  by apply IH.
Qed.

Lemma reserveOrder_protocol fuel order :
  order_for req order = true ->
  keeps_protocol s req (reserveOrder fuel s order) reserved_ends Idle.
Proof. intros Hfor. unfold reserveOrder. call_step. by apply reserve_loop_protocol. Qed.

(** The fill processor works in the last phase. *)
Lemma fill_protocol f `{!FillProcessorOk f} e o r :
  keeps_protocol s req (f e) (fun _ ph => ph = Recorded o r) (Recorded o r).
Proof.
  eapply pwp_calls_only with (ok := fill_op); [| | |apply fill_calls|done].
  - intros op ? Hop ->. by destruct op.
  - intros op ? a ? Hop -> [_ ->]. by destruct op.
  - by intros op ? ? Hop -> ->.
Qed.

Lemma record_execution_protocol `{!ServerOk s} provider o r :
  keeps_protocol s req (record_execution s provider req o r)
    (fun out ph => ph = Recorded o r /\ trade_ends req out ph) (Accepted o r).
Proof.
  unfold record_execution. destruct (confirm_amounts s r) as [filled price] eqn:Ea.
  rewrite confirm_amounts_answered in Ea. apply keeps_call; [|simpl; auto|].
  { simpl. rewrite order_status_answered, !String.eqb_refl. by rewrite !bool_decide_eq_true_2. }
  intros confirmed _. simpl trade_next. apply pwp_bind.
  destruct (fillProcessor_ s) as [f|] eqn:Ef; [|simpl; auto].
  destruct (IsPositive (or_ExecutedQuantity r)); [|simpl; auto].
  pose proof (server_fill f Ef). apply pwp_bind.
  eapply pwp_mono; [by apply (fill_protocol f)|]. intros [?|] ph ->; simpl; auto.
Qed.

(** ** The body under the deferred calls *)

Abbreviation keeps_local :=
  (pwp (local_env (protocol_env (trade_protocol s req)) (S := bool))
      (local_panics (protocol_panics (trade_protocol s req)))
      (local_allowed (protocol_allowed (trade_protocol s req)))).

Lemma keeps_lift_call {A} op (k : Res op -> prog (local_res Res bool) A) Q d ph :
  trade_permits s req op ph = true -> Q None (d, trade_unwinding op ph) ->
  (forall r, trade_answers op r -> keeps_local (k r) Q (d, trade_next op ph r)) ->
  keeps_local (bind (lift (perform op)) k) Q (d, ph).
Proof.
  intros Hp Hn Hq. apply pwp_bind, pwp_lift, keeps_perform; [done..|]. intros r Hr. by apply Hq.
Qed.

(** How the body ends, with the value of [dispatched]. *)
Definition body_ends (o : BrokerOrder) (out : option (Result ExecuteTradeResponse))
    (d : bool) (ph : TradePhase) : Prop :=
  match ph with
  | Failing o' c => d = false /\ o' = o /\ fails_with c out
  | Dying o' => d = false /\ o' = o /\ out = None
  | Recorded o' r => d = true /\ trade_ends req out ph
  | _ => False
  end.

Lemma fails_with_intro c msg : fails_with c (Some (Err (ErrStatus c msg))).
Proof. by exists msg. Qed.
#[local] Hint Resolve fails_with_intro : core.

Lemma execute_reserved_protocol `{!ServerOk s} provider o intent qty :
  trade_data req o intent qty -> bo_Provider o = provider ->
  keeps_local (execute_reserved s provider qty req o)
    (fun out dph => body_ends o out dph.1 dph.2) (false, Held o).
Proof.
  intros Hd Hpr. unfold execute_reserved. apply keeps_lift_call; [|done|].
  { simpl. by rewrite (td_tenant _ _ _ _ Hd), Hpr, !String.eqb_refl. }
  intros [cred|e] _; simpl trade_next; [|simpl; unfold cred_error; case_match; auto].
  apply keeps_lift_call; [done..|]. intros [creds|e] _; simpl trade_next; [|simpl; auto].
  apply pwp_defer. apply keeps_lift_call; [by eapply market_order_matches|..].
  { by apply pwp_lift, keeps_perform. }
  intros [r|e] _; simpl trade_next.
  - split; [done|]. intros u dph ->. apply pwp_lift.
    eapply pwp_mono; [by apply record_execution_protocol|].
    intros out ph [-> Hends]. apply pwp_lift, keeps_perform; simpl; auto.
  - apply pwp_lift, keeps_perform; simpl; auto.
Qed.

(** The deferred release is permitted while the order has not been accepted. *)
Lemma release_protocol {A} (Q : option A -> TradePhase -> Prop) out o ph :
  trade_permits s req (OrdersRelease (bo_ID o)) ph = true ->
  Q None Dead -> trade_unwinding (OrdersRelease (bo_ID o)) ph = Dead ->
  (forall r, Q out (trade_next (OrdersRelease (bo_ID o)) ph r)) ->
  pfinally (protocol_env (trade_protocol s req)) (protocol_panics (trade_protocol s req))
    (protocol_allowed (trade_protocol s req)) (releaseReservation o) Q out ph.
Proof.
  intros Hp HQ Hu Hr. unfold pfinally, releaseReservation.
  apply keeps_call; [done|by rewrite Hu|]. intros r _. apply Hr.
Qed.

Lemma ExecuteTrade_keeps fuel `{!ServerOk s} :
  keeps_protocol s req (ExecuteTrade fuel s req) (trade_ends req) Idle.
Proof.
  unfold ExecuteTrade. pose proof (validate_trade_spec req) as Ev.
  destruct (validate_trade req) as [[intent qty]|e].
  2: { destruct Ev as [Ev [msg ->]]. simpl. rewrite Ev. auto. }
  assert (resolve_provider s (et_Provider req) = "BINANCE") as Hpr.
  { unfold resolve_provider, ProviderName. by case_match. }
  call_step. apply pwp_bind. eapply pwp_mono; [by apply reserveOrder_protocol, order_for_new|].
  intros [[o [[e|]|e]]|] ph; simpl reserved_ends.
  - intros [-> He]. done.
  - intros [-> (i' & q' & Hd)%order_for_data].
    assert (q' = qty) as -> by (pose proof (td_valid _ _ _ _ Hd); congruence).
    apply pwp_with_local.
    eapply pwp_mono; [eapply execute_reserved_protocol; [exact Hd|]|].
    { by rewrite Hpr, (td_provider _ _ _ _ Hd). }
    intros out [d [| | | |o' c|?|o' r'|?|o'|]]; simpl; try done.
    + intros (-> & -> & Hf). apply release_protocol; [|done..]. by apply bool_decide_eq_true_2.
    + intros [-> Hends]. done.
    + intros (-> & -> & ->). apply release_protocol; [|done..]. by apply bool_decide_eq_true_2.
  - intros (c & msg & -> & [-> |[-> ->]]); simpl; [auto|]. rewrite Ev. auto.
  - intros [-> | ->]; simpl; auto.
Qed.
End Protocol.
