(* ===== verification/CredsSafety.v ===== *)
(** * No plaintext credential survives a request

    [ExecuteTrade] and [SyncBrokerBalances] run in an environment whose world is the
    heap of Vault.v: [DecryptCredentials] hands out buffers behind a fresh pointer,
    [CredsZero] is [PlaintextCredentials.Zero], and other calls may allocate and may wipe
    credentials themselves (the broker client does), but write nothing else to buffers
    they do not own.  Whatever the collaborators answer, and whichever of their calls
    panics, every buffer that was handed out is wiped when the handler is left, by a return
    or by a panic. *)

From stdpp Require Import base tactics list strings gmap.
From Stdlib Require Import ZArith Lia.
From S2P Require Import Prelude Exec GoStrings Uuid Broker Vault Decimal Db Clients Cache.
From S2P Require Import Effects Worker Service TradeProtocol.

#[local] Open Scope Z_scope.
#[local] Open Scope go_scope.

(** The heap, and the buffers [DecryptCredentials] has handed out so far. *)
Record CredWorld := { cw_heap : Heap; cw_handed : list BufPtr }.

Definition slices (c : PlaintextCredentials) : list BufPtr :=
  option_list (APIKey c) ++ option_list (APISecret c).

(** Allocation and wiping: a byte array is unchanged or zeroed, a credential struct is
    unchanged or emptied with both its arrays zeroed. *)
Record tame (h h' : Heap) : Prop := {
  tame_buffers : forall b bytes, buffers h !! b = Some bytes ->
    exists bytes', buffers h' !! b = Some bytes' /\ (bytes' = bytes \/ wiped bytes');
  tame_structs : forall p c, structs h !! p = Some c ->
    structs h' !! p = Some c \/
    (structs h' !! p = Some {| APIKey := None; APISecret := None |} /\
     forall b bytes, b ∈ slices c -> buffers h' !! b = Some bytes -> wiped bytes);
}.

Lemma elem_of_slices c b : b ∈ slices c <-> APIKey c = Some b \/ APISecret c = Some b.
Proof.
  unfold slices. destruct c as [[k|] [s|]]; simpl;
    set_solver.
Qed.

Definition cred_env (op : Op) : CredWorld -> Res op -> CredWorld -> Prop :=
  match op return CredWorld -> Res op -> CredWorld -> Prop with
  | CredsZero p => fun w _ w' =>
      w' = {| cw_heap := Vault.Zero (Some p) (cw_heap w); cw_handed := cw_handed w |}
  | VaultDecryptCredentials _ _ => fun w (r : Result CredPtr) w' =>
      match r with
      | Ok p => exists c, tame (cw_heap w) (cw_heap w') /\
          structs (cw_heap w) !! p = None /\ structs (cw_heap w') !! p = Some c /\
          Forall (fun b => is_Some (buffers (cw_heap w') !! b)) (slices c) /\
          cw_handed w' = slices c ++ cw_handed w
      | Err _ => tame (cw_heap w) (cw_heap w') /\ cw_handed w' = cw_handed w
      end
  | _ => fun w _ w' => tame (cw_heap w) (cw_heap w') /\ cw_handed w' = cw_handed w
  end.

(** A call that panics may allocate and wipe; [Zero] itself does not panic. *)
Definition cred_panics (op : Op) (w w' : CredWorld) : Prop :=
  match op with
  | CredsZero _ => False
  | _ => tame (cw_heap w) (cw_heap w') /\ cw_handed w' = cw_handed w
  end.

Definition buffer_wiped (h : Heap) (b : BufPtr) : Prop :=
  exists bytes, buffers h !! b = Some bytes /\ wiped bytes.

(** Every buffer handed out is wiped. *)
Definition all_wiped (w : CredWorld) : Prop := Forall (buffer_wiped (cw_heap w)) (cw_handed w).

(** ... but for those of one live pointer. *)
Definition wiped_but (p : CredPtr) (w : CredWorld) : Prop :=
  exists c, structs (cw_heap w) !! p = Some c /\
    Forall (fun b => is_Some (buffers (cw_heap w) !! b) /\
      (b ∈ slices c \/ buffer_wiped (cw_heap w) b)) (cw_handed w).

(** ** Steps of the environment *)

Lemma buffer_wiped_tame h h' b : tame h h' -> buffer_wiped h b -> buffer_wiped h' b.
Proof.
  intros [Hb _] (bytes & Hl & Hw). destruct (Hb b bytes Hl) as (bytes' & Hl' & [->|Hw']);
    [by exists bytes|by exists bytes'].
Qed.

Lemma wipe_slice_some s bufs i :
  is_Some (bufs !! i) -> is_Some (wipe_slice s bufs !! i).
Proof.
  destruct s as [b|]; [|done]. unfold wipe_slice, wipe. rewrite lookup_alter.
  case_decide; [|done]. subst. intros [? ->]. simpl. eauto.
Qed.

Lemma wipe_slice_or s bufs i bytes :
  wipe_slice s bufs !! i = Some bytes -> bufs !! i = Some bytes \/ wiped bytes.
Proof.
  destruct s as [b|]; [|by left]. intros [[_ Hw]|[_ Hl]]%wipe_lookup; [by right|by left].
Qed.

(** Allocation alone, and [Zero], are tame. *)
Lemma alloc_tame h h' : structs h ⊆ structs h' -> buffers h ⊆ buffers h' -> tame h h'.
Proof.
  intros Hs Hb. split.
  - intros b bytes Hl. exists bytes. split; [by eapply lookup_weaken|by left].
  - intros p c Hl. left. by eapply lookup_weaken.
Qed.

Lemma tame_refl h : tame h h.
Proof. by apply alloc_tame. Qed.

Lemma Zero_tame q h : tame h (Vault.Zero (Some q) h).
Proof.
  destruct (structs h !! q) as [cq|] eqn:Eq.
  2: { simpl. rewrite Eq. by apply alloc_tame. }
  split.
  - intros b bytes Hl. simpl. rewrite Eq. simpl.
    destruct (wipe_slice_some (APISecret cq) (wipe_slice (APIKey cq) (buffers h)) b) as [bytes' Hb'].
    { apply wipe_slice_some. eauto. }
    exists bytes'. split; [exact Hb'|].
    apply wipe_slice_or in Hb' as [Hb'|?]; [|by right].
    apply wipe_slice_or in Hb' as [Hb'|?]; [|by right].
    left. by pose proof (eq_trans (eq_sym Hl) Hb') as [= ->].
  - intros p c Hp. destruct (decide (p = q)) as [->|Hne].
    + right. simplify_eq. split.
      * simpl. rewrite Eq. simpl. apply lookup_insert_eq.
      * intros b bytes Hin%elem_of_slices Hb. by eapply Zero_wipes.
    + left. simpl. rewrite Eq. simpl. by rewrite lookup_insert_ne.
Qed.

Lemma all_wiped_tame w w' :
  tame (cw_heap w) (cw_heap w') -> cw_handed w' = cw_handed w -> all_wiped w -> all_wiped w'.
Proof. unfold all_wiped. intros Hg -> Hall. eapply Forall_impl; [exact Hall|]. eauto using buffer_wiped_tame. Qed.

Lemma wiped_but_tame p w w' :
  tame (cw_heap w) (cw_heap w') -> cw_handed w' = cw_handed w -> wiped_but p w -> wiped_but p w'.
Proof.
  intros Hg He (c & Hc & Hall).
  assert (forall b, is_Some (buffers (cw_heap w) !! b) -> is_Some (buffers (cw_heap w') !! b))
    as Hsome.
  { intros b [bytes Hb]. destruct (tame_buffers _ _ Hg b bytes Hb) as (bytes' & ? & _). eauto. }
  destruct (tame_structs _ _ Hg p c Hc) as [Hc'|[Hc' Hw]].
  - exists c. rewrite He. split; [done|]. eapply Forall_impl; [exact Hall|].
    intros b [Hb [?|?]]; eauto using buffer_wiped_tame.
  - eexists. rewrite He. split; [exact Hc'|]. eapply Forall_impl; [exact Hall|].
    intros b [Hb Hor]. split; [auto|right]. destruct Hor as [Hin|?]; [|by eapply buffer_wiped_tame].
    destruct (Hsome b Hb) as [bytes' Hb']. exists bytes'. split; [done|]. by eapply Hw.
Qed.

(** Calls that leave the credentials alone. *)
Definition no_creds_op (op : Op) : bool :=
  match op with CredsZero _ | VaultDecryptCredentials _ _ => false | _ => true end.

Lemma no_creds_tame op w r w' :
  no_creds_op op = true -> cred_env op w r w' ->
  tame (cw_heap w) (cw_heap w') /\ cw_handed w' = cw_handed w.
Proof. by destruct op. Qed.

Lemma panic_tame op w w' :
  cred_panics op w w' -> tame (cw_heap w) (cw_heap w') /\ cw_handed w' = cw_handed w.
Proof. by destruct op. Qed.

Lemma all_wiped_panic op w w' : cred_panics op w w' -> all_wiped w -> all_wiped w'.
Proof. intros [??]%panic_tame. by apply all_wiped_tame. Qed.

Lemma wiped_but_panic p op w w' : cred_panics op w w' -> wiped_but p w -> wiped_but p w'.
Proof. intros [??]%panic_tame. by apply wiped_but_tame. Qed.

Lemma decrypt_live k s w p w' :
  cred_env (VaultDecryptCredentials k s) w (Ok p) w' -> all_wiped w -> wiped_but p w'.
Proof.
  intros (c & Hg & _ & Hc & Hs & He) Hall. exists c. split; [done|].
  rewrite He. apply Forall_app. split.
  - apply Forall_forall. intros b Hb. rewrite Forall_forall in Hs. auto.
  - eapply Forall_impl; [exact Hall|]. intros b Hb.
    apply (buffer_wiped_tame _ _ _ Hg) in Hb. split; [|by right].
    destruct Hb as (bytes & Hb & _). eauto.
Qed.

Lemma zero_wipes_all p w r w' :
  cred_env (CredsZero p) w r w' -> wiped_but p w -> all_wiped w'.
Proof.
  intros -> (c & Hc & Hall). unfold all_wiped. simpl cw_handed.
  eapply Forall_impl; [exact Hall|]. intros b [Hsome Hor].
  assert (is_Some (buffers (Vault.Zero (Some p) (cw_heap w)) !! b)) as [bytes Hb].
  { simpl. rewrite Hc. simpl. by apply wipe_slice_some, wipe_slice_some. }
  exists bytes. split; [exact Hb|]. destruct Hor as [Hin|(bytes0 & Hb0 & Hw0)].
  - apply (Zero_wipes p c (cw_heap w) b); [exact Hc| |exact Hb].
    by apply elem_of_slices.
  - apply (Zero_keeps_wiped (Some p) (cw_heap w) b); [|exact Hb]. intros bytes1 Hb1.
    by pose proof (eq_trans (eq_sym Hb0) Hb1) as [= <-].
Qed.

(** ** Programs *)

Abbreviation cred_wp := (pwp cred_env cred_panics anything).

Lemma calls_only_weaken {A} (f g : Op -> bool) (p : service A) :
  (forall op, f op = true -> g op = true) -> calls_only f p -> calls_only g p.
Proof. intros Hfg. induction p; simpl; naive_solver. Qed.

Lemma quiet_all_wiped {A} (p : service A) w :
  calls_only no_creds_op p -> all_wiped w -> cred_wp p (fun _ => all_wiped) w.
Proof.
  intros Hp Hw. eapply pwp_calls_only; [done| | |exact Hp|exact Hw].
  - intros op v r v' Hop Hv He. apply no_creds_tame in He as [??]; eauto using all_wiped_tame.
  - intros op v v' Hop Hv Hc. by eapply all_wiped_panic.
Qed.

Lemma quiet_wiped_but {A} (p : service A) c w :
  calls_only no_creds_op p -> wiped_but c w -> cred_wp p (fun _ => wiped_but c) w.
Proof.
  intros Hp Hw. eapply pwp_calls_only; [done| | |exact Hp|exact Hw].
  - intros op v r v' Hop Hv He. apply no_creds_tame in He as [??]; eauto using wiped_but_tame.
  - intros op v v' Hop Hv Hc. by eapply wiped_but_panic.
Qed.

(** The continuation of a call that leaves the credentials alone. *)
Lemma quiet_call {A} op (k : Res op -> service A) Q w :
  no_creds_op op = true -> all_wiped w -> (forall w', all_wiped w' -> Q None w') ->
  (forall r w', all_wiped w' -> cred_wp (k r) Q w') -> cred_wp (bind (perform op) k) Q w.
Proof.
  intros Hop Hw Hn Hk. split; [split; [done|]|].
  - intros w' Hc. apply Hn. by eapply all_wiped_panic.
  - intros r w' He. apply Hk. apply no_creds_tame in He as [??]; eauto using all_wiped_tame.
Qed.

Lemma decrypt_ends ct1 ct2 w :
  all_wiped w ->
  cred_wp (perform (VaultDecryptCredentials ct1 ct2))
    (fun o w' => match o with Some (Ok p) => wiped_but p w' | _ => all_wiped w' end) w.
Proof.
  intros Hw. split; [split; [done|]|].
  - intros w' Hc. by eapply all_wiped_panic.
  - intros [p|e] w' He; [by eapply decrypt_live|]. destruct He. by eapply all_wiped_tame.
Qed.

Section Safety.
Context `{GoUnicode}.

Lemma reserveOrder_quiet fuel s order : calls_only no_creds_op (reserveOrder fuel s order).
Proof.
  unfold reserveOrder. apply calls_only_bind; [done|].
  intros now. generalize (now + reservationWait s). clear now. intros dl.
  revert order. induction fuel as [|fuel IH]; intros order; [done|].
  cbn [reserve_loop]. unfold find_existing, perform, call. solve_calls_only. apply IH.
Qed.

Lemma fill_quiet f `{!FillProcessorOk f} e : calls_only no_creds_op (f e).
Proof. eapply calls_only_weaken; [|apply fill_calls]. by intros []. Qed.

Lemma record_execution_quiet s `{!ServerOk s} provider req o r :
  calls_only no_creds_op (record_execution s provider req o r).
Proof.
  unfold record_execution. destruct (confirm_amounts s r).
  apply calls_only_bind; [done|]. intros _. apply calls_only_bind; [|done].
  destruct (fillProcessor_ s) as [f|] eqn:Ef; [|done].
  destruct (IsPositive _); [|done]. pose proof (server_fill f Ef).
  apply calls_only_bind; [by apply (fill_quiet f)|done].
Qed.

(** The shape the two handlers share: credentials are decrypted, a quiet body runs,
    and the deferred call wipes them. *)
Lemma zero_after p w (Q : CredWorld -> Prop) :
  wiped_but p w -> (forall w', all_wiped w' -> Q w') ->
  cred_wp (perform (CredsZero p)) (fun _ => Q) w.
Proof.
  intros Hw HQ. split; [split; [done|by intros w' []]|].
  intros r w' He. eapply HQ, zero_wipes_all; done.
Qed.

Lemma ledger_balance_quiet s req : calls_only no_creds_op (ledger_balance s req).
Proof. unfold ledger_balance, perform, call. solve_calls_only. Qed.

Abbreviation local_wp :=
  (pwp (local_env cred_env (S := bool)) (local_panics cred_panics) (local_allowed anything)).

Lemma execute_reserved_wipes s `{!ServerOk s} provider qty req o d w :
  all_wiped w ->
  local_wp (execute_reserved s provider qty req o) (fun _ dw => all_wiped dw.2) (d, w).
Proof.
  intros Hw. unfold execute_reserved. apply pwp_bind, pwp_lift.
  eapply pwp_mono; [by apply (quiet_all_wiped (perform _))|].
  intros [[cred|e]|] w1 Hw1; [|done..]. apply pwp_bind, pwp_lift.
  eapply pwp_mono; [by apply decrypt_ends|]. intros [[p|e]|] w2 Hw2; [|done..].
  apply pwp_defer, pwp_bind, pwp_lift.
  eapply pwp_mono; [by apply quiet_wiped_but|]. intros [[r|e]|] w3 Hw3.
  - split; [done|]. intros u dw ->. apply pwp_lift.
    eapply pwp_mono; [apply quiet_wiped_but; [by apply record_execution_quiet|done]|].
    intros out w4 Hw4. by apply pwp_lift, zero_after.
  - by apply pwp_lift, zero_after.
  - by apply pwp_lift, zero_after.
Qed.

Lemma release_quiet o (d : bool) :
  calls_only no_creds_op (if d then Ret tt else releaseReservation o : service unit).
Proof. by destruct d. Qed.

Lemma ExecuteTrade_all_wiped fuel s `{!ServerOk s} req w out w' :
  all_wiped w -> pexec cred_env cred_panics (ExecuteTrade fuel s req) w out w' -> all_wiped w'.
Proof.
  intros Hw. apply (pwp_sound cred_env cred_panics anything _ (fun _ => all_wiped)).
  unfold ExecuteTrade. destruct (validate_trade req) as [[intent qty]|e]; [|done].
  apply quiet_call; [done..|]. intros id w1 Hw1. apply pwp_bind.
  eapply pwp_mono; [by apply quiet_all_wiped; [apply reserveOrder_quiet|]|].
  intros [[o [[e|]|e]]|] w2 Hw2; try done.
  apply pwp_with_local. eapply pwp_mono; [by apply execute_reserved_wipes|].
  intros out3 [d w3] Hw3. by apply quiet_all_wiped; [apply release_quiet|].
Qed.

Lemma SyncBrokerBalances_all_wiped s req w out w' :
  all_wiped w -> pexec cred_env cred_panics (SyncBrokerBalances s req) w out w' -> all_wiped w'.
Proof.
  intros Hw. apply (pwp_sound cred_env cred_panics anything _ (fun _ => all_wiped)).
  unfold SyncBrokerBalances. destruct (blank (sb_TenantId req)); [done|].
  apply quiet_call; [done..|]. intros [cred|e] w1 Hw1; [|done].
  apply pwp_bind. eapply pwp_mono; [by apply decrypt_ends|].
  intros [[p|e]|] w2 Hw2; [|done..]. apply pwp_defer.
  eapply pwp_mono; [apply quiet_wiped_but; [|done]|intros ???; by apply (zero_after p _ all_wiped)].
  apply calls_only_bind; [done|]. intros [balances|e]; [|done].
  apply calls_only_bind; [apply ledger_balance_quiet|done].
Qed.

(** C5: however an [ExecuteTrade] request ends - success, any error return, a panic of the
    fill processor or of any call of a collaborator - every credential buffer that
    [DecryptCredentials] handed to it has been overwritten with zeros. *)
Theorem ExecuteTrade_wipes fuel s `{!ServerOk s} req w out w' :
  all_wiped w -> pexec cred_env cred_panics (ExecuteTrade fuel s req) w out w' -> all_wiped w'.
Proof. by apply ExecuteTrade_all_wiped. Qed.

End Safety.
