(* ===== verification/VaultSpec.v ===== *)
(** * The vault client keeps the promise of [DecryptCredentials]

    CredsSafety.v assumes of the vault what this file proves of its client: the pair is
    handed out in fresh memory behind a fresh pointer and nothing else is written.
    Moreover the buffers hold exactly what the vault decrypts the two ciphertexts to,
    and an error leaves no plaintext behind. *)

From stdpp Require Import base tactics list strings gmap.
From Stdlib Require Import ZArith Ascii Lia.
From S2P Require Import Prelude Exec GoStrings Json Http Base64 Vault VaultClient Effects.
From S2P Require Import CredsSafety.

#[local] Open Scope string_scope.
#[local] Open Scope Z_scope.
#[local] Open Scope go_scope.

(** ** The world of the client *)

Definition alloc (b : BufPtr) (bytes : list Z) (h : Heap) : Heap :=
  {| structs := structs h; buffers := <[b := bytes]> (buffers h) |}.

Definition new_struct (p : CredPtr) (c : PlaintextCredentials) (h : Heap) : Heap :=
  {| structs := <[p := c]> (structs h); buffers := buffers h |}.

(** What the vault may answer to a request. *)
Definition Replies := forall k, VaultRequest -> Result (Response (DecryptBody k)) -> Prop.

Definition vault_env (reply : Replies) (op : VaultOp) : Heap -> VaultRes op -> Heap -> Prop :=
  match op return Heap -> VaultRes op -> Heap -> Prop with
  | VNewRequest _ => fun h _ h' => h' = h
  | VDo k r => fun h resp h' => h' = h /\ reply k r resp
  | VClose _ => fun h _ h' => h' = h
  | VAlloc bytes => fun h b h' => buffers h !! b = None /\ h' = alloc b bytes h
  | VWipe b => fun h _ h' => h' = {| structs := structs h; buffers := wipe b (buffers h) |}
  | VNewCreds c => fun h p h' => structs h !! p = None /\ h' = new_struct p c h
  end.

(** A decryption request as the transit engine documents it: the path of the key, the
    token unless it is empty, and the ciphertexts as a JSON document. *)
Record asks (base key token body : string) (r : VaultRequest) : Prop := {
  asks_path : vr_URL r = base +:+ "/v1/transit/decrypt/" +:+ key;
  asks_token : vr_Token r = if String.eqb token "" then None else Some token;
  asks_body : vr_Body r = body;
}.

Definition ciphertext_json `{JsonUnicode} (ct : string) : string :=
  "{" +:+ json_quote "ciphertext" +:+ ":" +:+ json_quote ct +:+ "}".
Definition batch_json `{JsonUnicode} (ct1 ct2 : string) : string :=
  "{" +:+ json_quote "batch_input" +:+ ":[" +:+ ciphertext_json ct1 +:+ "," +:+
  ciphertext_json ct2 +:+ "]}".

(** The transit engine of the vault at [base]: [open] is its decryption with the key.  A 200
    without errors carries the base64 of the decrypted bytes, item by item in a batch. *)
Class VaultReplies `{JsonUnicode} (base key token : string) (open : string -> list Z)
    (reply : Replies) : Prop := {
  open_bytes : forall ct, Forall is_byte (open ct);
  single_reply : forall r ct resp d,
    asks base key token (ciphertext_json ct) r -> reply SingleDecrypt r (Ok resp) ->
    rs_Status resp = StatusOK -> rs_Body resp = Ok (Ok d) -> dr_Errors d = [] ->
    dr_Plaintext d = EncodeToString (open ct);
  batch_reply : forall r ct1 ct2 resp d r1 r2,
    asks base key token (batch_json ct1 ct2) r -> reply BatchDecrypt r (Ok resp) ->
    rs_Status resp = StatusOK -> rs_Body resp = Ok (Ok d) -> br_BatchResults d = [r1; r2] ->
    bi_Error r1 = "" -> bi_Error r2 = "" ->
    bi_Plaintext r1 = EncodeToString (open ct1) /\ bi_Plaintext r2 = EncodeToString (open ct2);
}.

Section VaultSpec.
Context `{GoUnicode} `{JsonUnicode}.
Context (c : openBaoTransitClient) (open : string -> list Z) (reply : Replies).
Context `{!VaultReplies (tc_baseURL c) (tc_keyName c) (tc_token c) open reply}.

Abbreviation transit_wp := (wp (vault_env reply) anything).

(** Closing a response body leaves memory alone. *)
Lemma reading_spec {A} k (p : transit A) (Q : option A -> Heap -> Prop) h :
  transit_wp p Q h -> transit_wp (reading k p) Q h.
Proof.
  intros Hp. apply wp_defer. eapply wp_mono; [exact Hp|].
  intros o h1 HQ. split; [done|]. by intros [] h2 ->.
Qed.

(** ** One plaintext *)

Lemma base64_decode_spec ct (Q : option (BufPtr * bool) -> Heap -> Prop) h :
  (forall b, buffers h !! b = None -> Q (Some (b, true)) (alloc b (open ct) h)) ->
  transit_wp (base64_decode (EncodeToString (open ct))) Q h.
Proof.
  intros HQ. unfold base64_decode.
  rewrite DecodeString_Encode by (apply (open_bytes (VaultReplies := VaultReplies0))).
  split; [done|]. intros b h' [Hb ->]. by apply HQ.
Qed.

Lemma decrypt_response_plaintext ct (resp : Response decryptResponse) p :
  reply SingleDecrypt (single_request c ct) (Ok resp) -> decrypt_response resp = Ok p ->
  p = EncodeToString (open ct).
Proof.
  intros Hr. unfold decrypt_response.
  destruct (rs_Body resp) as [[d|e]|e] eqn:Eb; destruct (Z.eqb_spec (rs_Status resp) StatusOK)
    as [Es|]; simpl; try done.
  destruct (dr_Errors d) eqn:Ee; [|done]. intros [= <-]. by apply (single_reply (single_request c ct) ct resp d).
Qed.

(** [Decrypt] allocates exactly the decrypted bytes, or nothing. *)
Lemma Decrypt_spec ct (Q : option (Result BufPtr) -> Heap -> Prop) h :
  (forall b, buffers h !! b = None -> Q (Some (Ok b)) (alloc b (open ct) h)) ->
  (forall e, Q (Some (Err e)) h) ->
  transit_wp (Decrypt c ct) Q h.
Proof.
  intros Hok Herr. unfold Decrypt. destruct (String.eqb (TrimSpace ct) ""); [apply Herr|].
  split; [done|]. intros [[]|e] h1 ->; [|apply Herr].
  split; [done|]. intros [resp|e] h1 [-> Hr]; [|apply Herr]. apply reading_spec.
  destruct (decrypt_response resp) as [p|e] eqn:Ed; [|apply Herr].
  rewrite (decrypt_response_plaintext _ _ _ Hr Ed). apply wp_bind, base64_decode_spec.
  intros b Hb. by apply Hok.
Qed.

(** ** The pair *)

(** A new pair: two buffers with the decrypted bytes behind a new pointer. *)
Definition handed_out (ct1 ct2 : string) (h : Heap) (p : CredPtr) (h' : Heap) : Prop :=
  exists b1 b2, b1 <> b2 /\ buffers h !! b1 = None /\ buffers h !! b2 = None /\
    structs h !! p = None /\
    h' = new_struct p {| APIKey := Some b1; APISecret := Some b2 |}
           (alloc b2 (open ct2) (alloc b1 (open ct1) h)).

Lemma new_creds_spec ct1 ct2 h b1 b2 (Q : option CredPtr -> Heap -> Prop) :
  buffers h !! b1 = None -> buffers (alloc b1 (open ct1) h) !! b2 = None ->
  (forall p h', handed_out ct1 ct2 h p h' -> Q (Some p) h') ->
  transit_wp (new_creds b1 b2) Q (alloc b2 (open ct2) (alloc b1 (open ct1) h)).
Proof.
  intros H1 H2 HQ. split; [done|]. intros p h' [Hp ->]. apply HQ.
  simpl in H2. apply lookup_insert_None in H2 as [H2 Hne]. exists b1, b2. done.
Qed.

Lemma batch_plaintexts_spec ct1 ct2 (resp : Response batchDecryptResponse) p1 p2 :
  reply BatchDecrypt (batch_request c ct1 ct2) (Ok resp) ->
  batch_plaintexts resp = Some (p1, p2) ->
  p1 = EncodeToString (open ct1) /\ p2 = EncodeToString (open ct2).
Proof.
  intros Hr. unfold batch_plaintexts. destruct (Z.eqb_spec (rs_Status resp) StatusOK) as [Es|]; [|done].
  destruct (rs_Body resp) as [[d|e]|e] eqn:Eb; [|done..].
  destruct (br_BatchResults d) as [|r1 [|r2 [|]]] eqn:El; [done..| |done].
  destruct (String.eqb_spec (bi_Error r1) ""); [|done].
  destruct (String.eqb_spec (bi_Error r2) ""); [|done].
  intros [= <- <-]. by apply (batch_reply (batch_request c ct1 ct2) ct1 ct2 resp d r1 r2).
Qed.

Lemma decrypt_batch_spec ct1 ct2 resp (Q : option (option CredPtr) -> Heap -> Prop) h :
  reply BatchDecrypt (batch_request c ct1 ct2) (Ok resp) ->
  (forall p h', handed_out ct1 ct2 h p h' -> Q (Some (Some p)) h') ->
  Q (Some None) h ->
  transit_wp (decrypt_batch resp) Q h.
Proof.
  intros Hr Hok Hno. unfold decrypt_batch.
  destruct (batch_plaintexts resp) as [[p1 p2]|] eqn:Eb; [|done].
  destruct (batch_plaintexts_spec _ _ _ _ _ Hr Eb) as [-> ->].
  apply wp_bind, base64_decode_spec. intros b1 H1.
  apply wp_bind, base64_decode_spec. intros b2 H2.
  change (transit_wp (p <- new_creds b1 b2 ;; Ret (Some p)) Q
    (alloc b2 (open ct2) (alloc b1 (open ct1) h))).
  apply wp_bind, new_creds_spec; [done..|]. intros p h' Hp. by apply Hok.
Qed.

(** What an error leaves behind: nothing but wiped memory. *)
Definition left_clean (h h' : Heap) : Prop :=
  structs h' = structs h /\ buffers h ⊆ buffers h' /\
  forall b bytes, buffers h !! b = None -> buffers h' !! b = Some bytes -> wiped bytes.

Lemma left_clean_refl h : left_clean h h.
Proof. split; [done|]. split; [done|]. intros b bytes E1 E2. congruence. Qed.

Lemma left_clean_wiped h b bytes :
  buffers h !! b = None ->
  left_clean h {| structs := structs h; buffers := wipe b (buffers (alloc b bytes h)) |}.
Proof.
  intros Hb. split; [done|]. simpl. split.
  - unfold wipe. rewrite alter_insert_eq. by apply insert_subseteq.
  - intros i bytes' Hi [[_ ?]|[Hne Hl]]%wipe_lookup; [done|].
    rewrite lookup_insert_ne in Hl by done. by pose proof (eq_trans (eq_sym Hl) Hi).
Qed.

(** The outcome of a decryption: a new pair, or an error and no plaintext. *)
Definition decrypted (ct1 ct2 : string) (h : Heap) (o : option (Result CredPtr)) (h' : Heap)
    : Prop :=
  exists r, o = Some r /\
    match r with Ok p => handed_out ct1 ct2 h p h' | Err _ => left_clean h h' end.

Lemma decrypt_each_spec ct1 ct2 h :
  transit_wp (decrypt_each c ct1 ct2) (decrypted ct1 ct2 h) h.
Proof.
  apply wp_bind, Decrypt_spec.
  2: { intros e. eexists. split; [done|]. apply left_clean_refl. }
  intros b1 H1. apply wp_bind, Decrypt_spec.
  - intros b2 H2. apply wp_bind, new_creds_spec; [done..|]. unfold decrypted. simpl. eauto.
  - intros e. split; [done|]. intros [] h' ->. eexists. split; [done|].
    by apply (left_clean_wiped h b1 (open ct1)).
Qed.

Lemma DecryptCredentials_spec ct1 ct2 h :
  transit_wp (DecryptCredentials c ct1 ct2) (decrypted ct1 ct2 h) h.
Proof.
  split; [done|]. intros [[]|e] h1 ->; [|apply decrypt_each_spec].
  split; [done|]. intros [resp|e] h1 [-> Hr]; [|apply decrypt_each_spec].
  apply reading_spec, wp_bind. eapply decrypt_batch_spec; [exact Hr|..].
  - intros p h' Hp. exists (Ok p). done.
  - apply decrypt_each_spec.
Qed.

(** ** The contract *)

Lemma handed_out_tame ct1 ct2 h p h' : handed_out ct1 ct2 h p h' -> tame h h'.
Proof.
  intros (b1 & b2 & Hne & H1 & H2 & Hp & ->). apply alloc_tame; simpl.
  - by apply insert_subseteq.
  - etrans; [by apply (insert_subseteq _ b1 (open ct1))|]. apply insert_subseteq.
    by rewrite lookup_insert_ne.
Qed.

Lemma left_clean_tame h h' : left_clean h h' -> tame h h'.
Proof. intros (Hs & Hb & _). apply alloc_tame; [by rewrite Hs|done]. Qed.

(** The step that hands out the pair is one of the credential environment; the buffers
    handed out are the new ones. *)
Lemma handed_out_env ct1 ct2 h handed p h' :
  handed_out ct1 ct2 h p h' ->
  exists b1 b2,
    structs h' !! p = Some {| APIKey := Some b1; APISecret := Some b2 |} /\
    buffers h' !! b1 = Some (open ct1) /\ buffers h' !! b2 = Some (open ct2) /\
    (forall b, b <> b1 -> b <> b2 -> buffers h' !! b = buffers h !! b) /\
    cred_env (VaultDecryptCredentials ct1 ct2) {| cw_heap := h; cw_handed := handed |} (Ok p)
      {| cw_heap := h'; cw_handed := b1 :: b2 :: handed |}.
Proof.
  intros Hr. pose proof (handed_out_tame _ _ _ _ _ Hr) as Ht.
  destruct Hr as (b1 & b2 & Hne & H1 & H2 & Hp & ->). exists b1, b2.
  assert (forall x (m : gmap nat (list Z)), (<[b2:=x]> (<[b1:=open ct1]> m)) !! b1 = Some (open ct1))
    as Hb1 by (intros x m; rewrite lookup_insert_ne by done; apply lookup_insert_eq).
  split; [apply lookup_insert_eq|]. split; [apply Hb1|]. split; [apply lookup_insert_eq|].
  split; [intros b N1 N2; simpl; by rewrite !lookup_insert_ne|].
  exists {| APIKey := Some b1; APISecret := Some b2 |}. split; [exact Ht|]. split; [done|].
  split; [apply lookup_insert_eq|]. split; [|done]. simpl.
  repeat constructor; [by rewrite Hb1|by rewrite lookup_insert_eq].
Qed.

End VaultSpec.

(** C19: the vault client keeps the promise the handlers rely on.  Given a vault at the
    configured address that answers the requests documented for the key and the token,
    [DecryptCredentials] always returns; on success the pair sits in fresh memory, behind a fresh pointer, and holds exactly the bytes the vault
    decrypts the key and the secret to - through the batch request or through the
    fallback; on an error every byte array it allocated has been wiped.  Either way the
    step is one that the environment of the credential theorems allows. *)
Theorem DecryptCredentials_refines `{GoUnicode} `{JsonUnicode} addr token keyName open reply
    `{!VaultReplies (TrimRight addr "/"%char) (if String.eqb keyName "" then "broker-keys" else keyName)
        token open reply} ct1 ct2 h handed o h' :
  exec (vault_env reply) (DecryptCredentials (NewTransitClient addr token keyName) ct1 ct2) h o h' ->
  exists r handed', o = Some r /\
    cred_env (VaultDecryptCredentials ct1 ct2) {| cw_heap := h; cw_handed := handed |} r
      {| cw_heap := h'; cw_handed := handed' |} /\
    match r with
    | Ok p => exists b1 b2,
        structs h' !! p = Some {| APIKey := Some b1; APISecret := Some b2 |} /\
        buffers h' !! b1 = Some (open ct1) /\ buffers h' !! b2 = Some (open ct2)
    | Err _ => forall b bytes,
        buffers h !! b = None -> buffers h' !! b = Some bytes -> wiped bytes
    end.
Proof.
  intros He. destruct (wp_sound _ _ _ _ _ _ _ (DecryptCredentials_spec _ open reply ct1 ct2 h) He)
    as ([p|e] & -> & Hr).
  - destruct (handed_out_env _ _ _ _ handed _ _ Hr) as (b1 & b2 & Hp & H1 & H2 & _ & He').
    exists (Ok p), (b1 :: b2 :: handed). eauto 10.
  - exists (Err e), handed. split; [done|]. pose proof (left_clean_tame _ _ Hr).
    split; [done|]. apply Hr.
Qed.
