(* ===== verification/TradeTheorems.v ===== *)
(** * What a trade request guarantees

    Consequences of the protocol for the calls of one [ExecuteTrade] request. *)

From stdpp Require Import base tactics list strings gmap.
From Stdlib Require Import ZArith QArith Lia.
From S2P Require Import Prelude Exec GoStrings Uuid Broker Vault Decimal DecimalSpec Db Clients.
From S2P Require Import Cache Effects Worker Service TradeProtocol.

#[local] Open Scope Z_scope.

(** ** Counting calls *)

(** A reservation was taken. *)
Definition is_reserved (e : event Res) : bool :=
  match ev_op e as op return Res op -> bool with
  | OrdersReserve _ => fun r => match r.2 with Ok b => b | Err _ => false end
  | _ => fun _ => false
  end (ev_res e).

(** The broker acknowledged an order. *)
Definition acknowledged (e : event Res) : option OrderResult :=
  match ev_op e as op return Res op -> option OrderResult with
  | BrokerPlaceMarketOrder _ _ => fun r =>
      match r with Ok res => Some res | Err _ => None end
  | _ => fun _ => None
  end (ev_res e).

Definition acks (tr : list (event Res)) : list OrderResult := omap acknowledged tr.

(** A call of a run, whether it answered or panicked. *)
Definition call_op (c : call_event Res) : Op :=
  match c with Answered e => ev_op e | Panicked op => op end.

Definition reserved (c : call_event Res) : bool :=
  match c with Answered e => is_reserved e | Panicked _ => false end.

(** An order was sent to the broker. *)
Definition placed (c : call_event Res) : bool :=
  match call_op c with BrokerPlaceMarketOrder _ _ => true | _ => false end.

Definition released (c : call_event Res) : bool :=
  match call_op c with OrdersRelease _ => true | _ => false end.

Definition acks_in (tr : list (call_event Res)) : list OrderResult := acks (answers_in tr).

Definition count {A} (f : A -> bool) (tr : list A) : nat :=
  length (filter (fun e => f e = true) tr).

(** The settled order a lookup found. *)
Definition found_order (e : event Res) : option BrokerOrder :=
  match ev_op e as op return Res op -> option BrokerOrder with
  | OrdersGetByIntent _ | OrdersGetByIdempotencyKey _ _ => fun r =>
      match r with Ok o => Some o | Err _ => None end
  | _ => fun _ => None
  end (ev_res e).

Lemma acks_app tr1 tr2 : acks (tr1 ++ tr2) = acks tr1 ++ acks tr2.
Proof. apply omap_app. Qed.

Lemma answers_in_app (tr1 tr2 : list (call_event Res)) :
  answers_in (tr1 ++ tr2) = answers_in tr1 ++ answers_in tr2.
Proof. apply omap_app. Qed.

Lemma answers_in_all (tr : list (event Res)) : answers_in (map Answered tr) = tr.
Proof. induction tr as [|e tr IH]; [done|]. cbn. f_equal. exact IH. Qed.

Lemma acks_in_app tr1 tr2 : acks_in (tr1 ++ tr2) = acks_in tr1 ++ acks_in tr2.
Proof. unfold acks_in. by rewrite answers_in_app, acks_app. Qed.

Lemma count_app {A} (f : A -> bool) tr1 tr2 : count f (tr1 ++ tr2) = (count f tr1 + count f tr2)%nat.
Proof. unfold count. by rewrite filter_app, length_app. Qed.

Lemma count_one {A} (f : A -> bool) e : count f [e] = if f e then 1%nat else 0%nat.
Proof.
  unfold count. rewrite filter_cons, filter_nil.
  destruct (f e); by rewrite ?decide_True, ?decide_False by done.
Qed.

(** The calls made so far, as the phase remembers them. *)
Definition tallies (tr : list (call_event Res)) (ph : TradePhase) : Prop :=
  let res := count reserved tr in
  let pl := count placed tr in
  let acc := acks_in tr in
  let rel := count released tr in
  match ph with
  | Idle | Ended _ => res = 0 /\ pl = 0 /\ acc = [] /\ rel = 0
  | Replaying e => res = 0 /\ pl = 0 /\ acc = [] /\ rel = 0 /\
      Exists (fun v => found_order v = Some e) (answers_in tr)
  | Held _ => res = 1 /\ pl = 0 /\ acc = [] /\ rel = 0
  | Failing _ _ | Dying _ => res = 1 /\ pl <= 1 /\ acc = [] /\ rel = 0
  | Accepted _ r | Recorded _ r => res = 1 /\ pl = 1 /\ acc = [r] /\ rel = 0
  | Released _ _ => res = 1 /\ pl <= 1 /\ acc = [] /\ rel = 1
  | Dead => res = rel /\ pl <= res <= 1 /\ acc = []
  end%nat.

(** One permitted call keeps the tallies right. *)
Lemma tallies_step `{GoUnicode} s req tr ph op r :
  tallies tr ph -> trade_permits s req op ph = true ->
  tallies (tr ++ [Answered (ev op r)]) (trade_next op ph r).
Proof.
  unfold tallies. rewrite !count_app, !count_one, acks_in_app, answers_in_app.
  generalize (count reserved tr), (count placed tr), (acks_in tr), (count released tr).
  destruct op, ph; try discriminate; intros res pl acc rel Ht Hp;
    unfold reserved, placed, released, is_reserved, call_op, acks_in, acks, answers_in, acknowledged;
    simpl in *; rewrite ?app_nil_r; try (intuition lia).
  all: unfold after_lookup, after_failure in *; repeat case_match; simplify_eq; simpl in *;
    destruct_and?; subst; rewrite ?app_nil_r.
  all: repeat (split; [lia || done|]); try lia; try done.
  all: apply Exists_app; right; by constructor.
Qed.

Lemma tallies_panic `{GoUnicode} s req tr ph op :
  tallies tr ph -> trade_permits s req op ph = true ->
  tallies (tr ++ [Panicked op]) (trade_unwinding op ph).
Proof.
  unfold tallies. rewrite !count_app, !count_one, acks_in_app, answers_in_app.
  generalize (count reserved tr), (count placed tr), (acks_in tr), (count released tr).
  destruct op, ph; try discriminate; intros res pl acc rel Ht Hp;
    unfold reserved, placed, released, call_op, acks_in, acks, answers_in; simpl in *;
    rewrite ?app_nil_r; intuition (subst; auto; lia).
Qed.

Lemma follow_tallies `{GoUnicode} s req tr ph :
  follow_run (trade_protocol s req) Idle tr = Some ph -> tallies tr ph.
Proof.
  revert ph. induction tr as [|[[op r]|op] tr IH] using rev_ind; intros ph; [by intros [= <-]|..];
    rewrite follow_run_app;
    (destruct (follow_run (trade_protocol s req) Idle tr) as [ph0|]; [|done]); simpl;
    (destruct (trade_permits s req op ph0) eqn:Hp; [|done]); intros [= <-].
  - by eapply tallies_step; eauto.
  - by eapply tallies_panic; eauto.
Qed.

(** A run that answers without an acknowledged order replays one on record. *)
Lemma replayed_answer `{GoUnicode} req tr ph resp :
  tallies tr ph -> trade_ends req (Some (Ok resp)) ph -> acks_in tr = [] ->
  exists e, Exists (fun v => found_order v = Some e) (answers_in tr) /\
    bo_Status e <> StatusPending /\
    resp = {| er_ProviderOrderId := bo_ProviderOrderID e; er_Status := bo_Status e |}.
Proof.
  unfold tallies. intros Ht He Ha.
  destruct ph as [|c|e|o|o c|o r|o r|o c|o|]; simpl in He; try done;
    try (by destruct_and?; congruence); unfold fails_with in He; by naive_solver.
Qed.

Section Theorems.
Context `{GoUnicode}.

(** C1: every run of [ExecuteTrade], whatever its collaborators answer and whichever
    calls panic, keeps to the trade protocol.  Only a valid request reserves, an order
    with exactly its data; the searches for a duplicate use its own intent and key; the broker
    is sent the reserved order, at most once; an acknowledged order is confirmed with the
    broker's id, status and amounts, and money moves only after that; otherwise the
    reservation is given back.  A run ends by replaying an order on record, with the
    broker's order id and status, or with the gRPC code of its failure: InvalidArgument, Aborted at the
    deadline, Canceled or DeadlineExceeded by the caller, FailedPrecondition without
    credentials, Unavailable when the broker refused, Internal otherwise; or it unwinds after a
    panic (one of its own can only come from the fuel of the reservation loop). *)
Theorem ExecuteTrade_protocol fuel s `{!ServerOk s} req tr out :
  runs (ExecuteTrade fuel s req) tr out -> answered (trade_protocol s req) (answers_in tr) ->
  exists ph, follow_run (trade_protocol s req) Idle tr = Some ph /\ trade_ends req out ph.
Proof. apply pwp_follow. by apply ExecuteTrade_keeps. Qed.

(** C4: the calls of one request balance.  At every moment an order has been sent only
    under a reservation; at the end, each reservation taken was either given back or its
    order acknowledged by the broker, and never both - whatever call panicked. *)
Theorem ExecuteTrade_reservation_balance fuel s `{!ServerOk s} req tr1 tr2 out :
  runs (ExecuteTrade fuel s req) (tr1 ++ tr2) out ->
  answered (trade_protocol s req) (answers_in (tr1 ++ tr2)) ->
  (length (acks_in tr1) <= count placed tr1 <= count reserved tr1 /\
   count released tr1 <= count reserved tr1 <= 1 /\
   count released (tr1 ++ tr2) + length (acks_in (tr1 ++ tr2))
     = count reserved (tr1 ++ tr2))%nat.
Proof.
  intros Htr Hans.
  destruct (pwp_follow (trade_protocol s req) _ (trade_ends req) Idle _ _ (ExecuteTrade_keeps s req fuel)
    Htr Hans) as (ph & Hf & He).
  pose proof (follow_tallies _ _ _ _ Hf) as Hall. rewrite follow_run_app in Hf.
  destruct (follow_run (trade_protocol s req) Idle tr1) as [ph1|] eqn:Hf1; [|done].
  pose proof (follow_tallies _ _ _ _ Hf1) as Hpre. unfold tallies in *.
  destruct ph, ph1; simpl in He; try done; destruct_and?;
    repeat match goal with E : acks_in _ = _ |- _ => rewrite E; clear E end; simpl; lia.
Qed.

(** C9: a successful answer without an order acknowledged by the broker is a replay: the
    request sent nothing to the broker and answers with the provider order id and the
    status of an order, not pending, that it read from the table. *)
Theorem ExecuteTrade_replay fuel s `{!ServerOk s} req tr resp :
  runs (ExecuteTrade fuel s req) tr (Some (Ok resp)) ->
  answered (trade_protocol s req) (answers_in tr) -> acks_in tr = [] ->
  count placed tr = 0%nat /\ count reserved tr = 0%nat /\
  exists e, Exists (fun v => found_order v = Some e) (answers_in tr) /\
    bo_Status e <> StatusPending /\
    resp = {| er_ProviderOrderId := bo_ProviderOrderID e; er_Status := bo_Status e |}.
Proof.
  intros Htr Hans Hacc.
  destruct (pwp_follow (trade_protocol s req) _ (trade_ends req) Idle _ _ (ExecuteTrade_keeps s req fuel)
    Htr Hans) as (ph & Hf & He).
  pose proof (follow_tallies _ _ _ _ Hf) as Ht.
  assert (count placed tr = 0 /\ count reserved tr = 0)%nat as [Hp Hr].
  { unfold tallies in Ht. destruct ph; simpl in He; try done; try (by destruct_and?; congruence).
    all: unfold fails_with in He; by naive_solver. }
  split; [done|]. split; [done|]. by eapply replayed_answer.
Qed.

(** ** After the acknowledgement *)

(** The fill an acknowledged order is settled with. *)
Definition fill_of (req : ExecuteTradeRequest) (r : OrderResult) : FillEvent := {|
  fe_Provider := "BINANCE";
  fe_ProviderOrderID := or_ProviderOrderID r;
  fe_Symbol := ToUpper (et_Symbol req);
  fe_Side := if et_Side req =? 1 then "SELL" else "BUY";
  fe_Status := answered_status r;
  fe_ExecutedQuantity := or_ExecutedQuantity r;
  fe_FillPrice := or_AveragePrice r |}.

(** The run of the fill processor, if there is one and something was executed. *)
Definition processed (s : PregaoServer) (req : ExecuteTradeRequest) (r : OrderResult)
    (fills : list (event Res)) (fout : option unit) : Prop :=
  match fillProcessor_ s with
  | Some f =>
      if 0 <? d_value (or_ExecutedQuantity r)
      then exists res, traces (f (fill_of req r)) fills res /\ fout = (fun _ => tt) <$> res
      else fills = [] /\ fout = Some tt
  | None => fills = [] /\ fout = Some tt
  end.

(** Everything that happens from the acknowledgement on. *)
Definition concluded (s : PregaoServer) (req : ExecuteTradeRequest) (r : OrderResult)
    (tr : list (event Res)) (out : option (Result ExecuteTradeResponse)) : Prop :=
  exists pre creds mo id confirmed fills fout,
    tr = pre ++ [ev (BrokerPlaceMarketOrder creds mo) (Ok r);
                 ev (OrdersConfirm id (or_ProviderOrderID r) (answered_status r)
                       (answered_amounts s r).1 (answered_amounts s r).2) confirmed]
             ++ fills ++ [ev (CredsZero creds) tt] /\
    processed s req r fills fout /\
    out = (fun _ => Ok {| er_ProviderOrderId := or_ProviderOrderID r;
                          er_Status := answered_status r |}) <$> fout.

Lemma IsPositive_value d : IsPositive d = (0 <? d_value d).
Proof. unfold IsPositive, Sign. destruct (d_value d); done. Qed.

Lemma sync_fill_event_of provider req r :
  provider = "BINANCE"%string -> sync_fill_event provider req r = fill_of req r.
Proof. intros ->. unfold sync_fill_event, fill_of, side_string, ExecuteTradeRequest_SELL.
  by destruct (et_Side req =? 1). Qed.

Lemma record_execution_traces s req o r tr out :
  traces (record_execution s "BINANCE" req o r) tr out ->
  exists confirmed fills fout,
    tr = ev (OrdersConfirm (bo_ID o) (or_ProviderOrderID r) (answered_status r)
               (answered_amounts s r).1 (answered_amounts s r).2) confirmed :: fills /\
    processed s req r fills fout /\
    out = (fun _ => Ok {| er_ProviderOrderId := or_ProviderOrderID r;
                          er_Status := answered_status r |}) <$> fout.
Proof.
  unfold record_execution. rewrite confirm_amounts_answered.
  destruct (answered_amounts s r) as [filled price]. simpl.
  intros (confirmed & tr' & -> & Ht). exists confirmed. unfold processed.
  destruct (fillProcessor_ s) as [f|].
  2: { simpl in Ht. destruct Ht as [-> ->]. by exists [], (Some tt). }
  rewrite IsPositive_value in Ht. destruct (0 <? d_value (or_ExecutedQuantity r)).
  2: { simpl in Ht. destruct Ht as [-> ->]. by exists [], (Some tt). }
  rewrite sync_fill_event_of in Ht by done.
  apply traces_bind in Ht as [(tr1 & tr2 & u & -> & Hf & Ht)|[Hf ->]].
  - destruct Ht as [-> ->]. rewrite app_nil_r.
    apply traces_bind in Hf as [(tr3 & tr4 & res & -> & Hf & [-> _])|[_ ?]]; [|done].
    rewrite app_nil_r. exists tr3, (Some tt). split; [done|]. split; [|done]. by exists (Some res).
  - apply traces_bind in Hf as [(tr3 & tr4 & res & -> & Hf & [_ ?])|[Hf _]]; [done|].
    exists tr', None. split; [done|]. split; [|done]. by exists None.
Qed.

(** A part of the request that sends no order. *)
Definition not_place (op : Op) : bool :=
  match op with BrokerPlaceMarketOrder _ _ => false | _ => true end.

Abbreviation records := (wp trace_env (fun _ _ => True)).

Lemma not_place_acks tr :
  Forall (fun v => not_place (ev_op v) = true) tr -> acks tr = [].
Proof.
  induction 1 as [|[op r] tr Hop _ IH]; [done|]. change (acks (ev op r :: tr))
    with (acks ([ev op r] ++ tr)). rewrite acks_app, IH. by destruct op.
Qed.

Lemma records_quiet {A} (p : service A) (Q : option A -> list (event Res) -> Prop) tr :
  calls_only not_place p -> acks tr = [] -> (forall o tr', acks tr' = [] -> Q o tr') ->
  records p Q tr.
Proof.
  intros Hp Ha HQ. apply traces_wp. intros tr' o Ht. apply HQ. rewrite acks_app, Ha.
  by eapply not_place_acks, traces_calls_only.
Qed.

Definition all_concluded (s : PregaoServer) (req : ExecuteTradeRequest)
    (out : option (Result ExecuteTradeResponse)) (tr : list (event Res)) : Prop :=
  forall r, r ∈ acks tr -> concluded s req r tr out.

Lemma no_acks_concluded s req out tr : acks tr = [] -> all_concluded s req out tr.
Proof. unfold all_concluded. intros ->. set_solver. Qed.

Lemma fill_no_acks f `{!FillProcessorOk f} e tr out : traces (f e) tr out -> acks tr = [].
Proof.
  intros Ht. apply not_place_acks. pose proof (traces_calls_only _ _ _ _ (fill_calls e) Ht) as Hf.
  eapply Forall_impl; [exact Hf|]. intros [op ?] Hop. by destruct op.
Qed.

Lemma processed_no_acks s `{!ServerOk s} req r fills fout :
  processed s req r fills fout -> acks fills = [].
Proof.
  unfold processed. destruct (fillProcessor_ s) as [f|] eqn:Ef; [|by intros [-> _]].
  destruct (0 <? _); [|by intros [-> _]]. intros (res & Ht & _).
  pose proof (server_fill f Ef). by eapply fill_no_acks.
Qed.

Lemma find_existing_quiet order : calls_only not_place (find_existing order).
Proof. unfold find_existing, perform, call. solve_calls_only. Qed.

Lemma reserveOrder_not_place fuel s order : calls_only not_place (reserveOrder fuel s order).
Proof.
  unfold reserveOrder. split; [done|]. intros now. simpl. generalize (now + reservationWait s).
  intros deadline. revert order. induction fuel as [|fuel IH]; intros order; [done|].
  cbn [reserve_loop]. apply calls_only_bind; [done|]. intros [o [[]|e]]; [done| |done].
  apply calls_only_bind; [apply find_existing_quiet|]. intros existing.
  destruct (existing_verdict existing); [done|]. split; [done|]. intros now'. simpl.
  case_match; [done|]. split; [done|]. intros [e|]; simpl; [done|apply IH].
Qed.

Abbreviation local_records :=
  (wp (local_env trace_env (S := bool)) (local_allowed (fun (_ : Op) (_ : list (event Res)) => True))).

Lemma records_lift_call {A} op (k : Res op -> prog (local_res Res bool) A) Q d tr :
  (forall r, local_records (k r) Q (d, tr ++ [ev op r])) ->
  local_records (bind (lift (perform op)) k) Q (d, tr).
Proof.
  intros Hk. apply wp_bind, wp_lift. split; [done|]. intros r tr' ->. apply Hk.
Qed.

Lemma release_concluded s req o out tr :
  acks tr = [] ->
  finally trace_env (fun _ _ => True) (releaseReservation o) (all_concluded s req) out tr.
Proof.
  intros Ha. apply records_quiet; [done..|]. intros u tr' Ha'. by apply no_acks_concluded.
Qed.

Lemma acknowledged_concluded s `{!ServerOk s} req r pre creds mo id confirmed fills fout :
  acks pre = [] -> processed s req r fills fout ->
  all_concluded s req
    ((fun _ => Ok {| er_ProviderOrderId := or_ProviderOrderID r;
                     er_Status := answered_status r |}) <$> fout)
    (((pre ++ [ev (BrokerPlaceMarketOrder creds mo) (Ok r)]) ++
      ev (OrdersConfirm id (or_ProviderOrderID r) (answered_status r)
            (answered_amounts s r).1 (answered_amounts s r).2) confirmed :: fills) ++
     [ev (CredsZero creds) tt]).
Proof.
  intros Ha Hp r' Hr'. pose proof (processed_no_acks _ _ _ _ _ Hp) as Hf.
  assert (r' = r) as ->.
  { rewrite !acks_app, Ha in Hr'. change (acks (?e :: fills)) with (acks ([e] ++ fills)) in Hr'.
    rewrite acks_app, Hf in Hr'. set_solver. }
  exists pre, creds, mo, id, confirmed, fills, fout.
  split; [by rewrite <- !app_assoc|]. done.
Qed.

(** The body from the acknowledgement on, with the deferred wipe. *)
Lemma execute_reserved_concluded s `{!ServerOk s} req qty o tr :
  acks tr = [] ->
  local_records (execute_reserved s "BINANCE" qty req o)
    (fun out sw =>
       finally trace_env (fun _ _ => True) (if sw.1 then Ret () else releaseReservation o)
         (all_concluded s req) out sw.2) (false, tr).
Proof.
  intros Ha. unfold execute_reserved.
  apply records_lift_call. intros [cred|e].
  2: { apply release_concluded. simpl. by rewrite acks_app, Ha. }
  apply records_lift_call. intros [creds|e].
  2: { apply release_concluded. simpl. by rewrite !acks_app, Ha. }
  apply wp_defer, records_lift_call. intros [r|e].
  2: { apply wp_lift. split; [done|]. intros [] tr' ->. apply release_concluded. simpl.
       by rewrite !acks_app, Ha. }
  split; [done|]. intros [] ? ->. apply wp_lift, traces_wp. intros tr' out Ht. apply wp_lift.
  split; [done|]. intros [] tr'' ->. simpl.
  apply record_execution_traces in Ht as (confirmed & fills & fout & -> & Hp & ->).
  unfold finally. cbn [wp snd fst].
  apply acknowledged_concluded; [done|by rewrite !acks_app, Ha|done].
Qed.

(** C27: once the broker has acknowledged an order nothing that follows fails the request.
    The order is confirmed with the id the broker returned, its status (SUBMITTED when
    empty) and - so that no fill counts twice - no quantity when a fill processor is
    wired; the processor then runs exactly once, on exactly the executed quantity and
    average price, if anything was executed; the credentials are wiped; and unless the
    processor panics the answer is the broker's order id and status, whether or not the
    confirmation and the settlement succeeded. *)
Theorem ExecuteTrade_accepted fuel s `{!ServerOk s} req tr out r :
  traces (ExecuteTrade fuel s req) tr out -> r ∈ acks tr -> concluded s req r tr out.
Proof.
  intros Htr. revert r. revert Htr. apply (wp_traces _ (all_concluded s req)).
  unfold ExecuteTrade. destruct (validate_trade req) as [[intent qty]|e]; [|by apply no_acks_concluded].
  assert (resolve_provider s (et_Provider req) = "BINANCE"%string) as ->.
  { unfold resolve_provider, ProviderName. by case_match. }
  apply wp_bind, records_quiet; [done..|]. intros [id|] tr1 H1; [|by apply no_acks_concluded].
  apply wp_bind, records_quiet; [apply reserveOrder_not_place|done|].
  intros [[o [[e|]|e]]|] tr2 H2; try by apply no_acks_concluded.
  by apply wp_with_local, execute_reserved_concluded.
Qed.
End Theorems.
