(* ===== verification/WorkerSpec.v ===== *)
(** * What the fill processor does

    The arithmetic of a fill against exact rational numbers, the calls [ProcessFill]
    makes on each path, and its effect on the orders table. *)

From stdpp Require Import base tactics list strings gmap.
From Stdlib Require Import ZArith QArith Qabs Lia Lqa.
From S2P Require Import Prelude Exec GoStrings Uuid Broker Vault Decimal DecimalSpec.
From S2P Require Import DecimalText Db DbSpec Clients Cache Effects Worker.

#[local] Open Scope Z_scope.
#[local] Open Scope go_scope.

(** Exponents no real quantity or price leaves: a million digits either way. *)
Definition small (d : Decimal) : Prop := - 2 ^ 20 <= d_exp d <= 2 ^ 20.

#[global] Instance small_dec d : Decision (small d).
Proof. unfold small. apply _. Defined.

Lemma small_moderate d : small d -> moderate d.
Proof. unfold small, moderate. lia. Qed.

Lemma small_Mul d d2 :
  small d -> small d2 -> exists m, Mul d d2 = Some m /\ d_exp m = d_exp d + d_exp d2 /\
    (dval m == dval d * dval d2)%Q.
Proof.
  intros H1 H2. destruct (Mul_defined d d2) as [m Hm].
  { unfold small, in_i32, MinInt32, MaxInt32 in *. lia. }
  exists m. split; [done|]. split; [|by apply Mul_dval].
  unfold Mul in Hm. destruct (_ || _); [done|]. by injection Hm as <-.
Qed.

Section WorkerSpec.
Context `{GoUnicode}.

Definition fill_in_range (order : BrokerOrder) (event : FillEvent) : Prop :=
  small (fe_ExecutedQuantity event) /\ small (fe_FillPrice event) /\
  small (bo_FilledQuantity order) /\ small (bo_AverageFillPrice order).

(** The volume-weighted average of the fills so far and the new one. *)
Definition vwap (order : BrokerOrder) (event : FillEvent) : Q :=
  ((dval (bo_FilledQuantity order) * dval (bo_AverageFillPrice order)
    + dval (fe_ExecutedQuantity event) * dval (fe_FillPrice event))
   / (dval (bo_FilledQuantity order) + dval (fe_ExecutedQuantity event)))%Q.

Lemma fill_status_spec (final : bool) filled target x :
  (dval filled == x)%Q ->
  let st := if final || GreaterThanOrEqual filled target then StatusFilled else StatusPartial in
  (st = StatusFilled <-> final = true \/ (dval target <= x)%Q) /\
  (st = StatusFilled \/ st = StatusPartial).
Proof.
  intros Hx. cbv zeta. rewrite <- Hx, <- GreaterThanOrEqual_spec, <- orb_true_iff.
  destruct (_ || _); split; auto; split; done.
Qed.

Lemma fill_update_spec order event :
  fill_in_range order event ->
  (0 < dval (fe_ExecutedQuantity event))%Q -> (0 <= dval (bo_FilledQuantity order))%Q ->
  exists u, fill_update order event = Some u /\
    (dval (fu_exactFiatValue u)
       == dval (fe_ExecutedQuantity event) * dval (fe_FillPrice event))%Q /\
    (dval (fu_newFilledQty u)
       == dval (bo_FilledQuantity order) + dval (fe_ExecutedQuantity event))%Q /\
    ((dval (bo_FilledQuantity order) == 0)%Q -> fu_newAvgPrice u = fe_FillPrice event) /\
    ((0 < dval (bo_FilledQuantity order))%Q ->
       d_exp (fu_newAvgPrice u) = -16 /\
       rounds_half_away (vwap order event * p10 16) (d_value (fu_newAvgPrice u))) /\
    (fu_newStatus u = StatusFilled <->
       EqualFold (fe_Status event) StatusFilled = true \/
       (dval (bo_TargetQuantity order)
          <= dval (bo_FilledQuantity order) + dval (fe_ExecutedQuantity event))%Q) /\
    (fu_newStatus u = StatusFilled \/ fu_newStatus u = StatusPartial).
Proof.
  intros (Sq & Sp & Sf & Sa) Hq Hf. unfold fill_update.
  destruct (small_Mul _ _ Sq Sp) as (fiat & -> & Efiat & Vfiat).
  set (filled' := Add (bo_FilledQuantity order) (fe_ExecutedQuantity event)).
  assert (dval filled' == dval (bo_FilledQuantity order) + dval (fe_ExecutedQuantity event))%Q
    as Vfilled by apply Add_dval.
  pose proof (fill_status_spec (EqualFold (fe_Status event) StatusFilled) filled'
    (bo_TargetQuantity order) _ Vfilled) as Hst.
  destruct (IsZero (bo_FilledQuantity order)) eqn:Ez.
  - apply IsZero_spec in Ez. eexists. split; [reflexivity|]. simpl.
    split; [done|]. split; [done|]. split; [done|]. split; [lra|exact Hst].
  - assert (~ (dval (bo_FilledQuantity order) == 0)%Q) as Hnz.
    { intros E. apply IsZero_spec in E. congruence. }
    destruct (small_Mul _ _ Sf Sa) as (prev & -> & Eprev & Vprev).
    destruct (Div_spec (Add prev fiat) filled') as (avg & -> & Eavg & Ravg).
    { unfold moderate, small in *. rewrite Add_exp. lia. }
    { unfold moderate, small in *. unfold filled'. rewrite Add_exp. lia. }
    { apply dval_nonzero. rewrite Vfilled. lra. }
    eexists. split; [reflexivity|]. simpl.
    split; [done|]. split; [done|]. split; [done|].
    split; [|exact Hst].
    intros _. split; [done|].
    by rewrite Add_dval, Vfilled, Vprev, Vfiat in Ravg.
Qed.

Lemma fill_update_defined order event :
  small (fe_ExecutedQuantity event) -> small (fe_FillPrice event) ->
  (0 < dval (fe_ExecutedQuantity event))%Q ->
  small (bo_FilledQuantity order) -> small (bo_AverageFillPrice order) ->
  (0 <= dval (bo_FilledQuantity order))%Q -> exists u, fill_update order event = Some u.
Proof.
  intros Sq Sp Hq Sf Sa Hf. destruct (fill_update_spec order event) as (u & Hu & _); [by split|done..|].
  eauto.
Qed.

(** C7: the arithmetic of a fill is exact but for one rounding.  The fiat value is the
    product and the new cumulative quantity the sum, without any loss; the new average
    price is the fill price on a first fill, and otherwise the volume-weighted average
    rounded half away from zero at 16 places; the order is FILLED exactly when the
    event says so or the target is reached, and PARTIAL otherwise; nothing panics. *)
Theorem fill_update_exact order event :
  fill_in_range order event ->
  (0 < dval (fe_ExecutedQuantity event))%Q -> (0 <= dval (bo_FilledQuantity order))%Q ->
  exists u, fill_update order event = Some u /\
    (dval (fu_exactFiatValue u)
       == dval (fe_ExecutedQuantity event) * dval (fe_FillPrice event))%Q /\
    (dval (fu_newFilledQty u)
       == dval (bo_FilledQuantity order) + dval (fe_ExecutedQuantity event))%Q /\
    ((dval (bo_FilledQuantity order) == 0)%Q -> fu_newAvgPrice u = fe_FillPrice event) /\
    ((0 < dval (bo_FilledQuantity order))%Q ->
       d_exp (fu_newAvgPrice u) = -16 /\
       rounds_half_away (vwap order event * p10 16) (d_value (fu_newAvgPrice u))) /\
    (fu_newStatus u = StatusFilled <->
       EqualFold (fe_Status event) StatusFilled = true \/
       (dval (bo_TargetQuantity order)
          <= dval (bo_FilledQuantity order) + dval (fe_ExecutedQuantity event))%Q) /\
    (fu_newStatus u = StatusFilled \/ fu_newStatus u = StatusPartial).
Proof. apply fill_update_spec. Qed.

Lemma fill_update_exp order event u :
  fill_in_range order event -> fill_update order event = Some u ->
  in_i32 (d_exp (fu_newFilledQty u)).
Proof.
  intros (Sq & _ & Sf & _) Hu. unfold fill_update in Hu.
  repeat case_match; simplify_eq; simpl; rewrite Add_exp;
    unfold small, in_i32, MinInt32, MaxInt32 in *; lia.
Qed.

(** ** The calls of [ProcessFill] *)

Definition valid_fill (event : FillEvent) : Prop :=
  (0 < dval (fe_ExecutedQuantity event))%Q /\ (0 < dval (fe_FillPrice event))%Q.

(** What Ativos is asked to book: the fill's own shares and price, for the order's
    portfolio and intent. *)
Definition books (order : BrokerOrder) (event : FillEvent) (u : FillUpdate)
    (sp : Ativos.SyncExecutionParams) : Prop :=
  Ativos.se_TenantID sp = bo_TenantID order /\
  Ativos.se_PortfolioID sp = bo_PortfolioID order /\
  Ativos.se_TradeIntentID sp = uuid_String (bo_TradeIntentID order) /\
  Ativos.se_Ticker sp = bo_Symbol order /\
  (Ativos.se_Action sp = Ativos.SELL <-> EqualFold (bo_Side order) SideSell = true) /\
  Ativos.se_ExecutedShares sp = fe_ExecutedQuantity event /\
  Ativos.se_ExecutedPrice sp = fe_FillPrice event /\
  Ativos.se_IdempotencyKey sp = fill_key "sync-ativos-" order u.

(** What a capture takes: the fiat value of the fill, from the order's hold - by default
    the one named after the intent - and the rest of the hold is released exactly with
    the last fill. *)
Definition captures (order : BrokerOrder) (event : FillEvent) (u : FillUpdate) (acc : string)
    (cp : Livro.CaptureHoldParams) : Prop :=
  Livro.ch_HoldID cp =
    (if decide (bo_LivroHoldID order = EmptyString) then uuid_String (bo_TradeIntentID order)
     else bo_LivroHoldID order) /\
  (dval (Livro.ch_Amount cp)
     == dval (fe_ExecutedQuantity event) * dval (fe_FillPrice event))%Q /\
  in_i32 (d_exp (Livro.ch_Amount cp)) /\
  Livro.ch_DestinationAccountID cp = acc /\
  Livro.ch_IdempotencyKey cp = fill_key "cap-" order u /\
  (Livro.ch_ReleaseRemainder cp = true <-> fu_newStatus u = StatusFilled).

(** What a credit pays: the fiat value of the fill, in dollars, to the order's user. *)
Definition credits (order : BrokerOrder) (event : FillEvent) (u : FillUpdate)
    (cp : Livro.CreditParams) : Prop :=
  Livro.cr_TenantID cp = bo_TenantID order /\
  Livro.cr_AccountID cp = bo_UserID order /\
  (dval (Livro.cr_Amount cp)
     == dval (fe_ExecutedQuantity event) * dval (fe_FillPrice event))%Q /\
  in_i32 (d_exp (Livro.cr_Amount cp)) /\
  Livro.cr_Currency cp = "USD"%string /\
  Livro.cr_Reference cp = uuid_String (bo_TradeIntentID order) /\
  Livro.cr_IdempotencyKey cp = fill_key "credit-" order u.

Lemma fill_update_fiat order event u :
  fill_update order event = Some u ->
  (dval (fu_exactFiatValue u)
     == dval (fe_ExecutedQuantity event) * dval (fe_FillPrice event))%Q /\
  in_i32 (d_exp (fu_exactFiatValue u)).
Proof.
  intros Hu. unfold fill_update in Hu.
  destruct (Mul (fe_ExecutedQuantity event) (fe_FillPrice event)) as [fiat|] eqn:Em; [|done].
  apply Mul_exp_range in Em as Hr. apply Mul_dval in Em. repeat case_match; by simplify_eq.
Qed.

Lemma sync_params_books order event u : books order event u (sync_params order event u).
Proof. unfold books. simpl. repeat split; try done; by destruct (EqualFold _ _). Qed.

Lemma capture_params_captures order event u acc :
  fill_update order event = Some u -> captures order event u acc (capture_params order u acc).
Proof.
  intros Hu%fill_update_fiat. unfold captures. simpl. split.
  { destruct (String.eqb_spec (bo_LivroHoldID order) ""); by case_decide. }
  destruct Hu. do 4 (split; [done|]). apply String.eqb_eq.
Qed.

Lemma credit_params_credits order event u :
  fill_update order event = Some u -> credits order event u (credit_params order u).
Proof. intros [Hu Hr]%fill_update_fiat. unfold credits. tauto. Qed.

(** The settlement of an accepted fill, by deployment and side: by Ativos alone where it is
    connected; otherwise, where Livro is, a buy by the capture of its hold onto the account
    asked for first, and a sell by a credit; and with neither, or for another side, none. *)
Definition settlement (p : fillProcessor) (order : BrokerOrder) (event : FillEvent)
    (u : FillUpdate) (tr : list (Exec.event Res)) : Prop :=
  if has_ativosClient p then
    exists sp, books order event u sp /\ tr = [ev (AtivosSyncBrokerExecution sp) (Ok tt)]
  else if has_livroClient p then
    if EqualFold (bo_Side order) SideBuy then
      exists acc cp, captures order event u acc cp /\
        tr = [ev (LivroGetOrCreateBrokerAccount (bo_TenantID order)) (Ok acc);
              ev (LivroCaptureHold cp) (Ok tt)]
    else if EqualFold (bo_Side order) SideSell then
      exists cp, credits order event u cp /\ tr = [ev (LivroCredit cp) (Ok tt)]
    else tr = []
  else tr = [].

Lemma settle_trace p order event u tr out :
  fill_update order event = Some u ->
  traces (settle p order event u) tr out ->
  (out = Some (Ok tt) /\ settlement p order event u tr) \/ exists e, out = Some (Err e).
Proof.
  intros Hu. unfold settle, settlement.
  destruct (has_ativosClient p).
  { intros ([[]|e] & tr' & -> & [-> ->]); eauto 8 using sync_params_books. }
  destruct (has_livroClient p); [|by intros [-> ->]; auto].
  destruct (EqualFold (bo_Side order) SideBuy).
  { intros ([acc|e] & tr' & -> & Ht); [|by destruct Ht as [-> ->]; eauto].
    destruct Ht as ([[]|e] & tr2 & -> & [-> ->]); eauto 12 using capture_params_captures. }
  destruct (EqualFold (bo_Side order) SideSell); [|by intros [-> ->]; auto].
  intros ([[]|e] & tr' & -> & [-> ->]); eauto 8 using credit_params_credits.
Qed.

(** The run of a fill that is processed: lookup, settlement, recording. *)
Definition settled_run (p : fillProcessor) (event : FillEvent) (tr : list (Exec.event Res)) : Prop :=
  exists order u settled,
    fill_update order event = Some u /\ settlement p order event u settled /\
    tr = ev (OrdersGetByProviderOrderID (fe_Provider event) (fe_ProviderOrderID event)) (Ok order)
      :: settled ++
      [ev (OrdersUpdateFill (bo_Provider order) (bo_ProviderOrderID order)
             (fu_newStatus u) (fu_newFilledQty u) (fu_newAvgPrice u)) (Ok tt)].

(** A fill that is processed successfully was valid, read one order of the table, was
    settled as [settlement] says, for exactly quantity times price, under the fill's own idempotency key, and was recorded last, with the computed
    quantity, price and status. *)
Lemma ProcessFill_settled p event tr :
  traces (ProcessFill p event) tr (Some (Ok tt)) -> valid_fill event /\ settled_run p event tr.
Proof.
  unfold ProcessFill, valid_fill.
  destruct (LessThanOrEqual (fe_ExecutedQuantity event) Zero) eqn:Eq; [by intros [_ ?]|].
  destruct (LessThanOrEqual (fe_FillPrice event) Zero) eqn:Ep; [by intros [_ ?]|].
  apply LessThanOrEqual_false in Eq, Ep. rewrite Zero_dval in Eq, Ep.
  intros ([order|e] & tr1 & -> & Ht); [|by destruct Ht as [_ ?]]. split; [done|].
  apply traces_or_panic in Ht.
  destruct (fill_update order event) as [u|] eqn:Eu; [|by destruct Ht].
  apply traces_bind in Ht as [(s & tr2 & r & -> & Hs & Ht)|[? ?]]; [|done].
  destruct (settle_trace _ _ _ _ _ _ Eu Hs) as [[[= ->] Hset]|[e [= ->]]]; [|by destruct Ht].
  destruct Ht as ([[]|e] & tr3 & -> & [-> ?]); [|done].
  exists order, u, s. done.
Qed.

(** The recording statement. *)
Definition is_update (op : Op) : bool :=
  match op with OrdersUpdateFill _ _ _ _ _ => true | _ => false end.

Lemma settle_records_nothing p order event u tr out :
  traces (settle p order event u) tr out -> Forall (fun v => negb (is_update (ev_op v)) = true) tr.
Proof.
  apply (traces_calls_only (fun op => negb (is_update op))).
  unfold settle, perform, call. solve_calls_only.
Qed.

(** C29: when [ProcessFill] fails or panics the fill is not recorded: the recording
    statement was never issued, or it was the last call and reported the error that
    [ProcessFill] returns. *)
Theorem ProcessFill_failure p event tr out :
  traces (ProcessFill p event) tr out -> out <> Some (Ok tt) ->
  Forall (fun v => negb (is_update (ev_op v)) = true) tr \/
  exists tr0 provider pid st q pr e,
    tr = tr0 ++ [ev (OrdersUpdateFill provider pid st q pr) (Err e)] /\
    out = Some (Err (ErrWrap "failed to update broker_orders record" e)).
Proof.
  unfold ProcessFill. intros Ht Hout.
  destruct (LessThanOrEqual (fe_ExecutedQuantity event) Zero); [by destruct Ht as [-> _]; left|].
  destruct (LessThanOrEqual (fe_FillPrice event) Zero); [by destruct Ht as [-> _]; left|].
  destruct Ht as ([order|e] & tr1 & -> & Ht); [|destruct Ht as [-> _]; left; by repeat constructor].
  apply traces_or_panic in Ht. destruct (fill_update order event) as [u|];
    [|destruct Ht as [-> _]; left; by repeat constructor].
  apply traces_bind in Ht as [(s & tr2 & r & -> & Hs & Ht)|[Hs ->]].
  - pose proof (settle_records_nothing _ _ _ _ _ _ Hs) as Hno.
    destruct r as [[]|e]; [|destruct Ht as [-> _]; left; rewrite app_nil_r; by constructor].
    destruct Ht as ([[]|e] & tr3 & -> & [-> Ho]); [done|]. right.
    exists (ev (OrdersGetByProviderOrderID (fe_Provider event) (fe_ProviderOrderID event)) (Ok order)
      :: s). do 6 eexists. split; [reflexivity|done].
  - left. constructor; [done|]. by eapply settle_records_nothing.
Qed.

(** ** Idempotency keys *)

Lemma to_String_inj d1 d2 :
  in_i32 (d_exp d1) -> in_i32 (d_exp d2) -> to_String d1 = to_String d2 -> deq d1 d2.
Proof.
  intros H1 H2 He. destruct (to_String_read d1 H1) as (r1 & E1 & D1).
  destruct (to_String_read d2 H2) as (r2 & E2 & D2). rewrite He in E1.
  assert (r1 = r2) as -> by congruence. by rewrite <- D1.
Qed.

(** C32: two settlements of one broker order share an idempotency key only when their
    cumulative quantities are equal as numbers: a later
    fill, which adds to the quantity, can never be mistaken for an earlier one. *)
Theorem fill_key_injective prefix order order' u u' :
  bo_TradeIntentID order' = bo_TradeIntentID order ->
  bo_ProviderOrderID order' = bo_ProviderOrderID order ->
  in_i32 (d_exp (fu_newFilledQty u)) -> in_i32 (d_exp (fu_newFilledQty u')) ->
  fill_key prefix order u = fill_key prefix order' u' ->
  (dval (fu_newFilledQty u) == dval (fu_newFilledQty u'))%Q.
Proof.
  intros Hi Hp Hr Hr' He. unfold fill_key in He. rewrite Hi, Hp in He.
  do 5 apply str_app_inj_l in He. by apply to_String_inj.
Qed.

(** An order after a fill was recorded without loss. *)
Definition recorded (order order' : BrokerOrder) (u : FillUpdate) : Prop :=
  bo_TradeIntentID order' = bo_TradeIntentID order /\
  bo_ProviderOrderID order' = bo_ProviderOrderID order /\
  bo_FilledQuantity order' = fu_newFilledQty u.

(** A fill event that is delivered twice is counted twice.  The second delivery
    passes every check, adds its quantity again, and settles under a fresh idempotency
    key, so that no downstream service can recognise it either. *)
Theorem replayed_fill_counts_twice prefix order order' event u :
  fill_in_range order event -> fill_in_range order' event -> valid_fill event ->
  (0 <= dval (bo_FilledQuantity order))%Q ->
  fill_update order event = Some u -> recorded order order' u ->
  exists u', fill_update order' event = Some u' /\
    (dval (fu_newFilledQty u')
       == dval (bo_FilledQuantity order) + 2 * dval (fe_ExecutedQuantity event))%Q /\
    fill_key prefix order' u' <> fill_key prefix order u.
Proof.
  intros Hr Hr' [Hq _] Hf Hu (Hi & Hp & Hfill).
  destruct (fill_update_exact order event Hr Hq Hf) as (u1 & Hu1 & _ & Hn & _).
  assert (u1 = u) as -> by congruence.
  destruct (fill_update_exact order' event Hr' Hq) as (u' & Hu' & _ & Hn' & _).
  { rewrite Hfill, Hn. lra. }
  rewrite Hfill, Hn in Hn'. exists u'. split; [done|]. split; [rewrite Hn'; ring|].
  intros He. symmetry in He. apply fill_key_injective in He; try done.
  - rewrite Hn, Hn' in He. lra.
  - by apply (fill_update_exp order event).
  - by apply (fill_update_exp order' event).
Qed.
End WorkerSpec.
