(* ===== verification/Liveness.v ===== *)
(** * Requests return

    The loop of [reserveOrder] has no bound of its own: it ends because the clock
    advances.  [ClockEnv] is what it relies on; the fuel of the model is then enough
    for every execution, and [ExecuteTrade] always comes back with an answer. *)

From stdpp Require Import base tactics list strings gmap.
From Stdlib Require Import ZArith QArith Lia Lqa.
From S2P Require Import Prelude Exec GoStrings Uuid Broker Vault Decimal DecimalSpec Db Clients Cache.
From S2P Require Import Effects Worker WorkerSpec Service.

#[local] Open Scope Z_scope.
#[local] Open Scope go_scope.

(** Go's monotonic clock: [time.Now] reads it, no call turns it back, and
    [time.After(d)] fires [d] later at the earliest.  Every call returns. *)
Class ClockEnv {W : Type} (H : forall op, W -> Res op -> W -> Prop) (clock : W -> Z) : Prop := {
  clock_read : forall w t w', H TimeNow w t w' -> clock w <= t <= clock w';
  clock_mono : forall op w r w', H op w r w' -> clock w <= clock w';
  clock_timer : forall d w w', H (SelectDoneOrAfter d) w None w' -> clock w + d <= clock w';
  calls_return : forall op w, exists r w', H op w r w';
}.

(** Rounds the reservation loop can make: one at the start, one per poll interval. *)
Definition reserve_fuel (s : PregaoServer) : nat :=
  S (Z.to_nat ((reservationWait s + reservationPoll s - 1) / reservationPoll s)).

Lemma reserve_fuel_enough s :
  0 < reservationPoll s -> 0 <= reservationWait s ->
  reservationWait s <= (Z.of_nat (reserve_fuel s) - 1) * reservationPoll s.
Proof.
  intros Hp Hw. unfold reserve_fuel.
  pose proof (Z.div_pos (reservationWait s + reservationPoll s - 1) (reservationPoll s)).
  pose proof (Z_div_mod_eq_full (reservationWait s + reservationPoll s - 1) (reservationPoll s)).
  pose proof (Z.mod_pos_bound (reservationWait s + reservationPoll s - 1) (reservationPoll s)).
  lia.
Qed.

(** A completed execution survives a change of the continuation that keeps the
    completed executions of the continuation. *)
Lemma exec_bind_some {Op : Type} {Res : Op -> Type} {W A B : Type}
    (H : forall op, W -> Res op -> W -> Prop) (p : prog Res A) (f g : A -> prog Res B) w b w' :
  (forall a w1, exec H (f a) w1 (Some b) w' -> exec H (g a) w1 (Some b) w') ->
  exec H (bind p f) w (Some b) w' -> exec H (bind p g) w (Some b) w'.
Proof. intros Hfg. revert w. induction p as [a|m|op k IH u IHu]; intros w; simpl; naive_solver. Qed.

(** In an environment where every call returns, a program has an execution. *)
Lemma exec_total {Op : Type} {Res : Op -> Type} {W A : Type}
    (H : forall op, W -> Res op -> W -> Prop) (p : prog Res A) w :
  (forall op w, exists r w', H op w r w') -> exists o w', exec H p w o w'.
Proof.
  intros Ht. revert w. induction p as [a|m|op k IH u IHu]; intros w; simpl; [eauto..|].
  destruct (Ht op w) as (r & w1 & Hr). destruct (IH r w1) as (o & w' & He). eauto 10.
Qed.

(** A trade intent that another request is executing.  Up to [T] its order is PENDING, and
    from then on its row is [result]; the database answers, no call but the timer
    takes longer than [delay], and the waiting request is not canceled. *)
Definition is_timer (op : Op) : bool :=
  match op with SelectDoneOrAfter _ => true | _ => false end.

Class SettlesAt {W : Type} (H : forall op, W -> Res op -> W -> Prop) (clock : W -> Z)
    (intent : UUID) (result : BrokerOrder) (T delay : Z) : Prop := {
  settles_status : bo_Status result <> StatusPending;
  settles_delay : forall op w r w', is_timer op = false -> H op w r w' -> clock w' <= clock w + delay;
  settles_taken : forall o w r w', bo_TradeIntentID o = intent -> H (OrdersReserve o) w r w' ->
    r.2 = Ok false /\ bo_TradeIntentID r.1 = intent;
  settles_lookup : forall w r w', H (OrdersGetByIntent intent) w r w' ->
    r = Ok result \/
    (clock w < T /\ exists o, r = Ok o /\ bo_Status o = StatusPending);
  settles_wait : forall d w r w', H (SelectDoneOrAfter d) w r w' -> r = None;
}.

(** The amounts that reach the fill processor have exponents of at most seven digits - Go's
    decimals panic near the ends of [int32] - and no row has a negative filled quantity:
    what the exchange reports is a plain number, a NUMERIC column has 28 digits, and fills
    only add to it. *)
Class PlainAmounts {W : Type} (H : forall op, W -> Res op -> W -> Prop) : Prop := {
  plain_result : forall creds mo w r w', H (BrokerPlaceMarketOrder creds mo) w (Ok r) w' ->
    small (or_ExecutedQuantity r) /\ small (or_AveragePrice r);
  plain_row : forall provider pid w o w', H (OrdersGetByProviderOrderID provider pid) w (Ok o) w' ->
    small (bo_FilledQuantity o) /\ small (bo_AverageFillPrice o) /\
    (0 <= dval (bo_FilledQuantity o))%Q;
}.

Section Liveness.
Context `{GoUnicode} {W : Type} (H0 : forall op, W -> Res op -> W -> Prop) (clock : W -> Z).

(** Fuel only matters to executions that run out of it. *)
Lemma reserve_loop_fuel fuel s deadline order w r w' :
  exec H0 (reserve_loop fuel s deadline order) w (Some r) w' ->
  exec H0 (reserve_loop (S fuel) s deadline order) w (Some r) w'.
Proof.
  revert order w. induction fuel as [|fuel IH]; intros order w; [by intros [? _]|].
  cbn [reserve_loop]. apply exec_bind_some. intros [order' [[]|e]] w1; try done.
  apply exec_bind_some. intros ex w2. destruct (existing_verdict ex); [done|].
  apply exec_bind_some. intros now w3. destruct (negb (now <? deadline)); [done|].
  apply exec_bind_some. intros [e|] w4; [done|]. apply IH.
Qed.

Context `{!ClockEnv H0 clock}.

Abbreviation returns p := (wp H0 anything p (fun o _ => is_Some o)).

Lemma ret_returns {A} (a : A) w : returns (Ret (Res := Res) a) w.
Proof. simpl. eauto. Qed.

Lemma wp_perform {A} op (k : Res op -> service A) Q w :
  (forall r w', H0 op w r w' -> wp H0 anything (k r) Q w') ->
  wp H0 anything (bind (perform op) k) Q w.
Proof. intros Hk. split; [done|]. exact Hk. Qed.

(** One call cannot lose time. *)
Lemma call_advances {A} op (k : Res op -> service A) Q w :
  (forall r w', clock w <= clock w' -> wp H0 anything (k r) Q w') ->
  wp H0 anything (bind (perform op) k) Q w.
Proof. intros Hk. split; [done|]. intros r w' Hr. apply Hk. by eapply clock_mono. Qed.

Lemma find_existing_returns order w :
  wp H0 anything (find_existing order) (fun o w' => is_Some o /\ clock w <= clock w') w.
Proof.
  apply call_advances. intros r w1 Hw1.
  destruct (not_found r && negb (String.eqb (bo_IdempotencyKey order) "")).
  - split; [done|]. intros r' w2 Hr'. apply clock_mono in Hr'. split; [eauto|]. lia.
  - split; eauto.
Qed.

Lemma reserve_loop_returns fuel s deadline order w :
  0 < reservationPoll s -> (1 <= fuel)%nat ->
  deadline - clock w <= (Z.of_nat fuel - 1) * reservationPoll s ->
  returns (reserve_loop fuel s deadline order) w.
Proof.
  intros Hp. revert order w. induction fuel as [|fuel IH]; intros order w Hf Hd; [lia|].
  cbn [reserve_loop]. apply call_advances. intros [order' reserved] w1 Hw1.
  destruct reserved as [[]|e]; [apply ret_returns| |apply ret_returns].
  apply wp_bind. eapply wp_mono; [apply find_existing_returns|].
  intros o w2 [[ex ->] Hw2]. destruct (existing_verdict ex); [apply ret_returns|].
  apply wp_perform. intros now w3 Hnow. apply clock_read in Hnow.
  destruct (Z.ltb_spec now deadline) as [Hlt|Hge]; [|apply ret_returns].
  apply wp_perform. intros [e|] w4 Hsel; [apply ret_returns|]. apply clock_timer in Hsel.
  destruct fuel as [|fuel]; [lia|]. apply IH; lia.
Qed.

Lemma reserveOrder_wp_returns fuel s order w :
  0 < reservationPoll s -> 0 <= reservationWait s -> (reserve_fuel s <= fuel)%nat ->
  returns (reserveOrder fuel s order) w.
Proof.
  intros Hp Hw Hf. split; [done|]. intros now w1 Hnow. apply clock_read in Hnow.
  pose proof (reserve_fuel_enough s Hp Hw).
  apply reserve_loop_returns; [done|unfold reserve_fuel in *; lia|nia].
Qed.

(** Answering is all that is asked of a call here. *)
Lemma answer_step {A} op (k : Res op -> service A) w :
  (forall r v, returns (k r) v) -> returns (bind (perform op) k) w.
Proof. intros Hk. split; [done|]. intros r v _. apply Hk. Qed.

(** C25: [reserveOrder] returns.  In an environment with a clock that advances, the fuel
    [reserve_fuel], one round per poll interval of the wait, is enough: an execution
    exists, every execution returns, and the ones of a larger fuel are the same. *)
Theorem reserveOrder_returns s order w extra :
  0 < reservationPoll s -> 0 <= reservationWait s ->
  (exists r w', exec H0 (reserveOrder (reserve_fuel s) s order) w (Some r) w') /\
  (forall o w', exec H0 (reserveOrder (reserve_fuel s) s order) w o w' ->
     is_Some o /\ exec H0 (reserveOrder (extra + reserve_fuel s) s order) w o w').
Proof.
  intros Hp Hw.
  assert (forall o w', exec H0 (reserveOrder (reserve_fuel s) s order) w o w' -> is_Some o)
    as Hret.
  { intros o w'. apply (wp_sound H0 anything _ (fun o _ => is_Some o)).
    by apply reserveOrder_wp_returns. }
  split.
  - destruct (exec_total H0 (reserveOrder (reserve_fuel s) s order) w) as (o & w' & He).
    { apply calls_return. }
    destruct (Hret o w' He) as [r ->]. eauto.
  - intros o w' He. destruct (Hret o w' He) as [r ->]. split; [eauto|].
    induction extra as [|n IH]; [done|]. eapply exec_bind_some; [|exact IH].
    intros now w1. apply reserve_loop_fuel.
Qed.

(** ** With the fill processor *)

Section Processor.
Context `{!PlainAmounts H0}.

Lemma settle_returns p order event u w : returns (settle p order event u) w.
Proof.
  unfold settle. destruct (has_ativosClient p).
  { apply answer_step. intros [[]|e] v; apply ret_returns. }
  destruct (has_livroClient p); [|apply ret_returns].
  destruct (EqualFold _ SideBuy).
  { apply answer_step. intros [acc|e] v; [|apply ret_returns].
    apply answer_step. intros [[]|e] v'; apply ret_returns. }
  destruct (EqualFold _ SideSell); [|apply ret_returns].
  apply answer_step. intros [[]|e] v; apply ret_returns.
Qed.

(** The processor does not panic on amounts in range. *)
Lemma ProcessFill_returns p event w :
  small (fe_ExecutedQuantity event) -> small (fe_FillPrice event) ->
  returns (ProcessFill p event) w.
Proof.
  intros Sq Sp. unfold ProcessFill.
  destruct (LessThanOrEqual (fe_ExecutedQuantity event) Zero) eqn:Eq; [apply ret_returns|].
  destruct (LessThanOrEqual (fe_FillPrice event) Zero); [apply ret_returns|].
  apply LessThanOrEqual_false in Eq. rewrite Zero_dval in Eq.
  apply wp_perform. intros [order|e] w1 Hr; [|apply ret_returns].
  apply plain_row in Hr as (Sf & Sa & Hf).
  destruct (fill_update_defined order event) as [u ->]; [done..|]. cbn [or_panic bind].
  apply wp_bind. eapply wp_mono; [apply settle_returns|]. intros o w2 [[[]|e] ->]; [|apply ret_returns].
  apply answer_step. intros [[]|e] v; apply ret_returns.
Qed.

Context (s : PregaoServer) (p : option fillProcessor).
Context (Hprocessor : fillProcessor_ s = option_map ProcessFill p).

Lemma record_execution_returns provider req order r w :
  small (or_ExecutedQuantity r) -> small (or_AveragePrice r) ->
  returns (record_execution s provider req order r) w.
Proof.
  intros Sq Sp. unfold record_execution. destruct (confirm_amounts s r).
  apply answer_step. intros _ v. apply wp_bind. rewrite Hprocessor.
  destruct p as [p'|]; [|apply ret_returns]. cbn [option_map].
  destruct (IsPositive _); [|apply ret_returns]. apply wp_bind.
  eapply wp_mono; [by apply ProcessFill_returns|]. intros o v' [a ->]. apply ret_returns.
Qed.

Lemma execute_reserved_returns provider qty req order d w :
  wp (local_env H0) (local_allowed anything) (execute_reserved s provider qty req order)
    (fun o _ => is_Some o) (d, w).
Proof.
  unfold execute_reserved.
  apply wp_bind, wp_lift. split; [done|]. intros [cred|e] w1 _; [|simpl; eauto].
  apply wp_bind, wp_lift. split; [done|]. intros [c|e] w2 _; [|simpl; eauto].
  apply wp_defer, wp_bind, wp_lift. split; [done|]. intros [r|e] w3 Hr.
  - apply plain_result in Hr as [Sq Sp].
    split; [done|]. intros u dw ->. apply wp_lift.
    eapply wp_mono; [by apply record_execution_returns|]. intros o w4 [a ->].
    apply wp_lift. split; [done|]. intros u' w5 _. simpl; eauto.
  - apply wp_lift. split; [done|]. intros u' w5 _. simpl; eauto.
Qed.

Lemma ExecuteTrade_wp_returns req w :
  0 < reservationPoll s -> 0 <= reservationWait s ->
  returns (ExecuteTrade (reserve_fuel s) s req) w.
Proof.
  intros Hp Hw. unfold ExecuteTrade.
  destruct (validate_trade req) as [[intent qty]|e]; [|apply ret_returns].
  apply answer_step. intros id v. apply wp_bind.
  eapply wp_mono; [by apply reserveOrder_wp_returns|].
  intros o v1 [[order [[ex|]|e]] ->]; [simpl; eauto| |simpl; eauto].
  apply wp_with_local. eapply wp_mono; [apply execute_reserved_returns|].
  intros out [[] v2] [resp ->]; unfold finally; [simpl; eauto|].
  split; [done|]. intros u v3 _. simpl. eauto.
Qed.

(** C26: [ExecuteTrade] always answers.  With that fuel no execution gets stuck or panics,
    whatever the order's state in the table and whatever the collaborators answer: neither
    the handler nor the fill processor it calls, as long as the amounts the exchange
    reports and the rows hold are plain numbers. *)
Theorem ExecuteTrade_returns req w :
  0 < reservationPoll s -> 0 <= reservationWait s ->
  (exists resp w', exec H0 (ExecuteTrade (reserve_fuel s) s req) w (Some resp) w') /\
  (forall o w', exec H0 (ExecuteTrade (reserve_fuel s) s req) w o w' -> is_Some o).
Proof.
  intros Hp Hw.
  assert (forall o w', exec H0 (ExecuteTrade (reserve_fuel s) s req) w o w' -> is_Some o)
    as Hret.
  { intros o w'. apply (wp_sound H0 anything _ (fun o _ => is_Some o)).
    by apply ExecuteTrade_wp_returns. }
  split; [|exact Hret].
  destruct (exec_total H0 (ExecuteTrade (reserve_fuel s) s req) w) as (o & w' & He).
  { apply calls_return. }
  destruct (Hret o w' He) as [r ->]. eauto.
Qed.
End Processor.

(** ** A duplicate is answered *)

Section Duplicate.
Context (intent : UUID) (result : BrokerOrder) (T delay : Z).
Context `{!SettlesAt H0 clock intent result T delay}.

Lemma reserve_loop_answers fuel s deadline order w :
  0 < reservationPoll s -> bo_TradeIntentID order = intent ->
  T + 2 * delay <= deadline -> (1 <= fuel)%nat ->
  T - clock w <= (Z.of_nat fuel - 1) * reservationPoll s ->
  wp H0 anything (reserve_loop fuel s deadline order)
    (fun o _ => exists order', o = Some (order', Ok (Some result))) w.
Proof.
  intros Hp. revert order w. induction fuel as [|fuel IH]; intros order w Ho Hd Hf Ht; [lia|].
  cbn [reserve_loop]. apply wp_perform. intros [order' reserved] w1 Hr.
  apply clock_mono in Hr as Hw1. apply settles_taken in Hr as [Hres Ho']; [|done].
  simpl in Hres, Ho'. subst reserved.
  unfold find_existing. rewrite Ho'. apply wp_bind, wp_perform. intros r w2 Hl.
  apply clock_mono in Hl as Hw2. apply settles_delay in Hl as Hw2'; [|done].
  apply settles_lookup in Hl as [->|(Hlt & o & -> & Hst)]; simpl not_found; cbn [andb wp].
  - unfold existing_verdict. destruct (String.eqb_spec (bo_Status result) StatusPending) as [E|].
    + by apply (settles_status (T := T)) in E.
    + simpl. eauto.
  - unfold existing_verdict. rewrite Hst, (proj2 (String.eqb_eq _ _) eq_refl).
    apply wp_perform. intros now w3 Hn. apply settles_delay in Hn as Hw3; [|done].
    apply clock_read in Hn. destruct (Z.ltb_spec now deadline) as [_|]; [|lia].
    apply wp_perform. intros sel w4 Hs. apply settles_wait in Hs as E. subst sel.
    apply clock_timer in Hs. destruct fuel as [|fuel]; [lia|]. by apply IH; try lia.
Qed.

(** C16: a duplicate is answered.  A request for an intent that another request is executing waits,
    and once the other one has recorded its order - early enough that
    two calls of the waiting request fit before its deadline - it is answered with that
    order's id and status: an execution exists and all of them end so. *)
Theorem duplicate_is_answered s req qty w :
  0 < reservationPoll s -> 0 <= reservationWait s ->
  validate_trade req = Ok (intent, qty) ->
  T + 2 * delay <= clock w + reservationWait s ->
  let answer := {| er_ProviderOrderId := bo_ProviderOrderID result;
                   er_Status := bo_Status result |} in
  (exists w', exec H0 (ExecuteTrade (reserve_fuel s) s req) w (Some (Ok answer)) w') /\
  (forall o w', exec H0 (ExecuteTrade (reserve_fuel s) s req) w o w' -> o = Some (Ok answer)).
Proof.
  intros Hp Hw Hv Ht answer.
  assert (forall o w', exec H0 (ExecuteTrade (reserve_fuel s) s req) w o w' ->
    o = Some (Ok answer)) as Hall.
  { intros o w'. apply (wp_sound H0 anything _ (fun o _ => o = Some (Ok answer))).
    unfold ExecuteTrade. rewrite Hv. apply call_advances. intros id w1 Hw1.
    apply wp_bind. unfold reserveOrder. apply wp_perform. intros now w2 Hn.
    apply clock_read in Hn. eapply wp_mono; [apply reserve_loop_answers|].
    - done.
    - done.
    - lia.
    - unfold reserve_fuel. lia.
    - pose proof (reserve_fuel_enough s Hp Hw).
      assert (0 <= delay).
      { destruct (calls_return TimeNow w) as (r & w3 & Hr). pose proof Hr as Hm.
        apply clock_mono in Hm. apply (settles_delay (T := T)) in Hr; [lia|done]. }
      lia.
    - by intros o' w3 [order' ->]. }
  split; [|exact Hall].
  destruct (exec_total H0 (ExecuteTrade (reserve_fuel s) s req) w) as (o & w' & He).
  { apply calls_return. }
  rewrite (Hall o w' He) in He. eauto.
Qed.
End Duplicate.
End Liveness.
