(* ===== verification/Concurrency.v ===== *)
(** * Concurrent requests, replicas and crashes

    A system is the shared [broker_orders] table, the orders the broker has executed and
    any number of threads - [ExecuteTrade] requests on any replica and fill events of the
    webhook - whose calls interleave freely.  A database statement may fail before or
    after it took effect, a broker call may fail, any call may panic - the deferred calls of
    its thread follow - and a thread may die between two calls.
    The invariant ties the phase each thread is in to the row it owns. *)

From stdpp Require Import base tactics list strings gmap relations functions.
From Stdlib Require Import ZArith QArith Lia.
From S2P Require Import Prelude Exec GoStrings Uuid Broker Vault Decimal DecimalSpec Db DbSpec.
From S2P Require Import Clients Cache Effects Worker Service TradeProtocol.

#[local] Open Scope go_scope.

(** ** The system *)

(** A thread serves a trade request or, with no request, applies a fill event. *)
Record Thread := {
  th_request : option ExecuteTradeRequest;
  th_code : service unit;
}.

Record System := {
  sys_orders : OrderTable;
  sys_executed : list ExecuteTradeRequest;
  sys_threads : list Thread;
}.

Section Concurrency.
Context `{GoUnicode} `{PgTypes}.

(** The environment of a thread.  [lossy] lets the broker execute an order and the
    acknowledgement be lost: [PlaceMarketOrder] then reports an error. *)
Definition shared_env (lossy : bool) (req : option ExecuteTradeRequest) (op : Op)
    : (OrderTable * list ExecuteTradeRequest) -> Res op ->
      (OrderTable * list ExecuteTradeRequest) -> Prop :=
  let E := (OrderTable * list ExecuteTradeRequest)%type in
  match op return E -> Res op -> E -> Prop with
  | OrdersReserve o => fun e r e' => exists f fresh now,
      ReserveOrder f fresh now o e.1 = (r, e'.1) /\ e'.2 = e.2
  | OrdersGetByIntent i => fun e r e' => exists f c,
      r = GetOrderByIntentID f c i e.1 /\ e' = e
  | OrdersGetByIdempotencyKey tenant key => fun e r e' => exists f c,
      r = GetOrderByIdempotencyKey f c tenant key e.1 /\ e' = e
  | OrdersGetByProviderOrderID provider pid => fun e r e' => exists f c,
      r = GetOrderByProviderOrderID f c provider pid e.1 /\ e' = e
  | OrdersConfirm id pid status q p => fun e r e' => exists f now,
      ConfirmOrder f now id pid status q p e.1 = (r, e'.1) /\ e'.2 = e.2
  | OrdersRelease id => fun e r e' => exists f,
      ReleaseOrder f id e.1 = (r, e'.1) /\ e'.2 = e.2
  | OrdersUpdateFill provider pid status q p => fun e r e' => exists f now,
      UpdateOrderFill f now provider pid status q p e.1 = (r, e'.1) /\ e'.2 = e.2
  | BrokerPlaceMarketOrder _ _ => fun e (r : Result OrderResult) e' =>
      e'.1 = e.1 /\
      match r with
      | Ok _ => e'.2 = option_list req ++ e.2
      | Err _ => e'.2 = e.2 \/ (lossy = true /\ e'.2 = option_list req ++ e.2)
      end
  | _ => fun e _ e' => e' = e
  end.

(** A call that panics has taken effect, or it has not. *)
Definition shared_panics (lossy : bool) (req : option ExecuteTradeRequest) (op : Op)
    (e e' : OrderTable * list ExecuteTradeRequest) : Prop :=
  match op with
  | BrokerPlaceMarketOrder _ _ =>
      e'.1 = e.1 /\ (e'.2 = e.2 \/ (lossy = true /\ e'.2 = option_list req ++ e.2))
  | _ => e' = e \/ exists r, shared_env lossy req op e r e'
  end.

(** A request thread; its answer goes to the caller. *)
Definition trade_thread (fuel : nat) (s : PregaoServer) (req : ExecuteTradeRequest) : Thread :=
  {| th_request := Some req; th_code := ExecuteTrade fuel s req ;;; Ret tt |}.

Definition fill_thread (f : FillEvent -> service (Result unit)) (e : FillEvent) : Thread :=
  {| th_request := None; th_code := f e ;;; Ret tt |}.

Definition dead_thread (th : Thread) : Thread :=
  {| th_request := th_request th; th_code := Ret tt |}.

Inductive step (lossy : bool) : System -> System -> Prop :=
  | step_call sys i req op k u r e' :
      sys_threads sys !! i = Some {| th_request := req; th_code := Call op k u |} ->
      shared_env lossy req op (sys_orders sys, sys_executed sys) r e' ->
      step lossy sys
        {| sys_orders := e'.1; sys_executed := e'.2;
           sys_threads := <[i := {| th_request := req; th_code := k r |}]> (sys_threads sys) |}
  | step_panic sys i req op k u e' :
      sys_threads sys !! i = Some {| th_request := req; th_code := Call op k u |} ->
      shared_panics lossy req op (sys_orders sys, sys_executed sys) e' ->
      step lossy sys
        {| sys_orders := e'.1; sys_executed := e'.2;
           sys_threads := <[i := {| th_request := req; th_code := u |}]> (sys_threads sys) |}
  | step_trade sys fuel s req :
      ServerOk s ->
      step lossy sys
        {| sys_orders := sys_orders sys; sys_executed := sys_executed sys;
           sys_threads := sys_threads sys ++ [trade_thread fuel s req] |}
  | step_fill sys f e :
      FillProcessorOk f ->
      step lossy sys
        {| sys_orders := sys_orders sys; sys_executed := sys_executed sys;
           sys_threads := sys_threads sys ++ [fill_thread f e] |}
  | step_crash sys i th :
      sys_threads sys !! i = Some th ->
      step lossy sys
        {| sys_orders := sys_orders sys; sys_executed := sys_executed sys;
           sys_threads := <[i := dead_thread th]> (sys_threads sys) |}.

Definition initial : System :=
  {| sys_orders := ∅; sys_executed := []; sys_threads := [] |}.

Definition reachable (lossy : bool) (sys : System) : Prop := rtc (step lossy) initial sys.

(** What identifies the trade of a request. *)
Definition request_intent (req : ExecuteTradeRequest) : option UUID :=
  fst <$> valid_trade req.

Definition request_key (req : ExecuteTradeRequest) : option (string * string) :=
  if String.eqb (et_IdempotencyKey req) "" then None
  else Some (et_TenantId req, et_IdempotencyKey req).

(** ** The invariant *)

(** The reservation a thread may still give back. *)
Definition holds (ph : TradePhase) : option BrokerOrder :=
  match ph with Held o | Failing o _ | Dying o => Some o | _ => None end.

Definition thread_ok (th : Thread) (ph : TradePhase) : Prop :=
  match th_request th with
  | Some req =>
      (exists s, keeps_protocol s req (th_code th) (fun _ _ => True) ph) /\
      (forall o, holds ph = Some o -> order_for req o = true)
  | None => calls_only fill_op (th_code th) /\ holds ph = None
  end.

Record system_ok (sys : System) (phases : nat -> TradePhase) : Prop := {
  sok_table : table_ok (sys_orders sys);
  sok_threads : forall i th, sys_threads sys !! i = Some th -> thread_ok th (phases i);
  sok_fresh : forall i, (length (sys_threads sys) <= i)%nat -> phases i = Idle;
  sok_held : forall i o, holds (phases i) = Some o -> anchored (sys_orders sys) o;
  sok_distinct : forall i j o o', holds (phases i) = Some o -> holds (phases j) = Some o' ->
    bo_ID o = bo_ID o' -> i = j;
  sok_executed : forall req, req ∈ sys_executed sys -> exists o,
    order_for req o = true /\ anchored (sys_orders sys) o /\
    forall i o', holds (phases i) = Some o' -> bo_ID o' <> bo_ID o;
  sok_intents : NoDup (map request_intent (sys_executed sys));
  sok_keys : NoDup (omap request_key (sys_executed sys));
}.

(** ** Lemmas *)

Context `{!PgTypesLaws}.

Lemma anchored_keeps except t t' o :
  keeps_rows except t t' -> except <> Some (bo_ID o) -> anchored t o -> anchored t' o.
Proof.
  intros Hk Hne (r0 & r & Hs & Hr & Hr0). destruct (Hk _ r Hr Hne) as (r' & Hr' & Hs').
  exists r0, r'. split; [done|]. split; [done|]. by etrans.
Qed.

(** The key of an order, as the request gave it. *)
Definition order_key (o : BrokerOrder) : option (string * string) :=
  if String.eqb (bo_IdempotencyKey o) "" then None else Some (bo_TenantID o, bo_IdempotencyKey o).

Lemma order_for_request req o :
  order_for req o = true ->
  request_intent req = Some (bo_TradeIntentID o) /\ request_key req = order_key o.
Proof.
  intros (intent & qty & [Hv <- _ Ht _ _ _ Hk _ _ _ _])%order_for_data.
  unfold request_intent, request_key, order_key. by rewrite Hv, Ht, Hk.
Qed.

Lemma order_key_stored o r k :
  stored o r -> order_key o = Some k -> is_Some (order_idem_key o).
Proof.
  intros [] Hk. destruct st_key as (k' & _ & E). unfold order_idem_key. rewrite st_tenant, E.
  cbn [mbind option_bind]. destruct (String.eqb_spec k' "") as [->|]; [|done].
  unfold varchar in E. apply character_empty in E; [|done]. unfold order_key in Hk. by rewrite E in Hk.
Qed.

Lemma order_key_data o k : order_key o = Some k -> bo_TenantID o = k.1 /\ bo_IdempotencyKey o = k.2.
Proof. unfold order_key. destruct (String.eqb _ _); [done|]. by intros [= <-]. Qed.

(** The constraints keep two orders of one trade apart. *)
Lemma anchored_same t o o' :
  table_ok t -> anchored t o -> anchored t o' ->
  bo_TradeIntentID o = bo_TradeIntentID o' \/ (exists k, order_key o = Some k /\ order_key o' = Some k) ->
  bo_ID o = bo_ID o'.
Proof.
  intros Hok Ha Ha'. pose proof Ha as (r0 & _ & Hs & _).
  destruct (anchored_unique _ _ Ha) as (r & Hr & Hi & Hk), (anchored_unique _ _ Ha') as (r' & Hr' & Hi' & Hk').
  intros [He|(k & E & E')].
  - eapply (ok_intent _ Hok); [exact Hr|exact Hr'|congruence].
  - destruct (order_key_stored _ _ _ Hs E) as [k1 Ek].
    eapply (ok_idem _ Hok _ _ _ _ k1 Hr Hr'); [congruence|].
    rewrite Hk', <- Ek. unfold order_idem_key.
    by destruct (order_key_data _ _ E) as [-> ->], (order_key_data _ _ E') as [-> ->].
Qed.

Lemma trade_thread_ok fuel s req : ServerOk s -> thread_ok (trade_thread fuel s req) Idle.
Proof.
  intros Hs. split; [|done]. exists s. simpl th_code. apply pwp_bind.
  eapply pwp_mono; [by apply ExecuteTrade_keeps|]. by intros [?|] ph _.
Qed.

Lemma fill_thread_ok f e : FillProcessorOk f -> thread_ok (fill_thread f e) Idle.
Proof. intros Hf. split; [|done]. apply calls_only_bind; [apply fill_calls|done]. Qed.

Lemma dead_thread_ok th ph : thread_ok th ph -> thread_ok (dead_thread th) ph.
Proof. unfold thread_ok, dead_thread. simpl. destruct (th_request th); naive_solver. Qed.

(** A thread whose held reservation did not change. *)
Lemma holds_insert (phases : nat -> TradePhase) i ph j :
  holds ph = holds (phases i) -> holds ((<[i := ph]> phases) j) = holds (phases j).
Proof.
  intros He. destruct (decide (i = j)) as [<-|Hne].
  - by rewrite fn_lookup_insert.
  - by rewrite fn_lookup_insert_ne.
Qed.

Lemma insert_thread (sys : System) phases i th ph :
  system_ok sys phases -> thread_ok th ph ->
  forall j th', <[i := th]> (sys_threads sys) !! j = Some th' ->
    thread_ok th' ((<[i := ph]> phases) j).
Proof.
  intros Hok Hth j th' Hj. destruct (decide (i = j)) as [<-|Hne].
  - rewrite fn_lookup_insert. apply list_lookup_insert_Some in Hj as [(_ & <- & _)|[? _]]; done.
  - rewrite fn_lookup_insert_ne by done. rewrite list_lookup_insert_ne in Hj by done.
    by apply (sok_threads _ _ Hok).
Qed.

Lemma insert_fresh (sys : System) phases i th th0 ph :
  system_ok sys phases -> sys_threads sys !! i = Some th0 ->
  forall j, (length (<[i := th]> (sys_threads sys)) <= j)%nat -> (<[i := ph]> phases) j = Idle.
Proof.
  intros Hok Hi j. rewrite length_insert. intros Hj.
  rewrite fn_lookup_insert_ne; [by apply (sok_fresh _ _ Hok)|].
  apply lookup_lt_Some in Hi. lia.
Qed.

(** A call that neither takes nor gives up a reservation nor executes an order. *)
Lemma quiet_step sys phases i th0 th ph t' :
  system_ok sys phases -> sys_threads sys !! i = Some th0 -> thread_ok th ph ->
  holds ph = holds (phases i) -> steps_ok None (sys_orders sys) t' ->
  system_ok {| sys_orders := t'; sys_executed := sys_executed sys;
               sys_threads := <[i := th]> (sys_threads sys) |} (<[i := ph]> phases).
Proof.
  intros Hok Hi Hth Hh [Ht Hk]. split; simpl.
  - done.
  - by apply insert_thread.
  - by eapply insert_fresh.
  - intros j o. rewrite holds_insert by done. intros Hj.
    eapply anchored_keeps; [exact Hk|done|]. by eapply (sok_held _ _ Hok).
  - intros j1 j2 o o'. rewrite !holds_insert by done. apply (sok_distinct _ _ Hok).
  - intros req (o & Hreq & Ha & Hno)%(sok_executed _ _ Hok).
    exists o. split; [done|]. split; [by eapply anchored_keeps|].
    intros j o'. rewrite holds_insert by done. apply Hno.
  - apply Hok.
  - apply Hok.
Qed.

(** A reservation is taken. *)
Lemma reserve_step sys phases i th0 th o t' :
  system_ok sys phases -> sys_threads sys !! i = Some th0 -> thread_ok th (Held o) ->
  holds (phases i) = None -> steps_ok None (sys_orders sys) t' ->
  sys_orders sys !! bo_ID o = None -> anchored t' o ->
  system_ok {| sys_orders := t'; sys_executed := sys_executed sys;
               sys_threads := <[i := th]> (sys_threads sys) |} (<[i := Held o]> phases).
Proof.
  intros Hok Hi Hth Hh [Ht Hk] Hnew Hanch.
  assert (forall j o', holds (phases j) = Some o' -> bo_ID o <> bo_ID o') as Hother.
  { intros j o' (r0 & r & _ & Hr & _)%(sok_held _ _ Hok) He. congruence. }
  split; simpl.
  - done.
  - by apply insert_thread.
  - by eapply insert_fresh.
  - intros j o'. destruct (decide (i = j)) as [<-|Hne].
    + rewrite fn_lookup_insert. by intros [= <-].
    + rewrite fn_lookup_insert_ne by done. intros Hj.
      eapply anchored_keeps; [exact Hk|done|]. by eapply (sok_held _ _ Hok).
  - intros j1 j2 o1 o2.
    destruct (decide (i = j1)) as [<-|N1], (decide (i = j2)) as [<-|N2];
      rewrite ?fn_lookup_insert, ?fn_lookup_insert_ne by done; simpl.
    + done.
    + intros [= <-] Hj ?. by destruct (Hother j2 o2).
    + intros Hj [= <-] ?. by destruct (Hother j1 o1).
    + apply (sok_distinct _ _ Hok).
  - intros req (o1 & Hreq & Ha & Hno)%(sok_executed _ _ Hok).
    exists o1. split; [done|]. split; [by eapply anchored_keeps|].
    intros j o'. destruct (decide (i = j)) as [<-|Hne].
    + rewrite fn_lookup_insert. intros [= <-] He. destruct Ha as (r0 & r & _ & Hr & _). congruence.
    + rewrite fn_lookup_insert_ne by done. apply Hno.
  - apply Hok.
  - apply Hok.
Qed.

(** A reservation is given up, for the row may be gone. *)
Lemma release_step sys phases i th0 th ph o t' :
  system_ok sys phases -> sys_threads sys !! i = Some th0 -> thread_ok th ph ->
  holds (phases i) = Some o -> holds ph = None -> steps_ok (Some (bo_ID o)) (sys_orders sys) t' ->
  system_ok {| sys_orders := t'; sys_executed := sys_executed sys;
               sys_threads := <[i := th]> (sys_threads sys) |} (<[i := ph]> phases).
Proof.
  intros Hok Hi Hth Hh Hn [Ht Hk].
  assert (forall j o', holds ((<[i := ph]> phases) j) = Some o' ->
    holds (phases j) = Some o' /\ bo_ID o <> bo_ID o') as Hother.
  { intros j o'. destruct (decide (i = j)) as [<-|Hne].
    - rewrite fn_lookup_insert. by rewrite Hn.
    - rewrite fn_lookup_insert_ne by done. intros Hj. split; [done|]. intros He.
      by apply Hne, (sok_distinct _ _ Hok i j o o'). }
  split; simpl.
  - done.
  - by apply insert_thread.
  - by eapply insert_fresh.
  - intros j o' [Hj Hne]%Hother. eapply anchored_keeps; [exact Hk|congruence|].
    by eapply (sok_held _ _ Hok).
  - intros j1 j2 o1 o2 [E1 _]%Hother [E2 _]%Hother. by apply (sok_distinct _ _ Hok).
  - intros req (o1 & Hreq & Ha & Hno)%(sok_executed _ _ Hok).
    exists o1. split; [done|]. split.
    + eapply anchored_keeps; [exact Hk| |exact Ha]. intros [= He]. by apply (Hno i o).
    + intros j o' [Hj _]%Hother. by apply (Hno j).
  - apply Hok.
  - apply Hok.
Qed.

(** The broker acknowledges the order of a thread. *)
Lemma accept_step sys phases i th0 th ph o req :
  system_ok sys phases -> sys_threads sys !! i = Some th0 -> thread_ok th ph ->
  holds (phases i) = Some o -> holds ph = None -> order_for req o = true ->
  system_ok {| sys_orders := sys_orders sys; sys_executed := req :: sys_executed sys;
               sys_threads := <[i := th]> (sys_threads sys) |} (<[i := ph]> phases).
Proof.
  intros Hok Hi Hth Hh Hn Hfor.
  pose proof (release_step _ _ _ _ _ _ _ (sys_orders sys) Hok Hi Hth Hh Hn) as Hrel.
  destruct Hrel as [R1 R2 R3 R4 R5 R6 R7 R8];
    [split; [apply Hok|apply keeps_rows_refl]|]. simpl in *.
  pose proof (order_for_request _ _ Hfor) as [Hint Hkey].
  pose proof (sok_held _ _ Hok i o Hh) as Hanch.
  assert (forall req', req' ∈ sys_executed sys ->
    request_intent req' <> request_intent req /\
    (forall k, request_key req' = Some k -> request_key req <> Some k)) as Hnew.
  { intros req' (o' & [Hi' Hk']%order_for_request & Ha & Hno)%(sok_executed _ _ Hok). split.
    - rewrite Hi', Hint. intros [= He]. apply (Hno i o Hh).
      eapply anchored_same; eauto using sok_table.
    - intros k Hk Hk2. apply (Hno i o Hh). eapply anchored_same; [by apply Hok|done..|].
      right. exists k. by rewrite <- Hkey, <- Hk'. }
  split; simpl; try done.
  - intros req' [->|Hin]%elem_of_cons; [|by apply R6].
    exists o. split; [done|]. split; [done|].
    intros j o' Hj He. destruct (decide (i = j)) as [<-|Hne].
    + rewrite fn_lookup_insert in Hj. congruence.
    + rewrite fn_lookup_insert_ne in Hj by done.
      by apply Hne, (sok_distinct _ _ Hok i j o o').
  - constructor; [|done]. intros (req' & He & Hin)%list_elem_of_fmap.
    by destruct (Hnew req' Hin).
  - destruct (request_key req) as [k|] eqn:Ek; [|done].
    constructor; [|done]. intros (req' & Hin & He)%list_elem_of_omap.
    by destruct (Hnew req' Hin) as [_ Hx]; apply (Hx k).
Qed.

(** ** Every step keeps the invariant *)

Lemma steps_ok_refl t : table_ok t -> steps_ok None t t.
Proof. split; [done|apply keeps_rows_refl]. Qed.

(** A reservation a thread holds after a call belongs to its request. *)
Lemma next_holds s req op ph r :
  trade_permits s req op ph = true -> trade_answers op r ->
  (forall o, holds ph = Some o -> order_for req o = true) ->
  forall o, holds (trade_next op ph r) = Some o -> order_for req o = true.
Proof.
  destruct op, ph; try discriminate; simpl; intros Hp Ha Hh o1 Ho; try done; auto.
  - destruct r as [[]|]; done.
  - destruct Ha as (fresh & now & Ha). destruct r as [o' [[]|e]]; simplify_eq/=.
    by apply order_for_prepare.
  - unfold after_lookup in Ho. by repeat case_match.
  - unfold after_lookup in Ho. by repeat case_match.
  - destruct r; simplify_eq/=; auto.
  - destruct r; simplify_eq/=; auto.
  - destruct r; simplify_eq/=; auto.
Qed.

(** The table answers as the protocol expects. *)
Lemma shared_answers lossy req op e r e' : shared_env lossy req op e r e' -> trade_answers op r.
Proof.
  destruct op; simpl; try done. intros (f & fresh & now & Hr & _).
  exists fresh, now. unfold ReserveOrder in Hr.
  destruct (db_exec f _ e.1) as [[n|err] t']; by injection Hr as <- ?.
Qed.

(** Any call that is not one of the three that move a reservation. *)
Lemma other_env lossy req op sys r e' :
  table_ok (sys_orders sys) ->
  shared_env lossy req op (sys_orders sys, sys_executed sys) r e' ->
  match op with OrdersReserve _ | OrdersRelease _ | BrokerPlaceMarketOrder _ _ => False
  | _ => True end ->
  steps_ok None (sys_orders sys) e'.1 /\ e'.2 = sys_executed sys.
Proof.
  intros Ht. destruct op; simpl; try done; intros He _; try by (subst; auto using steps_ok_refl).
  - destruct He as (? & ? & _ & ->). auto using steps_ok_refl.
  - destruct He as (? & ? & _ & ->). auto using steps_ok_refl.
  - destruct He as (? & ? & _ & ->). auto using steps_ok_refl.
  - destruct He as (f & now & He & ->). split; [|done].
    pose proof (ConfirmOrder_ok f now id providerOrderID status filled price _ Ht) as Hs.
    by rewrite He in Hs.
  - destruct He as (f & now & He & ->). split; [|done].
    pose proof (UpdateOrderFill_ok f now provider providerOrderID status filled price _ Ht) as Hs.
    by rewrite He in Hs.
Qed.

Lemma trade_call_ok sys phases i req op k u r e' :
  system_ok sys phases ->
  sys_threads sys !! i = Some {| th_request := Some req; th_code := Call op k u |} ->
  shared_env false (Some req) op (sys_orders sys, sys_executed sys) r e' ->
  exists phases', system_ok {| sys_orders := e'.1; sys_executed := e'.2;
    sys_threads := <[i := {| th_request := Some req; th_code := k r |}]> (sys_threads sys) |}
    phases'.
Proof.
  intros Hok Hi He. pose proof (sok_threads _ _ Hok _ _ Hi) as [[s [[Hperm _] Hk]] Hfor].
  pose proof (shared_answers _ _ _ _ _ _ He) as Hans.
  pose proof (sok_table _ _ Hok) as Ht. simpl in Hfor.
  remember (phases i) as ph eqn:Eph. exists (<[i := trade_next op ph r]> phases).
  assert (thread_ok {| th_request := Some req; th_code := k r |} (trade_next op ph r)) as Hth.
  { split; [exists s; by apply Hk|]. by eapply (next_holds s req). }
  destruct (match op with OrdersReserve _ | OrdersRelease _ | BrokerPlaceMarketOrder _ _ => true
    | _ => false end) eqn:Eop.
  2: { destruct (other_env _ _ _ _ _ _ Ht He) as [Hs ->]; [by destruct op|].
       eapply quiet_step; [done..| |exact Hs]. rewrite <- Eph.
       unfold protocol_allowed in Hperm. simpl in Hperm.
       destruct op, ph; try discriminate; simpl; try done;
         unfold after_lookup; by repeat case_match. }
  unfold protocol_allowed in Hperm. simpl in Hperm.
  destruct op; try discriminate; clear Eop.
  - destruct ph; try discriminate.
    destruct He as (f & fresh & now & He & ->). destruct r as [o' [[]|err]]; simpl in He.
    + pose proof (ReserveOrder_new _ _ _ _ _ _ _ Ht He) as [Hnew Hanch].
      pose proof (ReserveOrder_ok f fresh now o _ Ht) as Hs. rewrite He in Hs.
      eapply reserve_step; try done. by rewrite <- Eph.
    + pose proof (ReserveOrder_ok f fresh now o _ Ht) as Hs. rewrite He in Hs.
      eapply quiet_step; try done. by rewrite <- Eph.
    + pose proof (ReserveOrder_ok f fresh now o _ Ht) as Hs. rewrite He in Hs.
      eapply quiet_step; try done. by rewrite <- Eph.
  - destruct He as (f & He & ->). simpl in He.
    pose proof (ReleaseOrder_ok f id _ Ht) as Hs. rewrite He in Hs.
    destruct ph; try discriminate; apply bool_decide_eq_true in Hperm as ->;
      (eapply release_step; [done..| |done|exact Hs]; by rewrite <- Eph).
  - destruct ph; try discriminate. destruct He as [-> He].
    destruct r as [res|err].
    + rewrite He. eapply accept_step; try done; [by rewrite <- Eph|by apply Hfor].
    + destruct He as [->|[? _]]; [|done].
      eapply quiet_step; try done; [by rewrite <- Eph|by apply steps_ok_refl].
Qed.

Lemma fill_call_ok sys phases i op k u r e' :
  system_ok sys phases ->
  sys_threads sys !! i = Some {| th_request := None; th_code := Call op k u |} ->
  shared_env false None op (sys_orders sys, sys_executed sys) r e' ->
  exists phases', system_ok {| sys_orders := e'.1; sys_executed := e'.2;
    sys_threads := <[i := {| th_request := None; th_code := k r |}]> (sys_threads sys) |}
    phases'.
Proof.
  intros Hok Hi He. pose proof (sok_threads _ _ Hok _ _ Hi) as [[[Hop _] Hk] Hno].
  destruct (other_env _ _ _ _ _ _ (sok_table _ _ Hok) He) as [Hs ->]; [by destruct op|].
  exists (<[i := phases i]> phases). eapply quiet_step; try done. split; [apply Hk|done].
Qed.

(** The calls that are not the broker's, whether they took effect or not. *)
Lemma panic_env lossy req op sys e' :
  table_ok (sys_orders sys) ->
  shared_panics lossy req op (sys_orders sys, sys_executed sys) e' ->
  match op with OrdersRelease _ | BrokerPlaceMarketOrder _ _ => False | _ => True end ->
  steps_ok None (sys_orders sys) e'.1 /\ e'.2 = sys_executed sys.
Proof.
  intros Ht Hp Hop.
  assert (e' = (sys_orders sys, sys_executed sys) \/
    exists r, shared_env lossy req op (sys_orders sys, sys_executed sys) r e') as [->|[r He]]
    by (destruct op; auto; done).
  - auto using steps_ok_refl.
  - destruct op; try done; try (by eapply other_env).
    destruct He as (f & fresh & now & He & ->). split; [|done].
    pose proof (ReserveOrder_ok f fresh now o _ Ht) as Hs. simpl in He. by rewrite He in Hs.
Qed.

Lemma unwinding_holds s req op ph o :
  trade_permits s req op ph = true -> holds (trade_unwinding op ph) = Some o -> holds ph = Some o.
Proof. by destruct op, ph. Qed.

Lemma trade_panic_ok sys phases i req op k u e' :
  system_ok sys phases ->
  sys_threads sys !! i = Some {| th_request := Some req; th_code := Call op k u |} ->
  shared_panics false (Some req) op (sys_orders sys, sys_executed sys) e' ->
  exists phases', system_ok {| sys_orders := e'.1; sys_executed := e'.2;
    sys_threads := <[i := {| th_request := Some req; th_code := u |}]> (sys_threads sys) |}
    phases'.
Proof.
  intros Hok Hi He. pose proof (sok_threads _ _ Hok _ _ Hi) as [[s [[Hperm Hu] _]] Hfor].
  pose proof (sok_table _ _ Hok) as Ht. simpl in Hfor.
  remember (phases i) as ph eqn:Eph. exists (<[i := trade_unwinding op ph]> phases).
  unfold protocol_allowed in Hperm. simpl in Hperm.
  assert (thread_ok {| th_request := Some req; th_code := u |} (trade_unwinding op ph)) as Hth.
  { split; [exists s; by apply (Hu (trade_unwinding op ph))|]. intros o Ho. apply Hfor.
    by eapply unwinding_holds. }
  destruct (match op with OrdersRelease _ | BrokerPlaceMarketOrder _ _ => true | _ => false end)
    eqn:Eop.
  2: { destruct (panic_env _ _ _ _ _ Ht He) as [Hs ->]; [by destruct op|].
       eapply quiet_step; [done..| |exact Hs]. rewrite <- Eph.
       by destruct op, ph. }
  destruct op; try done; clear Eop.
  - assert (steps_ok (Some id) (sys_orders sys) e'.1 /\ e'.2 = sys_executed sys) as [Hs ->].
    { destruct He as [->|(r & f & He & ->)]; [split; [split; [done|apply keeps_rows_refl]|done]|].
      split; [|done]. pose proof (ReleaseOrder_ok f id _ Ht) as Hs. simpl in He.
      by rewrite He in Hs. }
    destruct ph; try discriminate; apply bool_decide_eq_true in Hperm as ->;
      (eapply release_step; [done..| |done|exact Hs]; by rewrite <- Eph).
  - destruct ph; try discriminate. destruct He as [-> [->|[? _]]]; [|done].
    eapply quiet_step; try done; [by rewrite <- Eph|by apply steps_ok_refl].
Qed.

Lemma fill_panic_ok sys phases i op k u e' :
  system_ok sys phases ->
  sys_threads sys !! i = Some {| th_request := None; th_code := Call op k u |} ->
  shared_panics false None op (sys_orders sys, sys_executed sys) e' ->
  exists phases', system_ok {| sys_orders := e'.1; sys_executed := e'.2;
    sys_threads := <[i := {| th_request := None; th_code := u |}]> (sys_threads sys) |}
    phases'.
Proof.
  intros Hok Hi He. pose proof (sok_threads _ _ Hok _ _ Hi) as [[[Hop Hu] _] Hno].
  destruct (panic_env _ _ _ _ _ (sok_table _ _ Hok) He) as [Hs ->]; [by destruct op|].
  exists (<[i := phases i]> phases). by eapply quiet_step.
Qed.

Lemma spawn_ok sys phases th :
  system_ok sys phases -> thread_ok th Idle ->
  system_ok {| sys_orders := sys_orders sys; sys_executed := sys_executed sys;
               sys_threads := sys_threads sys ++ [th] |} phases.
Proof.
  intros Hok Hth. split; simpl; try apply Hok.
  - intros i th' [[_ Hi]|[-> Hi]]%lookup_snoc_Some; [by apply (sok_threads _ _ Hok)|].
    subst. rewrite (sok_fresh _ _ Hok); [done|lia].
  - intros i. rewrite length_app. simpl. intros ?. apply (sok_fresh _ _ Hok). lia.
Qed.

Lemma initial_ok : system_ok initial (fun _ => Idle).
Proof.
  split; simpl; try done.
  - intros req Hin. by apply elem_of_nil in Hin.
  - constructor.
  - constructor.
Qed.

Lemma step_ok sys sys' phases :
  system_ok sys phases -> step false sys sys' -> exists phases', system_ok sys' phases'.
Proof.
  intros Hok Hstep. destruct Hstep as [sys i [req|] op k u r e' Hi He|sys i [req|] op k u e' Hi He
    |sys fuel s req Hs|sys f e Hf|sys i th Hi].
  - by eapply trade_call_ok.
  - by eapply fill_call_ok.
  - by eapply trade_panic_ok.
  - by eapply fill_panic_ok.
  - exists phases. apply spawn_ok; [done|]. by apply trade_thread_ok.
  - exists phases. apply spawn_ok; [done|]. by apply fill_thread_ok.
  - exists (<[i := phases i]> phases).
    eapply quiet_step; try done; [|apply steps_ok_refl, (sok_table _ _ Hok)].
    by apply dead_thread_ok, (sok_threads _ _ Hok).
Qed.

(** What a step preserves, any number of them does. *)
Lemma rtc_preserves {A} (R : relation A) (P : A -> Prop) :
  (forall x y, P x -> R x y -> P y) -> forall x y, P x -> rtc R x y -> P y.
Proof. intros HP x y Hx Hr. revert Hx. induction Hr; eauto. Qed.

Lemma reachable_ok sys : reachable false sys -> exists phases, system_ok sys phases.
Proof.
  apply (rtc_preserves (step false) (fun s => exists phases, system_ok s phases)).
  - intros s1 s2 [phases Hok] Hs. by eapply step_ok.
  - exists (fun _ => Idle). apply initial_ok.
Qed.

(** ** Threads that run to completion *)

Lemma thread_runs lossy sys i req (p : service unit) o e' :
  sys_threads sys !! i = Some {| th_request := req; th_code := p |} ->
  exec (shared_env lossy req) p (sys_orders sys, sys_executed sys) o e' ->
  exists sys', rtc (step lossy) sys sys' /\ sys_orders sys' = e'.1 /\
    sys_executed sys' = e'.2 /\ length (sys_threads sys') = length (sys_threads sys).
Proof.
  revert sys. induction p as [a|m|op k IH u IHu]; intros sys Hi; simpl.
  - intros [-> ->]. by exists sys.
  - intros [-> ->]. by exists sys.
  - intros (r & e1 & Hr & He).
    set (sys1 := {| sys_orders := e1.1; sys_executed := e1.2;
      sys_threads := <[i := {| th_request := req; th_code := k r |}]> (sys_threads sys) |}).
    destruct (IH r sys1) as (sys' & Hs & Ho & Hx & Hl).
    + simpl. apply list_lookup_insert_eq. by eapply lookup_lt_Some.
    + simpl. by destruct e1.
    + exists sys'. split; [|split; [done|split; [done|]]].
      * eapply rtc_l; [|exact Hs]. by eapply step_call.
      * rewrite Hl. simpl. apply length_insert.
Qed.

(** A request that arrives and runs alone. *)
Lemma request_runs lossy sys fuel s req o e' :
  ServerOk s ->
  exec (shared_env lossy (Some req)) (th_code (trade_thread fuel s req))
    (sys_orders sys, sys_executed sys) o e' ->
  exists sys', rtc (step lossy) sys sys' /\ sys_orders sys' = e'.1 /\ sys_executed sys' = e'.2.
Proof.
  intros Hs He.
  set (sys1 := {| sys_orders := sys_orders sys; sys_executed := sys_executed sys;
    sys_threads := sys_threads sys ++ [trade_thread fuel s req] |}).
  destruct (thread_runs lossy sys1 (length (sys_threads sys)) (Some req)
    (th_code (trade_thread fuel s req)) o e') as (sys' & Hr & Ho & Hx & _); [|exact He|].
  - simpl. by rewrite lookup_app_r, Nat.sub_diag by done.
  - exists sys'. split; [|done]. eapply rtc_l; [|exact Hr]. by apply step_trade.
Qed.

(** C2: as long as the broker's acknowledgements are not lost, the broker executes at
    most one order per trade intent, and at most one per tenant and non-empty
    idempotency key - for any number of concurrent requests and fill events on any
    replicas, any interleaving of their calls, database statements that fail before or
    after taking effect, calls that panic, and threads that die half way. *)
Theorem at_most_one_order sys :
  reachable false sys ->
  NoDup (map request_intent (sys_executed sys)) /\ NoDup (omap request_key (sys_executed sys)).
Proof. intros [phases Hok]%reachable_ok. split; apply Hok. Qed.

(** ** Rows and requests *)

(** The columns that are written once hold the data of a valid request. *)
Record row_of_request (req : ExecuteTradeRequest) (r : OrderRow) : Prop := {
  rr_trade : exists qty, valid_trade req = Some (row_trade_intent_id r, qty) /\
    numeric_qty qty = Some (row_target_quantity r);
  rr_tenant : varchar 64 (et_TenantId req) = Some (row_tenant_id r);
  rr_user : varchar 64 (et_UserId req) = Some (row_user_id r);
  rr_provider : row_provider r = "BINANCE";
  rr_symbol : varchar 32 (ToUpper (et_Symbol req)) = Some (row_symbol r);
  rr_side : row_side r = if et_Side req =? 1 then "SELL" else "BUY";
  rr_key : exists k, row_idempotency_key r = Some k /\ varchar 128 (et_IdempotencyKey req) = Some k;
  rr_portfolio : exists k, row_portfolio_id r = Some k /\ varchar 64 (et_PortfolioId req) = Some k;
  rr_hold : exists k, row_livro_hold_id r = Some k /\ varchar 64 (et_LivroHoldId req) = Some k;
}.

Lemma stored_row_of_request req o r :
  order_for req o = true -> stored o r -> row_of_request req r.
Proof.
  intros (intent & qty & [])%order_for_data [].
  rewrite td_tenant, td_user, td_provider, td_symbol, td_side, td_target, td_key, td_portfolio,
    td_hold, td_intent in *.
  unfold varchar in st_provider, st_side. rewrite character_fits in st_provider, st_side by
    (done || by destruct (et_Side req =? 1)%Z).
  split; eauto; try congruence. exists qty. split; [congruence|done].
Qed.

Lemma row_of_request_keys req r r' : same_keys r r' -> row_of_request req r -> row_of_request req r'.
Proof.
  unfold same_keys, fixed_columns. intros [= E1 E2 E3 E4 E5 E6 E7 E8 E9 E10 E11 E12] [].
  split; by rewrite ?E1, ?E2, ?E3, ?E4, ?E5, ?E6, ?E7, ?E8, ?E9, ?E10, ?E11.
Qed.

(** An executed order has its row. *)
Lemma executed_row sys phases req :
  system_ok sys phases -> req ∈ sys_executed sys ->
  exists id r, sys_orders sys !! id = Some r /\ row_of_request req r.
Proof.
  intros Hok (o & Hfor & (r0 & r & Hs & Hr & Hsame) & _)%(sok_executed _ _ Hok).
  exists (bo_ID o), r. split; [done|]. eapply row_of_request_keys; [exact Hsame|].
  by eapply stored_row_of_request.
Qed.

(** No statement breaks a constraint, whether it answers or panics. *)
Lemma env_table lossy req op e r e' :
  table_ok e.1 -> shared_env lossy req op e r e' -> table_ok e'.1.
Proof.
  intros Ht. destruct op; simpl; try (by intros ->); try (by intros (? & ? & _ & ->));
    try (by intros [-> _]).
  - intros (f & fresh & now & He & _).
    pose proof (ReserveOrder_ok f fresh now o _ Ht) as [Hs _]. by rewrite He in Hs.
  - intros (f & now & He & _).
    pose proof (ConfirmOrder_ok f now id providerOrderID status filled price _ Ht) as [Hs _].
    by rewrite He in Hs.
  - intros (f & He & _). pose proof (ReleaseOrder_ok f id _ Ht) as [Hs _]. by rewrite He in Hs.
  - intros (f & now & He & _).
    pose proof (UpdateOrderFill_ok f now provider providerOrderID status filled price _ Ht) as [Hs _].
    by rewrite He in Hs.
Qed.

Lemma panics_table lossy req op e e' :
  table_ok e.1 -> shared_panics lossy req op e e' -> table_ok e'.1.
Proof.
  intros Ht Hp.
  assert (e'.1 = e.1 \/ exists r, shared_env lossy req op e r e') as [->|[r Hr]];
    [|done|by eapply env_table].
  destruct op; (by destruct Hp as [->|Hr]; [left|right]) || (left; apply Hp).
Qed.

Lemma reachable_table lossy sys : reachable lossy sys -> table_ok (sys_orders sys).
Proof.
  apply (rtc_preserves (step lossy) (fun sys => table_ok (sys_orders sys))); [|apply table_ok_empty].
  intros s1 s2 Ht Hstep. destruct Hstep as [sys0 i req op k u r e' _ He|sys0 i req op k u e' _ He
    |sys0 fuel s req _|sys0 f e _|sys0 i th _]; simpl; try done.
  - exact (env_table _ _ _ (_, _) _ _ Ht He).
  - exact (panics_table _ _ _ (_, _) _ Ht He).
Qed.

(** C23: in every reachable state, lost acknowledgements included, the orders table satisfies
    its unique constraints; and as long as the broker's acknowledgements are not lost, each
    order it executed still has its row, with the data of the request. *)
Theorem executed_orders_on_record lossy sys :
  reachable lossy sys ->
  table_ok (sys_orders sys) /\
  (lossy = false -> forall req, req ∈ sys_executed sys ->
     exists id r, sys_orders sys !! id = Some r /\ row_of_request req r).
Proof.
  intros Hr. split; [by eapply reachable_table|]. intros -> req.
  destruct (reachable_ok sys Hr) as [phases Hok]. by eapply executed_row.
Qed.
End Concurrency.
