(* ===== verification/OrderRows.v ===== *)
(** * Every row of the orders table

    What each statement makes of a row, and what therefore holds of every row of every
    reachable table, lost acknowledgements included: its columns have their types, it
    stems from a request that was made, and until it is confirmed it is as reserved. *)

From stdpp Require Import base tactics list strings gmap relations.
From Stdlib Require Import ZArith QArith Lia.
From S2P Require Import Prelude Exec GoStrings Uuid Broker Vault Decimal DecimalSpec Db DbSpec DbTheorems.
From S2P Require Import Clients Cache Effects Worker Service TradeProtocol Concurrency.

#[local] Open Scope string_scope.
#[local] Open Scope Z_scope.

Section Rows.
Context `{GoUnicode} `{PgTypesLaws}.

(** ** Column types *)

(** A value of [VARCHAR(n)], and one of [NUMERIC(p, s)]. *)
Definition of_varchar (n : Z) (s : string) : Prop := varchar n s = Some s.

Definition of_numeric (p s : Z) (d : Decimal) : Prop :=
  - (s + 4) <= d_exp d <= p /\ exists n, Z.abs n < 10 ^ p /\ (dval d == inject_Z n * p10 (- s))%Q.

Definition nullable (P : string -> Prop) (s : option string) : Prop := forall x, s = Some x -> P x.

(** The columns of [broker_orders] in migrations/001_initial_schema.sql. *)
Record row_typed (r : OrderRow) : Prop := {
  ty_tenant : of_varchar 64 (row_tenant_id r);
  ty_user : of_varchar 64 (row_user_id r);
  ty_provider : of_varchar 32 (row_provider r);
  ty_provider_order : nullable (of_varchar 64) (row_provider_order_id r);
  ty_symbol : of_varchar 32 (row_symbol r);
  ty_side : of_varchar 16 (row_side r);
  ty_target : of_numeric 28 8 (row_target_quantity r);
  ty_status : of_varchar 32 (row_status r);
  ty_filled : of_numeric 28 8 (row_filled_quantity r);
  ty_price : of_numeric 28 4 (row_average_fill_price r);
  ty_key : nullable (of_varchar 128) (row_idempotency_key r);
  ty_portfolio : nullable (of_varchar 64) (row_portfolio_id r);
  ty_hold : nullable (of_varchar 64) (row_livro_hold_id r);
}.

Lemma varchar_typed n s s' : varchar n s = Some s' -> of_varchar n s'.
Proof. apply character_stored. Qed.

Lemma numeric_typed p s d d' :
  0 <= s <= p -> p <= 1000 -> numeric p s d = Some d' -> of_numeric p s d'.
Proof.
  intros Hs Hp Hn. split; [by eapply numeric_exponent|].
  destruct (numeric_rounds p s d d' Hs Hp Hn) as (n & _ & ? & ?). eauto.
Qed.

Lemma qty_typed d d' : numeric_qty d = Some d' -> of_numeric 28 8 d'.
Proof. by apply numeric_typed. Qed.

Lemma price_typed d d' : numeric_price d = Some d' -> of_numeric 28 4 d'.
Proof. by apply numeric_typed. Qed.

Lemma nullable_typed n (c : option string) x :
  (exists k, c = Some k /\ varchar n x = Some k) -> nullable (of_varchar n) c.
Proof. intros (k & -> & Hk) y [= <-]. by eapply varchar_typed. Qed.

Lemma stored_typed o r : stored o r -> row_typed r.
Proof.
  intros []. split; eauto using varchar_typed, qty_typed, price_typed, nullable_typed.
  intros x. by rewrite st_provider_order.
Qed.

(** ** What a statement makes of the rows *)

(** The INSERT's row, or one that was there. *)
Lemma ReserveOrder_rows f fresh now o t id r :
  (ReserveOrder f fresh now o t).2 !! id = Some r ->
  t !! id = Some r \/ stored (reserve_prepare fresh now o) r /\ row_id r = id.
Proof.
  apply (ReserveOrder_post (fun t' => t' !! id = Some r ->
    t !! id = Some r \/ stored (reserve_prepare fresh now o) r /\ row_id r = id)); [|by left].
  intros r0 Hr0%reserved_row_stored.
  destruct (insert_on_conflict_do_nothing r0 t) as [n t'] eqn:E.
  apply insert_spec in E as [(_ & -> & _)|(_ & -> & _)]; simpl; [|by left].
  rewrite lookup_insert. case_decide; [intros [= <-]; by right|by left].
Qed.

(** A confirmed reservation, with typed values. *)
Definition confirms (r r' : OrderRow) : Prop :=
  exists now pid st q p, r' = confirm_row now pid st q p r /\
    of_varchar 64 pid /\ of_varchar 32 st /\ of_numeric 28 8 q /\ of_numeric 28 4 p.

Lemma ConfirmOrder_rows f now id0 pid st q p t id r' :
  (ConfirmOrder f now id0 pid st q p t).2 !! id = Some r' ->
  exists r, t !! id = Some r /\ (r' = r \/ confirms r r').
Proof.
  apply (ConfirmOrder_post (fun t' => t' !! id = Some r' ->
    exists r, t !! id = Some r /\ (r' = r \/ confirms r r'))); [|eauto].
  intros pid' st' q' p' Hpid Hst Hq Hp (r & Hr & ->)%update_lookup. exists r. split; [done|].
  destruct (pending_with_id id0 r); [right|by left]. exists now, pid', st', q', p'.
  eauto 10 using varchar_typed, qty_typed, price_typed.
Qed.

(** A fill recorded on a row that has a provider order id. *)
Definition fills (r r' : OrderRow) : Prop :=
  row_provider_order_id r <> None /\
  exists now st q p, r' = fill_row now st q p r /\
    of_varchar 32 st /\ of_numeric 28 8 q /\ of_numeric 28 4 p.

Lemma UpdateOrderFill_rows f now provider pid st q p t id r' :
  (UpdateOrderFill f now provider pid st q p t).2 !! id = Some r' ->
  exists r, t !! id = Some r /\ (r' = r \/ fills r r').
Proof.
  apply (UpdateOrderFill_post (fun t' => t' !! id = Some r' ->
    exists r, t !! id = Some r /\ (r' = r \/ fills r r'))); [|eauto].
  intros st' q' p' Hst Hq Hp (r & Hr & ->)%update_lookup. exists r. split; [done|].
  destruct (with_provider_order provider pid r) eqn:E; [right|by left]. split.
  - unfold with_provider_order in E. apply andb_true_iff in E as [_ ->%bool_decide_eq_true]. done.
  - exists now, st', q', p'. eauto 10 using varchar_typed, qty_typed, price_typed.
Qed.

Lemma ReleaseOrder_rows f id0 t id r : (ReleaseOrder f id0 t).2 !! id = Some r -> t !! id = Some r.
Proof.
  apply (ReleaseOrder_post (fun t' => t' !! id = Some r -> t !! id = Some r)); [|done].
  by intros [? _]%delete_lookup.
Qed.

(** ** Every row of a table *)

(** Nothing has happened to the order of this row. *)
Definition as_reserved (r : OrderRow) : Prop :=
  row_status r = StatusPending /\ (dval (row_filled_quantity r) == 0)%Q /\
  (dval (row_average_fill_price r) == 0)%Q.

(** [from req]: such a request was made. *)
Record row_ok (from : ExecuteTradeRequest -> Prop) (id : UUID) (r : OrderRow) : Prop := {
  ro_id : row_id r = id;
  ro_typed : row_typed r;
  ro_request : exists req, from req /\ row_of_request req r;
  ro_reserved : row_provider_order_id r = None -> as_reserved r;
}.

Definition rows_ok (from : ExecuteTradeRequest -> Prop) (t : OrderTable) : Prop :=
  forall id r, t !! id = Some r -> row_ok from id r.

Lemma confirms_ok from id r r' : confirms r r' -> row_ok from id r -> row_ok from id r'.
Proof.
  intros (now & pid & st & q & p & -> & ? & ? & ? & ?) [Hid [] (req & Hf & Hreq) _].
  split; [done| | |done].
  - split; try done. by intros x [= <-].
  - exists req. split; [done|]. by eapply row_of_request_keys; [|exact Hreq].
Qed.

Lemma fills_ok from id r r' : fills r r' -> row_ok from id r -> row_ok from id r'.
Proof.
  intros (Hn & now & st & q & p & -> & ? & ? & ?) [Hid [] (req & Hf & Hreq) _].
  split; [done| | |done].
  - by split.
  - exists req. split; [done|]. by eapply row_of_request_keys; [|exact Hreq].
Qed.

Lemma stored_zero p s d : 0 <= s <= p -> p <= 1000 -> numeric p s zero_value = Some d -> (dval d == 0)%Q.
Proof.
  intros Hs Hp Hn. destruct (numeric_rounds p s _ d Hs Hp Hn) as (n & Hr & _ & ->).
  assert (n = 0) as ->.
  { eapply rounds_half_away_unique; [exact Hr|].
    assert (dval zero_value * p10 s == inject_Z 0)%Q as -> by (unfold dval; simpl; ring).
    apply rounds_half_away_int. }
  ring.
Qed.

Lemma reserved_ok (from : ExecuteTradeRequest -> Prop) req fresh now o r :
  from req -> order_for req o = true -> stored (reserve_prepare fresh now o) r -> row_ok from (row_id r) r.
Proof.
  intros Hf Ho%(order_for_prepare req fresh now) Hs. split; [done|by eapply stored_typed| |].
  - exists req. split; [done|]. by eapply stored_row_of_request.
  - intros _. apply order_for_data in Ho as (intent & qty & [? ? ? ? ? ? ? ? ? ? ? [Hq Hp]]).
    destruct Hs. rewrite Hq in st_filled. rewrite Hp in st_price. split; [|split].
    + cbn [reserve_prepare bo_Status] in st_status. rewrite pending_stored in st_status. congruence.
    + by eapply (stored_zero 28 8).
    + by eapply (stored_zero 28 4).
Qed.

(** ** Every reachable table *)

(** A call made for a request leaves such rows. *)
Lemma call_rows lossy from req op t x r e' :
  rows_ok from t -> shared_env lossy req op (t, x) r e' ->
  (forall o, op = OrdersReserve o -> exists req, from req /\ order_for req o = true) ->
  rows_ok from e'.1.
Proof.
  intros Ht He Hres id row.
  destruct op; simpl in He; try (subst e'; apply Ht); try (by destruct He as (? & ? & _ & ->); apply Ht).
  - destruct He as (f & fresh & now & He & _). destruct (Hres o eq_refl) as (rq & Hf & Ho).
    pose proof (ReserveOrder_rows f fresh now o t id row) as Hr. rewrite He in Hr.
    intros [?|[Hs <-]]%Hr; [by apply Ht|by eapply reserved_ok].
  - destruct He as (f & now & He & _).
    pose proof (ConfirmOrder_rows f now id0 providerOrderID status filled price t id row) as Hr.
    rewrite He in Hr. intros (r0 & Hr0%Ht & [->|Hc])%Hr; [done|by eapply confirms_ok].
  - destruct He as (f & He & _). pose proof (ReleaseOrder_rows f id0 t id row) as Hr.
    rewrite He in Hr. intros ?%Hr. by apply Ht.
  - destruct He as (f & now & He & _).
    pose proof (UpdateOrderFill_rows f now provider providerOrderID status filled price t id row) as Hr.
    rewrite He in Hr. intros (r0 & Hr0%Ht & [->|Hc])%Hr; [done|by eapply fills_ok].
  - destruct He as [-> _]. apply Ht.
Qed.

Lemma panic_rows lossy from req op t x e' :
  rows_ok from t -> shared_panics lossy req op (t, x) e' ->
  (forall o, op = OrdersReserve o -> exists req, from req /\ order_for req o = true) ->
  rows_ok from e'.1.
Proof.
  intros Ht Hp Hres.
  assert (e'.1 = t \/ exists r, shared_env lossy req op (t, x) r e') as [->|[r He]]; [|done|by eapply call_rows].
  destruct op; (by destruct Hp as [->|Hr]; [left|right]) || (left; apply Hp).
Qed.

(** A thread that keeps to the protocol, for its own request. *)
Definition thread_sound (th : Thread) : Prop := exists ph, thread_ok th ph.

Lemma sound_answers lossy req op k u e r e' :
  thread_sound {| th_request := req; th_code := Call op k u |} -> shared_env lossy req op e r e' ->
  thread_sound {| th_request := req; th_code := k r |}.
Proof.
  intros [ph Hth] Hr%shared_answers. destruct req as [rq|].
  - destruct Hth as [[s [[Hp _] Hk]] Hfor]. exists (trade_next op ph r).
    split; [exists s; by apply Hk|]. by eapply (next_holds s rq).
  - destruct Hth as [[_ Hk] Hno]. exists ph. split; [apply Hk|done].
Qed.

Lemma sound_unwinds req op k u :
  thread_sound {| th_request := req; th_code := Call op k u |} ->
  thread_sound {| th_request := req; th_code := u |}.
Proof.
  intros [ph Hth]. destruct req as [rq|].
  - destruct Hth as [[s [[Hp Hu] _]] Hfor]. exists (trade_unwinding op ph).
    split; [exists s; by apply (Hu (trade_unwinding op ph))|].
    intros o Ho. apply Hfor. by apply (unwinding_holds s rq op).
  - destruct Hth as [[[_ Hu] _] Hno]. by exists ph.
Qed.

Definition asked (sys : System) (req : ExecuteTradeRequest) : Prop :=
  exists i th, sys_threads sys !! i = Some th /\ th_request th = Some req.

Record rows_invariant (sys : System) : Prop := {
  ri_rows : rows_ok (asked sys) (sys_orders sys);
  ri_threads : forall i th, sys_threads sys !! i = Some th -> thread_sound th;
}.

Lemma rows_ok_mono (P Q : ExecuteTradeRequest -> Prop) t :
  (forall req, P req -> Q req) -> rows_ok P t -> rows_ok Q t.
Proof. intros HPQ Ht id r []%Ht. split; try done. naive_solver. Qed.

Lemma sound_reserves req op k u :
  thread_sound {| th_request := req; th_code := Call op k u |} ->
  forall o, op = OrdersReserve o -> exists rq, req = Some rq /\ order_for rq o = true.
Proof.
  intros [ph Hth] o ->. destruct req as [rq|]; [|by destruct Hth as [[[? _] _] _]].
  destruct Hth as [[s [[Hp _] _]] _]. exists rq. split; [done|].
  unfold protocol_allowed in Hp. simpl in Hp. by destruct ph.
Qed.

(** A thread has moved on. *)
Lemma moved sys i th0 th t' :
  rows_invariant sys -> sys_threads sys !! i = Some th0 -> th_request th = th_request th0 ->
  thread_sound th -> rows_ok (asked sys) t' ->
  forall x, rows_invariant {| sys_orders := t'; sys_executed := x;
    sys_threads := <[i := th]> (sys_threads sys) |}.
Proof.
  intros Hok Hi Hreq Hth Ht' x. split; simpl.
  - eapply rows_ok_mono; [|exact Ht']. intros rq (j & thj & Hj & Hq).
    destruct (decide (i = j)) as [<-|Hne].
    + exists i, th. simpl. split; [|congruence]. apply list_lookup_insert_eq. by eapply lookup_lt_Some.
    + exists j, thj. simpl. by rewrite list_lookup_insert_ne.
  - intros j thj [(_ & <- & _)|[_ Hj]]%list_lookup_insert_Some; [done|]. by eapply ri_threads.
Qed.

(** A thread has arrived. *)
Lemma spawned sys th :
  rows_invariant sys -> thread_sound th ->
  rows_invariant {| sys_orders := sys_orders sys; sys_executed := sys_executed sys;
    sys_threads := sys_threads sys ++ [th] |}.
Proof.
  intros Hok Hth. split; simpl.
  - eapply rows_ok_mono; [|apply Hok]. intros rq (j & thj & Hj & Hq). exists j, thj. simpl.
    by rewrite lookup_app_l by by eapply lookup_lt_Some.
  - intros j thj [[_ Hj]|[-> Hj]]%lookup_snoc_Some; [by eapply ri_threads|congruence].
Qed.

Lemma step_rows lossy sys sys' : rows_invariant sys -> step lossy sys sys' -> rows_invariant sys'.
Proof.
  intros Hok Hstep. destruct Hstep as [sys i req op k u r e' Hi He|sys i req op k u e' Hi He
    |sys fuel s req Hs|sys f e Hf|sys i th Hi].
  - pose proof (ri_threads _ Hok _ _ Hi) as Hth.
    eapply moved; [done|exact Hi|done|by eapply sound_answers|].
    eapply call_rows; [apply Hok|exact He|]. intros o Ho.
    destruct (sound_reserves _ _ _ _ Hth o Ho) as (rq & -> & Hfor).
    exists rq. split; [|done]. by exists i, {| th_request := Some rq; th_code := Call op k u |}.
  - pose proof (ri_threads _ Hok _ _ Hi) as Hth.
    eapply moved; [done|exact Hi|done|by eapply sound_unwinds|].
    eapply panic_rows; [apply Hok|exact He|]. intros o Ho.
    destruct (sound_reserves _ _ _ _ Hth o Ho) as (rq & -> & Hfor).
    exists rq. split; [|done]. by exists i, {| th_request := Some rq; th_code := Call op k u |}.
  - apply spawned; [done|]. exists Idle. by apply trade_thread_ok.
  - apply spawned; [done|]. exists Idle. by apply fill_thread_ok.
  - destruct (ri_threads _ Hok _ _ Hi) as [ph Hth].
    eapply moved; [done|exact Hi|done| |apply Hok]. exists ph. by apply dead_thread_ok.
Qed.

Lemma reachable_rows lossy sys : reachable lossy sys -> rows_invariant sys.
Proof.
  apply (rtc_preserves (step lossy) rows_invariant); [apply step_rows|].
  split; simpl; [intros ? ?|intros ? ?]; by rewrite ?lookup_empty.
Qed.

(** C22: every row of a reachable table is well typed and accounted for - lost
    acknowledgements, faults, panics and crashes included.  Its columns hold values of
    their SQL types; it stands for a valid trade request that was made, with exactly its
    intent, tenant, user, symbol, side, quantity, key, portfolio and hold as the columns
    hold them; and as long as it has no provider order id it is PENDING with nothing filled. *)
Theorem rows_are_typed lossy sys id r :
  reachable lossy sys -> sys_orders sys !! id = Some r ->
  row_id r = id /\ row_typed r /\
  (exists i th req, sys_threads sys !! i = Some th /\ th_request th = Some req /\
     row_of_request req r) /\
  (row_provider_order_id r = None -> as_reserved r).
Proof.
  intros [Hrows _]%reachable_rows Hid.
  apply Hrows in Hid as [? ? (req & (i & th & Hi & Hq) & Hreq) ?]. eauto 10.
Qed.
End Rows.
