(* ===== verification/FillHistory.v ===== *)
(** * The life of an order under its fills

    Fill events reach the processor one after the other, with whatever faults and panics
    in between.  The row of an order then adds up exactly the fills that were recorded. *)

From stdpp Require Import base tactics list strings gmap relations.
From Stdlib Require Import ZArith QArith Qabs Lia Lqa.
From S2P Require Import Prelude Exec GoStrings Uuid Broker Vault Decimal DecimalSpec Db DbSpec DbTheorems.
From S2P Require Import Clients Cache Effects Worker WorkerSpec Service TradeProtocol Concurrency OrderRows.

#[local] Open Scope string_scope.
#[local] Open Scope Z_scope.
#[local] Open Scope go_scope.

Section History.
Context `{GoUnicode} `{PgTypesLaws}.

(** One call of [ProcessFill] on the shared table, faults and panics included. *)
Definition fill_runs (p : fillProcessor) (event : FillEvent) (t : OrderTable)
    (out : option (Result unit)) (t' : OrderTable) : Prop :=
  pexec (shared_env false None) (shared_panics false None) (ProcessFill p event) (t, []) out (t', []).

(** ** The effect of one event *)

Definition for_order (provider pid : string) (event : FillEvent) : bool :=
  String.eqb (fe_Provider event) provider && String.eqb (fe_ProviderOrderID event) pid.

(** The row with the fill added, as its columns hold it. *)
Definition applies (event : FillEvent) (r r' : OrderRow) : Prop :=
  valid_fill event /\
  exists u now st q pr, fill_update (scanOrder r) event = Some u /\ r' = fill_row now st q pr r /\
    varchar 32 (fu_newStatus u) = Some st /\
    numeric_qty (fu_newFilledQty u) = Some q /\ numeric_price (fu_newAvgPrice u) = Some pr.

(** The row of the order, the only one with its provider's id. *)
Record order_row (provider pid : string) (t : OrderTable) (id : UUID) (r : OrderRow) : Prop := {
  or_lookup : t !! id = Some r;
  or_named : with_provider_order provider pid r = true;
  or_only : forall i r', t !! i = Some r' -> with_provider_order provider pid r' = true -> i = id;
}.

(** A log of events and of what became of each; between them anything may happen that
    leaves the order's row alone. *)
Inductive fill_history (p : fillProcessor) (provider pid : string)
    : OrderTable -> list (FillEvent * option (Result unit)) -> OrderTable -> Prop :=
  | history_nil t : fill_history p provider pid t [] t
  | history_fill t event out t1 log t' :
      fill_runs p event t out t1 -> fill_history p provider pid t1 log t' ->
      fill_history p provider pid t ((event, out) :: log) t'
  | history_other t t1 log t' :
      (forall id r, order_row provider pid t id r -> order_row provider pid t1 id r) ->
      fill_history p provider pid t1 log t' -> fill_history p provider pid t log t'.

(** What a run of [ProcessFill] may leave, by its outcome. *)
Definition fill_effect (provider pid : string) (id : UUID) (event : FillEvent) (r : OrderRow)
    (out : option (Result unit)) (t' : OrderTable) : Prop :=
  (order_row provider pid t' id r /\ (for_order provider pid event = true -> out <> Some (Ok tt))) \/
  (for_order provider pid event = true /\
   exists r', applies event r r' /\ order_row provider pid t' id r').

Lemma fill_row_named provider pid now st q pr r :
  with_provider_order provider pid (fill_row now st q pr r) = with_provider_order provider pid r.
Proof. done. Qed.

Lemma named_inj provider pid provider' pid' r :
  with_provider_order provider pid r = true -> with_provider_order provider' pid' r = true ->
  provider' = provider /\ pid' = pid.
Proof.
  unfold with_provider_order. rewrite !andb_true_iff, !String.eqb_eq, !bool_decide_eq_true.
  intros [<- E] [<- E']. split; [done|congruence].
Qed.

(** The UPDATE of a fill on the table. *)
Lemma update_order_row provider pid provider' pid' now st q pr t id r :
  order_row provider pid t id r ->
  order_row provider pid
    (update_where (with_provider_order provider' pid') (fill_row now st q pr) t).2 id
    (if with_provider_order provider' pid' r then fill_row now st q pr r else r).
Proof.
  intros []. split.
  - apply update_lookup. eauto.
  - by destruct (with_provider_order provider' pid' r).
  - intros i r' (r0 & Hr0 & ->)%update_lookup. intros Hn. apply (or_only0 i r0 Hr0).
    by destruct (with_provider_order provider' pid' r0).
Qed.

(** [UpdateOrderFill] fails and changes nothing, or has run its statement. *)
Lemma UpdateOrderFill_cases f now pr pid st q p t :
  let '(res, t') := UpdateOrderFill f now pr pid st q p t in
  (res <> Ok tt /\ t' = t) \/
  exists st' q' p', varchar 32 st = Some st' /\ numeric_qty q = Some q' /\
    numeric_price p = Some p' /\
    t' = (update_where (with_provider_order pr pid) (fill_row now st' q' p') t).2.
Proof.
  unfold UpdateOrderFill, db_exec.
  destruct (varchar 32 st) as [st'|], (numeric_qty q) as [q'|], (numeric_price p) as [p'|];
    cbn [mbind option_bind]; try (destruct f; by left).
  destruct (text_params _); [|destruct f; by left].
  destruct (update_where _ _ t) as [n t'] eqn:E.
  destruct f; [|by left|]; destruct n; right; exists st', q', p'; by rewrite E.
Qed.

Lemma lookup_found f c provider pid t order :
  GetOrderByProviderOrderID f c provider pid t = Ok order ->
  exists i r, t !! i = Some r /\ with_provider_order provider pid r = true /\ order = scanOrder r.
Proof.
  unfold GetOrderByProviderOrderID, scan_result.
  destruct (readable f [provider; pid]); try done.
  destruct (query_row c _) as [r|] eqn:E; [|done]. intros [= <-].
  apply query_row_some, elem_of_select_where in E as [Hp [i Hi]]. eauto.
Qed.

(** The fill's own row is that of the order, if the event names it. *)
Lemma update_effect provider pid event t id r r0 i u f now res t' :
  order_row provider pid t id r -> valid_fill event -> t !! i = Some r0 ->
  with_provider_order (fe_Provider event) (fe_ProviderOrderID event) r0 = true ->
  fill_update (scanOrder r0) event = Some u ->
  UpdateOrderFill f now (row_provider r0) (default "" (row_provider_order_id r0))
    (fu_newStatus u) (fu_newFilledQty u) (fu_newAvgPrice u) t = (res, t') ->
  (order_row provider pid t' id r /\ (for_order provider pid event = true -> res <> Ok tt)) \/
  (for_order provider pid event = true /\ exists r', applies event r r' /\ order_row provider pid t' id r').
Proof.
  intros Hr Hv Hi Hn Hu He. pose proof Hn as Hn0.
  unfold with_provider_order in Hn0. apply andb_true_iff in Hn0 as [E1%String.eqb_eq E2%bool_decide_eq_true].
  rewrite E1, E2 in He. simpl in He.
  pose proof (UpdateOrderFill_cases f now (fe_Provider event) (fe_ProviderOrderID event)
    (fu_newStatus u) (fu_newFilledQty u) (fu_newAvgPrice u) t) as Hc.
  rewrite He in Hc. destruct Hc as [[Hres ->]|(st & q & pr & Hst & Hq & Hpr & ->)]; [by left|].
  apply (update_order_row provider pid (fe_Provider event) (fe_ProviderOrderID event) now st q pr) in Hr as Hr'.
  unfold for_order. destruct (with_provider_order (fe_Provider event) (fe_ProviderOrderID event) r) eqn:Er.
  - right. destruct (named_inj _ _ _ _ _ (or_named _ _ _ _ _ Hr) Er) as [<- <-].
    split; [apply andb_true_iff; by rewrite !String.eqb_eq|].
    exists (fill_row now st q pr r). split; [|done].
    split; [done|]. assert (r0 = r) as ->.
    { pose proof (or_only _ _ _ _ _ Hr i r0 Hi Hn) as ->. pose proof (or_lookup _ _ _ _ _ Hr). congruence. }
    exists u, now, st, q, pr. done.
  - left. split; [done|]. intros Hf. exfalso. apply andb_true_iff in Hf as [<-%String.eqb_eq <-%String.eqb_eq].
    pose proof (or_named _ _ _ _ _ Hr). congruence.
Qed.

(** Calls that do not change the table. *)
Definition reads_only (op : Op) : bool :=
  match op with
  | OrdersReserve _ | OrdersConfirm _ _ _ _ _ | OrdersRelease _ | OrdersUpdateFill _ _ _ _ _
  | BrokerPlaceMarketOrder _ _ => false
  | _ => true
  end.

Lemma reads_env op e r e' : reads_only op = true -> shared_env false None op e r e' -> e' = e.
Proof. destruct op; try done; intros _; by intros (? & ? & _ & ->). Qed.

Lemma reads_panics op e e' : reads_only op = true -> shared_panics false None op e e' -> e' = e.
Proof.
  intros Ho. assert (e' = e \/ (exists r, shared_env false None op e r e') -> e' = e) as Hr.
  { intros [->|[r He]]; [done|]. by eapply reads_env. }
  by destruct op; try done; apply Hr.
Qed.

Lemma settle_reads p order event u : calls_only reads_only (settle p order event u).
Proof. unfold settle, perform, call. solve_calls_only. Qed.

Lemma settle_keeps p order event u w :
  pwp (shared_env false None) (shared_panics false None) (fun _ _ => True)
    (settle p order event u) (fun _ w' => w' = w) w.
Proof.
  eapply (pwp_calls_only _ _ _ reads_only); [done| | |apply settle_reads|done].
  - intros op v r v' Ho -> Hr. by eapply reads_env.
  - intros op v v' Ho -> Hr. by eapply reads_panics.
Qed.

(** What one delivery of an event does to the row of an order. *)
Lemma ProcessFill_effect provider pid p event t id r out t' :
  order_row provider pid t id r -> fill_runs p event t out t' ->
  fill_effect provider pid id event r out t'.
Proof.
  intros Hr. apply (pwp_sound _ _ (fun _ _ => True) _
    (fun out w' => fill_effect provider pid id event r out w'.1) (t, [])).
  assert (forall e, fill_effect provider pid id event r (Some (Err e)) t) as Hfail by (intros e; by left).
  assert (fill_effect provider pid id event r None t) as Hpanic by by left.
  unfold ProcessFill.
  destruct (LessThanOrEqual (fe_ExecutedQuantity event) Zero) eqn:Eq; [apply Hfail|].
  destruct (LessThanOrEqual (fe_FillPrice event) Zero) eqn:Ep; [apply Hfail|].
  apply LessThanOrEqual_false in Eq, Ep. rewrite Zero_dval in Eq, Ep.
  assert (valid_fill event) as Hv by done.
  split; [split; [done|]|].
  { intros w' Hp%reads_panics; [|done]. by subst w'. }
  intros found w' (f & c & Ef & ->). cbn [bind]. destruct found as [order|e]; [|apply Hfail].
  symmetry in Ef. apply lookup_found in Ef as (i & r0 & Hi & Hn & ->).
  destruct (fill_update (scanOrder r0) event) as [u|] eqn:Eu; [|exact Hpanic]. cbn [or_panic bind].
  apply pwp_bind. eapply pwp_mono; [apply settle_keeps|]. intros [[[]|e]|] w' ->; [|apply Hfail|exact Hpanic].
  split; [split; [done|]|].
  - intros w' [->|([[]|e] & f' & now & He & _)]; [exact Hpanic|..];
      (eapply update_effect in He as [[He _]|He]; [left|right|done..]; done).
  - intros res w' (f' & now & He & _). eapply update_effect in He; [|done..].
    destruct res as [[]|e]; simpl; unfold fill_effect.
    + destruct He as [[He Hno]|He]; [left|by right]. split; [done|]. intros Hf _. by apply (Hno Hf).
    + destruct He as [[He Hno]|He]; [left|by right]. done.
Qed.

(** ** Numbers *)

(** A number of eight decimals is stored as it is. *)
Lemma numeric_exact p s d d' n :
  0 <= s <= p -> p <= 1000 -> numeric p s d = Some d' -> (dval d == inject_Z n * p10 (- s))%Q ->
  (dval d' == dval d)%Q.
Proof.
  intros Hs Hp Hn Hd. destruct (numeric_rounds p s d d' Hs Hp Hn) as (m & Hr & _ & ->).
  rewrite Hd in Hr |- *. assert (m = n) as ->; [|done].
  eapply rounds_half_away_unique; [exact Hr|].
  assert (inject_Z n * p10 (- s) * p10 s == inject_Z n)%Q as ->; [|apply rounds_half_away_int].
  rewrite <- Qmult_assoc, p10_opp. ring.
Qed.

(** A whole number of the column's units. *)
Definition eight_decimals (d : Decimal) : Prop := exists n, (dval d == inject_Z n * p10 (- (8)))%Q.

Lemma eight_decimals_Add d d2 : eight_decimals d -> eight_decimals d2 -> eight_decimals (Add d d2).
Proof.
  intros [n Hn] [m Hm]. exists (n + m). rewrite Add_dval, Hn, Hm, inject_Z_plus. ring.
Qed.

Lemma qty_exact d d' : eight_decimals d -> numeric_qty d = Some d' -> (dval d' == dval d)%Q.
Proof. intros [n Hn] Hd. by apply (numeric_exact 28 8 _ _ n). Qed.

Lemma column_small p s d : 0 <= s <= p -> p <= 1000 -> of_numeric p s d -> small d.
Proof. intros Hs Hp [He _]. unfold small. lia. Qed.

(** Event numbers the columns and the arithmetic can take. *)
Definition plain_fill (event : FillEvent) : Prop :=
  eight_decimals (fe_ExecutedQuantity event) /\
  small (fe_ExecutedQuantity event) /\ small (fe_FillPrice event).

(** ** The sums *)

Definition notional (order : OrderRow) : Q :=
  (dval (row_filled_quantity order) * dval (row_average_fill_price order))%Q.

Fixpoint total_quantity (events : list FillEvent) : Q :=
  match events with
  | [] => 0
  | e :: events => dval (fe_ExecutedQuantity e) + total_quantity events
  end.

Fixpoint total_value (events : list FillEvent) : Q :=
  match events with
  | [] => 0
  | e :: events => dval (fe_ExecutedQuantity e) * dval (fe_FillPrice e) + total_value events
  end.

(** One fill on a typed row: the quantity is added exactly, the average is that of the
    money within 1e-4 of a unit price, the status follows the event and the target. *)
Record fill_added (event : FillEvent) (r r' : OrderRow) : Prop := {
  fa_typed : row_typed r';
  fa_keys : same_keys r r';
  fa_quantity : (dval (row_filled_quantity r')
    == dval (row_filled_quantity r) + dval (fe_ExecutedQuantity event))%Q;
  fa_value : (Qabs (notional r'
      - (notional r + dval (fe_ExecutedQuantity event) * dval (fe_FillPrice event)))
    <= p10 (- (4)) * dval (row_filled_quantity r'))%Q;
  fa_status : row_status r' = StatusFilled <->
    EqualFold (fe_Status event) StatusFilled = true \/
    (dval (row_target_quantity r) <= dval (row_filled_quantity r'))%Q;
  fa_statuses : row_status r' = StatusFilled \/ row_status r' = StatusPartial;
}.

Lemma typed_in_range event r : row_typed r -> plain_fill event -> fill_in_range (scanOrder r) event.
Proof.
  intros [] (_ & Sq & Sp). split; [done|]. split; [done|].
  split; [by apply (column_small 28 8)|by apply (column_small 28 4)].
Qed.

(** The stored average is within 1e-4 of the volume-weighted one. *)
Lemma stored_average event r u pr :
  row_typed r -> plain_fill event -> valid_fill event ->
  (0 <= dval (row_filled_quantity r))%Q -> fill_update (scanOrder r) event = Some u ->
  numeric_price (fu_newAvgPrice u) = Some pr ->
  (Qabs (dval pr - vwap (scanOrder r) event) <= p10 (- (4)))%Q.
Proof.
  intros Ht Hpl [Hq _] Hf Hu Hpr.
  destruct (fill_update_exact (scanOrder r) event) as (u' & Hu' & _ & _ & Hzero & Havg & _); [|done..|].
  { by apply typed_in_range. }
  rewrite Hu in Hu'. injection Hu' as <-. cbn [scanOrder bo_FilledQuantity bo_TargetQuantity] in *.
  assert (Qabs (dval (fu_newAvgPrice u) - vwap (scanOrder r) event) <= (1 # 2) * p10 (- (16)))%Q as He.
  { destruct (Qlt_le_dec 0 (dval (row_filled_quantity r))) as [Hpos|Hneg].
    - destruct (Havg Hpos) as [He Hr]. by apply (rounds_error _ 16).
    - assert (dval (row_filled_quantity r) == 0)%Q as Hz by lra. rewrite (Hzero Hz).
      assert (dval (fe_FillPrice event) - vwap (scanOrder r) event == 0)%Q as ->; [|discriminate].
      unfold vwap. simpl. rewrite Hz. field. lra. }
  apply (numeric_error 28) in Hpr; [|done..].
  assert (p10 (- (16)) == 1 # 10000000000000000)%Q as E1 by reflexivity. rewrite E1 in He.
  assert (p10 (- (4)) == 1 # 10000)%Q as E2 by reflexivity. rewrite E2 in Hpr |- *.
  apply Qabs_Qle_condition in He, Hpr. apply Qabs_Qle_condition. lra.
Qed.

Lemma varchar_status st st' :
  st = StatusFilled \/ st = StatusPartial -> varchar 32 st = Some st' -> st' = st.
Proof.
  intros Hs. unfold varchar. rewrite character_fits by by destruct Hs as [->| ->]. by intros [= <-].
Qed.

Lemma applies_added event r r' :
  row_typed r -> plain_fill event -> (0 <= dval (row_filled_quantity r))%Q ->
  eight_decimals (row_filled_quantity r) -> applies event r r' -> fill_added event r r'.
Proof.
  intros Ht Hpl Hf Hdec (Hv & u & now & st & q & pr & Hu & -> & Hst & Hq & Hpr).
  pose proof (stored_average event r u pr Ht Hpl Hv Hf Hu Hpr) as Havg.
  pose proof Ht as []. pose proof Hpl as (Hde & Sq & Sp). pose proof Hv as [Hqpos _].
  destruct (fill_update_exact (scanOrder r) event) as (u' & Hu' & _ & Hsum & _ & _ & Hs1 & Hs2); [|done..|].
  { by apply typed_in_range. }
  rewrite Hu in Hu'. injection Hu' as <-. cbn [scanOrder bo_FilledQuantity bo_TargetQuantity] in *.
  assert (fu_newFilledQty u = Add (row_filled_quantity r) (fe_ExecutedQuantity event)) as Hadd.
  { unfold fill_update in Hu. repeat case_match; by simplify_eq. }
  assert (dval q == dval (row_filled_quantity r) + dval (fe_ExecutedQuantity event))%Q as Vq.
  { rewrite <- Hsum. apply qty_exact; [|done]. rewrite Hadd. by apply eight_decimals_Add. }
  pose proof (varchar_status _ _ Hs2 Hst) as ->.
  split; cbn [fill_row row_filled_quantity row_average_fill_price row_status row_target_quantity].
  - split; simpl; eauto using varchar_typed, qty_typed, price_typed.
  - done.
  - done.
  - unfold notional. cbn [fill_row row_filled_quantity row_average_fill_price].
    assert (dval q * dval pr - (dval (row_filled_quantity r) * dval (row_average_fill_price r)
      + dval (fe_ExecutedQuantity event) * dval (fe_FillPrice event))
      == (dval pr - vwap (scanOrder r) event) * dval q)%Q as ->.
    { unfold vwap. cbn [scanOrder bo_FilledQuantity bo_AverageFillPrice]. rewrite Vq. field. lra. }
    assert (0 <= dval q)%Q as Hq0 by (rewrite Vq; lra).
    rewrite Qabs_Qmult, (Qabs_pos (dval q)) by done. by apply Qmult_le_compat_r.
  - by rewrite Vq.
  - done.
Qed.

(** ** The history *)

(** Events of the log that add up to the row: all that were answered without an error,
    and some that were not - the recording statement may run and still report one. *)
Inductive counts (provider pid : string)
    : list (FillEvent * option (Result unit)) -> list FillEvent -> Prop :=
  | counts_nil : counts provider pid [] []
  | counts_skip event out log events :
      (for_order provider pid event = true -> out <> Some (Ok tt)) ->
      counts provider pid log events -> counts provider pid ((event, out) :: log) events
  | counts_take event out log events :
      for_order provider pid event = true ->
      counts provider pid log events -> counts provider pid ((event, out) :: log) (event :: events).

(** The row after these fills. *)
Record row_after (events : list FillEvent) (r r' : OrderRow) : Prop := {
  oa_typed : row_typed r';
  oa_keys : same_keys r r';
  oa_quantity : (dval (row_filled_quantity r')
    == dval (row_filled_quantity r) + total_quantity events)%Q;
  oa_value : (Qabs (notional r' - (notional r + total_value events))
    <= inject_Z (Z.of_nat (length events)) * p10 (- (4)) * dval (row_filled_quantity r'))%Q;
  oa_status : match last events with
    | None => r' = r
    | Some event =>
        (row_status r' = StatusFilled \/ row_status r' = StatusPartial) /\
        (row_status r' = StatusFilled <->
           EqualFold (fe_Status event) StatusFilled = true \/
           (dval (row_target_quantity r) <= dval (row_filled_quantity r'))%Q)
    end;
}.

Lemma total_quantity_nonneg events : Forall valid_fill events -> (0 <= total_quantity events)%Q.
Proof. induction 1 as [|e events [Hq _] _ IH]; [discriminate|]. cbn [total_quantity] in *. lra. Qed.

Lemma row_after_nil r : row_typed r -> row_after [] r r.
Proof.
  intros Ht. split; [done|done| | |done]; cbn [total_quantity total_value length]; [ring|].
  assert (notional r - (notional r + 0) == 0)%Q as -> by ring.
  change (inject_Z (Z.of_nat 0)) with 0%Q. rewrite !Qmult_0_l. discriminate.
Qed.

Lemma row_after_cons event events r r1 r' :
  Forall valid_fill events -> fill_added event r r1 -> row_after events r1 r' ->
  row_after (event :: events) r r'.
Proof.
  intros Hev [? Hk1 Hq1 Hv1 Hs1 Hs1'] [? Hk Hq Hv Hs].
  assert (dval (row_filled_quantity r1) <= dval (row_filled_quantity r'))%Q as Hle.
  { rewrite Hq. pose proof (total_quantity_nonneg events Hev). lra. }
  split.
  - done.
  - by etrans.
  - cbn [total_quantity] in *. rewrite Hq, Hq1. ring.
  - cbn [total_value length]. rewrite Nat2Z.inj_succ, <- Z.add_1_l, inject_Z_plus.
    assert (p10 (- (4)) == 1 # 10000)%Q as E by reflexivity. rewrite E in *. clear E.
    apply Qabs_Qle_condition in Hv, Hv1. apply Qabs_Qle_condition.
    set (n := inject_Z (Z.of_nat (length events))) in *. change (inject_Z 1) with 1%Q. lra.
  - replace (row_target_quantity r1) with (row_target_quantity r) in Hs
      by (unfold same_keys, fixed_columns in Hk1; congruence).
    rewrite last_cons. destruct (last events); [exact Hs|]. by subst r'.
Qed.

(** C8: what a row adds up to.  However the fill events of all orders are delivered one by
    one - in any order, with failing or panicking collaborators, database statements that
    fail before or after taking effect, and other requests in between - the row of an order has, exactly, the quantity it had
    plus those of the fills recorded on it: every one that was answered without an error
    is among them, and nothing that was invalid or for another order.  Its average price
    times its quantity is the money of those fills within 1e-4 per fill and unit of
    quantity; it is FILLED when the last of them said so or its target is reached, and
    PARTIAL otherwise; its other columns are as they were. *)
Theorem fills_accumulate p provider pid id t log t' r :
  order_row provider pid t id r -> row_typed r -> (0 <= dval (row_filled_quantity r))%Q ->
  (forall event out, (event, out) ∈ log -> for_order provider pid event = true -> plain_fill event) ->
  fill_history p provider pid t log t' ->
  exists r' events, counts provider pid log events /\ order_row provider pid t' id r' /\
    Forall valid_fill events /\ row_after events r r'.
Proof.
  intros Hr Ht Hf Hpl Hh. revert r Hr Ht Hf Hpl.
  induction Hh as [t|t event out t1 log t' Hrun _ IH|t t1 log t' Ho _ IH]; intros r Hr Ht Hf Hpl.
  - exists r, []. split; [constructor|]. split; [done|]. split; [done|]. by apply row_after_nil.
  - assert (forall event' out', (event', out') ∈ log -> for_order provider pid event' = true ->
      plain_fill event') as Hpl' by (intros ???; eapply Hpl; by right).
    destruct (ProcessFill_effect _ _ _ _ _ _ _ _ _ Hr Hrun) as [[Hr1 Hno]|(Hfor & r1 & Ha & Hr1)].
    + destruct (IH r) as (r' & events & Hc & Hr' & Hv & Hafter); [done..|].
      exists r', events. split; [by constructor|done].
    + assert (fill_added event r r1) as Hadd.
      { apply applies_added; [done|eapply Hpl; [left|done]|done| |done].
        destruct Ht as []. destruct ty_filled as (_ & n & _ & Hn). by exists n. }
      pose proof Ha as ((Hq & _) & _). pose proof (fa_quantity _ _ _ Hadd) as Hq1.
      destruct (IH r1) as (r' & events & Hc & Hr' & Hv & Hafter);
        [done|apply Hadd|rewrite Hq1; lra|done|].
      exists r', (event :: events). split; [by constructor|]. split; [done|].
      split; [constructor; [apply Ha|done]|]. by eapply row_after_cons.
  - by apply IH; [apply Ho|..].
Qed.
End History.
