(* ===== verification/WebhookSpec.v ===== *)
(** * What the webhook delivers

    A key that differs from a field's name in case only is decoded into that field too.  The
    map is marshaled in the order of its keys, upper case first, so the field's own key is
    decoded last and wins, provided it is there and the other value has the field's type:
    then a report on the wire is the report the handler sees.  The order time Binance sends,
    a number [O] folding onto the string [o], breaks that condition. *)

From stdpp Require Import base tactics list strings gmap sorting.
From Stdlib Require Import ZArith QArith Qabs String Lia Lqa.
From S2P Require Import Prelude Exec GoStrings Decimal DecimalSpec DecimalText Float64 Http Effects.
From S2P Require Import Worker WorkerSpec Webhook.

#[local] Open Scope string_scope.
#[local] Open Scope Z_scope.
#[local] Open Scope go_scope.

Section WebhookSpec.
Context `{GoUnicode}.

(** ** Decoding a document *)

(** The types of the fields, and the values [encoding/json] takes for them. *)
Inductive field_kind := KString | KInt64 | KDecimal.

Definition takes (k : field_kind) (l : literal) : Prop :=
  match k with
  | KString => is_Some (store_string "" l)
  | KInt64 => is_Some (store_int64 0 l)
  | KDecimal => is_Some (store_decimal zero_value l)
  end.

#[local] Instance takes_dec k l : Decision (takes k l).
Proof. destruct k; apply _. Defined.

(** A key that folds onto a field of another name does no harm when it comes before the
    field's own key in the marshaled map and holds a value the field takes: the field's own
    key is decoded after it. *)
Definition folds_away (names : list string) (kind : string -> field_kind) (m : gmap string json)
    (key : string) (j : json) : Prop :=
  match find_field names key with
  | Some name => key = name \/
      (String.leb key name = true /\ is_Some (m !! name) /\ takes (kind name) (reencode j))
  | None => True
  end.

#[export] Instance folds_away_dec names kind m key j : Decision (folds_away names kind m key j).
Proof. unfold folds_away. destruct (find_field names key); apply _. Defined.

(** The fields' own keys win. *)
Definition names_win (names : list string) (kind : string -> field_kind) (m : gmap string json)
    : Prop :=
  map_Forall (folds_away names kind m) m.

Lemma marshal_map_perm m :
  marshal_map m ≡ₚ map (fun kv => (kv.1, reencode kv.2)) (map_to_list m).
Proof. unfold marshal_map. apply merge_sort_Permutation. Qed.

Lemma filter_Permutation' {A} (f : A -> bool) l1 l2 :
  l1 ≡ₚ l2 -> List.filter f l1 ≡ₚ List.filter f l2.
Proof.
  induction 1 as [|x l1 l2 Hl IH|x y l|l1 l2 l3 _ IH1 _ IH2]; simpl; try done.
  - destruct (f x); [by constructor|done].
  - destruct (f x), (f y); try done. constructor.
  - by etrans.
Qed.

Lemma assigned_perm names l1 l2 name :
  l1 ≡ₚ l2 -> assigned names l1 name ≡ₚ assigned names l2 name.
Proof. intros Hl. unfold assigned. apply Permutation_map. by apply filter_Permutation'. Qed.

Lemma filter_none {A} (f : A -> bool) l :
  (forall x, x ∈ l -> f x = false) -> List.filter f l = [].
Proof.
  induction l as [|x l IH]; simpl; intros Hl; [done|].
  rewrite (Hl x) by left. apply IH. intros y Hy. apply Hl. by right.
Qed.

Definition reencoded (m : gmap string json) : list (string * literal) :=
  map (fun kv => (kv.1, reencode kv.2)) (map_to_list m).

Lemma assigned_others names m name :
  (forall key j, m !! key = Some j -> find_field names key <> Some name) ->
  assigned names (reencoded m) name = [].
Proof.
  intros Hm. unfold assigned, reencoded. rewrite filter_none; [done|].
  intros kv (kv' & -> & Hin)%list_elem_of_fmap. destruct kv' as [k j].
  apply elem_of_map_to_list in Hin. apply bool_decide_eq_false. by eapply Hm.
Qed.

Lemma reencoded_delete m name j :
  m !! name = Some j -> reencoded m ≡ₚ (name, reencode j) :: reencoded (delete name m).
Proof.
  intros Hj. rewrite <- (insert_delete_id m name j Hj) at 1. unfold reencoded.
  apply (Permutation_map (fun kv : string * json => (kv.1, reencode kv.2)) (l' := (name, j) :: _)).
  apply map_to_list_insert, lookup_delete_eq.
Qed.

Lemma find_field_own names name : name ∈ names -> find_field names name = Some name.
Proof. intros Hn. unfold find_field. by rewrite bool_decide_true. Qed.

#[local] Instance key_le_trans : Transitive key_le.
Proof. intros [a ?] [b ?] [c ?]. apply string_leb_trans. Qed.
#[local] Instance key_le_total : Total key_le.
Proof. intros [a ?] [b ?]. apply String.leb_total. Qed.

Lemma marshal_map_lookup m kv :
  kv ∈ marshal_map m -> exists j, m !! kv.1 = Some j /\ kv.2 = reencode j.
Proof.
  rewrite (marshal_map_perm m). intros (kv' & -> & Hin)%list_elem_of_fmap.
  destruct kv' as [k j]. apply elem_of_map_to_list in Hin. by exists j.
Qed.

(** What comes after the key of a field is decoded into other fields. *)
Lemma after_own_key names kind m name j :
  names_win names kind m -> m !! name = Some j ->
  exists l1 l2, marshal_map m = (l1 ++ (name, reencode j) :: l2)%list /\
    forall kv, kv ∈ l2 -> find_field names kv.1 <> Some name.
Proof.
  intros Hw Hj.
  assert ((name, reencode j) ∈ marshal_map m) as (l1 & l2 & E)%list_elem_of_split.
  { rewrite (marshal_map_perm m). apply (list_elem_of_fmap_2 (fun kv => (kv.1, reencode kv.2)) _ (name, j)).
    by apply elem_of_map_to_list. }
  exists l1, l2. split; [done|]. intros [k l] Hin Hf.
  destruct (marshal_map_lookup m (k, l)) as (j' & Hk & _); [rewrite E; set_solver|].
  cbn [fst] in Hf, Hk. specialize (Hw k j' Hk). unfold folds_away in Hw. rewrite Hf in Hw.
  assert (k = name) as ->.
  { destruct Hw as [->|[Hle _]]; [done|]. apply String.leb_antisym; [done|].
    pose proof (StronglySorted_merge_sort key_le (map (fun kv => (kv.1, reencode kv.2)) (map_to_list m)))
      as Hs.
    change (StronglySorted key_le (marshal_map m)) in Hs. rewrite E in Hs.
    apply StronglySorted_app in Hs as (_ & _ & Hs). apply StronglySorted_cons in Hs as [Hs _].
    rewrite Forall_forall in Hs. exact (Hs _ Hin). }
  assert (NoDup (map fst (marshal_map m))) as Hn.
  { rewrite (Permutation_map fst (marshal_map_perm m)), map_map.
    apply (NoDup_fst_map_to_list m). }
  rewrite E, map_app in Hn. apply NoDup_app in Hn as (_ & _ & [Hn _]%NoDup_cons).
  apply Hn. by apply (list_elem_of_fmap_2 fst _ (name, l)).
Qed.

(** A field gets the value of its own key, or stays what it was. *)
Lemma decode_own {A} names kind m (store : A -> literal -> option A) zero name w :
  name ∈ names -> names_win names kind m ->
  (forall v l, takes (kind name) l -> is_Some (store v l)) ->
  match m !! name with Some j => forall v, store v (reencode j) = Some w | None => w = zero end ->
  decode_field names (marshal_map m) store zero name = Some w.
Proof.
  intros Hn Hw Hst. unfold decode_field, assigned. destruct (m !! name) as [j|] eqn:Ej; intros Hv.
  - destruct (after_own_key _ _ _ _ _ Hw Ej) as (l1 & l2 & E & Hl2).
    assert (forall kv, kv ∈ l1 -> kv ∈ marshal_map m) as Hl1 by (rewrite E; set_solver).
    assert (forall kv z, kv ∈ marshal_map m -> find_field names kv.1 = Some name ->
      is_Some (store z kv.2)) as Hok.
    { intros [k l] z (j' & Hk & Hl)%marshal_map_lookup Hf. cbn [fst snd] in *. subst l.
      specialize (Hw _ _ Hk). unfold folds_away in Hw. rewrite Hf in Hw.
      destruct Hw as [->|(_ & _ & Ht)]; [|by apply Hst].
      assert (j' = j) as -> by congruence. eauto. }
    rewrite E, List.filter_app. cbn [List.filter fst].
    rewrite (find_field_own _ _ Hn), bool_decide_true by done.
    rewrite (filter_none _ l2), map_app, foldl_app; [|intros; by apply bool_decide_eq_false, Hl2].
    cbn [map snd foldl].
    match goal with |- ?x ≫= _ = _ => assert (is_Some x) as [v ->]; [|apply Hv] end.
    clear E. generalize zero. induction l1 as [|kv l1 IH]; intros z; [done|]. cbn [List.filter].
    destruct (bool_decide _) eqn:Ef; [|apply IH; set_solver]. apply bool_decide_eq_true in Ef.
    destruct (Hok kv z) as [z' Hz]; [set_solver|done|]. cbn [map snd foldl].
    cbn [mbind option_bind]. rewrite Hz. apply IH. set_solver.
  - rewrite filter_none; [by subst|]. intros kv [j (Hk & _)]%marshal_map_lookup.
    apply bool_decide_eq_false. intros Hf. specialize (Hw _ _ Hk). unfold folds_away in Hw.
    rewrite Hf in Hw. destruct Hw as [E|(_ & [? ?] & _)]; congruence.
Qed.

(** ** Reports and events as documents *)

(** The member [key] says [v], or is absent and [v] is the zero value. *)
Definition says_string (m : gmap string json) (key v : string) : Prop :=
  m !! key = Some (JStr v) \/ (m !! key = None /\ v = "").

Definition says_int (m : gmap string json) (key : string) (v : Z) : Prop :=
  (m !! key = Some (JNum (v <? 0) (Z.to_N (Z.abs v)) 0) /\ Z.abs v < 2 ^ 53) \/
  (m !! key = None /\ v = 0).

Definition report_kind (name : string) : field_kind :=
  if String.eqb name "E" || String.eqb name "i" then KInt64 else KString.

Definition fill_event_kind (name : string) : field_kind :=
  if String.eqb name "executed_quantity" || String.eqb name "fill_price" then KDecimal else KString.

(** A document of the members of a report.  Other keys are ignored unless they fold; those
    that fold must fold away. *)
Definition report_document (m : gmap string json) (r : RawBinanceExecutionReport) : Prop :=
  m !! "provider_order_id" = None /\ is_Some (m !! "e") /\ names_win report_names report_kind m /\
  says_string m "e" (EventType r) /\ says_int m "E" (EventTime r) /\
  says_string m "s" (Symbol r) /\ says_string m "c" (ClientOrderID r) /\
  says_string m "S" (Side r) /\ says_string m "o" (OrderType r) /\
  says_string m "q" (OriginalQuantity r) /\ says_string m "p" (Price r) /\
  says_string m "x" (ExecutionType r) /\ says_string m "X" (OrderStatus r) /\
  says_int m "i" (OrderID r) /\ says_string m "l" (LastExecutedQuantity r) /\
  says_string m "z" (CumulativeFilledQty r) /\ says_string m "L" (LastExecutedPrice r) /\
  says_string m "Z" (CumulativeQuoteQuantity r).

(** The object [json.Marshal] makes of an event. *)
Definition event_document (m : gmap string json) (e : FillEvent) : Prop :=
  m !! "provider_order_id" = Some (JStr (fe_ProviderOrderID e)) /\
  names_win fill_event_names fill_event_kind m /\
  says_string m "provider" (fe_Provider e) /\ says_string m "symbol" (fe_Symbol e) /\
  says_string m "side" (fe_Side e) /\ says_string m "status" (fe_Status e) /\
  m !! "executed_quantity" = Some (JStr (to_String (fe_ExecutedQuantity e))) /\
  m !! "fill_price" = Some (JStr (to_String (fe_FillPrice e))).

Lemma decode_string names kind m name v :
  name ∈ names -> names_win names kind m -> kind name = KString -> says_string m name v ->
  decode_field names (marshal_map m) store_string "" name = Some v.
Proof.
  intros Hn Hw Hk Hs. eapply decode_own; [done..| |].
  - intros old l. rewrite Hk. by destruct l; intros [? ?].
  - by destruct Hs as [->|[-> ->]].
Qed.

Lemma decode_int names kind m name v :
  name ∈ names -> names_win names kind m -> kind name = KInt64 -> says_int m name v ->
  decode_field names (marshal_map m) store_int64 0 name = Some v.
Proof.
  intros Hn Hw Hk Hs. eapply decode_own; [done..| |].
  - intros old l. rewrite Hk. by destruct l; intros [? ?].
  - destruct Hs as [[-> Hv]|[-> ->]]; [|done]. intros old.
    cbn [reencode]. rewrite number_text_int by done. cbn [default store_int64].
    apply ParseInt_FormatInt. unfold in_i64, MinInt64, MaxInt64. lia.
Qed.

Lemma decode_decimal names kind m name d :
  name ∈ names -> names_win names kind m -> kind name = KDecimal -> in_i32 (d_exp d) ->
  m !! name = Some (JStr (to_String d)) ->
  exists d', decode_field names (marshal_map m) store_decimal zero_value name = Some d' /\ deq d' d.
Proof.
  intros Hn Hw Hk Hd Hm. destruct (to_String_read d Hd) as (d' & Hr & Hd'). exists d'.
  split; [|done]. eapply decode_own; [done..| |].
  - intros old l. rewrite Hk. by destruct l; intros [? ?].
  - rewrite Hm. intros old. cbn [reencode store_decimal]. by rewrite Hr.
Qed.

Ltac in_names := apply (bool_decide_unpack _); vm_compute; exact I.
Ltac read_field :=
  first [erewrite decode_string by (first [eassumption | in_names | reflexivity])
        |erewrite decode_int by (first [eassumption | in_names | reflexivity])]; cbn [mbind option_bind].

Lemma unmarshal_report_document m r :
  report_document m r -> unmarshal_report (marshal_map m) = Some r.
Proof.
  intros (_ & _ & Hc & H1 & H2 & H3 & H4 & H5 & H6 & H7 & H8 & H9 & H10 & H11 & H12 & H13 & H14 & H15).
  unfold unmarshal_report. repeat read_field. by destruct r.
Qed.

Lemma unmarshal_event_document m e :
  event_document m e -> in_i32 (d_exp (fe_ExecutedQuantity e)) -> in_i32 (d_exp (fe_FillPrice e)) ->
  exists q p, deq q (fe_ExecutedQuantity e) /\ deq p (fe_FillPrice e) /\
    unmarshal_fill_event (marshal_map m) = Some {|
      fe_Provider := fe_Provider e; fe_ProviderOrderID := fe_ProviderOrderID e;
      fe_Symbol := fe_Symbol e; fe_Side := fe_Side e; fe_Status := fe_Status e;
      fe_ExecutedQuantity := q; fe_FillPrice := p |}.
Proof.
  intros (Hid & Hc & H1 & H2 & H3 & H4 & Hq & Hp) Heq Hep.
  destruct (decode_decimal fill_event_names _ m "executed_quantity" _ ltac:(in_names) Hc eq_refl Heq Hq)
    as (q & Eq & Hdq).
  destruct (decode_decimal fill_event_names _ m "fill_price" _ ltac:(in_names) Hc eq_refl Hep Hp)
    as (p & Ep & Hdp).
  assert (says_string m "provider_order_id" (fe_ProviderOrderID e)) as Hid' by by left.
  exists q, p. split; [done|]. split; [done|]. unfold unmarshal_fill_event. repeat read_field.
  rewrite Eq. cbn [mbind option_bind]. by rewrite Ep.
Qed.

(** ** What a report says was executed *)

(** The text is a number other than zero. *)
Definition usable (text : string) (d : Decimal) : Prop :=
  NewFromString text = Ok d /\ ~ (dval d == 0)%Q.

Definition unusable (text : string) : Prop :=
  forall d, NewFromString text = Ok d -> (dval d == 0)%Q.

(** The last executed quantity [l], or else the cumulative one [z]. *)
Definition quantity_of (r : RawBinanceExecutionReport) (q : Decimal) : Prop :=
  usable (LastExecutedQuantity r) q \/
  (unusable (LastExecutedQuantity r) /\ NewFromString (CumulativeFilledQty r) = Ok q).

(** The last executed price [L], or else the cumulative quote quantity [Z] per unit. *)
Definition price_of (r : RawBinanceExecutionReport) (q p : Decimal) : Prop :=
  usable (LastExecutedPrice r) p \/
  (unusable (LastExecutedPrice r) /\
   ((exists c, NewFromString (CumulativeQuoteQuantity r) = Ok c /\ (0 < dval q)%Q /\
       (Qabs (dval p - dval c / dval q) <= (1 # 2) * p10 (- (16)))%Q) \/
    (((dval q <= 0)%Q \/ forall c, NewFromString (CumulativeQuoteQuantity r) <> Ok c) /\
     (dval p == 0)%Q))).

(** Something was executed. *)
Definition execution (r : RawBinanceExecutionReport) : Prop :=
  ExecutionType r = "TRADE" \/ OrderStatus r = "FILLED" \/ OrderStatus r = "PARTIALLY_FILLED".

Lemma is_fill_spec r : is_fill r = true <-> execution r.
Proof.
  unfold is_fill, execution. rewrite !orb_true_iff, !String.eqb_eq. tauto.
Qed.

Lemma read_cases text :
  (exists d, usable text d /\ IsZero d = false) \/
  (unusable text /\ exists d, NewFromString text = Ok d /\ IsZero d = true) \/
  (unusable text /\ exists e, NewFromString text = Err e).
Proof.
  unfold usable, unusable. destruct (NewFromString text) as [d|e] eqn:E.
  2: { right. right. split; [done|eauto]. }
  destruct (IsZero d) eqn:Z.
  - right. left. apply IsZero_spec in Z as Zd. split; [by intros d' [= <-]|eauto].
  - left. exists d. split; [|done]. split; [done|]. rewrite <- IsZero_spec. by rewrite Z.
Qed.

Lemma report_quantity_spec r q : report_quantity r = Some q <-> quantity_of r q.
Proof.
  unfold report_quantity, quantity_of.
  destruct (read_cases (LastExecutedQuantity r)) as [(d & [Hr Hd] & Hz)|[[Hu (d & Hr & Hz)]|[Hu [e Hr]]]];
    rewrite Hr, ?Hz.
  - split; [intros [= <-]; left; done|]. intros [[Hq _]|[Hu _]]; [congruence|].
    by apply Hu in Hr.
  - split.
    + intros Hq. right. split; [done|]. cbv zeta in Hq.
      destruct (NewFromString (CumulativeFilledQty r)); by simplify_eq.
    + intros [[Hq Hn]|[_ ->]]; [|done]. by apply Hu in Hq.
  - split.
    + intros Hq. right. split; [done|]. cbv zeta in Hq.
      destruct (NewFromString (CumulativeFilledQty r)); by simplify_eq.
    + intros [[Hq Hn]|[_ ->]]; [|done]. by apply Hu in Hq.
Qed.

Lemma report_price_spec r q :
  moderate q -> (forall c, NewFromString (CumulativeQuoteQuantity r) = Ok c -> moderate c) ->
  exists p, report_price r q = Some p /\ price_of r q p.
Proof.
  intros Hq Hc.
  assert (forall d, (dval d == 0)%Q -> unusable (LastExecutedPrice r) ->
    exists p, match NewFromString (CumulativeQuoteQuantity r) with
      | Ok cumQuote => if GreaterThan q Zero then Div cumQuote q else Some d
      | Err _ => Some d
      end = Some p /\ price_of r q p) as Hfall.
  { intros d Hd Hu. destruct (NewFromString (CumulativeQuoteQuantity r)) as [c|e] eqn:Ec.
    - destruct (GreaterThan q Zero) eqn:Eg.
      + apply GreaterThan_spec in Eg. rewrite Zero_dval in Eg.
        destruct (Div_spec c q) as (p & -> & He & Hr); [by apply Hc|done|apply dval_nonzero; lra|].
        exists p. split; [done|]. right. split; [done|]. left. exists c. split; [done|].
        split; [done|]. by apply (rounds_error _ 16).
      + exists d. split; [done|]. right. split; [done|]. right. split; [|done]. left.
        apply Qnot_lt_le. intros Hlt. assert (GreaterThan q Zero = true); [|congruence].
        apply GreaterThan_spec. by rewrite Zero_dval.
    - exists d. split; [done|]. right. split; [done|]. right. split; [|done].
      right. intros c. by rewrite Ec. }
  unfold report_price.
  destruct (read_cases (LastExecutedPrice r)) as [(d & [Hr Hd] & Hz)|[[Hu (d & Hr & Hz)]|[Hu [e Hr]]]];
    rewrite Hr, ?Hz.
  - exists d. split; [done|]. by left.
  - apply Hfall; [by apply IsZero_spec|done].
  - by apply Hfall.
Qed.

(** The handler sees the report that was sent. *)
Lemma report_handled (s : Server) members r :
  forallb (fun kv => numbers_fit kv.2) members = true ->
  report_document (decode_map members) r ->
  handleBinanceOrderWebhook s "POST" (Ok members) =
    (verdict <- or_panic "decimal" (report_verdict r) ;;
     match verdict with
     | Ignored => http_reply StatusOK (status_document "ignored")
     | BadQuantity => http_reply StatusBadRequest "invalid execution quantity"
     | Fill event => process s event
     end).
Proof.
  intros Hfit Hdoc. unfold handleBinanceOrderWebhook. rewrite Hfit.
  rewrite (unmarshal_report_document _ _ Hdoc). destruct Hdoc as (-> & [j ->] & _). done.
Qed.

(** ** The keys Binance sends *)

Lemma decode_field_error {A} names members (store : A -> literal -> option A) zero name l :
  l ∈ assigned names members name -> (forall v, store v l = None) ->
  decode_field names members store zero name = None.
Proof.
  intros Hin Hl. unfold decode_field. generalize (Some zero) as acc.
  induction (assigned names members name) as [|l' ls IH]; intros acc; [by apply elem_of_nil in Hin|].
  apply elem_of_cons in Hin as [<-|Hin]; [|by apply IH].
  cbn [foldl]. assert ((acc ≫= fun v => store v l) = None) as -> by (destruct acc; [apply Hl|done]).
  clear. induction ls; [done|]. done.
Qed.

Lemma assigned_member names m key j name :
  m !! key = Some j -> find_field names key = Some name ->
  reencode j ∈ assigned names (marshal_map m) name.
Proof.
  intros Hj Hf. rewrite (assigned_perm _ _ _ _ (marshal_map_perm m)).
  change (map _ (map_to_list m)) with (reencoded m).
  rewrite (assigned_perm _ _ _ _ (reencoded_delete m key j Hj)). unfold assigned.
  cbn [List.filter fst]. rewrite bool_decide_true by done. left.
Qed.

(** The execution reports of Binance carry the order's creation time as the number [O],
    which is decoded into the string field [o]: every one of them is refused. *)
Theorem order_time_rejected (s : Server) members neg c p :
  forallb (fun kv => numbers_fit kv.2) members = true ->
  decode_map members !! "provider_order_id" = None -> is_Some (decode_map members !! "e") ->
  decode_map members !! "O" = Some (JNum neg c p) ->
  handleBinanceOrderWebhook s "POST" (Ok members)
    = http_reply 400 "invalid binance execution report".
Proof.
  intros Hfit Hid [j He] HO. unfold handleBinanceOrderWebhook. rewrite Hfit, Hid, He.
  cbn [negb String.eqb Ascii.eqb Bool.eqb].
  assert (decode_field report_names (marshal_map (decode_map members)) store_string "" "o" = None)
    as Ho.
  { eapply decode_field_error; [by apply (assigned_member _ _ "O" _ "o" HO)|done]. }
  unfold unmarshal_report.
  rewrite Ho. do 5 (match goal with |- context [?x ≫= _] => destruct x; cbn [mbind option_bind]; [|done] end).
  done.
Qed.

(** C17: a native execution report on the wire.  Keys that differ from a field's name in case
    only, like [C], [Q] and [I], do no harm where the field's own key follows them and they
    hold a value of its type: the handler then sees the report that was sent, its integers
    exact below 2^53.  One that is no fill is ignored, one without a readable quantity is
    refused, and any other is processed exactly once as the fill of that order, with the last
    executed quantity and price or, where one is missing or zero, the cumulative quantity and
    the correctly rounded cumulative quote quantity per unit.  A report whose key [O] is a
    number, as the order time Binance sends is, is refused without being processed. *)
Theorem native_report_delivered (s : Server) members :
  let m := decode_map members in
  let reply := handleBinanceOrderWebhook s "POST" (Ok members) in
  forallb (fun kv => numbers_fit kv.2) members = true ->
  m !! "provider_order_id" = None -> is_Some (m !! "e") ->
  (forall neg c p, m !! "O" = Some (JNum neg c p) ->
   reply = http_reply 400 "invalid binance execution report") /\
  (forall r, report_document m r ->
   (~ execution r -> reply = http_reply 200 (status_document "ignored")) /\
   (execution r -> (forall q, ~ quantity_of r q) ->
    reply = http_reply 400 "invalid execution quantity") /\
   (forall q, execution r -> quantity_of r q -> moderate q ->
    (forall c, NewFromString (CumulativeQuoteQuantity r) = Ok c -> moderate c) ->
    exists p, price_of r q p /\
      reply = process s {|
        fe_Provider := "BINANCE"; fe_ProviderOrderID := FormatInt (OrderID r);
        fe_Symbol := Symbol r; fe_Side := Side r; fe_Status := OrderStatus r;
        fe_ExecutedQuantity := q; fe_FillPrice := p |})).
Proof.
  cbv zeta. intros Hfit Hid He. split; [intros; by eapply order_time_rejected|].
  intros r Hdoc. rewrite (report_handled s _ _ Hfit Hdoc). unfold report_verdict.
  split; [by intros Hx; destruct (is_fill r) eqn:E; [apply is_fill_spec in E|]|]. split.
  - intros ->%is_fill_spec Hq. cbn [negb]. destruct (report_quantity r) as [q|] eqn:E; [|done].
    apply report_quantity_spec in E. by destruct (Hq q).
  - intros q ->%is_fill_spec Hq Hm Hc. apply report_quantity_spec in Hq. cbn [negb]. rewrite Hq.
    destruct (report_price_spec r q Hm Hc) as (p & -> & Hp). eauto.
Qed.

(** A normalised fill event on the wire: what [json.Marshal] writes for an event is
    delivered as that event, quantity and price equal as numbers. *)
Theorem fill_event_delivered (s : Server) members e :
  forallb (fun kv => numbers_fit kv.2) members = true ->
  event_document (decode_map members) e ->
  in_i32 (d_exp (fe_ExecutedQuantity e)) -> in_i32 (d_exp (fe_FillPrice e)) ->
  exists q p, deq q (fe_ExecutedQuantity e) /\ deq p (fe_FillPrice e) /\
    handleBinanceOrderWebhook s "POST" (Ok members) = process s {|
      fe_Provider := fe_Provider e; fe_ProviderOrderID := fe_ProviderOrderID e;
      fe_Symbol := fe_Symbol e; fe_Side := fe_Side e; fe_Status := fe_Status e;
      fe_ExecutedQuantity := q; fe_FillPrice := p |}.
Proof.
  intros Hfit Hdoc Hq Hp.
  destruct (unmarshal_event_document _ _ Hdoc Hq Hp) as (q & p & Hdq & Hdp & Hu).
  exists q, p. split; [done|]. split; [done|].
  unfold handleBinanceOrderWebhook. rewrite Hfit, Hu. by destruct Hdoc as (-> & _).
Qed.

(** ** Every request *)

(** The event a document is processed as. *)
Definition delivers (members : list (string * json)) (event : FillEvent) : Prop :=
  let m := decode_map members in
  (is_Some (m !! "provider_order_id") /\
   unmarshal_fill_event (marshal_map m) = Some event) \/
  (m !! "provider_order_id" = None /\ is_Some (m !! "e") /\
   exists r, unmarshal_report (marshal_map m) = Some r /\
     report_verdict r = Some (Fill event)).

Definition processed_reply : HttpReply :=
  {| rp_Status := 200; rp_Body := status_document "PROCESSED" |}.
Definition ignored_reply : HttpReply :=
  {| rp_Status := 200; rp_Body := status_document "ignored" |}.

Definition refusal (reply : HttpReply) : Prop :=
  rp_Status reply = 400 \/ rp_Status reply = 405 \/ reply = ignored_reply.

Ltac refuse_with t := left; eexists; split; [|split; [|reflexivity]]; [t|done].
Ltac refuse := refuse_with ltac:(by left).

(** The handler processes at most one event, and what it answers says which. *)
Lemma webhook_cases (s : Server) method body :
  (exists reply, refusal reply /\ (method <> "POST" -> rp_Status reply = 405) /\
     handleBinanceOrderWebhook s method body = Ret reply) \/
  (exists msg, handleBinanceOrderWebhook s method body = Panic msg) \/
  (exists members event, method = "POST" /\ body = Ok members /\ delivers members event /\
     handleBinanceOrderWebhook s method body = process s event).
Proof.
  unfold handleBinanceOrderWebhook, refusal, delivers.
  destruct (String.eqb_spec method "POST") as [->|]; cbn [negb].
  2: { refuse_with ltac:(right; by left). }
  destruct body as [members|e]; [|refuse].
  destruct (negb _); [refuse|].
  destruct (decode_map members !! "provider_order_id") as [j|] eqn:Ej.
  - destruct (unmarshal_fill_event _) as [event|] eqn:Eu; [|refuse].
    right. right. exists members, event. do 3 (split; [by eauto|]). done.
  - destruct (decode_map members !! "e") as [j|] eqn:Ee; [|refuse].
    destruct (unmarshal_report _) as [r|] eqn:Eu; [|refuse].
    destruct (report_verdict r) as [[| |event]|] eqn:Ev; cbn [or_panic bind].
    + refuse_with ltac:(right; by right).
    + refuse.
    + right. right. exists members, event. do 2 (split; [done|]). split; [|done].
      right. eauto 8.
    + right. left. eauto.
Qed.

(** C18: what an answer of the HTTP server means.  Only [/webhooks/binance/order] can
    reach the processor; the health check touches nothing and any other path is a 404.  There, 400, 405 and
    "ignored" touched nothing, and 405 is the answer to every method but POST.  500 is a fill
    the processor reported an error for, and "PROCESSED" a fill that was valid, was settled as
    the deployment prescribes - by Ativos alone where it is connected, otherwise by Livro for
    quantity times price, otherwise or for another side by nobody - and recorded last;
    nothing else is ever answered. *)
Theorem webhook_reply fp path method body tr reply :
  traces (ServeHTTP (NewServer (ProcessFill fp)) path method body) tr (Some reply) ->
  (path = "/healthz" -> rp_Status reply = 200 /\ tr = []) /\
  (path <> "/healthz" -> path <> "/webhooks/binance/order" -> rp_Status reply = 404 /\ tr = []) /\
  (path = "/webhooks/binance/order" ->
   (method <> "POST" -> rp_Status reply = 405) /\
   ((refusal reply /\ tr = []) \/
    (exists members event, body = Ok members /\ delivers members event /\
       ((reply = processed_reply /\ valid_fill event /\ settled_run fp event tr) \/
        (rp_Status reply = 500 /\ exists e, traces (ProcessFill fp event) tr (Some (Err e))))))).
Proof.
  unfold ServeHTTP, RegisterRoutes. cbn [List.find fst].
  destruct (String.eqb_spec "/healthz" path) as [<-|H1].
  { intros [-> [= ->]]. split; [done|]. by split. }
  destruct (String.eqb_spec "/webhooks/binance/order" path) as [<-|H2].
  2: { intros [-> [= ->]]. split; [congruence|]. split; [done|congruence]. }
  intros Ht. split; [done|]. split; [done|]. intros _.
  destruct (webhook_cases (NewServer (ProcessFill fp)) method body)
    as [(reply' & Hr & Hm & E)|[[msg E]|(members & event & -> & -> & Hd & E)]]; rewrite E in Ht.
  - destruct Ht as [-> [= ->]]. split; [done|]. by left.
  - by destruct Ht.
  - split; [done|]. right. exists members, event. split; [done|]. split; [done|].
    apply traces_bind in Ht as [(tr1 & tr2 & r & -> & Hp & Ht)|[_ ?]]; [|done].
    destruct r as [[]|e]; destruct Ht as [-> [= ->]]; rewrite app_nil_r.
    + left. split; [done|]. by apply ProcessFill_settled.
    + right. split; [done|]. eauto.
Qed.
End WebhookSpec.
