(* ===== verification/Startup.v ===== *)
(** * Start-up and shutdown

    cmd/server/main.go and internal/db/db.go: the process reads its configuration,
    connects to its collaborators, serves until a signal arrives, and closes what it
    opened.  A failed database connection or dial only leaves an interface nil; a failed
    migration or listener ends the process by [log.Fatalf], which runs no deferred
    call: [Exit] has no answer. *)

From stdpp Require Import base tactics list strings.
From Stdlib Require Import ZArith.
From S2P Require Import Prelude Link GoStrings Cache Config Effects Worker Service Webhook.

#[local] Open Scope string_scope.
#[local] Open Scope Z_scope.
#[local] Open Scope go_scope.

(** What the process was able to connect to. *)
Record Deployment := {
  dp_config : Config;
  dp_pool : bool;
  dp_livro : bool;
  dp_ativos : bool;
}.

Inductive Resource := Pool | RedisConn | LivroConn | AtivosConn.

Inductive MainOp :=
  | ReadEnv (op : EnvOp)
  | PoolParseConfig (databaseURL : string)
  | PoolNew
  | PoolPing
  | PoolExecSchema
  | RedisNewClient (addr password : string) (db : Z)
  | DialLivro (addr : string)
  | DialAtivos (addr : string)
  | CloseResource (r : Resource)
  | GoServeHTTP (addr : string) (d : Deployment)
  | NetListen (addr : string)
  | GoServeGRPC (d : Deployment)
  | AwaitSignal
  | GracefulStop
  | HTTPShutdown
  | Exit (msg : string).

Definition MainRes (op : MainOp) : Type :=
  match op with
  | ReadEnv op => EnvRes op
  | PoolParseConfig _ | PoolNew | PoolPing | PoolExecSchema
  | DialLivro _ | DialAtivos _ | NetListen _ => Result unit
  | RedisNewClient _ _ _ | CloseResource _ | GoServeHTTP _ _ | GoServeGRPC _
  | AwaitSignal | GracefulStop | HTTPShutdown => unit
  | Exit _ => Empty_set
  end.

Abbreviation startup := (prog MainRes).

Definition main_do (op : MainOp) : startup (MainRes op) := call (Res := MainRes) op.

(** ** internal/db/db.go *)

Definition NewPool (databaseURL : string) : startup (Result unit) :=
  config <- main_do (PoolParseConfig databaseURL) ;;
  match config with
  | Err e => Ret (Err (ErrWrap "failed to parse database URL" e))
  | Ok _ =>
      pool <- main_do PoolNew ;;
      match pool with
      | Err e => Ret (Err (ErrWrap "failed to create pgxpool" e))
      | Ok _ =>
          ping <- main_do PoolPing ;;
          match ping with
          | Err e =>
              main_do (CloseResource Pool) ;;;
              Ret (Err (ErrWrap "failed to ping database" e))
          | Ok _ => Ret (Ok tt)
          end
      end
  end.

Definition RunMigrations : startup (Result unit) :=
  r <- main_do PoolExecSchema ;;
  match r with
  | Err e => Ret (Err (ErrWrap "failed to execute schema migration" e))
  | Ok _ => Ret (Ok tt)
  end.

(** ** The dialers of internal/client/livro and internal/client/ativos *)

Definition livro_NewClient (addr : string) : startup (Result unit) :=
  conn <- main_do (DialLivro addr) ;;
  match conn with
  | Err e => Ret (Err (ErrWrap "failed to dial livro" e))
  | Ok _ => Ret (Ok tt)
  end.

Definition ativos_NewClient (addr : string) : startup (Result unit) :=
  conn <- main_do (DialAtivos addr) ;;
  match conn with
  | Err e => Ret (Err (ErrWrap "failed to dial ativos" e))
  | Ok _ => Ret (Ok tt)
  end.

(** ** cmd/server/main.go *)

(** [log.Fatalf] *)
Definition Fatalf {A} (msg : string) : startup A :=
  e <- main_do (Exit msg) ;; match e : Empty_set with end.

(** [defer r.Close()], where [opened]. *)
Definition defer_close {A} (r : Resource) (opened : bool) (p : startup A) : startup A :=
  if opened then defer (main_do (CloseResource r)) p else p.

Section Startup.
Context `{GoUnicode}.

(** The wiring of the two servers. *)
Definition fill_processor (d : Deployment) : FillEvent -> service (Result unit) :=
  ProcessFill (NewFillProcessor (dp_livro d) (dp_ativos d)).

Definition webhook_server (d : Deployment) : Webhook.Server := NewServer (fill_processor d).

Definition pregao_server (d : Deployment) : PregaoServer := NewPregaoServer {|
  sp_DefaultBroker := cf_DefaultBroker (dp_config d);
  sp_LivroClient := dp_livro d;
  sp_FillProcessor := Some (fill_processor d) |}.

(** Steps 6 to 8 of [main]: serve until a signal arrives. *)
Definition serve (d : Deployment) : startup unit :=
  main_do (GoServeHTTP (":" +:+ HTTPPort (dp_config d)) d) ;;;
  lis <- main_do (NetListen (":" +:+ GRPCPort (dp_config d))) ;;
  match lis with
  | Err _ => Fatalf "Failed to listen on gRPC port"
  | Ok _ =>
      main_do (GoServeGRPC d) ;;;
      main_do AwaitSignal ;;;
      main_do GracefulStop ;;;
      main_do HTTPShutdown
  end.

(** Steps 2 to 8: the cache, the downstream clients, the servers. *)
Definition connect (cfg : Config) (pool : bool) : startup unit :=
  main_do (RedisNewClient (RedisAddr cfg) (RedisPassword cfg) (RedisDB cfg)) ;;;
  defer_close RedisConn true
   (livro <- livro_NewClient (LivroGRPCAddr cfg) ;;
    defer_close LivroConn (is_ok livro)
     (ativos <- ativos_NewClient (AtivosGRPCAddr cfg) ;;
      defer_close AtivosConn (is_ok ativos)
       (serve {| dp_config := cfg; dp_pool := pool;
                 dp_livro := is_ok livro; dp_ativos := is_ok ativos |}))).

Definition main : startup unit :=
  cfg <- embed ReadEnv (fun _ r => r) Load ;;
  pool <- NewPool (DatabaseURL cfg) ;;
  defer_close Pool (is_ok pool)
   (migrated <- (if is_ok pool then RunMigrations else Ret (Ok tt)) ;;
    match migrated with
    | Err _ => Fatalf "Database migrations failed"
    | Ok _ => connect cfg (is_ok pool)
    end).
End Startup.
