(* ===== verification/StartupSpec.v ===== *)
(** * The life of the process

    What [main] opens it closes, in reverse order and after the servers have stopped;
    what it hands to the servers is connected; and it never serves a database whose
    schema it could not migrate. *)

From stdpp Require Import base tactics list strings sets.
From Stdlib Require Import ZArith.
From S2P Require Import Prelude Exec Link GoStrings Cache Config Effects Worker Service.
From S2P Require Import Webhook Startup.

#[local] Open Scope string_scope.
#[local] Open Scope Z_scope.
#[local] Open Scope go_scope.

#[export] Instance Resource_eq_dec : EqDecision Resource.
Proof. solve_decision. Defined.

(** The resources open, the last one first; whether the schema is in place; whether
    each server runs. *)
Record Process := {
  opened : list Resource;
  migrated : bool;
  http_up : bool;
  grpc_up : bool;
}.

Definition starting : Process :=
  {| opened := []; migrated := false; http_up := false; grpc_up := false |}.

Definition open_resource (r : Resource) (w : Process) : Process :=
  {| opened := r :: opened w; migrated := migrated w; http_up := http_up w; grpc_up := grpc_up w |}.

Definition close_last (w : Process) : Process :=
  {| opened := List.tl (opened w); migrated := migrated w; http_up := http_up w; grpc_up := grpc_up w |}.

Definition set_up (http grpc : bool) (w : Process) : Process :=
  {| opened := opened w; migrated := migrated w; http_up := http; grpc_up := grpc |}.

Section Life.
Context `{GoUnicode}.

(** The process environment. *)
Context (env : string -> string).

Definition main_env (op : MainOp) : Process -> MainRes op -> Process -> Prop :=
  match op return Process -> MainRes op -> Process -> Prop with
  | ReadEnv (Getenv key) => fun w r w' => w' = w /\ r = env key
  | PoolNew => fun w r w' => w' = if is_ok r then open_resource Pool w else w
  | PoolExecSchema => fun w r w' =>
      w' = {| opened := opened w; migrated := migrated w || is_ok r;
              http_up := http_up w; grpc_up := grpc_up w |}
  | RedisNewClient _ _ _ => fun w _ w' => w' = open_resource RedisConn w
  | DialLivro _ => fun w r w' => w' = if is_ok r then open_resource LivroConn w else w
  | DialAtivos _ => fun w r w' => w' = if is_ok r then open_resource AtivosConn w else w
  | CloseResource _ => fun w _ w' => w' = close_last w
  | GoServeHTTP _ _ => fun w _ w' => w' = set_up true (grpc_up w) w
  | GoServeGRPC _ => fun w _ w' => w' = set_up (http_up w) true w
  | GracefulStop => fun w _ w' => w' = set_up (http_up w) false w
  | HTTPShutdown => fun w _ w' => w' = set_up false (grpc_up w) w
  | _ => fun w _ w' => w' = w
  end.

(** A server's collaborators are exactly the ones connected, the database migrated. *)
Definition connected (d : Deployment) (w : Process) : Prop :=
  (dp_pool d = true <-> Pool ∈ opened w) /\ (dp_pool d = true -> migrated w = true) /\
  (dp_livro d = true <-> LivroConn ∈ opened w) /\
  (dp_ativos d = true <-> AtivosConn ∈ opened w) /\ RedisConn ∈ opened w.

(** Each address is the one the environment gives. *)
Definition main_allowed (op : MainOp) (w : Process) : Prop :=
  match op with
  | ReadEnv _ | GracefulStop | HTTPShutdown | Exit _ | PoolNew => True
  | PoolParseConfig url => url = TrimSpace (env "DATABASE_URL")
  | PoolPing | PoolExecSchema => Pool ∈ opened w
  | RedisNewClient addr password db =>
      addr = TrimSpace (env "REDIS_ADDR") /\ password = TrimSpace (env "REDIS_PASSWORD") /\ db = 0
  | DialLivro addr => addr = TrimSpace (env "LIVRO_GRPC_ADDR")
  | DialAtivos addr => addr = TrimSpace (env "ATIVOS_GRPC_ADDR")
  | CloseResource r => head (opened w) = Some r /\ http_up w = false /\ grpc_up w = false
  | GoServeHTTP addr d =>
      addr = ":" +:+ TrimSpace (env "HTTP_PORT") /\ configured env (dp_config d) /\ connected d w
  | NetListen addr => addr = ":" +:+ TrimSpace (env "PORT")
  | GoServeGRPC d => configured env (dp_config d) /\ connected d w
  | AwaitSignal => http_up w = true /\ grpc_up w = true
  end.

Abbreviation main_wp := (wp main_env main_allowed).

(** ** Rules *)

Lemma wp_read_env {A} (p : prog EnvRes A) Q w :
  Q (run (environ env) p tt).1 w -> main_wp (embed (Res2 := MainRes) ReadEnv (fun _ r => r) p) Q w.
Proof.
  intros HQ. induction p as [a|m|[key] k IH u IHu]; simpl; [done..|]. split; [done|].
  intros r w' [-> ->]. by apply IH.
Qed.

Lemma wp_main_do {A} op (k : MainRes op -> startup A) Q w :
  main_allowed op w -> (forall r w', main_env op w r w' -> main_wp (k r) Q w') ->
  main_wp (bind (main_do op) k) Q w.
Proof. by split. Qed.

(** A resource is closed where it is the last one open and no server runs. *)
Lemma wp_defer_close {A} r (b : bool) (p : startup A) Q w :
  main_wp p (fun o w' =>
    if b then head (opened w') = Some r /\ http_up w' = false /\ grpc_up w' = false /\
              Q o (close_last w')
    else Q o w') w ->
  main_wp (defer_close r b p) Q w.
Proof.
  destruct b; [|done]. intros Hp. apply wp_defer. eapply wp_mono; [exact Hp|].
  intros o w' (H1 & H2 & H3 & HQ). split; [done|]. by intros [] w'' ->.
Qed.

Lemma wp_Fatalf {A} msg (Q : option A -> Process -> Prop) w : main_wp (Fatalf msg) Q w.
Proof. split; [done|]. by intros []. Qed.

(** Serving starts with everything connected and ends with both servers stopped. *)
Lemma wp_serve d Q w :
  configured env (dp_config d) -> connected d w -> Q (Some tt) (set_up false false w) -> main_wp (serve d) Q w.
Proof.
  intros Hc Hd HQ. unfold serve. pose proof Hc as (EP & EH & _). rewrite EP, EH.
  split; [done|]. intros [] w1 ->.
  split; [done|]. intros [[]|e] w2 ->; [|apply wp_Fatalf].
  split; [done|]. intros [] w3 ->. split; [done|]. intros [] w4 ->.
  split; [done|]. intros [] w5 ->. split; [done|]. by intros [] w6 ->.
Qed.

Lemma NewPool_spec url Q w :
  url = TrimSpace (env "DATABASE_URL") -> http_up w = false -> grpc_up w = false ->
  Q (Some (Ok tt)) (open_resource Pool w) -> (forall e, Q (Some (Err e)) w) ->
  main_wp (NewPool url) Q w.
Proof.
  intros Hu H1 H2 Hok Herr. unfold NewPool. split; [done|]. intros [[]|e] w1 ->; [|apply Herr].
  split; [done|]. intros [[]|e] w2 ->; [|apply Herr]. simpl. split; [by left|].
  intros [[]|e] w3 ->; [done|]. split; [done|]. intros [] w4 ->.
  unfold close_last. simpl. by destruct w.
Qed.

(** A client is there exactly when its connection is open. *)
Lemma livro_NewClient_spec {A} addr (k : Result unit -> startup A) Q w :
  addr = TrimSpace (env "LIVRO_GRPC_ADDR") ->
  (forall r, main_wp (k r) Q (if is_ok r then open_resource LivroConn w else w)) ->
  main_wp (bind (livro_NewClient addr) k) Q w.
Proof.
  intros Ha Hk. split; [done|]. intros [[]|e] w1 ->; [apply (Hk (Ok tt))|].
  apply (Hk (Err (ErrWrap "failed to dial livro" e))).
Qed.

Lemma ativos_NewClient_spec {A} addr (k : Result unit -> startup A) Q w :
  addr = TrimSpace (env "ATIVOS_GRPC_ADDR") ->
  (forall r, main_wp (k r) Q (if is_ok r then open_resource AtivosConn w else w)) ->
  main_wp (bind (ativos_NewClient addr) k) Q w.
Proof.
  intros Ha Hk. split; [done|]. intros [[]|e] w1 ->; [apply (Hk (Ok tt))|].
  apply (Hk (Err (ErrWrap "failed to dial ativos" e))).
Qed.

Definition quiet (w : Process) : Prop := http_up w = false /\ grpc_up w = false.

Lemma connect_spec cfg (pool : bool) (Q : option unit -> Process -> Prop) w :
  configured env cfg ->
  opened w = (if pool then [Pool] else []) -> (pool = true -> migrated w = true) -> quiet w ->
  Q (Some tt) w -> main_wp (connect cfg pool) Q w.
Proof.
  destruct w as [o m h g]. unfold quiet. cbn [opened migrated http_up grpc_up].
  intros Hc -> Hm [-> ->] HQ. unfold connect.
  pose proof Hc as (_ & _ & _ & ER & EW & ED & _ & _ & _ & _ & EL & EA & _).
  apply wp_main_do; [done|]. intros [] w1 ->. apply wp_defer_close.
  apply livro_NewClient_spec; [done|]. intros livro. apply wp_defer_close.
  apply ativos_NewClient_spec; [done|]. intros ativos. apply wp_defer_close.
  apply wp_serve; [done|..].
  - unfold connected. destruct pool, livro as [[]|], ativos as [[]|]; simpl;
      set_solver.
  - destruct pool, livro as [[]|], ativos as [[]|]; simpl; done.
Qed.

(** C40: start-up and shutdown.  Every call of [main] is made when it may be: each
    collaborator is reached at the address of its own variable of the environment; the
    servers start with that configuration and exactly the connected collaborators,
    and with a database only once its schema has been migrated; resources are closed
    in the reverse order of opening and only after both servers have stopped.  [main] panics
    exactly when a required variable is blank.  Then, and when it returns, everything it opened
    has been closed. *)
Theorem main_lifecycle :
  main_wp main (fun o w => (o = None <-> ~ complete env) /\
    opened w = [] /\ http_up w = false /\ grpc_up w = false) starting.
Proof.
  unfold main. apply wp_bind, wp_read_env. pose proof (Load_spec env) as Hl.
  destruct (run (environ env) Load tt).1 as [cfg|]; [|done]. destruct Hl as [Hc Hcfg].
  pose proof Hcfg as (_ & _ & EU & _).
  apply wp_bind. apply NewPool_spec; [done..| |].
  - apply wp_defer_close. cbn [is_ok bind]. unfold RunMigrations. apply wp_bind.
    apply wp_main_do; [by left|]. intros [[]|e] w ->; [|apply wp_Fatalf].
    by apply connect_spec.
  - intros e. apply wp_defer_close. cbn [is_ok bind]. by apply connect_spec.
Qed.
End Life.
