(* ===== verification/Binance.v ===== *)
(** * The Binance client

    internal/broker/binance: the implementation of the [Broker] interface over Binance's
    REST API.  An HTTP exchange is an effect; what comes back is a status and a body,
    whose reading and whose JSON decoding can each fail.  HMAC-SHA256 and the JSON form
    of non-ASCII text are parameters. *)

From stdpp Require Import base tactics list strings gmap.
From Stdlib Require Import ZArith Lia Ascii.
From S2P Require Import Prelude GoStrings Json Http Url Vault Broker Decimal Db.

#[local] Open Scope string_scope.
#[local] Open Scope Z_scope.
#[local] Open Scope go_scope.

(** ** Payloads (models.go): the fields the client reads *)

Record RawBookTicker := {
  rb_Symbol : string;
  rb_BidPrice : string;
  rb_BidQty : string;
  rb_AskPrice : string;
  rb_AskQty : string;
}.

Record ExchangeInfoSymbol := { ei_Symbol : string; ei_Status : string }.
Record ExchangeInfoResponse := { ei_Symbols : list ExchangeInfoSymbol }.

Record OrderResponse := {
  od_OrderID : Z;
  od_ExecutedQty : string;
  od_CummulativeQuoteQty : string;
  od_Status : string;
  od_Code : Z;
  od_Msg : string;
}.

Record AccountBalance := { ab_Asset : string; ab_Free : string }.
Record AccountResponse := { ac_Balances : list AccountBalance }.

(** ** The client's effects *)

Record HttpRequest := {
  hr_Method : string;
  hr_URL : string;
  hr_APIKey : option (list Z);
}.

Inductive BodyKind := BookTickerBody | BookTickersBody | ExchangeInfoBody | OrderBody | AccountBody.

Definition Body (k : BodyKind) : Type :=
  match k with
  | BookTickerBody => RawBookTicker
  | BookTickersBody => list RawBookTicker
  | ExchangeInfoBody => ExchangeInfoResponse
  | OrderBody => OrderResponse
  | AccountBody => AccountResponse
  end.

Inductive HttpOp :=
  | UnixMilli
  | CredsLoad (p : CredPtr)
  | CredsWipe (p : CredPtr)
  | NewRequest (r : HttpRequest)
  | DoRequest (k : BodyKind) (r : HttpRequest)
  | CloseBody (k : BodyKind).

Definition HttpRes (op : HttpOp) : Type :=
  match op with
  | UnixMilli => Z
  | CredsLoad _ => list Z * list Z
  | CredsWipe _ => unit
  | NewRequest _ => Result unit
  | DoRequest k _ => Result (Response (Body k))
  | CloseBody _ => unit
  end.

Abbreviation http := (prog HttpRes).

Definition http_do (op : HttpOp) : http (HttpRes op) := call (Res := HttpRes) op.

Record binanceClient := { bn_baseURL : string; bn_recvWindow : Z }.

(** [NewClientWithHTTPClient]'s defaults. *)
Definition NewClient (baseURL : string) (recvWindow : Z) : binanceClient := {|
  bn_baseURL :=
    TrimRight (if String.eqb baseURL "" then "https://api.binance.com" else baseURL) "/";
  bn_recvWindow := if recvWindow <=? 0 then 5000 else recvWindow |}.

Definition StatusTooManyRequests : Z := 429.
Definition rate_limited (status : Z) : bool := (status =? StatusTooManyRequests) || (status =? 418).

(** HMAC-SHA256, key last. *)
Class Hmac := hmac_sha256 : list Z -> list Z -> list Z.

(** ** Pure parts *)

Section Pure.
Context `{GoUnicode}.

Definition mapOrderStatus (binanceStatus : string) : string :=
  let s := ToUpper binanceStatus in
  if String.eqb s "NEW" then StatusSubmitted
  else if String.eqb s "PARTIALLY_FILLED" then StatusPartial
  else if String.eqb s "FILLED" then StatusFilled
  else if String.eqb s "CANCELED" || String.eqb s "EXPIRED" then StatusCanceled
  else if String.eqb s "REJECTED" then StatusRejected
  else StatusSubmitted.

(** The decimals of a step size: the digits after the point of its printed form,
    trailing zeros trimmed unless nothing is left. *)
Definition step_decimals (stepSize : Decimal) : Z :=
  let stepStr := to_String stepSize in
  match str_index (Ascii.eqb ".") stepStr with
  | None => 0
  | Some idx =>
      let frac := str_drop (S idx) stepStr in
      let decimals := str_len (TrimRight frac "0") in
      if decimals =? 0 then str_len frac else decimals
  end.

(** [None] is a panic of the decimal package. *)
Definition TruncateToStepSize (qty stepSize : Decimal) : option (Decimal * string) :=
  if LessThanOrEqual stepSize Zero then Some (qty, to_String qty)
  else
    match Div qty stepSize with
    | None => None
    | Some d =>
        match Mul (Floor d) stepSize with
        | None => None
        | Some quantized => Some (quantized, StringFixed quantized (step_decimals stepSize))
        end
    end.

Definition step_size_text (symbol : string) : string :=
  let s := ToUpper (TrimSpace symbol) in
  if String.eqb s "BTCUSDT" then "0.00001000"
  else if String.eqb s "ETHUSDT" then "0.00010000"
  else if String.eqb s "SOLUSDT" then "0.01000000"
  else if String.eqb s "BNBUSDT" then "0.00100000"
  else if String.eqb s "DOGEUSDT" then "1.00000000"
  else if String.eqb s "ADAUSDT" || String.eqb s "XRPUSDT" then "0.10000000"
  else "0.00010000".

Definition GetDefaultStepSize (symbol : string) : option Decimal :=
  RequireFromString (step_size_text symbol).

(** [Ok None] is a panic; the error messages keep their constant part. *)
Definition parseBookTicker (raw : RawBookTicker) : option (Result BookTicker) :=
  match NewFromString (rb_BidPrice raw) with
  | Err e => Some (Err (ErrWrap "invalid bid price" e))
  | Ok bidPrice =>
  match NewFromString (rb_BidQty raw) with
  | Err e => Some (Err (ErrWrap "invalid bid qty" e))
  | Ok bidQty =>
  match NewFromString (rb_AskPrice raw) with
  | Err e => Some (Err (ErrWrap "invalid ask price" e))
  | Ok askPrice =>
  match NewFromString (rb_AskQty raw) with
  | Err e => Some (Err (ErrWrap "invalid ask qty" e))
  | Ok askQty =>
      match Div (Add bidPrice askPrice) (NewFromInt 2) with
      | None => None
      | Some midPrice => Some (Ok {|
          bt_Symbol := rb_Symbol raw;
          bt_BidPrice := bidPrice; bt_BidQty := bidQty;
          bt_AskPrice := askPrice; bt_AskQty := askQty;
          bt_MidPrice := midPrice |})
      end
  end end end end.

(** The loop over a ticker list: entries that do not parse are skipped, later ones
    overwrite. *)
Fixpoint collect_tickers (raws : list RawBookTicker) (result : gmap string BookTicker)
    : option (gmap string BookTicker) :=
  match raws with
  | [] => Some result
  | raw :: raws' =>
      match parseBookTicker raw with
      | None => None
      | Some (Err _) => collect_tickers raws' result
      | Some (Ok t) => collect_tickers raws' (<[bt_Symbol t := t]> result)
      end
  end.

Definition trading_symbols (infos : list ExchangeInfoSymbol) : gset string :=
  list_to_set (map (fun i => ToUpper (ei_Symbol i))
    (filter (fun i => EqualFold (ei_Status i) "TRADING" = true) infos)).

(** [for _, s := range symbols { result[s] = v(s) }] *)
Definition mark_symbols (v : string -> bool) (symbols : list string) (m : gmap string bool)
    : gmap string bool :=
  foldl (fun m s => <[s := v s]> m) m symbols.

(** The loop over an account's balances. *)
Definition collect_balances (bs : list AccountBalance) : gmap string Decimal :=
  foldl (fun m b =>
    match NewFromString (ab_Free b) with
    | Ok free => <[ab_Asset b := free]> m
    | Err _ => m
    end) ∅ bs.

(** [d, _ := decimal.NewFromString(s)] *)
Definition parse_or_zero (s : string) : Decimal :=
  match NewFromString s with Ok d => d | Err _ => zero_value end.

(** The result of an accepted order; [None] is a panic of the division. *)
Definition order_result (o : OrderResponse) : option OrderResult :=
  let executedQty := parse_or_zero (od_ExecutedQty o) in
  let cumQuoteQty := parse_or_zero (od_CummulativeQuoteQty o) in
  let avg := if GreaterThan executedQty Zero then Div cumQuoteQty executedQty
             else Some zero_value in
  match avg with
  | None => None
  | Some avgPrice => Some {|
      or_ProviderOrderID := FormatInt (od_OrderID o);
      or_Status := mapOrderStatus (od_Status o);
      or_ExecutedQuantity := executedQty;
      or_CumulativeQuoteQuantity := cumQuoteQty;
      or_AveragePrice := avgPrice |}
  end.
End Pure.

(** ** Requests *)

Definition string_bytes (s : string) : list Z := map byte_code (String.list_ascii_of_string s).

(** [hex.EncodeToString] *)
Fixpoint hex_EncodeToString (bytes : list Z) : string :=
  match bytes with
  | [] => EmptyString
  | b :: bytes' => String (lower_hex (b / 16)) (String (lower_hex (b mod 16)) (hex_EncodeToString bytes'))
  end.

Definition SignHMAC `{Hmac} (payload secret : list Z) : string :=
  hex_EncodeToString (hmac_sha256 payload secret).

Section Client.
Context `{GoUnicode} `{JsonUnicode} `{Hmac}.
Context (c : binanceClient).

(** [http.NewRequestWithContext] and [httpClient.Do], with the messages of the caller;
    [handle] reads the response under the deferred [resp.Body.Close()]. *)
Definition send {A} (k : BodyKind) (r : HttpRequest) (createMsg doMsg : string)
    (handle : Response (Body k) -> http (Result A)) : http (Result A) :=
  created <- http_do (NewRequest r) ;;
  match created with
  | Err e => Ret (Err (ErrWrap createMsg e))
  | Ok _ =>
      resp <- http_do (DoRequest k r) ;;
      match resp with
      | Err e => Ret (Err (ErrWrap doMsg e))
      | Ok resp => defer (http_do (CloseBody k) ;;; Ret tt) (handle resp)
      end
  end.

Definition get_request (url : string) : HttpRequest :=
  {| hr_Method := "GET"; hr_URL := url; hr_APIKey := None |}.

Definition book_ticker_url (symbols : list string) : string :=
  match symbols with
  | [s] => bn_baseURL c +:+ "/api/v3/ticker/bookTicker?symbol=" +:+ QueryEscape s
  | _ => bn_baseURL c +:+ "/api/v3/ticker/bookTicker?symbols=" +:+ QueryEscape (json_strings symbols)
  end.

(** Status and body of a market data response, in the order of the code. *)
Definition checked_body {B} (resp : Response B) (readMsg statusMsg jsonMsg : string)
    : Result B :=
  if rate_limited (rs_Status resp) then Err (ErrSentinel ErrRateLimited)
  else
    match rs_Body resp with
    | Err e => Err (ErrWrap readMsg e)
    | Ok decoded =>
        if negb (rs_Status resp =? StatusOK) then Err (ErrMsg statusMsg)
        else
          match decoded with
          | Err e => Err (ErrWrap jsonMsg e)
          | Ok b => Ok b
          end
    end.

Definition GetBookTickers (symbols : list string) : http (Result (gmap string BookTicker)) :=
  let createMsg := "failed to create http request" in
  let doMsg := "binance bookTicker request failed" in
  let readMsg := "failed to read response body" in
  let statusMsg := "binance bookTicker returned status" in
  let req := get_request (book_ticker_url symbols) in
  match symbols with
  | [] => Ret (Ok ∅)
  | [_] =>
      send BookTickerBody req createMsg doMsg (fun resp =>
        match checked_body resp readMsg statusMsg "failed to unmarshal single bookTicker" with
        | Err e => Ret (Err e)
        | Ok raw =>
            ticker <- or_panic "decimal" (parseBookTicker raw) ;;
            match ticker with
            | Err e => Ret (Err e)
            | Ok t => Ret (Ok {[bt_Symbol t := t]})
            end
        end)
  | _ =>
      send BookTickersBody req createMsg doMsg (fun resp =>
        match checked_body resp readMsg statusMsg "failed to unmarshal bookTicker list" with
        | Err e => Ret (Err e)
        | Ok raws =>
            result <- or_panic "decimal" (collect_tickers raws ∅) ;;
            Ret (Ok result)
        end)
  end.

Definition ValidateSymbols (symbols : list string) : http (Result (gmap string bool)) :=
  let result := mark_symbols (fun _ => false) symbols ∅ in
  match symbols with
  | [] => Ret (Ok result)
  | _ =>
      send ExchangeInfoBody (get_request (bn_baseURL c +:+ "/api/v3/exchangeInfo"))
        "failed to create exchangeInfo request" "binance exchangeInfo request failed" (fun resp =>
        if rate_limited (rs_Status resp) then Ret (Err (ErrSentinel ErrRateLimited))
        else
          match rs_Body resp with
          | Err e => Ret (Err (ErrWrap "failed to decode exchangeInfo" e))
          | Ok (Err e) => Ret (Err (ErrWrap "failed to decode exchangeInfo" e))
          | Ok (Ok info) =>
              let trading := trading_symbols (ei_Symbols info) in
              Ret (Ok (mark_symbols (fun s => bool_decide (ToUpper s ∈ trading)) symbols result))
          end)
  end.

(** The parameters of a signed request: every call of [params.Set] in order. *)
Definition account_params (nowMilli : Z) : Values :=
  values_Set "recvWindow" (FormatInt (bn_recvWindow c))
    (values_Set "timestamp" (FormatInt nowMilli) []).

Definition order_params (req : MarketOrderRequest) (qtyStr : string) (nowMilli : Z) : Values :=
  let q :=
    values_Set "recvWindow" (FormatInt (bn_recvWindow c))
      (values_Set "timestamp" (FormatInt nowMilli)
        (values_Set "quantity" qtyStr
          (values_Set "type" "MARKET"
            (values_Set "side" (ToUpper (mo_Side req))
              (values_Set "symbol" (ToUpper (mo_Symbol req)) []))))) in
  if String.eqb (mo_ClientOrderID req) "" then q
  else values_Set "newClientOrderId" (mo_ClientOrderID req) q.

Definition signed_request (method path query : string) (key secret : list Z) : HttpRequest := {|
  hr_Method := method;
  hr_URL := bn_baseURL c +:+ path +:+ "?" +:+ query +:+ "&signature="
              +:+ SignHMAC (string_bytes query) secret;
  hr_APIKey := Some key |}.

(** What the client makes of the response to an order. *)
Definition order_response (resp : Response OrderResponse) : option (Result OrderResult) :=
  match rs_Body resp with
  | Err e => Some (Err (ErrWrap "failed to read order response" e))
  | Ok decoded =>
      if rate_limited (rs_Status resp) then Some (Err (ErrSentinel ErrRateLimited))
      else
        match decoded with
        | Err e => Some (Err (ErrWrap "failed to unmarshal order response" e))
        | Ok o =>
            if negb (rs_Status resp =? StatusOK)
            then Some (Err (ErrWrap "status" (ErrSentinel ErrOrderRejected)))
            else
              match order_result o with
              | None => None
              | Some r => Some (Ok r)
              end
        end
  end.

(** The body of [PlaceMarketOrder] under the deferred wipe. *)
Definition place_order (orderReq : MarketOrderRequest) (key secret : list Z)
    : http (Result OrderResult) :=
  if LessThanOrEqual (mo_Quantity orderReq) Zero
  then Ret (Err (ErrSentinel ErrInvalidQuantity))
  else
    stepSize <- or_panic "step size" (GetDefaultStepSize (mo_Symbol orderReq)) ;;
    ' (quantizedQty, qtyStr) <-
       or_panic "decimal" (TruncateToStepSize (mo_Quantity orderReq) stepSize) ;;
    if LessThanOrEqual quantizedQty Zero
    then Ret (Err (ErrWrap "quantity is smaller than minimum step size"
                     (ErrSentinel ErrInvalidQuantity)))
    else
      now <- http_do UnixMilli ;;
      let query := values_Encode (order_params orderReq qtyStr now) in
      send OrderBody (signed_request "POST" "/api/v3/order" query key secret)
        "failed to create order request" "binance order request failed"
        (fun resp => or_panic "decimal" (order_response resp)).

(** The guard on the credentials, and the deferred wipe. *)
Definition with_credentials {A} (creds : option CredPtr) (msg : string)
    (body : list Z -> list Z -> http (Result A)) : http (Result A) :=
  match creds with
  | None => Ret (Err (ErrMsg msg))
  | Some p =>
      ' (key, secret) <- http_do (CredsLoad p) ;;
      match key, secret with
      | _ :: _, _ :: _ => defer (http_do (CredsWipe p) ;;; Ret tt) (body key secret)
      | _, _ => Ret (Err (ErrMsg msg))
      end
  end.

Definition PlaceMarketOrder (creds : option CredPtr) (orderReq : MarketOrderRequest)
    : http (Result OrderResult) :=
  with_credentials creds "missing broker credentials for order placement"
    (place_order orderReq).

Definition account_response (resp : Response AccountResponse) : Result (gmap string Decimal) :=
  match checked_body resp "failed to read account response" "binance account returned status"
          "failed to unmarshal account response" with
  | Err e => Err e
  | Ok acc => Ok (collect_balances (ac_Balances acc))
  end.

Definition GetAccountBalances (creds : option CredPtr) : http (Result (gmap string Decimal)) :=
  with_credentials creds "missing broker credentials for balance check" (fun key secret =>
    now <- http_do UnixMilli ;;
    let query := values_Encode (account_params now) in
    send AccountBody (signed_request "GET" "/api/v3/account" query key secret)
      "failed to create account request" "binance account request failed"
      (fun resp => Ret (account_response resp))).
End Client.
