(* ===== verification/BinanceSpec.v ===== *)
(** * What the Binance client guarantees

    Quantities are cut to the step size without ever exceeding the request, mid prices
    are exact, signed requests carry exactly their parameters, credentials are wiped on
    every way out, and every response of the exchange is classified. *)

From stdpp Require Import base tactics list strings gmap.
From Stdlib Require Import ZArith QArith Qabs Lia Lqa Ascii.
From S2P Require Import Prelude Exec GoStrings Json Http Url Vault Broker Decimal DecimalSpec DecimalText.
From S2P Require Import Db Binance WorkerSpec.

#[local] Open Scope string_scope.
#[local] Open Scope Z_scope.
#[local] Open Scope go_scope.

(** ** Step sizes *)

(** A power of ten [10 ^ -k] as the code writes it, with the decimals the code counts. *)
Record step_ok (step : Decimal) (k : Z) : Prop := {
  step_small : small step;
  step_range : 0 <= k <= 8;
  step_value : (dval step == p10 (- k))%Q;
  step_counted : step_decimals step = k;
}.

Lemma rescaled_value d k :
  - 16 <= d_exp d -> 0 <= k ->
  (dval d / p10 (- k) == inject_Z (d_value d * 10 ^ (d_exp d + k + 16)) * p10 (- (16)))%Q.
Proof.
  intros He Hk. unfold dval. rewrite inject_Z_mult, <- p10_Z by lia.
  replace (d_exp d) with ((d_exp d + k + 16) + - (16) + - k) at 1 by lia.
  rewrite !p10_add. field. apply p10_nonzero.
Qed.

(** Cutting a positive quantity of at most 16 decimals: the largest multiple of the step
    that does not exceed it, printed exactly. *)
Lemma truncate_spec qty step k :
  step_ok step k -> small qty -> - 16 <= d_exp qty -> (0 < dval qty)%Q ->
  exists q s n d,
    TruncateToStepSize qty step = Some (q, s) /\ 0 <= n /\
    (dval q == inject_Z n * dval step)%Q /\
    (dval q <= dval qty)%Q /\ (dval qty < dval q + dval step)%Q /\
    NewFromString s = Ok d /\ deq d q.
Proof.
  intros [Hs Hk Hv Hc] Hq He Hpos. unfold TruncateToStepSize.
  pose proof (p10_pos (- k)) as Hp.
  assert (LessThanOrEqual step Zero = false) as ->.
  { apply LessThanOrEqual_false. rewrite Zero_dval, Hv. done. }
  destruct (Div_spec qty step) as (d & -> & Ed & Rd).
  { by apply small_moderate. } { by apply small_moderate. }
  { apply dval_nonzero. rewrite Hv. apply p10_nonzero. }
  assert (dval d == dval qty / p10 (- k))%Q as Vd.
  { rewrite Hv in Rd. apply (rounds_exact _ 16 d (d_value qty * 10 ^ (d_exp qty + k + 16))); [exact Ed|exact Rd|]. apply rescaled_value; lia. }
  destruct (Floor_spec d) as (n & Vn & Ln & Un).
  assert (d_exp (Floor d) = 0) as Ef.
  { unfold Floor. rewrite Ed. reflexivity. }
  destruct (small_Mul (Floor d) step) as (q & -> & Eq & Vq); [|done|].
  { unfold small. rewrite Ef. lia. }
  rewrite Vn, Hv in Vq.
  assert (dval qty == dval d * p10 (- k))%Q as Vqty.
  { rewrite Vd. field. apply p10_nonzero. }
  assert (0 <= n) as Hn.
  { assert (0 < dval d)%Q as Hd.
    { rewrite Vd. apply Qlt_shift_div_l; [done|]. lra. }
    assert (0 < inject_Z (n + 1))%Q as H1 by (eapply Qlt_trans; [exact Hd|exact Un]).
    change 0%Q with (inject_Z 0) in H1. rewrite <- Zlt_Qlt in H1. lia. }
  assert (in_i32 (d_exp q)) as Hr.
  { rewrite Eq, Ef. unfold small, in_i32, MinInt32, MaxInt32 in *. lia. }
  exists q, (StringFixed q (step_decimals step)), n, (Round q k).
  split; [done|]. split; [done|]. rewrite Hv. split; [done|].
  split; [|split; [|split]].
  - rewrite Vq, Vqty. apply Qmult_le_compat_r; [done|by apply Qlt_le_weak].
  - rewrite Vq, Vqty. rewrite inject_Z_plus in Un.
    apply (Qmult_lt_compat_r _ _ (p10 (- k))) in Un; [|done].
    change (inject_Z 1) with 1%Q in Un. lra.
  - rewrite Hc. apply StringFixed_read; [done|lia].
  - destruct (Round_spec q k Hr ltac:(lia)) as [Er Rr]. unfold deq.
    exact (proj2 (rounds_exact _ k _ n Er Rr Vq)).
Qed.

Section BinanceSpec.
Context `{GoUnicode}.

Lemma GetDefaultStepSize_ok symbol :
  exists step k, GetDefaultStepSize symbol = Some step /\ step_ok step k.
Proof.
  unfold GetDefaultStepSize, step_size_text.
  assert (forall text v k, RequireFromString text = Some (mkDecimal v (-8)) ->
    step_decimals (mkDecimal v (-8)) = k -> 0 <= k <= 8 -> v = 10 ^ (8 - k) ->
    exists step k, RequireFromString text = Some step /\ step_ok step k) as Hstep.
  { intros text v k Ht Hd Hk ->. exists (mkDecimal (10 ^ (8 - k)) (-8)), k.
    split; [done|]. split; [unfold small; simpl; lia|done| |done].
    unfold dval. simpl d_value. simpl d_exp. rewrite <- p10_Z, <- p10_add by lia.
    replace (8 - k + -8) with (- k) by lia. reflexivity. }
  repeat case_match;
    first [ by apply (Hstep _ 1000 5) | by apply (Hstep _ 10000 4)
          | by apply (Hstep _ 1000000 2) | by apply (Hstep _ 100000 3)
          | by apply (Hstep _ 100000000 0) | by apply (Hstep _ 10000000 1) ].
Qed.

(** C21: the quantity sent to the exchange.  For every symbol the step size is a power of
    ten, and a positive quantity of at most 16 decimals is cut to the largest multiple
    of the step that does not exceed it; the text sent reads back to exactly that
    number. *)
Theorem order_quantity symbol qty :
  small qty -> - 16 <= d_exp qty -> (0 < dval qty)%Q ->
  exists step q s n d,
    GetDefaultStepSize symbol = Some step /\ (0 < dval step)%Q /\
    TruncateToStepSize qty step = Some (q, s) /\ 0 <= n /\
    (dval q == inject_Z n * dval step)%Q /\
    (dval q <= dval qty)%Q /\ (dval qty < dval q + dval step)%Q /\
    NewFromString s = Ok d /\ deq d q.
Proof.
  intros Hs He Hp. destruct (GetDefaultStepSize_ok symbol) as (step & k & Hg & Hok).
  destruct (truncate_spec qty step k Hok Hs He Hp) as (q & s & n & d & Ht).
  exists step, q, s, n, d. split; [done|]. split; [|exact Ht].
  rewrite (step_value _ _ Hok). apply p10_pos.
Qed.

(** Beyond 16 decimals the cut can exceed the request: the division rounds before
    [Floor] cuts, so 0.99999999999999999 units of a symbol with step 1 become 1. *)
Theorem truncate_exceeds_request :
  exists qty step q s, GetDefaultStepSize "DOGEUSDT" = Some step /\
    NewFromString "0.99999999999999999" = Ok qty /\
    TruncateToStepSize qty step = Some (q, s) /\ s = "1" /\ (dval qty < dval q)%Q.
Proof.
  do 4 eexists. split; [reflexivity|]. split; [reflexivity|].
  split; [vm_compute; reflexivity|]. split; reflexivity.
Qed.

(** ** Market data *)

Lemma mid_price_exact bid ask :
  small bid -> small ask -> - 15 <= d_exp bid -> - 15 <= d_exp ask ->
  exists mid, Div (Add bid ask) (NewFromInt 2) = Some mid /\
    (dval mid == (dval bid + dval ask) / 2)%Q.
Proof.
  intros Sb Sa Eb Ea. destruct (Div_spec (Add bid ask) (NewFromInt 2)) as (mid & Hm & Em & Rm).
  { unfold moderate, small in *. rewrite Add_exp. lia. }
  { unfold moderate. simpl. lia. }
  { done. }
  exists mid. split; [done|].
  assert (dval (NewFromInt 2) == 2)%Q as V2 by reflexivity.
  rewrite V2 in Rm.
  set (sum := Add bid ask) in *.
  assert (dval sum == dval bid + dval ask)%Q as Vs by apply Add_dval.
  assert (- 15 <= d_exp sum) as Es by (unfold sum; rewrite Add_exp; lia).
  rewrite <- Vs.
  refine (proj2 (rounds_exact _ 16 mid (5 * (d_value sum * 10 ^ (d_exp sum + 15))) Em Rm _)).
  unfold dval. rewrite !inject_Z_mult, <- p10_Z by lia.
  assert (p10 (d_exp sum) == p10 (d_exp sum + 15) * p10 (- (16)) * 10)%Q as ->; [|field].
  change 10%Q with (p10 1). rewrite <- !p10_add.
  replace (d_exp sum + 15 + - (16) + 1) with (d_exp sum) by lia. reflexivity.
Qed.

(** C36: a ticker of at most 15 decimals is parsed to exactly its four numbers and the
    exact middle of bid and ask, which lies between them. *)
Theorem parseBookTicker_exact raw bid bidQty ask askQty :
  NewFromString (rb_BidPrice raw) = Ok bid -> NewFromString (rb_BidQty raw) = Ok bidQty ->
  NewFromString (rb_AskPrice raw) = Ok ask -> NewFromString (rb_AskQty raw) = Ok askQty ->
  small bid -> small ask -> - 15 <= d_exp bid -> - 15 <= d_exp ask ->
  exists t, parseBookTicker raw = Some (Ok t) /\
    bt_Symbol t = rb_Symbol raw /\ bt_BidPrice t = bid /\ bt_BidQty t = bidQty /\
    bt_AskPrice t = ask /\ bt_AskQty t = askQty /\
    (dval (bt_MidPrice t) == (dval bid + dval ask) / 2)%Q /\
    ((dval bid <= dval ask)%Q -> (dval bid <= dval (bt_MidPrice t) <= dval ask)%Q).
Proof.
  intros E1 E2 E3 E4 Sb Sa Eb Ea. destruct (mid_price_exact bid ask Sb Sa Eb Ea) as (mid & Hm & Vm).
  unfold parseBookTicker. rewrite E1, E2, E3, E4, Hm.
  eexists. split; [reflexivity|]. simpl. do 5 (split; [done|]). split; [done|].
  assert (dval mid * 2 == dval bid + dval ask)%Q as Vm2 by (rewrite Vm; field).
  intros Hle. split; lra.
Qed.

(** ** Order status *)

(** An exchange status never maps to PENDING, so that a row confirmed with it can no
    longer be taken for a reservation; FILLED, PARTIAL, CANCELED and REJECTED come from
    their exchange counterparts alone, in any letter case. *)
Theorem mapOrderStatus_settled s :
  mapOrderStatus s <> StatusPending /\
  (mapOrderStatus s = StatusFilled <-> ToUpper s = "FILLED") /\
  (mapOrderStatus s = StatusPartial <-> ToUpper s = "PARTIALLY_FILLED") /\
  (mapOrderStatus s = StatusCanceled <-> ToUpper s = "CANCELED" \/ ToUpper s = "EXPIRED") /\
  (mapOrderStatus s = StatusRejected <-> ToUpper s = "REJECTED").
Proof.
  unfold mapOrderStatus. generalize (ToUpper s). intros u.
  repeat match goal with |- context [String.eqb u ?x] =>
    destruct (String.eqb_spec u x) as [->|?]; simpl;
    [repeat split; intros Hu; repeat destruct Hu as [Hu|Hu]; auto; done|]
  end.
  repeat split; intros Hu; repeat destruct Hu as [Hu|Hu]; done.
Qed.

(** ** Signed requests *)

Context `{JsonUnicode} `{Hmac}.

Lemma with_credentials_wipes {A} p msg (body : list Z -> list Z -> http (Result A)) tr out :
  traces (with_credentials (Some p) msg body) tr out ->
  exists key secret rest, tr = ev (CredsLoad p) (key, secret) :: rest /\
    ((key = [] \/ secret = []) /\ rest = [] \/
     key <> [] /\ secret <> [] /\ exists body, rest = (body ++ [ev (CredsWipe p) tt])%list).
Proof.
  intros ([key secret] & rest & -> & Ht). exists key, secret, rest. split; [done|].
  destruct key as [|k key]; [destruct Ht as [-> _]; auto|].
  destruct secret as [|s secret]; [destruct Ht as [-> _]; auto|]. right.
  split; [done|]. split; [done|].
  apply traces_defer_call in Ht as (calls & [] & -> & _). eauto.
Qed.

(** Credentials are wiped on every way out of the client's signed operations,
    [PlaceMarketOrder] and [GetAccountBalances] - an early return, a failed exchange, an
    answer, a panic: unless they are missing, the wipe is the last thing that happens. *)
Theorem signed_operations_wipe c p req tr :
  (exists out, traces (PlaceMarketOrder c (Some p) req) tr out) \/
  (exists out, traces (GetAccountBalances c (Some p)) tr out) ->
  exists key secret rest, tr = ev (CredsLoad p) (key, secret) :: rest /\
    ((key = [] \/ secret = []) /\ rest = [] \/
     key <> [] /\ secret <> [] /\ exists body, rest = (body ++ [ev (CredsWipe p) tt])%list).
Proof. intros [[out Ht]|[out Ht]]; by eapply with_credentials_wipes. Qed.

Definition is_exchange (op : HttpOp) : bool :=
  match op with DoRequest _ _ => true | _ => false end.

(** The calls of one exchange: a response that was received is closed again. *)
Definition exchange_of (k : BodyKind) (r : HttpRequest) (answer : Result (Response (Body k)))
    : list (event HttpRes) :=
  ([ev (NewRequest r) (Ok tt); ev (Res := HttpRes) (DoRequest k r) answer]
   ++ match answer with Ok _ => [ev (Res := HttpRes) (CloseBody k) tt] | Err _ => [] end)%list.

(** [send] with a handler that makes no calls. *)
Lemma send_cases {A} k r createMsg doMsg (handle : Response (Body k) -> http (Result A)) tr out :
  (forall resp tr0 out0, traces (handle resp) tr0 out0 -> tr0 = []) ->
  traces (send k r createMsg doMsg handle) tr out ->
  (exists e, tr = [ev (NewRequest r) (Err e)] /\ out = Some (Err (ErrWrap createMsg e))) \/
  exists answer, tr = exchange_of k r answer /\
    match answer with
    | Err e => out = Some (Err (ErrWrap doMsg e))
    | Ok resp => traces (handle resp) [] out
    end.
Proof.
  intros Hh ([[]|e] & tr1 & -> & Ht); [right|left; destruct Ht as [-> ->]; eauto].
  destruct Ht as (answer & tr2 & -> & Ht). exists answer. destruct answer as [resp|e].
  - apply traces_defer_call in Ht as (tr0 & [] & -> & Ht).
    pose proof (Hh _ _ _ Ht) as ->. done.
  - by destruct Ht as [-> ->].
Qed.

Lemma or_panic_silent {A} msg (o : option A) tr out :
  traces (Res := HttpRes) (or_panic msg o) tr out -> tr = [].
Proof. by destruct o; intros [-> _]. Qed.

(** A query a server reads back as exactly these parameters. *)
Definition carries (query : string) (params : Values) : Prop :=
  exists pairs, parse_query (length params) query = Some pairs /\ Permutation pairs params.

Lemma Encode_carries params : params <> [] -> carries (values_Encode params) params.
Proof.
  intros Hne. pose proof (sort_keys_perm params) as Hp. exists (sort_keys params).
  split; [|done]. apply parse_encode_pairs.
  - intros He. rewrite He in Hp. by apply Permutation_nil in Hp.
  - by rewrite Hp.
Qed.

(** The fields a market order must reach the exchange with. *)
Definition order_fields (c : binanceClient) (req : MarketOrderRequest) (qtyStr : string)
    (nowMilli : Z) : Values :=
  ([("symbol", ToUpper (mo_Symbol req)); ("side", ToUpper (mo_Side req)); ("type", "MARKET");
   ("quantity", qtyStr); ("timestamp", FormatInt nowMilli);
   ("recvWindow", FormatInt (bn_recvWindow c))]
  ++ (if String.eqb (mo_ClientOrderID req) "" then []
      else [("newClientOrderId", mo_ClientOrderID req)]))%list.

Lemma order_params_fields c req q now :
  Permutation (order_fields c req q now) (order_params c req q now).
Proof.
  rewrite (Permutation_rev (order_fields c req q now)).
  unfold order_params, order_fields, values_Set.
  by destruct (String.eqb (mo_ClientOrderID req) "").
Qed.

Lemma order_params_carry c req q now :
  carries (values_Encode (order_params c req q now)) (order_fields c req q now).
Proof.
  pose proof (order_params_fields c req q now) as Hp.
  destruct (Encode_carries (order_params c req q now)) as (pairs & Hr & Hq).
  { intros He. rewrite He in Hp. apply Permutation_sym, Permutation_nil in Hp. done. }
  exists pairs. by rewrite Hp.
Qed.

(** The request an order reaches the exchange with. *)
Definition order_on_wire (c : binanceClient) (req : MarketOrderRequest) (key secret : list Z)
    (now : Z) (r : HttpRequest) : Prop :=
  exists step q s query,
    GetDefaultStepSize (mo_Symbol req) = Some step /\
    TruncateToStepSize (mo_Quantity req) step = Some (q, s) /\ (0 < dval q)%Q /\
    carries query (order_fields c req s now) /\
    r = {| hr_Method := "POST";
           hr_URL := bn_baseURL c +:+ "/api/v3/order" +:+ "?" +:+ query +:+ "&signature="
             +:+ SignHMAC (string_bytes query) secret;
           hr_APIKey := Some key |}.

(** What the client reports for the exchange's answer; [None] is a panic. *)
Definition order_outcome (answer : Result (Response OrderResponse))
    : option (Result OrderResult) :=
  match answer with
  | Err e => Some (Err (ErrWrap "binance order request failed" e))
  | Ok resp => order_response resp
  end.

(** The order is for something that can be sent. *)
Definition sendable (req : MarketOrderRequest) : Prop :=
  (0 < dval (mo_Quantity req))%Q /\
  exists step q s, GetDefaultStepSize (mo_Symbol req) = Some step /\
    TruncateToStepSize (mo_Quantity req) step = Some (q, s) /\ (0 < dval q)%Q.

(** Nothing was sent, and no order is reported; a sendable order is only kept back when
    the HTTP request cannot be made. *)
Definition kept_back (req : MarketOrderRequest) (tr : list (event HttpRes))
    (out : option (Result OrderResult)) : Prop :=
  Forall (fun v => negb (is_exchange (ev_op v)) = true) tr /\
  (forall r, out <> Some (Ok r)) /\
  (sendable req -> exists now r e, tr = [ev UnixMilli now; ev (NewRequest r) (Err e)]).

Lemma LessThanOrEqual_true d : LessThanOrEqual d Zero = true -> ~ (0 < dval d)%Q.
Proof.
  intros Hd Hp. rewrite <- Zero_dval in Hp. apply LessThanOrEqual_false in Hp. congruence.
Qed.

Lemma place_order_cases c req key secret tr out :
  traces (place_order c req key secret) tr out ->
  kept_back req tr out \/
  exists now r answer,
    order_on_wire c req key secret now r /\
    tr = ev UnixMilli now :: exchange_of OrderBody r answer /\
    out = order_outcome answer.
Proof.
  unfold place_order, kept_back, sendable. intros Ht.
  destruct (LessThanOrEqual (mo_Quantity req) Zero) eqn:E0.
  { left. destruct Ht as [-> ->]. apply LessThanOrEqual_true in E0. naive_solver. }
  apply traces_or_panic in Ht.
  destruct (GetDefaultStepSize (mo_Symbol req)) as [step|] eqn:Est;
    [|left; destruct Ht as [-> ->]; naive_solver].
  apply traces_or_panic in Ht.
  destruct (TruncateToStepSize (mo_Quantity req) step) as [[q s]|] eqn:Etr;
    [|left; destruct Ht as [-> ->]; naive_solver].
  destruct (LessThanOrEqual q Zero) eqn:Eq.
  { left. destruct Ht as [-> ->]. apply LessThanOrEqual_true in Eq. naive_solver. }
  apply LessThanOrEqual_false in Eq. rewrite Zero_dval in Eq.
  destruct Ht as (now & tr1 & -> & Ht). apply send_cases in Ht; [|intros ???; apply or_panic_silent].
  destruct Ht as [(e & -> & ->)|(answer & -> & Ht)].
  { left. split; [by repeat constructor|]. split; [done|]. eauto. }
  right. exists now. do 2 eexists. split.
  { exists step, q, s, (values_Encode (order_params c req s now)).
    do 3 (split; [done|]). split; [apply order_params_carry|reflexivity]. }
  split; [reflexivity|]. destruct answer as [resp|e]; [|done].
  simpl. by destruct (order_response resp); destruct Ht as [_ ->].
Qed.

(** The whole of [PlaceMarketOrder]. *)
Lemma PlaceMarketOrder_cases c p req tr out :
  traces (PlaceMarketOrder c (Some p) req) tr out ->
  (Forall (fun v => negb (is_exchange (ev_op v)) = true) tr /\ forall r, out <> Some (Ok r)) \/
  exists key secret now r answer,
    order_on_wire c req key secret now r /\ out = order_outcome answer /\
    tr = ([ev (CredsLoad p) (key, secret); ev UnixMilli now] ++ exchange_of OrderBody r answer
          ++ [ev (CredsWipe p) tt])%list.
Proof.
  intros ([key secret] & rest & -> & Ht).
  destruct key as [|k key]; [destruct Ht as [-> ->]; left; split; [by repeat constructor|done]|].
  destruct secret as [|s secret];
    [destruct Ht as [-> ->]; left; split; [by repeat constructor|done]|].
  apply traces_defer_call in Ht as (calls & [] & -> & Ht).
  apply place_order_cases in Ht as [(Hno & Hout & _)|(now & r & answer & Hr & -> & Hout)].
  - left. split; [|done].
    constructor; [done|]. apply Forall_app. split; [done|by repeat constructor].
  - right. do 5 eexists. split; [exact Hr|]. split; [exact Hout|reflexivity].
Qed.

(** C30: an order is reported as accepted only on status 200 with a readable body, and
    then with the exchange's id, quantity and mapped status and, when something was
    executed, the average price - quote value over quantity, rounded half away from
    zero at 16 places. *)
Theorem order_response_accepted resp r :
  order_response resp = Some (Ok r) ->
  rs_Status resp = StatusOK /\
  exists o, rs_Body resp = Ok (Ok o) /\
    or_ProviderOrderID r = FormatInt (od_OrderID o) /\
    or_Status r = mapOrderStatus (od_Status o) /\
    or_ExecutedQuantity r = parse_or_zero (od_ExecutedQty o) /\
    or_CumulativeQuoteQuantity r = parse_or_zero (od_CummulativeQuoteQty o) /\
    (moderate (or_ExecutedQuantity r) -> moderate (or_CumulativeQuoteQuantity r) ->
     (0 < dval (or_ExecutedQuantity r))%Q ->
     d_exp (or_AveragePrice r) = -16 /\
     rounds_half_away
       (dval (or_CumulativeQuoteQuantity r) / dval (or_ExecutedQuantity r) * p10 16)
       (d_value (or_AveragePrice r))).
Proof.
  unfold order_response. destruct (rs_Body resp) as [[o|e]|e]; [|by destruct (rate_limited _)|done].
  destruct (rate_limited (rs_Status resp)); [done|].
  destruct (Z.eqb_spec (rs_Status resp) StatusOK) as [Hs|]; [|done]. simpl.
  destruct (order_result o) as [r'|] eqn:Eo; [|done]. intros [= ->]. split; [done|].
  exists o. split; [done|]. unfold order_result in Eo.
  destruct (GreaterThan (parse_or_zero (od_ExecutedQty o)) Zero) eqn:Eg.
  - apply GreaterThan_spec in Eg. rewrite Zero_dval in Eg.
    destruct (Div _ _) as [avg|] eqn:Ed; [|done]. injection Eo as <-. simpl.
    do 4 (split; [done|]). intros M1 M2 _.
    destruct (Div_spec _ _ M2 M1) as (q & Hq & He & Hr); [apply dval_nonzero; lra|].
    rewrite Ed in Hq. by injection Hq as ->.
  - injection Eo as <-. simpl. do 4 (split; [done|]). intros _ _ Hp.
    assert (GreaterThan (parse_or_zero (od_ExecutedQty o)) Zero = true); [|congruence].
    apply GreaterThan_spec. by rewrite Zero_dval.
Qed.

End BinanceSpec.
