(* ===== verification/BinanceQueries.v ===== *)
(** * What the exchange's answers become

    The read side of the Binance client: tickers, tradable symbols and account balances
    as functions of the response, on every entry of its list. *)

From stdpp Require Import base tactics list strings gmap.
From Stdlib Require Import ZArith Lia.
From S2P Require Import Prelude Exec GoStrings Json Http Url Vault Broker Decimal DecimalSpec Db Binance.
From S2P Require Import BinanceSpec.

#[local] Open Scope string_scope.
#[local] Open Scope Z_scope.
#[local] Open Scope go_scope.

Abbreviation asked := (ev (Res := HttpRes)).

(** Appending to the front leaves the last one alone, if there is one. *)
Lemma last_cons_or {A} (x : A) (l : list A) :
  last (x :: l) = match last l with Some y => Some y | None => Some x end.
Proof. apply last_cons. Qed.

Section BinanceQueries.
Context `{GoUnicode} `{JsonUnicode} `{Hmac}.
Context (c : binanceClient).

(** ** Lists of entries *)

(** An entry's ticker for a symbol; none if it does not parse. *)
Definition ticker_of (sym : string) (raw : RawBookTicker) : option BookTicker :=
  match parseBookTicker raw with
  | Some (Ok t) => if decide (bt_Symbol t = sym) then Some t else None
  | _ => None
  end.

Lemma collect_tickers_spec raws m res sym :
  collect_tickers raws m = Some res ->
  res !! sym = match last (omap (ticker_of sym) raws) with Some t => Some t | None => m !! sym end.
Proof.
  revert m. induction raws as [|raw raws IH]; intros m; simpl; [by intros [= ->]|].
  unfold ticker_of at 1. destruct (parseBookTicker raw) as [[t|e]|]; [|by apply IH|done].
  intros ->%IH. case_decide as Ht.
  - rewrite last_cons_or. subst. by rewrite lookup_insert_eq; destruct (last _).
  - by rewrite lookup_insert_ne.
Qed.

(** An entry's free balance of an asset; none if it does not parse. *)
Definition balance_of (asset : string) (b : AccountBalance) : option Decimal :=
  match NewFromString (ab_Free b) with
  | Ok free => if decide (ab_Asset b = asset) then Some free else None
  | Err _ => None
  end.

Lemma collect_balances_spec bs asset :
  collect_balances bs !! asset = last (omap (balance_of asset) bs).
Proof.
  unfold collect_balances. induction bs as [|b bs IH] using rev_ind; [done|].
  rewrite foldl_app, omap_app. simpl. unfold balance_of at 2.
  destruct (NewFromString (ab_Free b)) as [free|e]; [|by rewrite app_nil_r].
  case_decide as Ha.
  - rewrite last_snoc. subst. apply lookup_insert_eq.
  - rewrite app_nil_r. by rewrite lookup_insert_ne.
Qed.

Lemma mark_symbols_spec v symbols m s :
  mark_symbols v symbols m !! s = if decide (s ∈ symbols) then Some (v s) else m !! s.
Proof.
  unfold mark_symbols. induction symbols as [|x symbols IH] using rev_ind.
  { case_decide; [set_solver|done]. }
  rewrite foldl_app. simpl. destruct (decide (x = s)) as [->|Hne].
  - rewrite lookup_insert_eq, decide_True; set_solver.
  - rewrite lookup_insert_ne, IH by done. do 2 case_decide; set_solver.
Qed.

Lemma elem_of_trading infos sym :
  sym ∈ trading_symbols infos <->
  exists i, i ∈ infos /\ EqualFold (ei_Status i) "TRADING" = true /\ ToUpper (ei_Symbol i) = sym.
Proof.
  unfold trading_symbols. rewrite elem_of_list_to_set, list_elem_of_fmap.
  setoid_rewrite list_elem_of_filter. naive_solver.
Qed.

(** ** Requests *)

Lemma send_answered {A} k r createMsg doMsg (handle : Response (Body k) -> http (Result A)) tr a :
  (forall resp tr0 out0, traces (handle resp) tr0 out0 -> tr0 = []) ->
  traces (send k r createMsg doMsg handle) tr (Some (Ok a)) ->
  exists resp, tr = exchange_of k r (Ok resp) /\ traces (handle resp) [] (Some (Ok a)).
Proof.
  intros Hh Ht. apply send_cases in Ht; [|done].
  destruct Ht as [(e & _ & ?)|([resp|e] & -> & Ht)]; [done| |done]. eauto.
Qed.

(** Handlers that only read the response. *)
Ltac silent := intros ? ? ? Hx; repeat (case_match || (apply traces_or_panic in Hx)); by destruct Hx.

Lemma checked_body_ok {B} (resp : Response B) m1 m2 m3 b :
  checked_body resp m1 m2 m3 = Ok b -> rs_Status resp = StatusOK /\ rs_Body resp = Ok (Ok b).
Proof.
  unfold checked_body. destruct (rate_limited _); [done|].
  destruct (rs_Body resp) as [[b'|e]|e]; destruct (Z.eqb_spec (rs_Status resp) StatusOK);
    simpl; try done. by intros [= ->].
Qed.

Lemma single_carries k v :
  k = QueryEscape k -> carries (k +:+ "=" +:+ QueryEscape v) [(k, v)].
Proof.
  intros Hk. exists [(k, v)]. split; [|done].
  pose proof (parse_encode_pairs [(k, v)] 1 ltac:(done) ltac:(simpl; lia)) as Hp.
  cbn [encode_pairs] in Hp. by rewrite <- Hk in Hp.
Qed.

(** ** Tickers *)

(** The exchange's answer: one entry for one symbol, a list otherwise. *)
Inductive ticker_reply (r : HttpRequest) :
    list RawBookTicker -> list (event HttpRes) -> Prop :=
  | one_ticker resp raw :
      rs_Status resp = StatusOK -> rs_Body resp = Ok (Ok raw) ->
      ticker_reply r [raw]
        (exchange_of BookTickerBody r (Ok resp))
  | many_tickers resp raws :
      rs_Status resp = StatusOK -> rs_Body resp = Ok (Ok raws) ->
      ticker_reply r raws
        (exchange_of BookTickersBody r (Ok resp)).

Lemma book_ticker_url_carries symbols :
  symbols <> [] ->
  exists query, book_ticker_url c symbols = bn_baseURL c +:+ "/api/v3/ticker/bookTicker?" +:+ query /\
    carries query [match symbols with [s] => ("symbol", s) | _ => ("symbols", json_strings symbols) end].
Proof.
  intros Hne. destruct symbols as [|s1 [|s2 syms]]; [done|..].
  - exists ("symbol=" +:+ QueryEscape s1). split; [reflexivity|]. by apply (single_carries "symbol").
  - exists ("symbols=" +:+ QueryEscape (json_strings (s1 :: s2 :: syms))).
    split; [reflexivity|]. by apply (single_carries "symbols").
Qed.

(** The tickers of the requested symbols, as the exchange answered. *)
Definition tickers_read (symbols : list string) (tr : list (event HttpRes))
    (res : gmap string BookTicker) : Prop :=
  symbols = [] /\ tr = [] /\ res = ∅ \/
  exists query raws,
    carries query [match symbols with [s] => ("symbol", s) | _ => ("symbols", json_strings symbols) end] /\
    ticker_reply {| hr_Method := "GET";
                    hr_URL := bn_baseURL c +:+ "/api/v3/ticker/bookTicker?" +:+ query;
                    hr_APIKey := None |} raws tr /\
    forall sym, res !! sym = last (omap (ticker_of sym) raws).

Lemma GetBookTickers_trace symbols tr res :
  traces (GetBookTickers c symbols) tr (Some (Ok res)) -> tickers_read symbols tr res.
Proof.
  intros Ht. destruct symbols as [|s1 syms]; [left; by destruct Ht as [-> [= ->]]|right].
  destruct (book_ticker_url_carries (s1 :: syms)) as (query & Hurl & Hc); [done|].
  exists query. unfold GetBookTickers, get_request in Ht. rewrite Hurl in Ht.
  destruct syms as [|s2 syms].
  - apply send_answered in Ht as (resp & -> & Ht); [|silent].
    destruct (checked_body resp _ _ _) as [raw|e] eqn:Eb; [|by destruct Ht].
    apply checked_body_ok in Eb as [Hst Hb]. apply traces_or_panic in Ht.
    destruct (parseBookTicker raw) as [[t|e]|] eqn:Ep; [|by destruct Ht..].
    destruct Ht as [_ [= ->]]. exists [raw]. split; [done|]. split; [by constructor|].
    intros sym. simpl. unfold ticker_of. rewrite Ep.
    case_decide as Hs; simpl; [subst; apply lookup_singleton_eq|by apply lookup_singleton_ne].
  - apply send_answered in Ht as (resp & -> & Ht); [|silent].
    destruct (checked_body resp _ _ _) as [raws|e] eqn:Eb; [|by destruct Ht].
    apply checked_body_ok in Eb as [Hst Hb]. apply traces_or_panic in Ht.
    destruct (collect_tickers raws ∅) as [m|] eqn:Ec; [|by destruct Ht].
    destruct Ht as [_ [= ->]]. exists raws. split; [done|]. split; [by constructor|].
    intros sym. rewrite (collect_tickers_spec _ _ _ sym Ec). by destruct (last _).
Qed.

(** C38: tickers.  A successful [GetBookTickers] sent nothing for no symbols, or one GET
    whose query a server reads as exactly the requested symbols; the response was a 200,
    and each symbol's ticker is the last entry for it that parses: an entry that does
    not parse neither appears nor disturbs the others. *)
Theorem GetBookTickers_result symbols tr res :
  traces (GetBookTickers c symbols) tr (Some (Ok res)) -> tickers_read symbols tr res.
Proof. apply GetBookTickers_trace. Qed.

(** C39: tradable symbols.  A successful [ValidateSymbols] answers for exactly the
    requested symbols; a symbol is valid exactly when the exchange listed it, in any
    letter case, with status TRADING.  (Any status but 429 and 418 is accepted if the
    body decodes.) *)
Theorem ValidateSymbols_result symbols tr res :
  traces (ValidateSymbols c symbols) tr (Some (Ok res)) ->
  symbols = [] /\ tr = [] /\ res = ∅ \/
  exists resp info,
    (let r := {| hr_Method := "GET"; hr_URL := bn_baseURL c +:+ "/api/v3/exchangeInfo";
                 hr_APIKey := None |} in
     tr = exchange_of ExchangeInfoBody r (Ok resp)) /\
    rs_Status resp <> 429 /\ rs_Status resp <> 418 /\ rs_Body resp = Ok (Ok info) /\
    forall s, (is_Some (res !! s) <-> s ∈ symbols) /\
      (res !! s = Some true <-> s ∈ symbols /\
         exists i, i ∈ ei_Symbols info /\ EqualFold (ei_Status i) "TRADING" = true /\
           ToUpper (ei_Symbol i) = ToUpper s).
Proof.
  intros Ht. destruct symbols as [|s1 syms]; [left; by destruct Ht as [-> [= ->]]|right].
  unfold ValidateSymbols in Ht.
  apply send_answered in Ht as (resp & -> & Ht); [|silent].
  destruct (rate_limited (rs_Status resp)) eqn:Er; [by destruct Ht|].
  destruct (rs_Body resp) as [[info|e]|e] eqn:Eb; [|by destruct Ht|by destruct Ht].
  destruct Ht as [_ Hres].
  assert (res = mark_symbols (fun s => bool_decide (ToUpper s ∈ trading_symbols (ei_Symbols info)))
    (s1 :: syms) (mark_symbols (fun _ => false) (s1 :: syms) ∅)) as -> by congruence.
  exists resp, info.
  unfold rate_limited, StatusTooManyRequests in Er.
  split; [done|]. split; [lia|]. split; [lia|]. split; [done|].
  intros s. rewrite mark_symbols_spec. case_decide as Hin.
  - split; [by split|]. rewrite <- elem_of_trading. split.
    + intros [= Hb%bool_decide_eq_true]. done.
    + intros [_ Hb]. by rewrite bool_decide_eq_true_2.
  - rewrite mark_symbols_spec, decide_False, lookup_empty by done.
    split; [split; [by intros [? ?]|done]|]. split; [done|naive_solver].
Qed.

(** ** Balances *)

Lemma account_params_carry now :
  carries (values_Encode (account_params c now))
    [("timestamp", FormatInt now); ("recvWindow", FormatInt (bn_recvWindow c))].
Proof.
  destruct (Encode_carries (account_params c now)) as (pairs & Hr & Hq); [done|].
  exists pairs. split; [done|]. rewrite Hq. apply Permutation_swap.
Qed.

Lemma account_response_ok resp res :
  account_response resp = Ok res ->
  rs_Status resp = StatusOK /\
  exists acc, rs_Body resp = Ok (Ok acc) /\ res = collect_balances (ac_Balances acc).
Proof.
  unfold account_response. destruct (checked_body resp _ _ _) as [acc|e] eqn:Eb; [|done].
  intros [= <-]. apply checked_body_ok in Eb as [Hst Hb]. eauto.
Qed.

(** Each asset's balance is the last entry for it that parses. *)
Definition balances_of (acc : AccountResponse) (res : gmap string Decimal) : Prop :=
  forall asset, res !! asset = last (omap (balance_of asset) (ac_Balances acc)).

(** The balances of an account, as the exchange answered a signed request. *)
Definition balances_read (p : CredPtr) (tr : list (event HttpRes)) (res : gmap string Decimal) : Prop :=
  exists key secret now query resp acc,
    key <> [] /\ secret <> [] /\
    carries query [("timestamp", FormatInt now); ("recvWindow", FormatInt (bn_recvWindow c))] /\
    (let r := {| hr_Method := "GET";
                 hr_URL := bn_baseURL c +:+ "/api/v3/account" +:+ "?" +:+ query +:+ "&signature="
                   +:+ SignHMAC (string_bytes query) secret;
                 hr_APIKey := Some key |} in
     tr = ([asked (CredsLoad p) (key, secret); asked UnixMilli now]
           ++ exchange_of AccountBody r (Ok resp) ++ [asked (CredsWipe p) tt])%list) /\
    rs_Status resp = StatusOK /\ rs_Body resp = Ok (Ok acc) /\
    balances_of acc res.

Lemma GetAccountBalances_trace p tr res :
  traces (GetAccountBalances c (Some p)) tr (Some (Ok res)) -> balances_read p tr res.
Proof.
  intros ([key secret] & tr1 & -> & Ht).
  destruct key as [|k key]; [by destruct Ht|]. destruct secret as [|s secret]; [by destruct Ht|].
  apply traces_defer_call in Ht as (tr2 & [] & -> & Ht).
  destruct Ht as (now & tr3 & -> & Ht). cbn [bind] in Ht.
  apply send_answered in Ht as (resp & -> & [_ Hacc]); [|silent].
  assert (account_response resp = Ok res) as (Hst & acc & Hb & ->)%account_response_ok
    by congruence.
  exists (k :: key), (s :: secret), now, (values_Encode (account_params c now)), resp, acc.
  split; [done|]. split; [done|]. split; [apply account_params_carry|].
  split; [reflexivity|]. split; [done|]. split; [done|]. intros asset. apply collect_balances_spec.
Qed.
End BinanceQueries.
