(* ===== verification/ServiceTheorems.v ===== *)
(** * Market data and reconciliation

    What [GetQuotes] and [SyncBrokerBalances] answer, for every behaviour of the cache,
    the broker and the ledger. *)

From stdpp Require Import base tactics list strings gmap.
From Stdlib Require Import ZArith QArith Lia Lqa.
From S2P Require Import Prelude Exec GoStrings Uuid Broker Vault Decimal DecimalSpec.
From S2P Require Import DecimalText Db Clients Cache Effects Worker Service.

#[local] Open Scope Z_scope.
#[local] Open Scope go_scope.

(** One call of a service program and its answer. *)
Abbreviation said := (ev (Res := Res)).

Section ServiceTheorems.
Context `{GoUnicode}.

(** ** Symbols *)

Definition cleaned (sym : string) : string := ToUpper (TrimSpace sym).

Lemma clean_loop_spec syms seen acc :
  NoDup acc -> (forall x, x ∈ seen <-> x ∈ acc) ->
  NoDup (clean_loop syms seen acc) /\
  forall x, x ∈ clean_loop syms seen acc <->
    x ∈ acc \/ (x <> EmptyString /\ exists y, y ∈ syms /\ x = cleaned y).
Proof.
  revert seen acc. induction syms as [|sym syms IH]; intros seen acc Hd Hs; simpl.
  - split; [done|]. set_solver.
  - fold (cleaned sym). destruct (String.eqb_spec (cleaned sym) EmptyString) as [E|E].
    { destruct (IH seen acc Hd Hs) as [H1 H2]. split; [done|]. intros x. rewrite H2.
      set_solver. }
    destruct (decide (cleaned sym ∈ seen)) as [Hin|Hin].
    { destruct (IH seen acc Hd Hs) as [H1 H2]. split; [done|]. intros x. rewrite H2.
      rewrite Hs in Hin. set_solver. }
    destruct (IH ({[cleaned sym]} ∪ seen) (acc ++ [cleaned sym])) as [H1 H2].
    { apply NoDup_app. split; [done|]. split; [|apply NoDup_singleton].
      intros x Hx. rewrite list_elem_of_singleton. intros ->. by apply Hin, Hs. }
    { set_solver. }
    split; [done|]. intros x. rewrite H2. set_solver.
Qed.

Lemma clean_symbols_spec syms :
  NoDup (clean_symbols syms) /\
  forall x, x ∈ clean_symbols syms <-> x <> EmptyString /\ exists y, y ∈ syms /\ x = cleaned y.
Proof.
  destruct (clean_loop_spec syms ∅ []) as [H1 H2]; [constructor|set_solver|].
  split; [done|]. intros x. unfold clean_symbols. rewrite H2. set_solver.
Qed.

Lemma resolve_provider_binance s wire : resolve_provider s wire = "BINANCE"%string.
Proof. unfold resolve_provider, ProviderName. by case_match. Qed.

(** ** Quotes *)

(** A quote of the answer: price text, Unix time, and whether it is of the fallback. *)
Definition quote (sym : string) (price : Decimal) (unix : Z) (stale : bool) : Quote := {|
  q_Symbol := sym; q_Price := to_String price; q_Timestamp := unix; q_IsStaleCache := stale |}.

Definition cached (stale : bool) (c : CachedQuote) : Quote :=
  quote (cq_Symbol c) (cq_Price c) (cq_Timestamp c) stale.

(** What follows the cache lookup, and the quote of each symbol. *)
Inductive quotes_answer (hits : gmap string CachedQuote) :
    list string -> list (event Res) -> (string -> option Quote) -> Prop :=
  | all_hits :
      quotes_answer hits [] [] (fun sym => cached false <$> hits !! sym)
  | from_broker misses tickers now r :
      misses <> [] ->
      quotes_answer hits misses
        [said (BrokerGetBookTickers misses) (Ok tickers); said TimeNow now;
         said (CacheSetQuotes "BINANCE" (bt_MidPrice <$> tickers) (time_Unix now)) r]
        (fun sym =>
           match tickers !! sym with
           | Some t => Some (quote (bt_Symbol t) (bt_MidPrice t) (time_Unix now) false)
           | None => cached false <$> hits !! sym
           end)
  | from_stale misses e stale :
      misses <> [] ->
      quotes_answer hits misses
        [said (BrokerGetBookTickers misses) (Err e);
         said (CacheGetStaleQuotes "BINANCE" misses) (Ok stale)]
        (fun sym =>
           match stale !! sym with
           | Some c => Some (cached true c)
           | None => cached false <$> hits !! sym
           end)
  | no_fallback misses e e' :
      misses <> [] ->
      quotes_answer hits misses
        [said (BrokerGetBookTickers misses) (Err e);
         said (CacheGetStaleQuotes "BINANCE" misses) (Err e')]
        (fun sym => cached false <$> hits !! sym).

Lemma quotes_over {A} (f : A -> Quote) (m : gmap string A) (n : gmap string Quote) sym :
  ((f <$> m) ∪ n) !! sym = match m !! sym with Some a => Some (f a) | None => n !! sym end.
Proof.
  rewrite lookup_union, lookup_fmap.
  destruct (m !! sym), (n !! sym); reflexivity.
Qed.

(** A request for quotes, its calls, and the map it is answered with. *)
Definition quotes_served (req : GetQuotesRequest) (tr : list (event Res)) (m : gmap string Quote) : Prop :=
  gq_Symbols req = [] /\ m = ∅ /\ tr = [] \/
  exists asked hits misses e rest lookup,
    NoDup asked /\
    (forall x, x ∈ asked <-> x <> EmptyString /\ exists y, y ∈ gq_Symbols req /\ x = cleaned y) /\
    tr = said (CacheGetQuotes "BINANCE" asked) (hits, misses, e) :: rest /\
    quotes_answer hits misses rest lookup /\ forall sym, m !! sym = lookup sym.

Lemma GetQuotes_trace s req tr out :
  traces (GetQuotes s req) tr out -> exists m, out = Some (Ok m) /\ quotes_served req tr m.
Proof.
  unfold GetQuotes, quotes_served. destruct (gq_Symbols req) as [|sym0 syms0] eqn:Es.
  { intros [-> ->]. exists ∅. auto. }
  rewrite resolve_provider_binance. intros ([[hits misses] e] & tr1 & -> & Ht).
  pose proof (clean_symbols_spec (sym0 :: syms0)) as [Hd Hc].
  enough (exists m lookup, out = Some (Ok m) /\ quotes_answer hits misses tr1 lookup /\
    forall sym, m !! sym = lookup sym) as (m & lookup & -> & Hq & Hm).
  { exists m. split; [done|]. right. by eexists _, hits, misses, e, tr1, lookup. }
  destruct misses as [|m0 ms].
  { destruct Ht as [-> ->]. eexists _, _. split; [done|]. split; [constructor|].
    intros sym. apply lookup_fmap. }
  destruct Ht as ([tickers|be] & tr2 & -> & Ht).
  - destruct Ht as (now & tr3 & -> & (r & tr4 & -> & [-> ->])).
    eexists _, _. split; [done|]. split; [by constructor|]. intros sym.
    rewrite quotes_over. by rewrite lookup_fmap.
  - destruct Ht as ([stale|se] & tr3 & -> & [-> ->]); eexists _, _;
      (split; [done|]; split; [by constructor|]; intros sym).
    + rewrite quotes_over. by rewrite lookup_fmap.
    + apply lookup_fmap.
Qed.

(** C31: what [GetQuotes] does, exactly; it never fails, whatever breaks behind it.  Each
    requested symbol, trimmed and in upper case, is asked of the cache once, blank ones
    are left out.  The misses are asked of the broker, whose mid prices are answered and
    written to the cache under one timestamp; only when the broker fails are they taken
    from the 24 hour fallback, and marked stale; a hit stands unless newer data
    replaces it. *)
Theorem GetQuotes_answers s req tr out :
  traces (GetQuotes s req) tr out -> exists m, out = Some (Ok m) /\ quotes_served req tr m.
Proof. apply GetQuotes_trace. Qed.

(** ** Reconciliation *)

(** The broker's fiat balance: the first positive one of the assets in order. *)
Definition first_of (assets : list string) (balances : gmap string Decimal) (fiat : Decimal) : Prop :=
  let none l := forall a bal, a ∈ l -> balances !! a = Some bal -> (dval bal <= 0)%Q in
  (exists before a after, assets = before ++ a :: after /\ balances !! a = Some fiat /\
     (0 < dval fiat)%Q /\ none before) \/
  (fiat = Zero /\ none assets).

Lemma first_positive_spec assets balances :
  first_of assets balances (first_positive assets balances).
Proof.
  unfold first_of. induction assets as [|a assets IH]; [right; split; [done|]; set_solver|]. simpl.
  assert (forall bal, balances !! a = Some bal -> GreaterThan bal Zero = false -> (dval bal <= 0)%Q)
    as Hle.
  { intros bal _ Hg. apply Qnot_lt_le. intros Hlt.
    assert (GreaterThan bal Zero = true); [|congruence].
    apply GreaterThan_spec. by rewrite Zero_dval. }
  assert ((forall bal, balances !! a = Some bal -> (dval bal <= 0)%Q) ->
    first_of (a :: assets) balances (first_positive assets balances)) as Hskip.
  { intros Ha. destruct IH as [(before & b & after & -> & Hb & Hp & Hn)|[Hz Hn]].
    - left. exists (a :: before), b, after. split; [done|]. do 2 (split; [done|]). set_solver.
    - right. split; [done|]. set_solver. }
  destruct (balances !! a) as [bal|] eqn:Ea; [|by apply Hskip].
  destruct (GreaterThan bal Zero) eqn:Eg; [|apply Hskip; intros ? [= ->]; by apply Hle].
  left. exists [], a, assets. apply GreaterThan_spec in Eg. rewrite Zero_dval in Eg. set_solver.
Qed.

(** The ledger's side: the balance of the user's account or else of the tenant's clearing
    account; whatever fails on the way counts as zero. *)
Definition balance_seen (acc : string) (tr : list (event Res)) (b : Decimal) : Prop :=
  exists r, tr = [said (LivroGetBalance acc) r] /\ b = match r with Ok bal => bal | Err _ => Zero end.

Definition ledger_seen (s : PregaoServer) (req : SyncBrokerBalancesRequest)
    (tr : list (event Res)) (b : Decimal) : Prop :=
  if has_livro s then
    let user := TrimSpace (sb_UserId req) in
    if decide (user = EmptyString) then
      exists r rest, tr = said (LivroGetOrCreateBrokerAccount (sb_TenantId req)) r :: rest /\
        match r with
        | Ok acc => if decide (acc = EmptyString) then rest = [] /\ b = Zero else balance_seen acc rest b
        | Err _ => rest = [] /\ b = Zero
        end
    else balance_seen user tr b
  else tr = [] /\ b = Zero.

Lemma ledger_balance_trace s req tr b :
  traces (ledger_balance s req) tr (Some b) -> ledger_seen s req tr b.
Proof.
  unfold ledger_balance, ledger_seen, blank. destruct (has_livro s); [|by intros [-> [= ->]]].
  assert (forall acc tr, traces (lBal <- perform (LivroGetBalance acc) ;;
    match lBal with Ok b => Ret b | Err _ => Ret Zero end) tr (Some b) -> balance_seen acc tr b)
    as Hread.
  { intros acc tr0 ([bal|e] & tr1 & -> & [-> [= ->]]); by eexists. }
  destruct (String.eqb_spec (TrimSpace (sb_UserId req)) EmptyString) as [Hu|Hu].
  - rewrite decide_True by done. intros ([acc|e] & tr1 & -> & Ht); eexists _, _; (split; [done|]).
    + simpl in Ht. destruct (String.eqb_spec acc EmptyString); case_decide; try done.
      * by destruct Ht as [-> [= ->]].
      * by apply Hread.
    + by destruct Ht as [-> [= ->]].
  - rewrite decide_False by done. cbn [bind].
    destruct (String.eqb_spec (TrimSpace (sb_UserId req)) EmptyString); [done|]. apply Hread.
Qed.

(** What a reconciliation compared and answered. *)
Definition reconciled (fiat ledger : Decimal) (resp : SyncBrokerBalancesResponse) : Prop :=
  (sr_InSync resp = true <-> (dval fiat == dval ledger)%Q) /\
  (in_i32 (d_exp fiat) -> in_i32 (d_exp ledger) ->
   exists d, NewFromString (sr_NetFiatAdjustment resp) = Ok d /\ d_exp d = -4 /\
     rounds_half_away ((dval fiat - dval ledger) * p10 4) (d_value d)).

(** The calls of a successful reconciliation. *)
Definition sync_calls (s : PregaoServer) (req : SyncBrokerBalancesRequest) (creds : CredPtr)
    (tr : list (event Res)) (balances : gmap string Decimal) (ledger : Decimal) : Prop :=
  exists cred k1 k2 r provider mid,
    tr = said (CredentialsGet (sb_TenantId req) provider) (Ok cred) ::
         said (VaultDecryptCredentials k1 k2) (Ok creds) ::
         said (BrokerGetAccountBalances creds) (Ok balances) :: mid ++ [said (CredsZero creds) r] /\
    ledger_seen s req mid ledger.

Lemma SyncBrokerBalances_trace s req tr resp :
  traces (SyncBrokerBalances s req) tr (Some (Ok resp)) ->
  exists creds balances fiat ledger,
    sync_calls s req creds tr balances ledger /\
    first_of ["USDT"; "USD"; "BUSD"; "USDC"]%string balances fiat /\ reconciled fiat ledger resp.
Proof.
  unfold SyncBrokerBalances. destruct (blank (sb_TenantId req)); [by intros [_ ?]|].
  intros ([cred|e] & tr1 & -> & Ht); [|destruct Ht as [_ Ht]; unfold cred_error in Ht;
    by destruct (errors_Is e ErrCredentialsNotFound)].
  destruct Ht as ([creds|e] & tr2 & -> & Ht); [|by destruct Ht].
  apply traces_defer in Ht as (tr3 & tr4 & -> & Ht & Hz).
  destruct Hz as (z & ? & -> & -> & _).
  destruct Ht as ([balances|e] & tr5 & -> & Ht); [|by destruct Ht].
  cbn [bind] in Ht. apply traces_bind in Ht as [(tr6 & tr7 & ledger & -> & Hl & Ht)|[_ ?]]; [|done].
  pose proof (first_positive_spec fiat_assets balances) as Hf.
  remember (first_positive fiat_assets balances) as fiat eqn:Ef.
  destruct Ht as [-> [= ->]]. exists creds, balances, fiat, ledger.
  split; [|split; [done|]].
  { eexists cred, _, _, z, _, tr6. split; [simpl; by rewrite app_nil_r|by apply ledger_balance_trace]. }
  unfold reconciled. cbn [sr_InSync sr_NetFiatAdjustment].
  rewrite IsZero_spec, Sub_dval. split; [split; intros; lra|].
  intros Hr1 Hr2.
  assert (in_i32 (d_exp (Sub fiat ledger))) as Hr.
  { unfold Sub. destruct (RescalePair _ _) as [r1 r2] eqn:E. apply RescalePair_spec in E.
    simpl. unfold in_i32 in *. lia. }
  eexists. split; [apply StringFixed_read; [exact Hr|lia]|].
  destruct (Round_spec _ 4 Hr ltac:(lia)) as [He Hround]. split; [exact He|].
  by rewrite Sub_dval in Hround.
Qed.
End ServiceTheorems.
