(* ===== verification/System.v ===== *)
(** * The deployed system

    cmd/server/main.go gives the service its collaborators; here the calls of a service
    program are linked with the programs of the clients behind them, so that what remains
    are the requests on the wires: HTTP to the vault and to the exchange, commands to
    Redis, remote calls to Livro and Ativos, and the calls of the runtime and of the
    database.  Without a database connection the repositories are nil interfaces, and
    calling one is a panic. *)

From stdpp Require Import base tactics list strings gmap.
From Stdlib Require Import ZArith.
From S2P Require Import Prelude Exec Link GoStrings Json Decimal Vault VaultClient Clients Binance.
From S2P Require Redis.
From S2P Require Import Cache Config Effects Worker Service Webhook Startup.

#[local] Open Scope string_scope.
#[local] Open Scope Z_scope.
#[local] Open Scope go_scope.

Inductive SysOp :=
  | Native (op : Op)
  | ToVault (op : VaultOp)
  | ToExchange (op : HttpOp)
  | ToRedis (op : Redis.RedisOp)
  | ToLivro (r : Livro.Rpc)
  | ToAtivos (r : Ativos.Rpc).

Definition SysRes (op : SysOp) : Type :=
  match op with
  | Native op => Res op
  | ToVault op => VaultRes op
  | ToExchange op => HttpRes op
  | ToRedis op => Redis.RedisRes op
  | ToLivro r => Livro.RpcRes r
  | ToAtivos r => Ativos.RpcRes r
  end.

Abbreviation system := (prog SysRes).

Definition over_vault {A} : transit A -> system A :=
  embed (Res2 := SysRes) ToVault (fun _ r => r).
Definition over_exchange {A} : http A -> system A :=
  embed (Res2 := SysRes) ToExchange (fun _ r => r).
Definition over_redis {A} : Redis.redis A -> system A :=
  embed (Res2 := SysRes) ToRedis (fun _ r => r).
Definition over_livro {A} : prog Livro.RpcRes A -> system A :=
  embed (Res2 := SysRes) ToLivro (fun _ r => r).
Definition over_ativos {A} : prog Ativos.RpcRes A -> system A :=
  embed (Res2 := SysRes) ToAtivos (fun _ r => r).

(** The calls of the two repositories. *)
Definition is_repository (op : Op) : bool :=
  match op with
  | OrdersReserve _ | OrdersGetByIntent _ | OrdersGetByIdempotencyKey _ _
  | OrdersGetByProviderOrderID _ _ | OrdersConfirm _ _ _ _ _ | OrdersRelease _
  | OrdersUpdateFill _ _ _ _ _ | CredentialsGet _ _ => true
  | _ => false
  end.

Definition native (d : Deployment) (op : Op) : system (Res op) :=
  if is_repository op && negb (dp_pool d) then Panic "nil pointer dereference"
  else call (Res := SysRes) (Native op).

Section System.
Context `{GoUnicode} `{JsonUnicode} `{Hmac}.
Context (d : Deployment).

Definition vault_client : openBaoTransitClient :=
  let cfg := dp_config d in
  NewTransitClient (OpenBaoAddr cfg) (OpenBaoToken cfg) (OpenBaoTransitKey cfg).

Definition broker_client : binanceClient :=
  let cfg := dp_config d in NewClient (BinanceBaseURL cfg) (BinanceRecvWindow cfg).

Definition quotes_cache : Redis.redisQuotesCache :=
  let cfg := dp_config d in Redis.NewRedisQuotesCache (CacheFreshTTL cfg) (CacheStaleTTL cfg).

(** The implementation of each call. *)
Definition deploy (op : Op) : system (Res op) :=
  match op return system (Res op) with
  | VaultDecryptCredentials ct1 ct2 => over_vault (DecryptCredentials vault_client ct1 ct2)
  | BrokerGetBookTickers symbols => over_exchange (GetBookTickers broker_client symbols)
  | BrokerValidateSymbols symbols => over_exchange (ValidateSymbols broker_client symbols)
  | BrokerPlaceMarketOrder creds req =>
      over_exchange (PlaceMarketOrder broker_client (Some creds) req)
  | BrokerGetAccountBalances creds =>
      over_exchange (GetAccountBalances broker_client (Some creds))
  | CacheGetQuotes provider symbols => over_redis (Redis.GetQuotes provider symbols)
  | CacheSetQuotes provider quotes timestamp =>
      over_redis (Redis.SetQuotes quotes_cache provider (map_to_list quotes) timestamp)
  | CacheGetStaleQuotes provider symbols => over_redis (Redis.GetStaleQuotes provider symbols)
  | LivroCaptureHold p => over_livro (Livro.CaptureHold p)
  | LivroCredit p => over_livro (Livro.Credit p)
  | LivroGetBalance accountID => over_livro (Livro.GetBalance accountID)
  | LivroGetOrCreateBrokerAccount tenantID =>
      over_livro (Livro.GetOrCreateBrokerAccount tenantID)
  | AtivosSyncBrokerExecution p => over_ativos (Ativos.SyncBrokerExecution p)
  | op => native d op
  end.

(** A handler of the service, deployed. *)
Definition deployed {A} (p : service A) : system A := interp deploy p.
End System.
