(* ===== verification/SystemSpec.v ===== *)
(** * The deployed system keeps the promises of its parts

    The theorems about the service hold of the service linked with its clients, stated
    on the system's own memory and wires: no plaintext credential survives a request, a
    settled fill is the remote call it should be, and without a database every valid
    request is a panic. *)

From stdpp Require Import base tactics list strings gmap.
From Stdlib Require Import ZArith QArith Ascii Lia Lqa.
From S2P Require Import Prelude Exec Link GoStrings Uuid Json Decimal DecimalSpec DecimalText Vault.
From S2P Require Import VaultClient Clients Db Binance Cache Config Effects Worker Service.
From S2P Require Import TradeProtocol CredsSafety VaultSpec WorkerSpec Startup System.

#[local] Open Scope string_scope.
#[local] Open Scope Z_scope.
#[local] Open Scope go_scope.

(** ** Memory *)

(** The bytes behind a slice; a nil slice has none. *)
Definition slice_bytes (h : Heap) (s : option BufPtr) : list Z :=
  match s with Some b => default [] (buffers h !! b) | None => [] end.

Definition loaded (h : Heap) (p : CredPtr) : list Z * list Z :=
  match structs h !! p with
  | Some c => (slice_bytes h (APIKey c), slice_bytes h (APISecret c))
  | None => ([], [])
  end.

(** The exchange client reads the buffers of a pair and wipes them. *)
Definition exchange_env (op : HttpOp) : Heap -> HttpRes op -> Heap -> Prop :=
  match op return Heap -> HttpRes op -> Heap -> Prop with
  | CredsLoad p => fun h r h' => h' = h /\ r = loaded h p
  | CredsWipe p => fun h _ h' => h' = Vault.Zero (Some p) h
  | _ => fun h _ h' => h' = h
  end.

Definition sys_env (reply : Replies) (op : SysOp) : Heap -> SysRes op -> Heap -> Prop :=
  match op return Heap -> SysRes op -> Heap -> Prop with
  | Native (CredsZero p) => fun h _ h' => h' = Vault.Zero (Some p) h
  | ToVault op => vault_env reply op
  | ToExchange op => exchange_env op
  | Native _ | ToRedis _ | ToLivro _ | ToAtivos _ => fun h _ h' => h' = h
  end.

(** Nothing new, and nothing but wiping. *)
Record scrub (h h' : Heap) : Prop := {
  scrub_tame : tame h h';
  scrub_new : forall b, buffers h !! b = None -> buffers h' !! b = None;
}.

Lemma scrub_refl h : scrub h h.
Proof. split; [apply tame_refl|done]. Qed.

Lemma tame_trans h1 h2 h3 : tame h1 h2 -> scrub h2 h3 -> scrub h1 h2 -> tame h1 h3.
Proof.
  intros T1 [T2 N2] [_ N1]. split.
  - intros b bytes H1. destruct (tame_buffers _ _ T1 _ _ H1) as (bytes2 & H2 & Hor).
    destruct (tame_buffers _ _ T2 _ _ H2) as (bytes3 & H3 & Hor3). exists bytes3.
    split; [done|]. destruct Hor3 as [->|]; [done|by right].
  - intros p c H1. destruct (tame_structs _ _ T1 _ _ H1) as [H2|[H2 Hw]].
    + destruct (tame_structs _ _ T2 _ _ H2) as [H3|[H3 Hw]]; [by left|by right].
    + right. split; [by destruct (tame_structs _ _ T2 _ _ H2) as [H3|[H3 _]]|].
      intros b bytes Hb H3. destruct (buffers h2 !! b) as [bytes2|] eqn:E2.
      * destruct (tame_buffers _ _ T2 _ _ E2) as (bytes3 & E3 & Hor).
        pose proof (eq_trans (eq_sym H3) E3) as [= ->].
        destruct Hor as [->|]; [by eapply Hw|done].
      * apply N2 in E2. by pose proof (eq_trans (eq_sym H3) E2).
Qed.

Lemma scrub_trans h1 h2 h3 : scrub h1 h2 -> scrub h2 h3 -> scrub h1 h3.
Proof.
  intros S1 S2. split; [eapply tame_trans; [apply S1|done..]|].
  intros b Hb. by apply S2, S1.
Qed.

Lemma Zero_scrub p h : scrub h (Vault.Zero (Some p) h).
Proof.
  split; [apply Zero_tame|]. intros b Hb.
  destruct (buffers (Vault.Zero (Some p) h) !! b) as [bytes|] eqn:E; [|done]. exfalso.
  simpl in E. destruct (structs h !! p) as [c|]; [|congruence]. simpl in E.
  assert (forall s bufs, bufs !! b = None -> wipe_slice s bufs !! b = None) as Hnone.
  { intros [i|] bufs Hn; [|done]. unfold wipe_slice, wipe. rewrite lookup_alter.
    case_decide; subst; by rewrite Hn. }
  by pose proof (eq_trans (eq_sym (Hnone _ _ (Hnone _ _ Hb))) E).
Qed.

(** A program of such steps is one. *)
Lemma exec_scrub {Op : Type} {Res : Op -> Type} (H : forall op, Heap -> Res op -> Heap -> Prop)
    {A} (p : prog Res A) h o h' :
  (forall op h r h', H op h r h' -> scrub h h') -> exec H p h o h' -> scrub h h'.
Proof.
  intros Hs. revert h. induction p as [a|m|op k IH u IHu]; intros h; simpl.
  - intros [_ ->]. apply scrub_refl.
  - intros [_ ->]. apply scrub_refl.
  - intros (r & h1 & H1 & He). eapply scrub_trans; eauto.
Qed.

Lemma exchange_scrub op h r h' : exchange_env op h r h' -> scrub h h'.
Proof.
  destruct op; simpl; try (intros ->; first [apply scrub_refl|apply Zero_scrub]).
  intros [-> _]. apply scrub_refl.
Qed.

Section Memory.
Context `{GoUnicode} `{JsonUnicode} `{Hmac}.
Context (d : Deployment) (open : string -> list Z) (reply : Replies).
Context `{!VaultReplies (TrimRight (OpenBaoAddr (dp_config d)) "/"%char)
  (if String.eqb (OpenBaoTransitKey (dp_config d)) "" then "broker-keys"
   else OpenBaoTransitKey (dp_config d)) (OpenBaoToken (dp_config d)) open reply}.

(** Every buffer that was not there at [h0] is on the list or wiped. *)
Definition tracked (h0 h : Heap) (w : CredWorld) : Prop :=
  cw_heap w = h /\
  forall b bytes, buffers h0 !! b = None -> buffers h !! b = Some bytes ->
    b ∈ cw_handed w \/ wiped bytes.

Lemma tracked_scrub h0 h h' w :
  tracked h0 h w -> scrub h h' ->
  tracked h0 h' {| cw_heap := h'; cw_handed := cw_handed w |}.
Proof.
  intros [<- Ht] [Hs Hn]. split; [done|]. intros b bytes Hold Hb.
  destruct (buffers (cw_heap w) !! b) as [bytes1|] eqn:E1.
  - destruct (tame_buffers _ _ Hs _ _ E1) as (bytes2 & E2 & Hor).
    pose proof (eq_trans (eq_sym Hb) E2) as [= ->].
    destruct Hor as [->|]; [by apply Ht|by right].
  - apply Hn in E1. by pose proof (eq_trans (eq_sym Hb) E1).
Qed.

Lemma native_scrub op h o h' :
  no_creds_op op = true -> exec (sys_env reply) (native d op) h o h' -> scrub h h'.
Proof.
  intros Hop. unfold native. destruct (_ && _); [intros [_ ->]; apply scrub_refl|].
  intros (r & h1 & Hr & _ & ->). destruct op; try done; simpl in Hr; subst; apply scrub_refl.
Qed.

Lemma embed_scrub {Op1 : Type} {Res1 : Op1 -> Type} (f : Op1 -> SysOp)
    (res : forall op, SysRes (f op) -> Res1 op) {A} (p : prog Res1 A) h o h' :
  (forall op h r h', sys_env reply (f op) h r h' -> scrub h h') ->
  exec (sys_env reply) (embed f res p) h o h' -> scrub h h'.
Proof.
  intros Hf. revert h. induction p as [a|m|op k IH u IHu]; intros h; simpl.
  - intros [_ ->]. apply scrub_refl.
  - intros [_ ->]. apply scrub_refl.
  - intros (r & h1 & Hr & He). eapply scrub_trans; [by eapply Hf|by eapply IH].
Qed.

(** The calls whose implementation leaves no new memory behind. *)
Lemma quiet_op_scrub op h o h' :
  no_creds_op op = true -> exec (sys_env reply) (deploy d op) h o h' -> scrub h h'.
Proof.
  intros Hop. destruct op; try done; cbn [deploy];
    first [by apply native_scrub
          |apply embed_scrub; intros ? ? ? ?; first [apply exchange_scrub|intros ->; apply scrub_refl]].
Qed.

(** Each step of the linked service is one of the credential environment. *)
Lemma deploy_step h0 op h r h' w :
  tracked h0 h w -> linked_env (deploy d) (sys_env reply) op h r h' ->
  exists w', cred_env op w r w' /\ tracked h0 h' w'.
Proof.
  intros Ht He. destruct (no_creds_op op) eqn:Eop.
  - apply quiet_op_scrub in He as Hs; [|done].
    exists {| cw_heap := h'; cw_handed := cw_handed w |}. split; [|by eapply tracked_scrub].
    destruct Ht as [<- _]. destruct op; try done; split; (done || apply Hs).
  - destruct op; try done.
    + destruct He as (r' & h1 & -> & _ & ->). eexists. split; [done|]. destruct Ht as [<- Ht].
      eapply tracked_scrub; [by split|apply Zero_scrub].
    + apply (exec_embed _ _ (vault_env reply)) in He; [|done].
      apply (wp_sound _ _ _ _ _ _ _ (DecryptCredentials_spec _ open reply _ _ h)) in He
        as ([p|e] & [= ->] & Hr); destruct Ht as [<- Ht].
      * destruct (handed_out_env _ _ _ _ (cw_handed w) _ _ Hr)
          as (b1 & b2 & _ & _ & _ & Hb & Hc).
        exists {| cw_heap := h'; cw_handed := b1 :: b2 :: cw_handed w |}. split; [by destruct w|].
        split; [done|]. intros b bytes Hold Hl. destruct (decide (b = b1)), (decide (b = b2));
          subst; [left; set_solver..|]. rewrite Hb in Hl by done.
        destruct (Ht b bytes Hold Hl); [left; set_solver|by right].
      * exists {| cw_heap := h'; cw_handed := cw_handed w |}.
        split; [split; [by eapply left_clean_tame|done]|]. split; [done|].
        intros b bytes Hold Hl. destruct Hr as (_ & Hsub & Hnew).
        destruct (buffers (cw_heap w) !! b) as [bytes1|] eqn:E1.
        -- pose proof (lookup_weaken _ _ _ _ E1 Hsub) as E2.
           pose proof (eq_trans (eq_sym Hl) E2) as [= ->]. by apply Ht.
        -- right. by eapply Hnew.
Qed.

(** So is each panic of an implementation; the vault client has none. *)
Lemma deploy_panic h0 op h h' w :
  tracked h0 h w -> linked_panics (deploy d) (sys_env reply) op h h' ->
  exists w', cred_panics op w w' /\ tracked h0 h' w'.
Proof.
  intros Ht He. destruct (no_creds_op op) eqn:Eop.
  - apply quiet_op_scrub in He as Hs; [|done].
    exists {| cw_heap := h'; cw_handed := cw_handed w |}. split; [|by eapply tracked_scrub].
    destruct Ht as [<- _]. destruct op; try done; split; (done || apply Hs).
  - destruct op; try done.
    + by destruct He as (r' & h1 & _ & ? & _).
    + apply (exec_embed _ _ (vault_env reply)) in He; [|done].
      by apply (wp_sound _ _ _ _ _ _ _ (DecryptCredentials_spec (vault_client d) open reply _ _ h)) in He
        as (r & ? & _).
Qed.

(** A service program that leaves all handed-out buffers wiped leaves, once deployed,
    nothing but wiped memory behind. *)
Lemma deployed_clean {A} (p : service A) h o h' :
  (forall w o w', all_wiped w -> pexec cred_env cred_panics p w o w' -> all_wiped w') ->
  exec (sys_env reply) (deployed d p) h o h' ->
  forall b bytes, buffers h !! b = None -> buffers h' !! b = Some bytes -> wiped bytes.
Proof.
  intros Hp He%exec_interp b bytes Hold Hb.
  destruct (exec_simulation _ _ cred_env cred_panics (tracked h) (deploy_step h) (deploy_panic h)
    p h o h' {| cw_heap := h; cw_handed := [] |}) as (w' & Hw & Ht); [|done|].
  { split; [done|]. intros b' bytes' E1 E2. simpl in E2. by pose proof (eq_trans (eq_sym E1) E2). }
  apply Hp in Hw as Hall; [|constructor]. destruct Ht as [Hh Ht].
  destruct (Ht b bytes Hold Hb) as [Hin|]; [|done].
  unfold all_wiped in Hall. rewrite Forall_forall in Hall.
  destruct (Hall b Hin) as (bytes' & Hl & Hw'). rewrite Hh in Hl.
  by pose proof (eq_trans (eq_sym Hb) Hl) as [= ->].
Qed.

(** C6: in the deployed system - the service linked with the vault client and the
    exchange client, for any answers of the exchange, the ledger, the portfolio engine,
    the cache and the database, and a vault that answers as documented ([VaultReplies]) - a
    request leaves no decoded plaintext behind, whether it is answered or ends in a panic of any
    of its parts: every byte array of decoded plaintext that was allocated in its course holds
    zeros only.  The bytes of response bodies and the strings parsed from them, which hold
    the base64 text of the plaintext, are not in the heap. *)
Theorem deployed_leaves_no_plaintext h h' :
  (exists fuel req out, exec (sys_env reply)
     (deployed d (ExecuteTrade fuel (pregao_server d) req)) h out h') \/
  (exists req out, exec (sys_env reply)
     (deployed d (SyncBrokerBalances (pregao_server d) req)) h out h') ->
  forall b bytes, buffers h !! b = None -> buffers h' !! b = Some bytes -> wiped bytes.
Proof.
  intros [(fuel & req & out & He)|(req & out & He)]; (eapply deployed_clean; [|exact He]).
  - intros w o w' Hw Hx. eapply ExecuteTrade_all_wiped; [|exact Hw|exact Hx].
    intros f [= <-]. apply ProcessFill_promise.
  - intros w o w' Hw Hx. by eapply SyncBrokerBalances_all_wiped.
Qed.
End Memory.

(** ** The wire *)

Section Wire.
Context `{GoUnicode} `{JsonUnicode} `{Hmac}.
Context (d : Deployment).

(** The text of an amount: four places, rounded half away from zero. *)
Definition amount_text (text : string) (x : Q) : Prop :=
  exists r, NewFromString text = Ok r /\ d_exp r = -4 /\
    rounds_half_away (x * p10 4) (d_value r).

(** The text of an exact number. *)
Definition exact_text (text : string) (x : Q) : Prop :=
  exists r, NewFromString text = Ok r /\ (dval r == x)%Q.

Lemma StringFixed_amount a x :
  in_i32 (d_exp a) -> (dval a == x)%Q -> amount_text (StringFixed a 4) x.
Proof.
  intros Ha Hx. exists (Round a 4). split; [by apply StringFixed_read|].
  destruct (Round_spec a 4 Ha ltac:(lia)) as [He Hr]. split; [done|]. by rewrite <- Hx.
Qed.

Lemma to_String_exact_text a : in_i32 (d_exp a) -> exact_text (to_String a) (dval a).
Proof. intros Ha. destruct (to_String_read a Ha) as (d' & Hd & He). by exists d'. Qed.

(** The clearing account of the tenant: created, or else looked up; its id is not empty. *)
Inductive account_resolved (tenantID : string) : list (event SysRes) -> string -> Prop :=
  | account_initialized id :
      id <> "" ->
      account_resolved tenantID
        [ev (ToLivro (Livro.RpcInitializeAccount {|
               Livro.ia_Account := Livro.broker_clearing tenantID;
               Livro.ia_AccountType := Livro.ACCOUNT_TYPE_CUSTOMER_WALLET;
               Livro.ia_AllowOverdraft := true |})) (Ok (Some (Some id)))] id
  | account_looked_up r id :
      (forall id', r <> Ok (Some (Some id')) \/ id' = "") -> id <> "" ->
      account_resolved tenantID
        [ev (ToLivro (Livro.RpcInitializeAccount {|
               Livro.ia_Account := Livro.broker_clearing tenantID;
               Livro.ia_AccountType := Livro.ACCOUNT_TYPE_CUSTOMER_WALLET;
               Livro.ia_AllowOverdraft := true |})) r;
         ev (ToLivro (Livro.RpcGetAccount (Livro.broker_clearing tenantID)))
           (Ok (Some (Some id)))] id.

(** What a settlement looks like on the wire. *)
Definition sync_on_wire (order : BrokerOrder) (event : FillEvent) (u : FillUpdate)
    (r : Ativos.SyncBrokerExecutionRequest) : Prop :=
  Ativos.sr_TenantId r = bo_TenantID order /\
  Ativos.sr_PortfolioId r = bo_PortfolioID order /\
  Ativos.sr_TradeIntentId r = uuid_String (bo_TradeIntentID order) /\
  Ativos.sr_Ticker r = bo_Symbol order /\
  (Ativos.sr_Action r = Ativos.SELL <-> EqualFold (bo_Side order) SideSell = true) /\
  exact_text (Ativos.sr_ExecutedShares r) (dval (fe_ExecutedQuantity event)) /\
  exact_text (Ativos.sr_ExecutedPrice r) (dval (fe_FillPrice event)) /\
  Ativos.sr_IdempotencyKey r = fill_key "sync-ativos-" order u.

Definition capture_on_wire (order : BrokerOrder) (event : FillEvent) (u : FillUpdate)
    (acc : string) (r : Livro.CaptureHoldRequest) : Prop :=
  Livro.chr_HoldId r =
    (if decide (bo_LivroHoldID order = EmptyString) then uuid_String (bo_TradeIntentID order)
     else bo_LivroHoldID order) /\
  amount_text (Livro.chr_Amount r)
    (dval (fe_ExecutedQuantity event) * dval (fe_FillPrice event)) /\
  Livro.chr_DestinationAccountId r = acc /\
  Livro.chr_IdempotencyKey r = fill_key "cap-" order u /\
  (Livro.chr_ReleaseRemainder r = true <-> fu_newStatus u = StatusFilled).

Definition credit_on_wire (order : BrokerOrder) (event : FillEvent) (u : FillUpdate)
    (r : Livro.CreditRequest) : Prop :=
  Livro.crr_Scope r = {| Livro.sc_Type := "tenant"; Livro.sc_Id := bo_TenantID order |} /\
  Livro.crr_TargetAccountId r = bo_UserID order /\
  amount_text (Livro.crr_Amount r)
    (dval (fe_ExecutedQuantity event) * dval (fe_FillPrice event)) /\
  Livro.crr_Currency r = "USD" /\
  Livro.crr_Reference r = uuid_String (bo_TradeIntentID order) /\
  Livro.crr_IdempotencyKey r = fill_key "credit-" order u.

Definition settled_on_wire (order : BrokerOrder) (event : FillEvent) (u : FillUpdate)
    (tr : list (Exec.event SysRes)) : Prop :=
  if dp_ativos d then
    exists r, sync_on_wire order event u r /\ tr = [ev (ToAtivos (Ativos.RpcSync r)) (Ok tt)]
  else if dp_livro d then
    if EqualFold (bo_Side order) SideBuy then
      exists pre acc r, account_resolved (bo_TenantID order) pre acc /\
        capture_on_wire order event u acc r /\
        tr = (pre ++ [ev (ToLivro (Livro.RpcCaptureHold r)) (Ok tt)])%list
    else if EqualFold (bo_Side order) SideSell then
      exists r, credit_on_wire order event u r /\ tr = [ev (ToLivro (Livro.RpcCredit r)) (Ok tt)]
    else tr = []
  else tr = [].

(** ** One call on the wire *)

Lemma native_trace op tr r :
  is_repository op = true -> traces (native d op) tr (Some r) ->
  dp_pool d = true /\ tr = [ev (Native op) r].
Proof.
  intros Hop. unfold native. rewrite Hop. destruct (dp_pool d); simpl; [|by intros [_ ?]].
  by intros (r' & tr' & -> & -> & [= ->]).
Qed.

(** Without a pool, a repository panics before it calls anything. *)
Lemma native_panic op tr : traces (native d op) tr None -> tr = [].
Proof.
  unfold native. destruct (_ && _); [by intros [-> _]|]. by intros (r & tr' & _ & _ & ?).
Qed.

Lemma account_trace tenantID tr acc :
  traces (deploy d (LivroGetOrCreateBrokerAccount tenantID)) tr (Some (Ok acc)) ->
  account_resolved tenantID tr acc.
Proof.
  cbn [deploy]. unfold over_livro, Livro.GetOrCreateBrokerAccount.
  intros (r & tr1 & -> & Ht).
  assert (forall tr1, (forall id', r <> Ok (Some (Some id')) \/ id' = "") ->
    traces (over_livro (Livro.lookup_broker_account tenantID)) tr1 (Some (Ok acc)) ->
    account_resolved tenantID (ev (ToLivro (Livro.RpcInitializeAccount {|
               Livro.ia_Account := Livro.broker_clearing tenantID;
               Livro.ia_AccountType := Livro.ACCOUNT_TYPE_CUSTOMER_WALLET;
               Livro.ia_AllowOverdraft := true |})) r :: tr1) acc) as Hlookup.
  { intros tr2 Hr (l & tr3 & -> & Hl). destruct l as [[[id|]|]|e]; try by destruct Hl.
    simpl in Hl. destruct (String.eqb_spec id ""); [by destruct Hl|].
    destruct Hl as [-> [= ->]]. by constructor. }
  destruct r as [[[id|]|]|e]; simpl in Ht; try (apply Hlookup; [by left|exact Ht]).
  destruct (String.eqb_spec id "") as [->|].
  - apply Hlookup; [|exact Ht]. intros id'. destruct (decide (id' = "")); [by right|left].
    by intros [= <-].
  - destruct Ht as [-> [= ->]]. by constructor.
Qed.

Lemma sync_trace order event u sp tr :
  in_i32 (d_exp (fe_ExecutedQuantity event)) -> in_i32 (d_exp (fe_FillPrice event)) ->
  books order event u sp -> traces (deploy d (AtivosSyncBrokerExecution sp)) tr (Some (Ok tt)) ->
  exists r, sync_on_wire order event u r /\ tr = [ev (ToAtivos (Ativos.RpcSync r)) (Ok tt)].
Proof.
  intros Hq Hp (E1 & E2 & E3 & E4 & E5 & E6 & E7 & E8). cbn [deploy].
  intros ([[]|e] & tr1 & -> & Ht); [|by destruct Ht]. destruct Ht as [-> _].
  eexists. split; [|done]. unfold sync_on_wire. cbn. rewrite E6, E7.
  repeat (split; [done || by apply to_String_exact_text|]). done.
Qed.

Lemma capture_trace order event u acc cp tr :
  captures order event u acc cp -> traces (deploy d (LivroCaptureHold cp)) tr (Some (Ok tt)) ->
  exists r, capture_on_wire order event u acc r /\
    tr = [ev (ToLivro (Livro.RpcCaptureHold r)) (Ok tt)].
Proof.
  intros (E1 & E2 & E3 & E4 & E5 & E6). cbn [deploy].
  intros ([[]|e] & tr1 & -> & Ht); [|by destruct Ht]. destruct Ht as [-> _].
  eexists. split; [|done]. unfold capture_on_wire. cbn.
  repeat (split; [done || by apply StringFixed_amount|]). done.
Qed.

Lemma credit_trace order event u cp tr :
  credits order event u cp -> traces (deploy d (LivroCredit cp)) tr (Some (Ok tt)) ->
  exists r, credit_on_wire order event u r /\
    tr = [ev (ToLivro (Livro.RpcCredit r)) (Ok tt)].
Proof.
  intros (E1 & E2 & E3 & E4 & E5 & E6 & E7). cbn [deploy].
  intros ([[]|e] & tr1 & -> & Ht); [|by destruct Ht]. destruct Ht as [-> _].
  eexists. split; [|done]. unfold credit_on_wire. cbn. rewrite E1.
  repeat (split; [done || by apply StringFixed_amount|]). done.
Qed.

Lemma settlement_trace order event u tr tr' :
  in_i32 (d_exp (fe_ExecutedQuantity event)) -> in_i32 (d_exp (fe_FillPrice event)) ->
  settlement (NewFillProcessor (dp_livro d) (dp_ativos d)) order event u tr ->
  linked_trace (deploy d) tr tr' -> settled_on_wire order event u tr'.
Proof.
  intros Hq Hp. unfold settlement, settled_on_wire. cbn [NewFillProcessor has_ativosClient has_livroClient].
  destruct (dp_ativos d).
  { intros (sp & Hb & ->) (seg & rest & -> & Hs & ->%linked_trace_nil)%linked_trace_cons.
    rewrite app_nil_r. by eapply sync_trace. }
  destruct (dp_livro d); [|by intros -> ->%linked_trace_nil].
  destruct (EqualFold (bo_Side order) SideBuy).
  { intros (acc & cp & Hc & ->) (pre & rest & -> & Ha & Hl)%linked_trace_cons.
    apply linked_trace_cons in Hl as (seg & rest' & -> & Hs & ->%linked_trace_nil).
    rewrite app_nil_r. apply account_trace in Ha.
    destruct (capture_trace _ _ _ _ _ _ Hc Hs) as (r & Hr & ->). eauto 6. }
  destruct (EqualFold (bo_Side order) SideSell); [|by intros -> ->%linked_trace_nil].
  intros (cp & Hc & ->) (seg & rest & -> & Hs & ->%linked_trace_nil)%linked_trace_cons.
  rewrite app_nil_r. by eapply credit_trace.
Qed.

(** A settled fill, on the wire. *)
Definition settled_calls (event : FillEvent) (tr : list (Exec.event SysRes)) : Prop :=
  dp_pool d = true /\ valid_fill event /\
  exists order u wire,
    fill_update order event = Some u /\ settled_on_wire order event u wire /\
    tr = (ev (Native (OrdersGetByProviderOrderID (fe_Provider event) (fe_ProviderOrderID event)))
           (Ok order)
      :: wire ++
      [ev (Native (OrdersUpdateFill (bo_Provider order) (bo_ProviderOrderID order)
             (fu_newStatus u) (fu_newFilledQty u) (fu_newAvgPrice u))) (Ok tt)])%list.

Lemma settled_wire event tr tr' :
  in_i32 (d_exp (fe_ExecutedQuantity event)) -> in_i32 (d_exp (fe_FillPrice event)) ->
  valid_fill event -> settled_run (NewFillProcessor (dp_livro d) (dp_ativos d)) event tr ->
  linked_trace (deploy d) tr tr' -> settled_calls event tr'.
Proof.
  intros Hq Hp Hv (order & u & settled & Hu & Hs & ->) Hl.
  apply linked_trace_cons in Hl as (seg & rest & -> & S1 & Hl).
  apply native_trace in S1 as [Hpool ->]; [|done].
  apply linked_trace_app in Hl as (wire & last & -> & Hw & Hl).
  apply linked_trace_cons in Hl as (seg & rest & -> & S2 & ->%linked_trace_nil).
  apply native_trace in S2 as [_ ->]; [|done]. rewrite app_nil_r.
  split; [done|]. split; [done|]. exists order, u, wire. split; [done|].
  split; [by eapply settlement_trace|done].
Qed.

(** C11: a settled fill on the wire.  When the deployed fill processor reports success,
    the database was connected, the order was looked up by the provider's id, and the
    fill was settled as the deployment prescribes: to Ativos, where it is connected, one
    request with exactly the executed shares and price; otherwise to Livro, where it is
    connected, for a buy the request for the clearing account and the capture, for a sell the
    credit, of quantity times price rounded half away from zero at four places, the captured
    account not empty; and with neither, or for a side that is neither, nothing at all.  The
    fill was recorded last. *)
Theorem settlement_on_the_wire event tr :
  in_i32 (d_exp (fe_ExecutedQuantity event)) -> in_i32 (d_exp (fe_FillPrice event)) ->
  traces (deployed d (fill_processor d event)) tr (Some (Ok tt)) -> settled_calls event tr.
Proof.
  intros Hq Hp (tr1 & [Hv Ht]%ProcessFill_settled & Hl)%traces_interp. by eapply settled_wire.
Qed.

(** ** Without a database *)

Lemma linked_needs_pool tr tr' :
  linked_trace (deploy d) tr tr' ->
  Exists (fun e => is_repository (ev_op e) = true) tr -> dp_pool d = true.
Proof.
  induction 1 as [|op r tr seg tr' Hs Hl IH]; [by intros ?%Exists_nil|].
  intros [Hop|?]%Exists_cons; [|by apply IH]. simpl in Hop.
  destruct op; try done; by apply native_trace in Hs as [? _].
Qed.

(** In degraded mode - the process keeps running when the database cannot be reached - no
    valid request for a trade or for a reconciliation is ever answered: the nil
    repository is called, and the panic ends the process, for the gRPC server recovers
    none. *)
Theorem degraded_requests_panic tr :
  dp_pool d = false ->
  (forall fuel req out,
     traces (deployed d (ExecuteTrade (S fuel) (pregao_server d) req)) tr (Some out) ->
     exists e, validate_trade req = Err e /\ out = Err e) /\
  (forall req out,
     traces (deployed d (SyncBrokerBalances (pregao_server d) req)) tr (Some out) ->
     blank (sb_TenantId req) = true).
Proof.
  intros Hd. split.
  - intros fuel req out (tr1 & Ht & Hl)%traces_interp. unfold ExecuteTrade in Ht.
    destruct (validate_trade req) as [[intent qty]|e]; [exfalso|destruct Ht as [_ [= ->]]; eauto].
    assert (dp_pool d = true); [|congruence]. apply (linked_needs_pool _ _ Hl).
    destruct Ht as (id & tr2 & -> & Ht). right.
    cbn [bind] in Ht.
    apply traces_bind in Ht as [(tr3 & tr4 & [o res] & -> & Hr & _)|[_ ?]]; [|done].
    apply Exists_app. left. destruct Hr as (now & tr5 & -> & Hr). right.
    destruct Hr as (r & tr6 & -> & _). by left.
  - intros req out (tr1 & Ht & Hl)%traces_interp. unfold SyncBrokerBalances in Ht.
    destruct (blank (sb_TenantId req)); [done|exfalso].
    assert (dp_pool d = true); [|congruence]. apply (linked_needs_pool _ _ Hl).
    destruct Ht as (r & tr2 & -> & _). by left.
Qed.
End Wire.
