(* ===== verification/TradeWire.v ===== *)
(** * A trade on the wires

    [ExecuteTrade] linked with the exchange client: what one request of the service's
    user makes the exchange see, and what the user is told about it. *)

From stdpp Require Import base tactics list strings gmap.
From Stdlib Require Import ZArith QArith Lia.
From S2P Require Import Prelude Exec Link GoStrings Uuid Broker Json Http Decimal Vault Db Clients.
From S2P Require Import Binance BinanceSpec Cache Config Effects Worker Service.
From S2P Require Import TradeProtocol TradeTheorems CredsSafety Startup System SystemSpec.

#[local] Open Scope string_scope.
#[local] Open Scope Z_scope.

(** ** The wires *)

(** The calls of a run that went to the runtime and the database, and to the exchange. *)
Definition native_call (e : event SysRes) : option (event Res) :=
  match ev_op e as op return SysRes op -> option (event Res) with
  | Native op => fun r => Some (ev op r)
  | _ => fun _ => None
  end (ev_res e).

Definition exchange_call (e : event SysRes) : option (event HttpRes) :=
  match ev_op e as op return SysRes op -> option (event HttpRes) with
  | ToExchange op => fun r => Some (ev op r)
  | _ => fun _ => None
  end (ev_res e).

Definition native_calls (tr : list (event SysRes)) : list (event Res) := omap native_call tr.

(** What was sent to the exchange. *)
Definition exchanged (tr : list (event SysRes)) : list (event HttpRes) :=
  List.filter (fun v => is_exchange (ev_op v)) (omap exchange_call tr).

Lemma native_calls_app tr1 tr2 : native_calls (tr1 ++ tr2) = (native_calls tr1 ++ native_calls tr2)%list.
Proof. apply omap_app. Qed.

Lemma exchanged_app tr1 tr2 : exchanged (tr1 ++ tr2) = (exchanged tr1 ++ exchanged tr2)%list.
Proof. unfold exchanged. by rewrite omap_app, List.filter_app. Qed.

Definition not_exchange (op : SysOp) : bool :=
  match op with ToExchange _ => false | _ => true end.

Lemma not_exchanged tr :
  Forall (fun v => not_exchange (ev_op v) = true) tr -> exchanged tr = [].
Proof.
  induction 1 as [|[op r] tr Hop _ IH]; [done|].
  change (exchanged (ev op r :: tr)) with (exchanged ([ev op r] ++ tr)).
  rewrite exchanged_app, IH. by destruct op.
Qed.

(** ** A request of the service, call by call *)

Definition is_broker (op : Op) : bool :=
  match op with
  | BrokerGetBookTickers _ | BrokerValidateSymbols _
  | BrokerPlaceMarketOrder _ _ | BrokerGetAccountBalances _ => true
  | _ => false
  end.

(** The order a phase is about. *)
Definition order_of (ph : TradePhase) : option BrokerOrder :=
  match ph with
  | Held o | Failing o _ | Accepted o _ | Recorded o _ | Released o _ | Dying o => Some o
  | Idle | Ended _ | Replaying _ | Dead => None
  end.

Lemma split_at {A} (f : A -> bool) l :
  Forall (fun x => f x = false) l \/ exists l1 x l2, l = (l1 ++ x :: l2)%list /\ f x = true.
Proof.
  induction l as [|x l [IH|(l1 & y & l2 & -> & Hy)]]; [by left|..].
  - destruct (f x) eqn:E; [right; by exists [], x, l|left; by constructor].
  - right. by exists (x :: l1), y, l2.
Qed.

Lemma count_none {A} (f : A -> bool) tr : count f tr = 0%nat -> Forall (fun v => f v = false) tr.
Proof.
  induction tr as [|v tr IH]; [constructor|]. unfold count. rewrite filter_cons.
  destruct (decide (f v = true)) as [|Hn]; [done|]. intros Hc. constructor; [by apply not_true_is_false|].
  by apply IH.
Qed.

Lemma count_some {A} (f : A -> bool) tr : count f tr <> 0%nat -> Exists (fun v => f v = true) tr.
Proof.
  intros Hc. destruct (split_at f tr) as [Hn|(l1 & x & l2 & -> & Hx)].
  - exfalso. apply Hc. clear Hc. induction Hn as [|v tr Hv _ IH]; [done|]. unfold count in *.
    by rewrite filter_cons_False by congruence.
  - apply Exists_app. right. by constructor.
Qed.

Section Request.
Context `{GoUnicode}.
Context (s : PregaoServer) (req : ExecuteTradeRequest).

(** The reserved order carries the data of the request. *)
Lemma follow_order tr ph o :
  follow_run (trade_protocol s req) Idle tr = Some ph ->
  answered (trade_protocol s req) (answers_in tr) -> order_of ph = Some o -> order_for req o = true.
Proof.
  revert ph o. induction tr as [|[[op r]|op] tr IH] using rev_ind; intros ph o; [by intros [= <-]|..];
    rewrite follow_run_app, answers_in_app;
    (destruct (follow_run (trade_protocol s req) Idle tr) as [ph0|]; [|done]);
    intros Hf [Ha Hr]%Forall_app; simpl in Hf;
    (destruct (trade_permits s req op ph0) eqn:Hp; [|done]); injection Hf as <-;
    specialize (IH ph0); intros Ho.
  - destruct op, ph0; try discriminate; simpl in *; try (by eapply IH);
      try (by unfold after_lookup in Ho; repeat case_match).
    + apply Forall_singleton in Hr as (fresh & now & Hr). simpl in Hr.
      destruct r as [o1 [[|]|e]]; try done. injection Ho as <-. simpl in Hr. subst o1.
      by apply order_for_prepare.
    + destruct r; by eapply IH.
    + destruct r; by eapply IH.
    + destruct r; by eapply IH.
  - destruct op, ph0; try discriminate; simpl in *; by eapply IH.
Qed.

(** The only call of the broker is the one that places the order. *)
Lemma follow_ops tr ph :
  follow_run (trade_protocol s req) Idle tr = Some ph ->
  Forall (fun v => is_broker (call_op v) = true -> placed v = true) tr.
Proof.
  revert ph. induction tr as [|[[op r]|op] tr IH] using rev_ind; intros ph; [constructor|..];
    rewrite follow_run_app;
    (destruct (follow_run (trade_protocol s req) Idle tr) as [ph0|]; [|done]); simpl;
    (destruct (trade_permits s req op ph0) eqn:Hp; [|done]); intros _;
    (apply Forall_app; split; [by eapply IH|]; constructor; [|constructor]; by destruct op, ph0).
Qed.

(** A failing request ends with the code it failed with, or unwinds. *)
Definition failed (o : BrokerOrder) (c : Code) (ph : TradePhase) : Prop :=
  ph = Failing o c \/ ph = Released o c \/ ph = Dying o \/ ph = Dead.

Lemma follow_failing o c tr ph0 ph :
  failed o c ph0 -> follow_run (trade_protocol s req) ph0 tr = Some ph -> failed o c ph.
Proof.
  revert ph0. induction tr as [|[[op r]|op] tr IH]; intros ph0 H0; simpl; [by intros [= <-]|..];
    (destruct (trade_permits s req op ph0) eqn:Hp; [|done]); apply IH; unfold failed in *;
    destruct H0 as [->|[->|[->| ->]]]; destruct op; try done; simpl; auto.
Qed.

Lemma follow_dying o tr ph0 ph :
  ph0 = Dying o \/ ph0 = Dead -> follow_run (trade_protocol s req) ph0 tr = Some ph ->
  ph = Dying o \/ ph = Dead.
Proof.
  revert ph0. induction tr as [|[[op r]|op] tr IH]; intros ph0 H0; simpl; [by intros [= <-]|..];
    (destruct (trade_permits s req op ph0) eqn:Hp; [|done]); apply IH;
    destruct H0 as [->| ->]; destruct op; try done; simpl; auto.
Qed.
End Request.

(** ** The linked run *)

Definition to_repository (v : event Res) : bool := is_repository (ev_op v).

Lemma Exists_filter {A} (P : A -> Prop) (f : A -> bool) l :
  (forall x, P x -> f x = true) -> Exists P l <-> Exists P (List.filter f l).
Proof.
  intros Hf. rewrite !Exists_exists. split; intros (x & Hin & Hx); exists x; (split; [|done]);
    rewrite list_elem_of_In in *; [apply filter_In|apply filter_In in Hin as [? _]]; auto.
Qed.

Section Linked.
Context `{GoUnicode} `{JsonUnicode} `{Hmac}.
Context (d : Deployment).

(** Calls of the system that are no calls of a repository. *)
Definition no_repository (op : SysOp) : bool :=
  match op with Native op => negb (is_repository op) | _ => true end.

Lemma no_repository_calls tr :
  Forall (fun v => no_repository (ev_op v) = true) tr ->
  List.filter to_repository (native_calls tr) = [].
Proof.
  induction 1 as [|[op r] tr Hop _ IH]; [done|]. unfold native_calls in *.
  destruct op as [op| | | | |]; simpl in *; try done. unfold to_repository at 1. simpl.
  by apply negb_true_iff in Hop as ->.
Qed.

Lemma native_calls_only (ok : SysOp -> bool) op :
  ok (Native op) = true -> calls_only ok (native d op).
Proof. intros Hok. unfold native. by destruct (_ && _); repeat split. Qed.

Lemma deploy_calls_only (ok : SysOp -> bool) op :
  ok (Native op) = true ->
  (forall o, ok (ToVault o) = true) -> (forall o, ok (ToRedis o) = true) ->
  (forall r, ok (ToLivro r) = true) -> (forall r, ok (ToAtivos r) = true) ->
  (forall o, is_broker op = true -> ok (ToExchange o) = true) ->
  calls_only ok (deploy d op).
Proof.
  intros Hn Hv Hr Hl Ha Hx.
  destruct op; cbn [deploy];
    (by apply native_calls_only) || by apply calls_only_embed, calls_only_all; auto.
Qed.

(** The repositories are called as the service calls them. *)
Lemma implements_repository c seg :
  implements (deploy d) c seg ->
  List.filter to_repository (native_calls seg) = List.filter to_repository (answers_in [c]).
Proof.
  intros Hs. destruct (is_repository (call_op c)) eqn:Eop.
  - destruct c as [[op r]|op]; simpl in *.
    + assert (traces (native d op) seg (Some r)) as Hn by by destruct op.
      by apply native_trace in Hn as [_ ->].
    + assert (traces (native d op) seg None) as Hn by by destruct op.
      by rewrite (native_panic _ _ _ Hn).
  - transitivity (@nil (event Res)).
    + apply no_repository_calls. destruct c as [[op r]|op]; simpl in *;
        (eapply traces_calls_only; [|exact Hs]; apply deploy_calls_only; try done; simpl; by rewrite Eop).
    + destruct c as [[op r]|op]; [|done]. simpl in *. unfold to_repository. simpl. by rewrite Eop.
Qed.

Lemma linked_repositories tr tr' :
  linked_run (deploy d) tr tr' ->
  List.filter to_repository (native_calls tr') = List.filter to_repository (answers_in tr).
Proof.
  revert tr'. induction tr as [|c tr IH]; intros tr' Hl; [by inversion Hl|].
  apply linked_run_cons in Hl as (seg & rest & -> & Hs & Hl).
  change (c :: tr) with ([c] ++ tr)%list. rewrite answers_in_app, native_calls_app, !List.filter_app.
  by rewrite (IH _ Hl), (implements_repository _ _ Hs).
Qed.

Lemma linked_exists (P : event Res -> Prop) tr tr' :
  (forall v, P v -> to_repository v = true) -> linked_run (deploy d) tr tr' ->
  Exists P (answers_in tr) -> Exists P (native_calls tr').
Proof.
  intros HP Hl He. apply (Exists_filter P to_repository _ HP) in He.
  apply (Exists_filter P to_repository _ HP). by rewrite (linked_repositories _ _ Hl).
Qed.

Lemma linked_answered s req tr tr' :
  linked_run (deploy d) tr tr' ->
  answered (trade_protocol s req) (native_calls tr') ->
  answered (trade_protocol s req) (answers_in tr).
Proof.
  intros Hl%linked_repositories Ha. unfold answered in *. rewrite Forall_forall in *.
  intros v Hv. destruct (to_repository v) eqn:Er.
  - apply Ha. assert (v ∈ List.filter to_repository (answers_in tr)) as Hin.
    { apply list_elem_of_In, filter_In. by rewrite <- list_elem_of_In. }
    rewrite <- Hl in Hin. apply list_elem_of_In, filter_In in Hin as [Hin _].
    by apply list_elem_of_In.
  - destruct v as [op r]. by destruct op.
Qed.

(** Calls that are not the broker's send nothing to the exchange. *)
Lemma linked_quiet tr tr' :
  linked_run (deploy d) tr tr' -> Forall (fun c => is_broker (call_op c) = false) tr ->
  exchanged tr' = [].
Proof.
  revert tr'. induction tr as [|c tr IH]; intros tr' Hl; [by inversion Hl|].
  apply linked_run_cons in Hl as (seg & rest & -> & Hs & Hl). intros [Hop Hr]%Forall_cons_1.
  rewrite exchanged_app, (IH _ Hl Hr), app_nil_r. apply not_exchanged.
  destruct c as [[op r]|op]; simpl in *;
    (eapply traces_calls_only; [|exact Hs]; apply deploy_calls_only; try done; congruence).
Qed.

(** One order of the broker, on the wire. *)
Definition to_exchange (v : event HttpRes) : event SysRes :=
  ev (Res := SysRes) (ToExchange (ev_op v)) (ev_res v).

Lemma embedded_exchange tr tr' :
  Forall2 (renamed (Res1 := HttpRes) (Res2 := SysRes) ToExchange (fun _ r => r)) tr tr' ->
  tr' = map to_exchange tr.
Proof.
  induction 1 as [|e e' tr tr' (op & r & -> & ->) Ht IH]; [done|]. simpl. by rewrite <- IH.
Qed.

Lemma exchanged_embed tr :
  exchanged (map to_exchange tr) = List.filter (fun v => is_exchange (ev_op v)) tr.
Proof.
  induction tr as [|[op r] tr IH]; [done|].
  change (map to_exchange (ev op r :: tr)) with ([to_exchange (ev op r)] ++ map to_exchange tr)%list.
  rewrite exchanged_app, IH. unfold exchanged, to_exchange. simpl. by destruct (is_exchange op).
Qed.

Lemma place_on_wire creds mo seg out :
  traces (deploy d (BrokerPlaceMarketOrder creds mo)) seg out ->
  (exchanged seg = [] /\ forall r, out <> Some (Ok r)) \/
  exists key secret now r answer pre post,
    order_on_wire (broker_client d) mo key secret now r /\ out = order_outcome answer /\
    exchanged pre = [] /\ exchanged post = [] /\
    ev (ToExchange (CredsLoad creds)) (key, secret) ∈ pre /\
    seg = (pre ++ ev (ToExchange (DoRequest OrderBody r)) answer :: post)%list.
Proof.
  cbn [deploy]. unfold over_exchange. intros (tr & Ht & ->%embedded_exchange)%traces_embed.
  apply PlaceMarketOrder_cases in Ht as [[Hno Hres]|(key & secret & now & r & answer & Hw & Ho & ->)].
  - left. split; [|done]. rewrite exchanged_embed. clear Hres.
    induction Hno as [|v tr Hv _ IH]; [done|]. simpl. by apply negb_true_iff in Hv as ->.
  - right. exists key, secret, now, r, answer,
      [ev (ToExchange (CredsLoad creds)) (key, secret); ev (ToExchange UnixMilli) now;
       ev (ToExchange (NewRequest r)) (Ok tt)],
      (map to_exchange (match answer with Ok _ => [ev (Res := HttpRes) (CloseBody OrderBody) tt] | Err _ => [] end
        ++ [ev (CredsWipe creds) tt])%list).
    do 3 (split; [done|]). split; [by destruct answer|]. split; [left|by destruct answer].
Qed.
End Linked.

(** ** The trade *)

Section Trade.
Context `{GoUnicode} `{JsonUnicode} `{Hmac}.
Context (d : Deployment).

#[local] Instance deployed_server : ServerOk (pregao_server d).
Proof. intros f [= <-]. apply ProcessFill_promise. Qed.

(** The market order a valid request becomes. *)
Definition market_order_of (req : ExecuteTradeRequest) (qty : Decimal) : MarketOrderRequest := {|
  mo_Symbol := ToUpper (et_Symbol req);
  mo_Side := if et_Side req =? 1 then "SELL" else "BUY";
  mo_Quantity := qty;
  mo_ClientOrderID := et_TradeIntentId req |}.

Lemma order_matches_of req mo o :
  order_for req o = true -> order_matches req mo o = true ->
  exists intent qty, valid_trade req = Some (intent, qty) /\ mo = market_order_of req qty.
Proof.
  intros (intent & qty & Hd)%order_for_data Hm. exists intent, qty.
  split; [by apply (td_valid _ _ _ _ Hd)|]. unfold order_matches in Hm.
  rewrite !andb_true_iff, bool_decide_eq_true, !String.eqb_eq in Hm. destruct_and?.
  destruct mo; simpl in *; subst. unfold market_order_of.
  by rewrite (td_symbol _ _ _ _ Hd), (td_side _ _ _ _ Hd), (td_target _ _ _ _ Hd).
Qed.

(** A call and how it ended; the phase an order leaves behind. *)
Definition ended (op : Op) (r : option (Res op)) : call_event Res :=
  match r with Some r => Answered (ev op r) | None => Panicked op end.

Definition after_order (o : BrokerOrder) (r : option (Result OrderResult)) : TradePhase :=
  match r with
  | Some (Ok res) => Accepted o res
  | Some (Err _) => Failing o Unavailable
  | None => Dying o
  end.

Lemma placed_ended c :
  placed c = true -> exists creds mo r, c = ended (BrokerPlaceMarketOrder creds mo) r.
Proof.
  destruct c as [[op r]|op]; destruct op; try done; intros _;
    [by exists creds, req, (Some r)|by exists creds, req, None].
Qed.

(** The phase the run is in after the order: the call was permitted, with an order of the
    request. *)
Lemma order_step req creds mo r ph0 post ph :
  follow_run (trade_protocol (pregao_server d) req) ph0
    (ended (BrokerPlaceMarketOrder creds mo) r :: post) = Some ph ->
  exists o, ph0 = Held o /\ order_matches req mo o = true /\
    follow_run (trade_protocol (pregao_server d) req) (after_order o r) post = Some ph.
Proof.
  destruct r as [r|], ph0; try done; simpl;
    (destruct (order_matches req mo o) eqn:Em; [|done]); intros Hf; exists o; [|done].
  by destruct r.
Qed.

(** A run of the service splits at the order it places, if it places one. *)
Lemma placement req tr ph :
  follow_run (trade_protocol (pregao_server d) req) Idle tr = Some ph ->
  answered (trade_protocol (pregao_server d) req) (answers_in tr) ->
  Forall (fun c => is_broker (call_op c) = false) tr \/
  exists pre creds qty intent r post o,
    let mo := market_order_of req qty in
    tr = (pre ++ ended (BrokerPlaceMarketOrder creds mo) r :: post)%list /\
    valid_trade req = Some (intent, qty) /\
    Forall (fun c => is_broker (call_op c) = false) pre /\
    Forall (fun c => is_broker (call_op c) = false) post /\
    Exists (fun c => reserved c = true) pre /\
    follow_run (trade_protocol (pregao_server d) req) (after_order o r) post = Some ph.
Proof.
  intros Hf Ha. pose proof (follow_ops _ _ _ _ Hf) as Hops. pose proof (follow_tallies _ _ _ _ Hf) as Ht.
  assert (forall l, Forall (fun c => is_broker (call_op c) = true -> placed c = true) l ->
    Forall (fun c => placed c = false) l -> Forall (fun c => is_broker (call_op c) = false) l) as Hnone.
  { intros l Hl Hn. rewrite Forall_forall in *. intros v Hv. apply not_true_is_false.
    intros Hb%Hl; [|done]. rewrite Hn in Hb; done. }
  destruct (split_at placed tr) as [Hn|(pre & c & post & -> & Hc)]; [left; by apply Hnone|right].
  destruct (placed_ended _ Hc) as (creds & mo & r & ->).
  apply Forall_app in Hops as [Hpre [_ Hpost]%Forall_cons_1].
  rewrite answers_in_app in Ha. apply Forall_app in Ha as [Ha _]. rewrite follow_run_app in Hf.
  destruct (follow_run (trade_protocol (pregao_server d) req) Idle pre) as [ph0|] eqn:Ef; [|done].
  pose proof (follow_tallies _ _ _ _ Ef) as Ht0. apply order_step in Hf as (o & -> & Em & Hf).
  destruct (order_matches_of req mo o) as (intent & qty & Hvt & ->); [by eapply follow_order|done|].
  assert (count placed pre = 0 /\ count placed post = 0)%nat as [C1 C2].
  { assert (count placed (pre ++ ended (BrokerPlaceMarketOrder creds (market_order_of req qty)) r :: post)
      <= 1)%nat as Hle by (unfold tallies in Ht; destruct ph; lia).
    rewrite count_app in Hle. change (count placed (?e :: post)) with (count placed ([e] ++ post)) in Hle.
    rewrite count_app, count_one, Hc in Hle. lia. }
  exists pre, creds, qty, intent, r, post, o. split; [done|]. split; [done|].
  split; [by apply Hnone, count_none|]. split; [by apply Hnone, count_none|].
  split; [apply count_some; destruct Ht0 as [-> _]; done|exact Hf].
Qed.

(** What the user is told about an order that was sent. *)
Definition order_answered (answer : Result (Response OrderResponse))
    (resp : Result ExecuteTradeResponse) : Prop :=
  match order_outcome answer with
  | Some (Ok res) => resp = Ok {| er_ProviderOrderId := or_ProviderOrderID res;
                                  er_Status := answered_status res |}
  | Some (Err _) => exists msg, resp = Err (ErrStatus Unavailable msg)
  | None => False
  end.

(** What the user is told when nothing was sent: an error, or an order on record. *)
Definition nothing_sent (tr : list (event SysRes)) (out : option (Result ExecuteTradeResponse)) : Prop :=
  exchanged tr = [] /\
  forall a, out = Some (Ok a) ->
    exists e, Exists (fun v => found_order v = Some e) (native_calls tr) /\
      bo_Status e <> StatusPending /\
      a = {| er_ProviderOrderId := bo_ProviderOrderID e; er_Status := bo_Status e |}.

Lemma mid_elem {A} (l1 : list A) x l2 : x ∈ (l1 ++ x :: l2)%list.
Proof. apply elem_of_app. right. left. Qed.

Lemma unplaced_acks tr : Forall (fun c => is_broker (call_op c) = false) tr -> acks_in tr = [].
Proof.
  induction 1 as [|[[op r]|op] tr Hop _ IH]; [done|..]; [|exact IH].
  change (Answered (ev op r) :: tr) with ([Answered (ev op r)] ++ tr)%list. rewrite acks_in_app, IH.
  by destruct op.
Qed.

Lemma Exists_answered (f : event Res -> bool) (g : call_event Res -> bool) tr :
  (forall c, g c = match c with Answered e => f e | Panicked _ => false end) ->
  Exists (fun c => g c = true) tr -> Exists (fun v => f v = true) (answers_in tr).
Proof.
  intros Hg. induction 1 as [c tr Hc|c tr _ IH].
  - rewrite Hg in Hc. destruct c; [|done]. by left.
  - destruct c; [by right|done].
Qed.

(** The end of a request whose order was placed. *)
Lemma placed_ends req tr ph creds mo o r post resp :
  tallies tr ph -> trade_ends req (Some resp) ph ->
  ended (BrokerPlaceMarketOrder creds mo) r ∈ tr ->
  follow_run (trade_protocol (pregao_server d) req) (after_order o r) post = Some ph ->
  match r with
  | Some (Ok res) => resp = Ok {| er_ProviderOrderId := or_ProviderOrderID res;
                                  er_Status := answered_status res |}
  | Some (Err _) => exists msg, resp = Err (ErrStatus Unavailable msg)
  | None => False
  end.
Proof.
  intros Ht He Hin Hf. destruct r as [[res|e]|]; simpl in Hf.
  - assert (res ∈ acks_in tr) as Hacks.
    { apply list_elem_of_omap. exists (ev (BrokerPlaceMarketOrder creds mo) (Ok res)).
      split; [|done]. apply list_elem_of_omap. by eexists. }
    unfold tallies in Ht. destruct ph as [|c|e|o'|o' c|o' r|o' r|o' c|o'|]; simpl in He; try done;
      destruct_and?; repeat match goal with E : acks_in _ = _ |- _ => rewrite E in Hacks; clear E end;
      try (by apply elem_of_nil in Hacks).
    apply list_elem_of_singleton in Hacks as ->. by destruct He as [|[= ->]].
  - eapply (follow_failing _ _ o Unavailable) in Hf as [->|[->|[->| ->]]]; [..|by left]; try done.
    destruct He as [msg [= ->]]. eauto.
  - assert (ph = Dying o \/ ph = Dead) as [->| ->]; [|done..].
    eapply (follow_dying _ _ o); [|exact Hf]. by left.
Qed.

(** C10: a trade on the wire.  A run of a deployed [ExecuteTrade], whether it answers or
    panics, has sent the exchange nothing at all, and if it answers it does so with an
    error or with the id and status of an order, not pending, that it read from the table;
    or it has sent it exactly one request, after
    it had reserved the intent: a POST to the configured address, signed with the loaded
    credentials, whose query a server splits into exactly the symbol and side of the
    valid request, its quantity cut to the step size and positive, and its trade intent as
    the client order id.  The answer, if there is one, is then that of the exchange: its
    order id and status, or Unavailable. *)
Theorem trade_on_the_wire fuel req tr out :
  traces (deployed d (ExecuteTrade fuel (pregao_server d) req)) tr out ->
  answered (trade_protocol (pregao_server d) req) (native_calls tr) ->
  nothing_sent tr out \/
  exists pre post intent qty creds key secret now r answer,
    tr = (pre ++ ev (ToExchange (DoRequest OrderBody r)) answer :: post)%list /\
    exchanged pre = [] /\ exchanged post = [] /\
    Exists (fun v => is_reserved v = true) (native_calls pre) /\
    valid_trade req = Some (intent, qty) /\
    ev (ToExchange (CredsLoad creds)) (key, secret) ∈ pre /\
    order_on_wire (broker_client d) (market_order_of req qty) key secret now r /\
    forall resp, out = Some resp -> order_answered answer resp.
Proof.
  intros (tr0 & Ht & Hl)%runs_interp Ha%(linked_answered _ _ _ _ _ Hl).
  destruct (pwp_follow (trade_protocol (pregao_server d) req) _ (trade_ends req) Idle _ _
    (ExecuteTrade_keeps _ req fuel) Ht Ha) as (ph & Hf & He).
  pose proof (follow_tallies _ _ _ _ Hf) as Htal.
  destruct (placement _ _ _ Hf Ha)
    as [Hn|(pre & creds & qty & intent & r & post & o & -> & Hvt & Hpre & Hpost & Hres & Hfp)].
  { left. split; [by eapply linked_quiet|]. intros a ->.
    destruct (replayed_answer _ _ _ _ Htal He (unplaced_acks _ Hn)) as (e & Hx & Hp & ->).
    exists e. split; [|done]. eapply linked_exists; [|exact Hl|exact Hx].
    intros [op r]. by destruct op. }
  apply linked_run_app in Hl as (s1 & rest & -> & Hl1 & Hl).
  apply linked_run_cons in Hl as (seg & s2 & -> & Hs & Hl2).
  assert (traces (deploy d (BrokerPlaceMarketOrder creds (market_order_of req qty))) seg r) as Hseg
    by by destruct r.
  apply (linked_quiet _ _ _ Hl1) in Hpre. apply (linked_quiet _ _ _ Hl2) in Hpost.
  assert (forall resp, out = Some resp -> _) as Hend
    by (intros resp ->; exact (placed_ends _ _ _ _ _ _ _ _ _ Htal He (mid_elem _ _ _) Hfp)).
  apply place_on_wire in Hseg
    as [[Hno Hr]|(key & secret & now & hr & answer & p1 & p2 & Hw & Ho & E1 & E2 & Hin & ->)].
  - left. split; [by rewrite !exchanged_app, Hpre, Hno, Hpost|]. intros a Ea.
    specialize (Hend _ Ea). destruct r as [[res|e]|]; [by destruct (Hr res)| |done].
    by destruct Hend.
  - right. exists (s1 ++ p1)%list, (p2 ++ s2)%list, intent, qty, creds, key, secret, now, hr, answer.
    split; [by rewrite <- !app_assoc|]. rewrite !exchanged_app, Hpre, Hpost, E1, E2.
    do 2 (split; [done|]). split.
    { rewrite native_calls_app. apply Exists_app. left. eapply linked_exists; [|exact Hl1|].
      - intros [op ?]. by destruct op.
      - eapply Exists_answered; [|exact Hres]. by intros []. }
    split; [done|]. split; [set_solver|]. split; [done|]. intros resp Er.
    unfold order_answered. rewrite <- Ho. specialize (Hend _ Er). by destruct r as [[]|].
Qed.
End Trade.
