(* ===== verification/QuotesWire.v ===== *)
(** * Quotes through an outage

    [GetQuotes] linked with the cache and the exchange client, over a Redis store with
    expiry: what one request learns from the exchange, later requests are answered with
    when the exchange cannot be reached. *)

From stdpp Require Import base tactics list strings gmap.
From Stdlib Require Import ZArith QArith Lia.
From S2P Require Import Prelude Exec Link GoStrings Json Http Broker Decimal DecimalSpec DecimalText.
From S2P Require Redis.
From S2P Require Import RedisSpec Binance BinanceQueries Cache Config Effects Worker Service.
From S2P Require Import ServiceTheorems Startup System SystemSpec.

#[local] Open Scope string_scope.
#[local] Open Scope Z_scope.

(** ** The collaborators *)

Section Market.
Context `{GoUnicode}.

(** Redis executes its commands. *)
Definition redis_up (op : Redis.RedisOp) : RedisStore -> Redis.RedisRes op -> RedisStore -> Prop :=
  match op return RedisStore -> Redis.RedisRes op -> RedisStore -> Prop with
  | Redis.RMGet keys => fun w r w' => redis_env (Redis.RMGet keys) w r w' /\ is_ok r = true
  | Redis.RGet key => redis_env (Redis.RGet key)
  | Redis.RExec pipe => fun w r w' => redis_env (Redis.RExec pipe) w r w' /\ is_ok r = true
  end.

(** The exchange lists symbols in upper case - or, when it is down, answers nothing. *)
Definition listed (raw : RawBookTicker) : Prop := ToUpper (rb_Symbol raw) = rb_Symbol raw.

Definition decoded {B} (P : B -> Prop) (r : Result (Response B)) : Prop :=
  forall resp b, r = Ok resp -> rs_Body resp = Ok (Ok b) -> P b.

Definition exchange_answers (up : bool) (op : HttpOp) : HttpRes op -> Prop :=
  match op return HttpRes op -> Prop with
  | DoRequest k _ =>
      if up then
        match k return Result (Response (Body k)) -> Prop with
        | BookTickerBody => decoded listed
        | BookTickersBody => decoded (Forall listed)
        | _ => fun _ => True
        end
      else fun r => is_ok r = false
  | _ => fun _ => True
  end.

Definition exchange_env (up : bool) (op : HttpOp) (w : RedisStore) (r : HttpRes op) (w' : RedisStore)
    : Prop :=
  w' = w /\ exchange_answers up op r.

(** The wires of [GetQuotes]; nothing else touches the store. *)
Definition market_env (up : bool) (op : SysOp) : RedisStore -> SysRes op -> RedisStore -> Prop :=
  match op return RedisStore -> SysRes op -> RedisStore -> Prop with
  | ToRedis op => redis_up op
  | ToExchange op => exchange_env up op
  | _ => fun w _ w' => w' = w
  end.

(** ** The cache *)

Lemma redis_up_env op w r w' : redis_up op w r w' -> redis_env op w r w'.
Proof. by destruct op; [intros [? _]| |intros [? _]]. Qed.

Lemma exec_redis up {A} (p : Redis.redis A) w o w' :
  exec (market_env up) (over_redis p) w o w' -> exec redis_up p w o w'.
Proof. by apply exec_embed. Qed.

Lemma exec_up {A} (p : Redis.redis A) w o w' : exec redis_up p w o w' -> exec redis_env p w o w'.
Proof.
  revert w. induction p as [a|m|op k IH u _]; intros w; simpl; [done..|].
  intros (r & w1 & Hr%redis_up_env & He). eauto.
Qed.

Lemma cache_reads up p asked w hits misses e w' :
  exec (market_env up) (over_redis (Redis.GetQuotes p asked)) w (Some (hits, misses, e)) w' ->
  w' = w /\
  (forall s, hits !! s = if decide (s ∈ asked) then lookup_quote false w (freshKey p s) else None) /\
  misses = filter (fun s => lookup_quote false w (freshKey p s) = None) asked.
Proof.
  intros He%exec_redis. assert (e = None /\ w' = w) as [-> ->].
  { destruct asked as [|a asked]; [by destruct He as [[= _ _ ->] ->]|].
    destruct He as ([vals|err] & w1 & [[-> _] Hok] & He); [|done]. cbn [bind] in He.
    destruct (Redis.read_quotes _ _ _ _) as [[h m]|]; [|by destruct He].
    by destruct He as [[= _ _ ->] ->]. }
  split; [done|]. by apply (GetQuotes_reads p asked w hits misses w), exec_up.
Qed.

Lemma stale_reads up p asked w r w' :
  exec (market_env up) (over_redis (Redis.GetStaleQuotes p asked)) w (Some r) w' ->
  exists result, r = Ok result /\
    forall s, result !! s = if decide (s ∈ asked) then lookup_quote true w (staleKey p s) else None.
Proof.
  intros He%exec_redis. assert (exists result, r = Ok result) as [result ->].
  { destruct asked as [|a asked]; [destruct He as [[= ->] _]; eauto|].
    destruct He as ([vals|err] & w1 & [_ Hok] & He); [|done]. cbn [bind] in He.
    destruct (Redis.read_stale _ _ _) as [m|]; [|by destruct He]. destruct He as [[= ->] _]. eauto. }
  exists result. split; [done|]. by apply (GetStaleQuotes_reads p asked w result w'), exec_up.
Qed.

Lemma cache_writes up c p quotes ts w r w' :
  exec (market_env up) (over_redis (Redis.SetQuotes c p quotes ts)) w (Some r) w' ->
  exec redis_env (Redis.SetQuotes c p quotes ts) w (Some (Ok tt)) w'.
Proof.
  intros He%exec_redis. assert (r = Ok tt) as ->; [|by apply exec_up].
  destruct quotes as [|q quotes]; [by destruct He as [[= ->] _]|].
  destruct He as ([[]|err] & w1 & [_ Hok] & He); [|done]. by destruct He as [[= ->] _].
Qed.
End Market.

(** ** The exchange *)

Section Exchange.
Context `{GoUnicode} `{JsonUnicode} `{Hmac}.

Lemma ticker_of_spec sym raw t :
  ticker_of sym raw = Some t -> bt_Symbol t = sym /\ rb_Symbol raw = sym /\ d_exp (bt_MidPrice t) = -16.
Proof.
  unfold ticker_of, parseBookTicker.
  destruct (NewFromString (rb_BidPrice raw)), (NewFromString (rb_BidQty raw)),
    (NewFromString (rb_AskPrice raw)), (NewFromString (rb_AskQty raw)); try done.
  destruct (Div _ _) as [mid|] eqn:E; [|done]. apply Div_exp in E.
  case_decide as Hs; [|done]. intros [= <-]. done.
Qed.

(** Requests leave the store alone. *)
Lemma exchange_keeps up {A} (p : http A) w o w' : exec (exchange_env up) p w o w' -> w' = w.
Proof.
  revert w. induction p as [a|m|op k IH u _]; intros w; simpl; [by intros [_ ->]..|].
  intros (r & w1 & [-> _] & He). by eapply IH.
Qed.

(** What a ticker request brings: tickers of listed symbols, unless the exchange is down. *)
Lemma tickers_seen up c symbols w tickers w' :
  exec (exchange_env up) (GetBookTickers c symbols) w (Some (Ok tickers)) w' -> symbols <> [] ->
  up = true /\
  forall sym t, tickers !! sym = Some t ->
    bt_Symbol t = sym /\ ToUpper sym = sym /\ d_exp (bt_MidPrice t) = -16.
Proof.
  intros (tr & [[? _]|(query & raws & _ & Hr & Ht)]%GetBookTickers_trace & He)%exec_traces Hne; [done|].
  assert (up = true /\ Forall listed raws) as [-> Hl].
  { destruct Hr as [resp raw _ Hb|resp raws _ Hb];
      (destruct He as (w1 & _ & w2 & [_ Hans] & _); simpl in Hans; destruct up; [|done]);
      specialize (Hans _ _ eq_refl Hb); by repeat constructor. }
  split; [done|]. intros sym t. rewrite Ht. intros Hlast%last_Some_elem_of.
  apply list_elem_of_omap in Hlast as (raw & Hin & (E1 & <- & E3)%ticker_of_spec).
  rewrite Forall_forall in Hl. split; [done|]. split; [by apply Hl|done].
Qed.
End Exchange.

(** ** A quote and its life *)

Section Outage.
Context `{GoUnicode} `{JsonUnicode} `{Hmac}.
Context (d : Deployment).

Abbreviation quotes_at up req := (exec (market_env up) (deployed d (GetQuotes (pregao_server d) req))).

(** Both copies of a quote, as [SetQuotes] left them at [now]. *)
Definition kept (w : RedisStore) (now : Z) (sym : string) (price : Decimal) (unix : Z) : Prop :=
  let doc := Redis.marshal_quote {| cq_Symbol := sym; cq_Price := price; cq_Timestamp := unix;
                                    cq_IsStaleCache := false |} in
  rd_data w !! freshKey "BINANCE" sym = Some (doc, now + Redis.freshTTL (quotes_cache d)) /\
  rd_data w !! staleKey "BINANCE" sym = Some (doc, now + Redis.staleTTL (quotes_cache d)).

Lemma mid_prices_distinct (tickers : gmap string BookTicker) :
  (forall sym t, tickers !! sym = Some t -> ToUpper sym = sym) ->
  NoDup (map (fun sp => ToUpper sp.1) (map_to_list (bt_MidPrice <$> tickers))).
Proof.
  intros Hup. assert (map (fun sp => ToUpper sp.1) (map_to_list (bt_MidPrice <$> tickers))
    = (map_to_list (bt_MidPrice <$> tickers)).*1) as ->; [|apply NoDup_fst_map_to_list].
  apply map_ext_Forall, Forall_forall. intros [sym price] Hin%elem_of_map_to_list. simpl.
  rewrite lookup_fmap in Hin. destruct (tickers !! sym) as [t|] eqn:E; [|done]. by eapply Hup.
Qed.

(** A quote that was not in the cache and is not of the fallback came from the exchange, and
    has been kept. *)
Lemma fresh_quote_kept up req w m w' sym q :
  quotes_at up req w (Some (Ok m)) w' -> lookup_quote false w (freshKey "BINANCE" sym) = None ->
  m !! sym = Some q -> q_IsStaleCache q = false ->
  exists price unix, q = quote sym price unix false /\ in_i32 (d_exp price) /\
    kept w' (rd_now w) sym price unix.
Proof.
  intros (tr & (m' & [= <-] & [(_ & -> & _)|Hs])%GetQuotes_trace & He)%exec_linked Hnew Hm Hq;
    [by rewrite lookup_empty in Hm|].
  destruct Hs as (asked & hits & misses & e & rest & lookup & _ & _ & -> & Ha & Hl).
  destruct He as (w1 & Hc & He). apply (cache_reads up) in Hc as (-> & Hh & _). rewrite Hl in Hm.
  assert (forall stale, (cached stale <$> hits !! sym) = None) as Hnone.
  { intros stale. rewrite Hh, Hnew. by case_decide. }
  destruct Ha as [|misses tickers now r Hne|misses e1 stale Hne|misses e1 e2 Hne];
    try (by rewrite Hnone in Hm).
  - destruct He as (w1 & Ht & w2 & Hn & w3 & Hset & ->). simpl in Ht, Hset. unfold linked_env in *.
    apply exec_embed with (H1 := exchange_env up) in Ht; [|done].
    assert (w1 = w) as -> by (eapply exchange_keeps; exact Ht).
    assert (w2 = w) as -> by (by destruct Hn as (? & ? & -> & _ & ->)).
    destruct (tickers_seen _ _ _ _ _ _ Ht Hne) as [_ Hseen]. apply cache_writes in Hset.
    destruct (tickers !! sym) as [t|] eqn:Et; [|by rewrite Hnone in Hm]. injection Hm as <-.
    destruct (Hseen _ _ Et) as (Esym & _ & Eexp).
    exists (bt_MidPrice t), (time_Unix now). rewrite Esym. split; [done|].
    split; [rewrite Eexp; unfold in_i32, MinInt32, MaxInt32; lia|].
    eapply SetQuotes_stores; [done| |exact Hset|].
    + apply mid_prices_distinct. intros s t' Hs. by destruct (Hseen _ _ Hs) as (_ & ? & _).
    + apply elem_of_map_to_list. by rewrite lookup_fmap, Et.
  - destruct (stale !! sym); [injection Hm as <-; done|by rewrite Hnone in Hm].
Qed.

(** While the exchange is down, a kept quote is answered: from the fresh copy, then from the
    fallback, then not at all. *)
Lemma kept_quote_answered req w m w' now sym price price' unix :
  quotes_at false req w (Some (Ok m)) w' -> kept w now sym price unix ->
  NewFromString (to_String price) = Ok price' ->
  sym <> "" -> (exists y, y ∈ gq_Symbols req /\ sym = cleaned y) ->
  m !! sym =
    if rd_now w <? now + Redis.freshTTL (quotes_cache d) then Some (quote sym price' unix false)
    else if rd_now w <? now + Redis.staleTTL (quotes_cache d) then Some (quote sym price' unix true)
    else None.
Proof.
  intros (tr & (m' & [= <-] & [(Hno & _)|Hs])%GetQuotes_trace & He)%exec_linked [Kf Ks] Hread Hsym Hasked.
  { rewrite Hno in Hasked. destruct Hasked as (y & Hy%elem_of_nil & _). done. }
  destruct Hs as (asked & hits & misses & e & rest & lookup & _ & Hin & -> & Ha & Hl).
  destruct He as (w1 & Hc & He). apply (cache_reads false) in Hc as (-> & Hh & ->). rewrite Hl.
  pose proof (stored_lookup false _ _ _ _ _ _ _ _ Kf Hread) as Lf.
  pose proof (stored_lookup true _ _ _ _ _ _ _ _ Ks Hread) as Ls.
  specialize (Hh sym). rewrite decide_True, Lf in Hh by (apply Hin; auto).
  assert (sym ∈ filter (fun s => lookup_quote false w (freshKey "BINANCE" s) = None) asked <->
    rd_now w <? now + Redis.freshTTL (quotes_cache d) = false) as Hmiss.
  { rewrite list_elem_of_filter, Lf. assert (sym ∈ asked) by (apply Hin; auto).
    destruct (_ <? _); naive_solver. }
  remember (filter _ asked) as misses eqn:Em. clear Em.
  destruct Ha as [|misses tickers now' r Hne|misses e1 stale Hne|misses e1 e2 Hne].
  - rewrite Hh. destruct (_ <? _); [done|].
    by destruct (proj1 (elem_of_nil sym) (proj2 Hmiss eq_refl)).
  - destruct He as (w1 & Ht & _). apply exec_embed with (H1 := exchange_env false) in Ht; [|done].
    by destruct (tickers_seen _ _ _ _ _ _ Ht Hne).
  - destruct He as (w1 & Ht & w2 & Hs & _). apply exec_embed with (H1 := exchange_env false) in Ht; [|done].
    assert (w1 = w) as -> by (eapply exchange_keeps; exact Ht).
    apply (stale_reads false) in Hs as (result & [= <-] & Hres). rewrite Hres, Hh, Ls.
    destruct (rd_now w <? now + Redis.freshTTL (quotes_cache d)).
    + rewrite decide_False; [done|]. intros Hx%Hmiss. done.
    + rewrite decide_True by by apply Hmiss. by destruct (_ <? _).
  - destruct He as (w1 & _ & w2 & Hs & _). by apply (stale_reads false) in Hs as (result & ? & _).
Qed.

(** C13: quotes survive an outage.  A quote a deployed [GetQuotes] has had from the exchange
    - it was not in the cache, and is not marked stale - is what every later request for the
    symbol is answered with while the exchange is down: its symbol, its time and a price
    equal as a number, unmarked until the fresh copy expires, then marked stale until the
    fallback expires, and then no more. *)
Theorem quotes_survive_an_outage up req w m w1 sym q :
  quotes_at up req w (Some (Ok m)) w1 -> lookup_quote false w (freshKey "BINANCE" sym) = None ->
  m !! sym = Some q -> q_IsStaleCache q = false -> sym <> "" ->
  exists price price' unix, q = quote sym price unix false /\ deq price' price /\
    forall t req' m' w2, (exists y, y ∈ gq_Symbols req' /\ sym = cleaned y) ->
      quotes_at false req' (at_time t w1) (Some (Ok m')) w2 ->
      m' !! sym =
        if t <? rd_now w + Redis.freshTTL (quotes_cache d) then Some (quote sym price' unix false)
        else if t <? rd_now w + Redis.staleTTL (quotes_cache d) then Some (quote sym price' unix true)
        else None.
Proof.
  intros He Hnew Hm Hq Hsym.
  destruct (fresh_quote_kept _ _ _ _ _ _ _ He Hnew Hm Hq) as (price & unix & -> & Hexp & Hk).
  destruct (to_String_read price Hexp) as (price' & Hread & Heq).
  exists price, price', unix. split; [done|]. split; [done|]. intros t req' m' w2 Hasked He'.
  by apply (kept_quote_answered req' (at_time t w1) m' w2 (rd_now w) sym price price' unix).
Qed.
End Outage.
