(* ===== verification/SyncWire.v ===== *)
(** * A reconciliation on the wires

    [SyncBrokerBalances] linked with the exchange and the ledger client: which answers of
    the exchange and of Livro its verdict compares. *)

From stdpp Require Import base tactics list strings gmap.
From Stdlib Require Import ZArith QArith Lia.
From S2P Require Import Prelude Exec Link GoStrings Json Http Broker Decimal DecimalSpec Vault Db Clients.
From S2P Require Import Binance BinanceSpec BinanceQueries Cache Config Effects Worker Service.
From S2P Require Import ServiceTheorems TradeTheorems Startup System SystemSpec TradeWire.

#[local] Open Scope string_scope.
#[local] Open Scope Z_scope.

Section Reconciliation.
Context `{GoUnicode} `{JsonUnicode} `{Hmac}.
Context (d : Deployment).

(** The balance in a reply of the ledger; whatever cannot be read counts as zero. *)
Definition balance_read (reply : Result string) : Decimal :=
  match reply with
  | Ok text => match NewFromString text with Ok bal => bal | Err _ => Decimal.Zero end
  | Err _ => Decimal.Zero
  end.

Definition balance_call (acc : string) (tr : list (event SysRes)) (b : Decimal) : Prop :=
  exists reply, tr = [ev (ToLivro (Livro.RpcGetBalance acc)) reply] /\ b = balance_read reply.

(** The tenant's clearing account could neither be created nor found. *)
Definition id_in (r : Result Livro.AccountReply) : option string :=
  match r with Ok a => Livro.account_id a | Err _ => None end.

Definition no_account (tenantID : string) (tr : list (event SysRes)) : Prop :=
  exists r l, id_in r = None /\ id_in l = None /\
    tr = [ev (ToLivro (Livro.RpcInitializeAccount {|
                Livro.ia_Account := Livro.broker_clearing tenantID;
                Livro.ia_AccountType := Livro.ACCOUNT_TYPE_CUSTOMER_WALLET;
                Livro.ia_AllowOverdraft := true |})) r;
          ev (ToLivro (Livro.RpcGetAccount (Livro.broker_clearing tenantID))) l].

(** The ledger's side on the wire: nothing without a ledger; the balance of the named
    account; or that of the clearing account, if there is one. *)
Definition ledger_on_wire (req : SyncBrokerBalancesRequest) (tr : list (event SysRes)) (b : Decimal)
    : Prop :=
  if dp_livro d then
    let user := TrimSpace (sb_UserId req) in
    if decide (user = "") then
      (exists pre acc tail, account_resolved (sb_TenantId req) pre acc /\ tr = (pre ++ tail)%list /\
         balance_call acc tail b) \/
      (no_account (sb_TenantId req) tr /\ b = Decimal.Zero)
    else balance_call user tr b
  else tr = [] /\ b = Decimal.Zero.

Lemma balance_wire acc tr tr' b :
  balance_seen acc tr b -> linked_trace (deploy d) tr tr' -> balance_call acc tr' b.
Proof.
  intros (r & -> & ->) (seg & rest & -> & Hs & ->%linked_trace_nil)%linked_trace_cons.
  rewrite app_nil_r. cbn [deploy] in Hs. destruct Hs as (reply & tr1 & -> & Hs).
  exists reply. destruct reply as [text|e]; cbn [bind embed] in Hs; unfold balance_read.
  - destruct (NewFromString text); by destruct Hs as [-> [= ->]].
  - by destruct Hs as [-> [= ->]].
Qed.

Lemma account_failed tenantID tr e :
  traces (deploy d (LivroGetOrCreateBrokerAccount tenantID)) tr (Some (Err e)) -> no_account tenantID tr.
Proof.
  cbn [deploy]. unfold over_livro, Livro.GetOrCreateBrokerAccount. intros (r & tr1 & -> & Ht).
  assert (id_in r = None /\ traces (over_livro (Livro.lookup_broker_account tenantID)) tr1 (Some (Err e)))
    as [Hr (l & tr2 & -> & Hl)].
  { destruct r as [a|err]; simpl in *; [|done].
    destruct (Livro.account_id a); [by destruct Ht as [_ ?]|done]. }
  exists r, l. split; [done|]. destruct l as [a|err]; simpl in *; [|by destruct Hl as [-> _]].
  destruct (Livro.account_id a); [by destruct Hl as [_ ?]|by destruct Hl as [-> _]].
Qed.

Lemma account_not_empty tenantID tr acc : account_resolved tenantID tr acc -> acc <> "".
Proof. by destruct 1. Qed.

Lemma ledger_wire req mid tr b :
  ledger_seen (pregao_server d) req mid b -> linked_trace (deploy d) mid tr -> ledger_on_wire req tr b.
Proof.
  unfold ledger_seen, ledger_on_wire.
  assert (has_livro (pregao_server d) = dp_livro d) as -> by done.
  destruct (dp_livro d); [|by intros [-> ->] ->%linked_trace_nil].
  case_decide as Hu; [|by apply balance_wire].
  intros (r & rest & -> & Hr) (seg & tail & -> & Hs & Hl)%linked_trace_cons.
  destruct r as [acc|e].
  - apply account_trace in Hs. rewrite decide_False in Hr by by eapply account_not_empty.
    left. exists seg, acc, tail. split; [done|]. split; [done|]. by eapply balance_wire.
  - destruct Hr as [-> ->]. apply linked_trace_nil in Hl as ->. rewrite app_nil_r. right.
    split; [by eapply account_failed|done].
Qed.

(** ** The exchange's side *)

(** The signed request for the account, and the balances read from its answer. *)
Definition account_on_wire (creds : CredPtr) (tr : list (event SysRes)) (balances : gmap string Decimal)
    : Prop :=
  exists key secret now query resp acc,
    key <> [] /\ secret <> [] /\
    carries query [("timestamp", FormatInt now); ("recvWindow", FormatInt (bn_recvWindow (broker_client d)))] /\
    (let r := {| hr_Method := "GET";
                 hr_URL := bn_baseURL (broker_client d) +:+ "/api/v3/account" +:+ "?" +:+ query +:+ "&signature="
                   +:+ SignHMAC (string_bytes query) secret;
                 hr_APIKey := Some key |} in
     exchanged tr = [ev (DoRequest AccountBody r) (Ok resp)]) /\
    ev (ToExchange (CredsLoad creds)) (key, secret) ∈ tr /\
    rs_Status resp = StatusOK /\ rs_Body resp = Ok (Ok acc) /\
    balances_of acc balances.

Lemma account_wire creds balances seg :
  traces (deploy d (BrokerGetAccountBalances creds)) seg (Some (Ok balances)) ->
  account_on_wire creds seg balances.
Proof.
  cbn [deploy]. unfold over_exchange. intros (tr & Ht & ->%embedded_exchange)%traces_embed.
  apply GetAccountBalances_trace in Ht
    as (key & secret & now & query & resp & acc & Hk & Hs & Hq & -> & Hst & Hb & Hbal).
  exists key, secret, now, query, resp, acc. rewrite exchanged_embed.
  do 3 (split; [done|]). split; [reflexivity|]. split; [left|done].
Qed.

(** Everything else keeps away from the exchange. *)
Lemma quiet_calls tr tr' :
  linked_trace (deploy d) tr tr' -> Forall (fun v => is_broker (ev_op v) = false) tr -> exchanged tr' = [].
Proof.
  intros Hl%linked_trace_run Hq. apply (linked_quiet d _ _ Hl).
  rewrite Forall_map. eapply Forall_impl; [exact Hq|]. done.
Qed.

Lemma ledger_seen_quiet s req mid b :
  ledger_seen s req mid b -> Forall (fun v => is_broker (ev_op v) = false) mid.
Proof.
  assert (forall acc tr, balance_seen acc tr b -> Forall (fun v => is_broker (ev_op v) = false) tr) as Hb
    by (intros acc tr (r & -> & _); by repeat constructor).
  unfold ledger_seen. destruct (has_livro s); [|intros [-> _]; constructor].
  case_decide; [|apply Hb]. intros (r & rest & -> & Hr). constructor; [done|].
  destruct r as [acc|e]; [case_decide|]; (by destruct Hr as [-> _]) || by eapply Hb.
Qed.

(** C14: a reconciliation on the wires.  A deployed [SyncBrokerBalances] that answers has sent the
    exchange exactly one request, the GET of the account signed with the loaded
    credentials, and read each asset's balance from its answer; the broker side is the first of USDT,
    USD, BUSD and USDC with a positive balance.  The ledger side is the number in Livro's
    answer for the named account, or else for the tenant's clearing account; it counts as zero
    when there is no account or the query fails, and, nothing being asked, without a Livro.
    [InSync] is exact equality of the two, and the adjustment reads back to their
    difference rounded half away from zero at 4 places. *)
Theorem reconciliation_on_the_wire req tr resp :
  traces (deployed d (SyncBrokerBalances (pregao_server d) req)) tr (Some (Ok resp)) ->
  exists pre account ledger_wire post creds balances fiat ledger,
    tr = (pre ++ account ++ ledger_wire ++ post)%list /\
    exchanged pre = [] /\ exchanged ledger_wire = [] /\ exchanged post = [] /\
    account_on_wire creds account balances /\
    first_of ["USDT"; "USD"; "BUSD"; "USDC"] balances fiat /\
    ledger_on_wire req ledger_wire ledger /\ reconciled fiat ledger resp.
Proof.
  intros (tr0 & (creds & balances & fiat & ledger & Hc & Hf & Hr)%SyncBrokerBalances_trace & Hl)%traces_interp.
  destruct Hc as (cred & k1 & k2 & z & provider & mid & -> & Hseen).
  apply linked_trace_cons in Hl as (s1 & r1 & -> & S1 & Hl).
  apply linked_trace_cons in Hl as (s2 & r2 & -> & S2 & Hl).
  apply linked_trace_cons in Hl as (s3 & r3 & -> & S3 & Hl).
  apply linked_trace_app in Hl as (s4 & s5 & -> & Hmid & Hpost).
  exists (s1 ++ s2)%list, s3, s4, s5, creds, balances, fiat, ledger.
  split; [by rewrite <- app_assoc|].
  split; [|split; [|split; [|split; [by apply account_wire|split; [done|split; [by eapply ledger_wire|done]]]]]].
  - rewrite exchanged_app, !not_exchanged; [done| |].
    + eapply traces_calls_only; [|exact S2]. by apply deploy_calls_only.
    + eapply traces_calls_only; [|exact S1]. by apply deploy_calls_only.
  - eapply quiet_calls; [exact Hmid|]. by eapply ledger_seen_quiet.
  - eapply quiet_calls; [exact Hpost|]. by repeat constructor.
Qed.
End Reconciliation.
