(* ===== verification/ReportWire.v ===== *)
(** * An execution report on the wires

    The HTTP server linked with the fill processor and the clients behind it: from the
    report the exchange posts to the remote call that moves the money. *)

From stdpp Require Import base tactics list strings gmap.
From Stdlib Require Import ZArith QArith Lia.
From S2P Require Import Prelude Exec Link GoStrings Json Http Decimal DecimalSpec DecimalText Db Clients.
From S2P Require Import Effects Worker WorkerSpec Webhook WebhookSpec Binance Startup System SystemSpec.

#[local] Open Scope string_scope.
#[local] Open Scope Z_scope.

Section Report.
Context `{GoUnicode} `{JsonUnicode} `{Hmac}.
Context (d : Deployment).

(** The numbers of the report have no extreme exponents. *)
Definition report_moderate (r : RawBinanceExecutionReport) : Prop :=
  forall text n, text ∈ [LastExecutedQuantity r; CumulativeFilledQty r; CumulativeQuoteQuantity r] ->
    NewFromString text = Ok n -> moderate n.

Lemma quantity_moderate r q : report_moderate r -> quantity_of r q -> moderate q.
Proof. intros Hm [[Hq _]|[_ Hq]]; (eapply Hm; [|exact Hq]); set_solver. Qed.

Lemma report_price_exp r q p : report_price r q = Some p -> in_i32 (d_exp p).
Proof.
  assert (in_i32 (d_exp zero_value) /\ in_i32 (-16)) as [Hz Hd] by (split; split; vm_compute; congruence).
  assert (forall d0, in_i32 (d_exp d0) ->
    match NewFromString (CumulativeQuoteQuantity r) with
    | Ok cumQuote => if GreaterThan q Zero then Div cumQuote q else Some d0
    | Err _ => Some d0
    end = Some p -> in_i32 (d_exp p)) as Hf.
  { intros d0 Hd0. destruct (NewFromString (CumulativeQuoteQuantity r)); [|by intros [= <-]].
    destruct (GreaterThan q Zero); [|by intros [= <-]]. by intros ->%Div_exp. }
  unfold report_price. destruct (NewFromString (LastExecutedPrice r)) as [n|e] eqn:E; [|by apply Hf].
  apply NewFromString_exp in E. destruct (IsZero n); [by apply Hf|by intros [= <-]].
Qed.

(** The fill a report is processed as. *)
Definition report_fill (r : RawBinanceExecutionReport) (q p : Decimal) : FillEvent := {|
  fe_Provider := "BINANCE"; fe_ProviderOrderID := FormatInt (OrderID r);
  fe_Symbol := Symbol r; fe_Side := Side r; fe_Status := OrderStatus r;
  fe_ExecutedQuantity := q; fe_FillPrice := p |}.

Lemma processed_fill r event :
  report_moderate r -> report_verdict r = Some (Fill event) ->
  execution r /\ exists q p, quantity_of r q /\ price_of r q p /\ event = report_fill r q p /\
    in_i32 (d_exp q) /\ in_i32 (d_exp p).
Proof.
  intros Hm. unfold report_verdict. destruct (is_fill r) eqn:Ef; [|done]. cbn [negb].
  apply is_fill_spec in Ef. destruct (report_quantity r) as [q|] eqn:Eq; [|done].
  destruct (report_price r q) as [p|] eqn:Ep; [|done]. intros [= <-]. split; [done|].
  apply report_quantity_spec in Eq. pose proof (quantity_moderate _ _ Hm Eq) as Hq.
  exists q, p. split; [done|]. split; [|split; [done|split; [|by eapply report_price_exp]]].
  - destruct (report_price_spec r q Hq) as (p' & E & Hp); [|congruence].
    intros c. apply Hm. set_solver.
  - unfold moderate in Hq. unfold in_i32, MinInt32, MaxInt32. lia.
Qed.

(** C12: from a report to the money.  Take a native execution report whose members have their
    types, in which a key that differs from a field's in case only is followed by the field's
    own, whose integers are below 2^53 and whose amounts have no extreme exponent.  When the
    deployed server answers PROCESSED to it, something was executed, and exactly one fill of the order the report
    names has been settled and recorded last: with the report's last executed quantity and
    price - or, where one is missing or zero, the cumulative quantity and the cumulative quote
    quantity per unit - by one request to Ativos with the exact shares and price where it is connected,
    otherwise by Livro's capture or credit of quantity times price rounded half away from zero
    at four places, and by nothing where neither is connected or the order's side is neither. *)
Theorem report_on_the_wire members r tr :
  forallb (fun kv => numbers_fit kv.2) members = true ->
  report_document (decode_map members) r -> report_moderate r ->
  traces (deployed d (ServeHTTP (webhook_server d) "/webhooks/binance/order" "POST" (Ok members)))
    tr (Some processed_reply) ->
  execution r /\
  exists q p, quantity_of r q /\ price_of r q p /\ settled_calls d (report_fill r q p) tr.
Proof.
  intros Hfit Hdoc Hm (tr0 & Ht & Hl)%traces_interp.
  assert (traces (handleBinanceOrderWebhook (webhook_server d) "POST" (Ok members)) tr0
    (Some processed_reply)) as Hh by exact Ht.
  rewrite (report_handled _ _ _ Hfit Hdoc) in Hh. apply traces_or_panic in Hh.
  destruct (report_verdict r) as [[| |event]|] eqn:Ev; [by destruct Hh..| |by destruct Hh].
  destruct (processed_fill _ _ Hm Ev) as (Hx & q & p & Hq & Hp & -> & Eq & Ep).
  split; [done|]. exists q, p. split; [done|]. split; [done|].
  apply traces_bind in Hh as [(tr1 & tr2 & [[]|e] & -> & Hs & Hr)|[_ ?]]; [| |done].
  2: { by destruct Hr as [_ ?]. }
  destruct Hr as [-> _]. rewrite app_nil_r in Hl.
  apply ProcessFill_settled in Hs as [Hv Hs]. by eapply settled_wire.
Qed.
End Report.
