(* ===== verification/Replicas.v ===== *)
(** * Replicas of the deployed system

    Any number of deployed handlers - [ExecuteTrade] and the fill processor, each with a
    configuration of its own - share one database and one exchange, and what interleaves
    are the requests on the wires.  Such a system behaves as the one of Concurrency does,
    in which a call of a client is a single step: each state it reaches is matched by a
    reachable state there, order by order.

    A call of the database may panic; a request on a wire answers or fails, and what a
    client makes of it may panic. *)

From stdpp Require Import base tactics list strings gmap relations functions.
From Stdlib Require Import ZArith QArith Lia Lqa.
From S2P Require Import Prelude Exec Link GoStrings Uuid Broker Json Http Url Vault Decimal DecimalSpec.
From S2P Require Import Db DbSpec Clients Binance BinanceSpec Cache Config Effects Worker Service.
From S2P Require Import TradeProtocol Concurrency OrderRows Startup System SystemSpec TradeWire.

#[local] Open Scope string_scope.
#[local] Open Scope Z_scope.
#[local] Open Scope go_scope.

(** ** Clients of the exchange, as trees *)

Definition places_order (op : HttpOp) : bool :=
  match op with DoRequest OrderBody _ => true | _ => false end.

(** A program that ends with the outcome [o], sending no order. *)
Fixpoint settles {R} (o : option R) (q : http R) : Prop :=
  match q with
  | Ret r => o = Some r
  | Panic _ => o = None
  | Call op k _ => places_order op = false /\ forall r, settles o (k r)
  end.

(** The order of some client for [mo]. *)
Definition order_sent `{GoUnicode} `{JsonUnicode} `{Hmac} (mo : MarketOrderRequest)
    (hr : HttpRequest) : Prop :=
  exists c key secret now, order_on_wire c mo key secret now hr.

(** A program that sends the order and ends with its outcome, or that sends none and
    reports none. *)
Fixpoint offers `{GoUnicode} `{JsonUnicode} `{Hmac} (mo : MarketOrderRequest)
    (q : http (Result OrderResult)) : Prop :=
  match q with
  | Ret r => is_ok r = false
  | Panic _ => True
  | Call op k _ =>
      match op return (HttpRes op -> http (Result OrderResult)) -> Prop with
      | DoRequest kind hr =>
          match kind return (Result (Response (Body kind)) -> http (Result OrderResult)) -> Prop with
          | OrderBody => fun k =>
              order_sent mo hr /\ forall answer, settles (order_outcome answer) (k answer)
          | _ => fun k => forall r, offers mo (k r)
          end
      | _ => fun k => forall r, offers mo (k r)
      end k
  end.

Section Clients.
Context `{GoUnicode} `{JsonUnicode} `{Hmac}.

Lemma settles_defer {R} d o (q : http R) :
  places_order d = false -> settles o q -> settles o (defer (http_do d ;;; Ret tt) q).
Proof. intros Hd. induction q as [r|m|op k IH u _]; simpl; naive_solver. Qed.

Lemma offers_wipe p mo q :
  offers mo q -> offers mo (defer (http_do (CredsWipe p) ;;; Ret tt) q).
Proof.
  induction q as [r|m|op k IH u _]; simpl; [done..|].
  destruct op as [| | | |[] hr|]; simpl; auto. intros [Hs Hk].
  split; [done|]. intros answer. by apply settles_defer.
Qed.

Lemma place_order_offers c mo key secret : offers mo (place_order c mo key secret).
Proof.
  unfold place_order. destruct (LessThanOrEqual (mo_Quantity mo) Zero); [done|].
  destruct (GetDefaultStepSize (mo_Symbol mo)) as [step|] eqn:Est; [|done]. cbn [or_panic bind].
  destruct (TruncateToStepSize (mo_Quantity mo) step) as [[q s]|] eqn:Etr; [|done]. cbn [or_panic bind].
  destruct (LessThanOrEqual q Zero) eqn:Eq; [done|].
  apply LessThanOrEqual_false in Eq. rewrite Zero_dval in Eq.
  intros now [[]|e]; [|done]. split.
  - exists c, key, secret, now, step, q, s, (values_Encode (order_params c mo s now)).
    do 3 (split; [done|]). split; [apply order_params_carry|reflexivity].
  - intros [resp|e]; [|done]. apply settles_defer; [done|]. cbn [order_outcome].
    by destruct (order_response resp).
Qed.

Lemma PlaceMarketOrder_offers c p mo : offers mo (PlaceMarketOrder c (Some p) mo).
Proof.
  intros [[|k key] [|s secret]]; try done. apply offers_wipe, place_order_offers.
Qed.
End Clients.

(** ** Simulation of a thread

    The calls that matter to the other threads are those of the repositories and the
    order; over any other a thread may pass. *)

Definition silent (op : Op) : bool :=
  match op with BrokerPlaceMarketOrder _ _ => false | op => negb (is_repository op) end.

(** What [p] may become while the thread makes none of them. *)
Inductive idles {A} : service A -> service A -> Prop :=
  | idles_refl p : idles p p
  | idles_answer op k u r p' :
      silent op = true -> idles (k r) p' -> idles (Call op k u) p'
  | idles_refused creds mo k u e p' :
      idles (k (Err e)) p' -> idles (Call (BrokerPlaceMarketOrder creds mo) k u) p'
  | idles_panic op k u p' : idles u p' -> idles (Call op k u) p'.

Definition native_op (op : Op) : bool :=
  match op with BrokerPlaceMarketOrder _ _ => false | _ => true end.

Section Simulation.
Context `{GoUnicode} `{JsonUnicode} `{Hmac}.

(** [sim p c]: the deployed program [c] does what [p] does. *)
Fixpoint sim {A B} (p : service A) (c : system B) : Prop :=
  match c with
  | Ret _ | Panic _ => True
  | Call op k u =>
      match op return (SysRes op -> system B) -> Prop with
      | Native op => fun k => native_op op = true /\
          exists k' u', idles p (Call op k' u') /\ (forall r, sim (k' r) (k r)) /\ sim u' u
      | ToExchange (DoRequest kind hr) =>
          match kind return (Result (Response (Body kind)) -> system B) -> Prop with
          | OrderBody => fun k => exists creds mo k' u',
              idles p (Call (BrokerPlaceMarketOrder creds mo) k' u') /\ order_sent mo hr /\
              forall answer,
                sim (match order_outcome answer with Some r => k' r | None => u' end) (k answer)
          | _ => fun k => forall r, sim p (k r)
          end
      | _ => fun k => forall r, sim p (k r)
      end k
  end.

Lemma idles_trans {A} (p q r : service A) : idles p q -> idles q r -> idles p r.
Proof. induction 1; eauto using idles. Qed.

Lemma sim_idle {A B} (p p' : service A) (c : system B) : idles p p' -> sim p' c -> sim p c.
Proof.
  intros Hi. induction c as [b|m|op k IH u _]; [done..|].
  destruct op as [op| |[| | | |[] hr|]| | |]; simpl; auto.
  - intros (Hn & k' & u' & Hp & Hk). split; [done|]. exists k', u'. eauto using idles_trans.
  - intros (creds & mo & k' & u' & Hp & Hk). exists creds, mo, k', u'. eauto using idles_trans.
Qed.

(** What follows an unwinding does not matter. *)
Lemma sim_unwound {A B C} (p : service A) (c : system B) m :
  sim p c -> sim p (bind c (fun _ => Panic (A := C) m)).
Proof.
  revert p C m. induction c as [b|m'|op k IH u IHu]; intros p C m; [done..|].
  destruct op as [op| |[| | | |[] hr|]| | |]; simpl; auto.
  - intros (Hn & k' & u' & Hp & Hk & Hu). split; [done|]. exists k', u'. auto 10.
  - intros (creds & mo & k' & u' & Hp & Hs & Hk). exists creds, mo, k', u'. auto 10.
Qed.

(** Calls that neither concern the database nor send an order. *)
Definition on_the_side (op : SysOp) : bool :=
  match op with
  | Native _ => false
  | ToExchange op => negb (places_order op)
  | _ => true
  end.

Lemma sim_side {A B C} (p : service A) (q : system C) f (v : system B) :
  calls_only on_the_side q -> (forall a, sim p (f a)) -> sim p v -> sim p (catching q f v).
Proof.
  intros Hq Hf Hv. induction q as [c|m|op k IH u _]; simpl; [done|by apply sim_unwound|].
  destruct Hq as [[Hop _] Hk].
  destruct op as [op| |[| | | |[] hr|]| | |]; simpl in *; try done; auto.
Qed.

Lemma sim_silent {A B} op k u (q : system (Res op)) f (v : system B) :
  silent op = true -> calls_only on_the_side q ->
  (forall r, sim (k r) (f r)) -> sim (A := A) u v -> sim (Call op k u) (catching q f v).
Proof.
  intros Ho Hq Hf Hv. apply sim_side; [done|..].
  - intros r. eapply sim_idle; [by apply (idles_answer op k u r), idles_refl|done].
  - eapply sim_idle; [apply idles_panic, idles_refl|done].
Qed.

Lemma sim_native {A B} d op k u f (v : system B) :
  native_op op = true ->
  (forall r, sim (k r) (f r)) -> sim (A := A) u v -> sim (Call op k u) (catching (native d op) f v).
Proof.
  intros Ho Hf Hv. unfold native. destruct (_ && _); simpl.
  - eapply sim_idle; [apply idles_panic, idles_refl|]. by apply sim_unwound.
  - split; [done|]. exists k, u. split; [apply idles_refl|]. split; [done|]. by apply sim_unwound.
Qed.

Lemma sim_settled {A B R} (k : R -> service A) (u : service A) o (q : http R) f (v : system B) :
  settles o q -> (forall r, sim (k r) (f r)) -> sim u v ->
  sim (match o with Some r => k r | None => u end) (catching (over_exchange q) f v).
Proof.
  intros Hq Hf Hv. induction q as [r|m|op k' IH u' _]; simpl in *.
  - by subst o.
  - subst o. by apply sim_unwound.
  - destruct Hq as [Hop Hk]. destruct op as [| | | |[] hr|]; simpl; auto; done.
Qed.

Lemma sim_order {A B} creds mo k u (q : http (Result OrderResult)) f (v : system B) :
  offers mo q -> (forall r, sim (k r) (f r)) -> sim (A := A) u v ->
  sim (Call (BrokerPlaceMarketOrder creds mo) k u) (catching (over_exchange q) f v).
Proof.
  intros Hq Hf Hv. induction q as [[r|e]|m|op k' IH u' _]; simpl in *; [done|..].
  - eapply sim_idle; [apply (idles_refused creds mo k u e), idles_refl|done].
  - eapply sim_idle; [apply idles_panic, idles_refl|]. by apply sim_unwound.
  - destruct op as [| | | |[] hr|]; simpl; auto.
    destruct Hq as [Hs Hk]. exists creds, mo, k, u. split; [apply idles_refl|]. split; [done|].
    intros answer. by apply (sim_settled k u (order_outcome answer)).
Qed.

Lemma queries_side c :
  (forall symbols, calls_only on_the_side (over_exchange (GetBookTickers c symbols))) /\
  (forall symbols, calls_only on_the_side (over_exchange (ValidateSymbols c symbols))) /\
  (forall creds, calls_only on_the_side (over_exchange (GetAccountBalances c (Some creds)))).
Proof.
  repeat split; intros; apply calls_only_embed;
    unfold GetBookTickers, ValidateSymbols, GetAccountBalances, with_credentials, send, http_do, call;
    solve_calls_only.
Qed.

Lemma sim_deploy {A B} d op k u f (v : system B) :
  (forall r, sim (k r) (f r)) -> sim (A := A) u v -> sim (Call op k u) (catching (deploy d op) f v).
Proof.
  intros Hf Hv. destruct (queries_side (broker_client d)) as (Q1 & Q2 & Q3).
  destruct op; cbn [deploy];
    first [by apply sim_native | by apply sim_order; [apply PlaceMarketOrder_offers|..]
          | apply sim_silent; [done| |done|done]];
    first [by auto | by apply calls_only_embed, calls_only_all].
Qed.

(** A deployed program does what the program does. *)
Lemma sim_deployed {A} d (p : service A) : sim p (deployed d p).
Proof. induction p as [a|m|op k IH u IHu]; simpl; [done..|]. by apply sim_deploy. Qed.
End Simulation.

(** ** The system *)

Record Replicas := {
  rp_orders : OrderTable;
  rp_executed : list HttpRequest;
  rp_threads : list (system unit);
}.

Section Replicas.
Context `{GoUnicode} `{JsonUnicode} `{Hmac} `{PgTypes}.

(** ** The exchange

    What it has done with an order it was sent is a matter of its own.  Its documentation
    of [POST /api/v3/order]: a status 200 with the order's document acknowledges an order that was
    executed, and its quantities are numbers in plain digits. *)

Definition acknowledges (answer : Result (Response OrderResponse)) (o : OrderResponse) : Prop :=
  exists resp, answer = Ok resp /\ rs_Status resp = StatusOK /\ rs_Body resp = Ok (Ok o).

Definition plain_amount (s : string) : Prop := forall d, NewFromString s = Ok d -> moderate d.

(** [executed]: the exchange executed the order it gave this answer for.  With [lossy] the answer
    of an executed order may be lost on the way, or be anything. *)
Record places (lossy executed : bool) (answer : Result (Response OrderResponse)) : Prop := {
  pl_truthful : forall o, acknowledges answer o -> executed = true;
  pl_reliable : lossy = false -> executed = true ->
    exists o, acknowledges answer o /\
      plain_amount (od_ExecutedQty o) /\ plain_amount (od_CummulativeQuoteQty o);
}.

Context (lossy : bool).

Definition replica_env (op : SysOp)
    : (OrderTable * list HttpRequest) -> SysRes op -> (OrderTable * list HttpRequest) -> Prop :=
  let E := (OrderTable * list HttpRequest)%type in
  match op return E -> SysRes op -> E -> Prop with
  | Native op => fun e r e' =>
      shared_env lossy None op (e.1, []) r (e'.1, []) /\ e'.2 = e.2
  | ToExchange (DoRequest kind hr) =>
      match kind return E -> Result (Response (Body kind)) -> E -> Prop with
      | OrderBody => fun e answer e' =>
          e'.1 = e.1 /\ exists executed, places lossy executed answer /\
            e'.2 = if executed : bool then hr :: e.2 else e.2
      | _ => fun e _ e' => e' = e
      end
  | _ => fun e _ e' => e' = e
  end.

Definition replica_panics (op : SysOp) (e e' : OrderTable * list HttpRequest) : Prop :=
  match op with
  | Native op => shared_panics lossy None op (e.1, []) (e'.1, []) /\ e'.2 = e.2
  | _ => False
  end.

Inductive replica_step : Replicas -> Replicas -> Prop :=
  | replica_call ws i op k u r e' :
      rp_threads ws !! i = Some (Call op k u) ->
      replica_env op (rp_orders ws, rp_executed ws) r e' ->
      replica_step ws
        {| rp_orders := e'.1; rp_executed := e'.2; rp_threads := <[i := k r]> (rp_threads ws) |}
  | replica_panic ws i op k u e' :
      rp_threads ws !! i = Some (Call op k u) ->
      replica_panics op (rp_orders ws, rp_executed ws) e' ->
      replica_step ws
        {| rp_orders := e'.1; rp_executed := e'.2; rp_threads := <[i := u]> (rp_threads ws) |}
  | replica_trade ws d fuel req :
      replica_step ws
        {| rp_orders := rp_orders ws; rp_executed := rp_executed ws;
           rp_threads := rp_threads ws ++
             [deployed d (ExecuteTrade fuel (pregao_server d) req ;;; Ret tt)] |}
  | replica_fill ws d event :
      replica_step ws
        {| rp_orders := rp_orders ws; rp_executed := rp_executed ws;
           rp_threads := rp_threads ws ++ [deployed d (fill_processor d event ;;; Ret tt)] |}
  | replica_crash ws i c :
      rp_threads ws !! i = Some c ->
      replica_step ws
        {| rp_orders := rp_orders ws; rp_executed := rp_executed ws;
           rp_threads := <[i := Ret tt]> (rp_threads ws) |}.

Definition no_replicas : Replicas := {| rp_orders := ∅; rp_executed := []; rp_threads := [] |}.

Definition replicas_reach (ws : Replicas) : Prop := rtc replica_step no_replicas ws.

(** The HTTP request is the order of a valid trade request. *)
Definition order_of_request (req : ExecuteTradeRequest) (hr : HttpRequest) : Prop :=
  exists intent qty, valid_trade req = Some (intent, qty) /\
    order_sent (market_order_of req qty) hr.

Record refines (ws : Replicas) (sys : System) : Prop := {
  rf_orders : sys_orders sys = rp_orders ws;
  rf_executed : Forall2 order_of_request (sys_executed sys) (rp_executed ws);
  rf_threads : Forall2 (fun th c => sim (th_code th) c) (sys_threads sys) (rp_threads ws);
}.

(** ** Steps *)

Definition with_thread (sys : System) (i : nat) (req : option ExecuteTradeRequest)
    (p : service unit) : System := {|
  sys_orders := sys_orders sys;
  sys_executed := sys_executed sys;
  sys_threads := <[i := {| th_request := req; th_code := p |}]> (sys_threads sys) |}.

Lemma with_thread_lookup sys i req p :
  is_Some (sys_threads sys !! i) ->
  sys_threads (with_thread sys i req p) !! i = Some {| th_request := req; th_code := p |}.
Proof. intros Hi. apply list_lookup_insert_eq. by apply lookup_lt_is_Some. Qed.

Lemma with_thread_twice sys i req p p' :
  with_thread (with_thread sys i req p) i req p' = with_thread sys i req p'.
Proof. unfold with_thread. simpl. by rewrite list_insert_insert_eq. Qed.

Lemma with_thread_same sys i req p :
  sys_threads sys !! i = Some {| th_request := req; th_code := p |} -> with_thread sys i req p = sys.
Proof. intros Hi. unfold with_thread. rewrite list_insert_id by done. by destruct sys. Qed.

Lemma silent_env req op r e : silent op = true -> shared_env lossy req op e r e.
Proof. by destruct op. Qed.

(** A thread passes over its silent calls. *)
Lemma idles_steps sys i req p p' :
  idles p p' -> sys_threads sys !! i = Some {| th_request := req; th_code := p |} ->
  rtc (step lossy) sys (with_thread sys i req p').
Proof.
  intros Hi. revert sys.
  induction Hi as [p|op k u r p' Ho _ IH|creds mo k u e p' _ IH|op k u p' _ IH]; intros sys Hth;
    [by rewrite with_thread_same|..].
  all: assert (is_Some (sys_threads sys !! i)) as Hi' by by eexists.
  - rewrite <- (with_thread_twice sys i req (k r)). eapply rtc_l; [|by apply IH, with_thread_lookup].
    apply (step_call lossy sys i req op k u r (sys_orders sys, sys_executed sys)); [done|].
    by apply silent_env.
  - rewrite <- (with_thread_twice sys i req (k (Err e))).
    eapply rtc_l; [|by apply IH, with_thread_lookup].
    apply (step_call lossy sys i req (BrokerPlaceMarketOrder creds mo) k u (Err e) (sys_orders sys, sys_executed sys)); [done|].
    split; auto.
  - rewrite <- (with_thread_twice sys i req u). eapply rtc_l; [|by apply IH, with_thread_lookup].
    apply (step_panic lossy sys i req op k u (sys_orders sys, sys_executed sys)); [done|].
    destruct op; simpl; auto.
Qed.

Lemma native_env req op t r t' x :
  native_op op = true -> shared_env lossy None op (t, []) r (t', []) ->
  shared_env lossy req op (t, x) r (t', x).
Proof. by destruct op; simpl; naive_solver. Qed.

Lemma native_panics req op t t' x :
  native_op op = true -> shared_panics lossy None op (t, []) (t', []) ->
  shared_panics lossy req op (t, x) (t', x).
Proof.
  intros Hn Hp.
  assert ((t' = t) \/ exists r, shared_env lossy None op (t, []) r (t', [])) as [->|[r Hr]].
  { destruct op; try done; destruct Hp as [[= ->]|?]; auto. }
  - destruct op; try done; by left.
  - apply (native_env req _ _ _ _ x Hn) in Hr. destruct op; try done; right; eauto.
Qed.

(** The state after a step of both systems. *)
Lemma refines_insert ws sys t executed accepted i th c :
  refines ws sys -> Forall2 order_of_request executed accepted -> sim (th_code th) c ->
  refines {| rp_orders := t; rp_executed := accepted; rp_threads := <[i := c]> (rp_threads ws) |}
    {| sys_orders := t; sys_executed := executed; sys_threads := <[i := th]> (sys_threads sys) |}.
Proof. intros [] ? ?. split; [done|done|]. by apply Forall2_insert. Qed.

Lemma refines_thread ws sys i c :
  refines ws sys -> rp_threads ws !! i = Some c ->
  exists req p, sys_threads sys !! i = Some {| th_request := req; th_code := p |} /\ sim p c.
Proof.
  intros [] Hi. destruct (Forall2_lookup_r _ _ _ _ _ rf_threads0 Hi) as ([req p] & Ht & Hs). eauto.
Qed.

(** A step of a thread that has passed over its silent calls. *)
Lemma idles_then sys i req p p' sys' :
  sys_threads sys !! i = Some {| th_request := req; th_code := p |} -> idles p p' ->
  step lossy (with_thread sys i req p') sys' -> rtc (step lossy) sys sys'.
Proof. intros Hi Hp Hs. etrans; [by eapply idles_steps|]. by apply rtc_once. Qed.

(** What the client makes of an answer, beside what the exchange did. *)
Lemma order_outcome_acknowledged answer r :
  order_outcome answer = Some (Ok r) -> exists o, acknowledges answer o.
Proof.
  destruct answer as [resp|e]; [|done]. cbn [order_outcome]. unfold order_response.
  destruct (rs_Body resp) as [[o|e]|e] eqn:Eb; [|by destruct (rate_limited _)|done].
  destruct (rate_limited (rs_Status resp)); [done|].
  destruct (Z.eqb_spec (rs_Status resp) StatusOK) as [Hs|]; [|done]. intros _. exists o. by exists resp.
Qed.

Lemma plain_amount_moderate s : plain_amount s -> moderate (parse_or_zero s).
Proof.
  intros Hs. unfold parse_or_zero. destruct (NewFromString s) as [d|e] eqn:E; [by apply Hs|done].
Qed.

Lemma acknowledged_outcome answer o :
  acknowledges answer o ->
  plain_amount (od_ExecutedQty o) -> plain_amount (od_CummulativeQuoteQty o) ->
  exists r, order_outcome answer = Some (Ok r).
Proof.
  intros (resp & -> & Es & Eb) M1%plain_amount_moderate M2%plain_amount_moderate.
  cbn [order_outcome]. unfold order_response. rewrite Eb, Es. cbn -[order_result].
  unfold order_result. destruct (GreaterThan (parse_or_zero (od_ExecutedQty o)) Zero) eqn:Eg; [|eauto].
  apply GreaterThan_spec in Eg. rewrite Zero_dval in Eg.
  destruct (Div_spec _ _ M2 M1) as (q & -> & _); [apply dval_nonzero; lra|]. eauto.
Qed.

(** What a thread sends the broker is the order of its request. *)
Lemma sound_places req creds mo k u :
  thread_sound {| th_request := req; th_code := Call (BrokerPlaceMarketOrder creds mo) k u |} ->
  exists rq intent qty, req = Some rq /\ valid_trade rq = Some (intent, qty) /\
    mo = market_order_of rq qty.
Proof.
  intros [ph Hth]. destruct req as [rq|]; [|by destruct Hth as [[[? _] _] _]].
  destruct Hth as [[s [[Hp _] _]] Hfor]. unfold protocol_allowed in Hp. simpl in Hp, Hfor.
  destruct ph as [| | |o| | | | | |]; try done.
  destruct (order_matches_of rq mo o) as (intent & qty & Hv & ->); [by apply Hfor|done|]. eauto 10.
Qed.

(** ** Every step is simulated *)

Context `{!PgTypesLaws}.

Lemma native_call_refines ws sys i op k u r e' :
  refines ws sys -> rp_threads ws !! i = Some (Call (Native op) k u) ->
  replica_env (Native op) (rp_orders ws, rp_executed ws) r e' ->
  exists sys', rtc (step lossy) sys sys' /\
    refines {| rp_orders := e'.1; rp_executed := e'.2; rp_threads := <[i := k r]> (rp_threads ws) |} sys'.
Proof.
  intros Hr Hi [He Hacc]. destruct e' as [t' accepted']; simpl in *. subst accepted'.
  destruct (refines_thread _ _ _ _ Hr Hi) as (req & p & Ht & Hn & k' & u' & Hid & Hk & _).
  eexists. split.
  - eapply idles_then; [done..|].
    apply (step_call lossy _ i req op k' u' r (t', sys_executed sys)).
    + apply with_thread_lookup. by eexists.
    + simpl. rewrite (rf_orders _ _ Hr). by apply native_env.
  - simpl. rewrite list_insert_insert_eq. by apply refines_insert; [done|apply Hr|apply Hk].
Qed.

Lemma native_panic_refines ws sys i op k u e' :
  refines ws sys -> rp_threads ws !! i = Some (Call (Native op) k u) ->
  replica_panics (Native op) (rp_orders ws, rp_executed ws) e' ->
  exists sys', rtc (step lossy) sys sys' /\
    refines {| rp_orders := e'.1; rp_executed := e'.2; rp_threads := <[i := u]> (rp_threads ws) |} sys'.
Proof.
  intros Hr Hi [He Hacc]. destruct e' as [t' accepted']; simpl in *. subst accepted'.
  destruct (refines_thread _ _ _ _ Hr Hi) as (req & p & Ht & Hn & k' & u' & Hid & _ & Hu).
  eexists. split.
  - eapply idles_then; [done..|].
    apply (step_panic lossy _ i req op k' u' (t', sys_executed sys)).
    + apply with_thread_lookup. by eexists.
    + simpl. rewrite (rf_orders _ _ Hr). by apply native_panics.
  - simpl. rewrite list_insert_insert_eq. by apply refines_insert; [done|apply Hr|apply Hu].
Qed.

(** The exchange's answer, and what the client makes of it, as one step. *)
Lemma placed_step sys i rq creds mo k u executed answer :
  places lossy executed answer ->
  sys_threads sys !! i = Some {| th_request := Some rq; th_code := Call (BrokerPlaceMarketOrder creds mo) k u |} ->
  step lossy sys {|
    sys_orders := sys_orders sys;
    sys_executed := if executed : bool then rq :: sys_executed sys else sys_executed sys;
    sys_threads := <[i := {| th_request := Some rq;
                             th_code := match order_outcome answer with Some r => k r | None => u end |}]>
                     (sys_threads sys) |}.
Proof.
  intros [Ht Hr] Hi.
  pose proof (fun r => step_call lossy sys i (Some rq) (BrokerPlaceMarketOrder creds mo) k u r
    (sys_orders sys, if executed then rq :: sys_executed sys else sys_executed sys) Hi) as Hcall.
  pose proof (step_panic lossy sys i (Some rq) (BrokerPlaceMarketOrder creds mo) k u
    (sys_orders sys, if executed then rq :: sys_executed sys else sys_executed sys) Hi) as Hpanic.
  assert ((forall r, order_outcome answer <> Some (Ok r)) -> executed = true -> lossy = true) as Hlost.
  { intros Hno ->. destruct lossy; [done|].
    destruct Hr as (o & Ha & A1 & A2); [done..|].
    destruct (acknowledged_outcome _ _ Ha A1 A2) as [r Ho]. by destruct (Hno r). }
  destruct (order_outcome answer) as [[res|e]|] eqn:Eo.
  - apply order_outcome_acknowledged in Eo as [o ->%Ht]. by apply Hcall.
  - apply Hcall. split; [done|]. destruct executed; [|by left]. right. by rewrite Hlost.
  - apply Hpanic. split; [done|]. destruct executed; [|by left]. right. by rewrite Hlost.
Qed.

Lemma order_call_refines ws sys i hr k u answer e' :
  refines ws sys -> reachable lossy sys ->
  rp_threads ws !! i = Some (Call (ToExchange (DoRequest OrderBody hr)) k u) ->
  replica_env (ToExchange (DoRequest OrderBody hr)) (rp_orders ws, rp_executed ws) answer e' ->
  exists sys', rtc (step lossy) sys sys' /\
    refines {| rp_orders := e'.1; rp_executed := e'.2; rp_threads := <[i := k answer]> (rp_threads ws) |}
      sys'.
Proof.
  intros Hr Hreach Hi (E1 & executed & Hpl & E2). destruct e' as [t' executed']; simpl in *. subst t' executed'.
  destruct (refines_thread _ _ _ _ Hr Hi) as (req & p & Ht & creds & mo & k' & u' & Hid & Hs & Hk).
  specialize (Hk answer). pose proof (idles_steps _ _ _ _ _ Hid Ht) as Hsteps.
  set (sys1 := with_thread sys i req (Call (BrokerPlaceMarketOrder creds mo) k' u')) in *.
  assert (sys_threads sys1 !! i = Some {| th_request := req;
    th_code := Call (BrokerPlaceMarketOrder creds mo) k' u' |}) as Ht1
    by (apply with_thread_lookup; by eexists).
  destruct (sound_places req creds mo k' u') as (rq & intent & qty & -> & Hv & ->).
  { eapply ri_threads; [|exact Ht1]. apply (reachable_rows lossy). unfold reachable. by etrans. }
  eexists. split.
  - eapply rtc_r; [exact Hsteps|]. by apply (placed_step sys1 i rq _ _ k' u' executed answer).
  - simpl. rewrite list_insert_insert_eq, (rf_orders _ _ Hr). apply refines_insert; [done| |done].
    destruct executed; [|apply Hr]. constructor; [by exists intent, qty|apply Hr].
Qed.

(** A call on the side leaves the other system where it is. *)
Lemma side_call_refines ws sys i op k u r :
  refines ws sys -> rp_threads ws !! i = Some (Call op k u) -> on_the_side op = true ->
  refines {| rp_orders := rp_orders ws; rp_executed := rp_executed ws;
             rp_threads := <[i := k r]> (rp_threads ws) |} sys.
Proof.
  intros Hr Hi Ho. destruct (refines_thread _ _ _ _ Hr Hi) as (req & p & Ht & Hs).
  destruct sys as [t executed threads]. simpl in Ht.
  rewrite <- (list_insert_id threads i _ Ht), <- (rf_orders _ _ Hr).
  apply (refines_insert ws {| sys_orders := t; sys_executed := executed; sys_threads := threads |});
    [done|apply Hr|]. simpl.
  by destruct op as [op| |[| | | |[] hr|]| | |].
Qed.

Lemma call_refines ws sys i op k u r e' :
  refines ws sys -> reachable lossy sys -> rp_threads ws !! i = Some (Call op k u) ->
  replica_env op (rp_orders ws, rp_executed ws) r e' ->
  exists sys', rtc (step lossy) sys sys' /\
    refines {| rp_orders := e'.1; rp_executed := e'.2; rp_threads := <[i := k r]> (rp_threads ws) |} sys'.
Proof.
  intros Hr Hreach Hi He. destruct (on_the_side op) eqn:Ho.
  - exists sys. split; [done|].
    assert (e' = (rp_orders ws, rp_executed ws)) as -> by by destruct op as [op| |[| | | |[] hr|]| | |].
    by eapply side_call_refines.
  - destruct op as [op| |[| | | |[] hr|]| | |]; try done.
    + by eapply native_call_refines.
    + by eapply order_call_refines.
Qed.

Lemma spawn_refines ws sys th c :
  refines ws sys -> sim (th_code th) c -> step lossy sys
    {| sys_orders := sys_orders sys; sys_executed := sys_executed sys;
       sys_threads := sys_threads sys ++ [th] |} ->
  exists sys', rtc (step lossy) sys sys' /\
    refines {| rp_orders := rp_orders ws; rp_executed := rp_executed ws;
               rp_threads := rp_threads ws ++ [c] |} sys'.
Proof.
  intros [] Hs Hstep. eexists. split; [by apply rtc_once|].
  split; simpl; [done|done|]. apply Forall2_app; [done|]. by repeat constructor.
Qed.

Lemma step_refines ws ws' sys :
  refines ws sys -> reachable lossy sys -> replica_step ws ws' ->
  exists sys', rtc (step lossy) sys sys' /\ refines ws' sys'.
Proof.
  intros Hr Hreach Hstep.
  destruct Hstep as [ws i op k u r e' Hi He|ws i op k u e' Hi He|ws d fuel req|ws d event|ws i c Hi].
  - by eapply call_refines.
  - destruct op as [op| | | | |]; try done. by eapply native_panic_refines.
  - eapply spawn_refines; [done| |apply (step_trade lossy sys fuel (pregao_server d) req)].
    + apply sim_deployed.
    + intros f [= <-]. apply ProcessFill_promise.
  - eapply spawn_refines; [done| |apply (step_fill lossy sys (fill_processor d) event)].
    + apply sim_deployed.
    + apply ProcessFill_promise.
  - destruct (refines_thread _ _ _ _ Hr Hi) as (req & p & Ht & _). eexists. split.
    + apply rtc_once. by apply (step_crash lossy sys i).
    + rewrite (rf_orders _ _ Hr). apply refines_insert; [done|apply Hr|done].
Qed.

Lemma replicas_simulated ws :
  replicas_reach ws -> exists sys, reachable lossy sys /\ refines ws sys.
Proof.
  apply (rtc_preserves replica_step (fun ws => exists sys, reachable lossy sys /\ refines ws sys)).
  - intros ws1 ws2 (sys & Hreach & Hr) Hs.
    destruct (step_refines _ _ _ Hr Hreach Hs) as (sys' & Hsteps & Hr').
    exists sys'. split; [unfold reachable; by etrans|done].
  - exists initial. split; [constructor|]. split; [done|constructor|constructor].
Qed.

(** ** Runs *)

Lemma replica_thread_runs ws i (c : system unit) o e' :
  rp_threads ws !! i = Some c -> exec replica_env c (rp_orders ws, rp_executed ws) o e' ->
  exists ws', rtc replica_step ws ws' /\ rp_orders ws' = e'.1 /\ rp_executed ws' = e'.2.
Proof.
  revert ws. induction c as [a|m|op k IH u _]; intros ws Hi; simpl; [by intros [-> ->]; exists ws..|].
  intros (r & e1 & Hr & He).
  destruct (IH r {| rp_orders := e1.1; rp_executed := e1.2; rp_threads := <[i := k r]> (rp_threads ws) |})
    as (ws' & Hs & E).
  - apply list_lookup_insert_eq. by eapply lookup_lt_Some.
  - by destruct e1.
  - exists ws'. split; [|done]. eapply rtc_l; [|exact Hs]. by eapply replica_call.
Qed.

(** A request that arrives and runs alone. *)
Lemma replica_request_runs ws d fuel req o e' :
  exec replica_env (deployed d (ExecuteTrade fuel (pregao_server d) req ;;; Ret tt))
    (rp_orders ws, rp_executed ws) o e' ->
  exists ws', rtc replica_step ws ws' /\ rp_orders ws' = e'.1 /\ rp_executed ws' = e'.2.
Proof.
  set (c := deployed d _). intros He.
  destruct (replica_thread_runs {| rp_orders := rp_orders ws; rp_executed := rp_executed ws;
    rp_threads := rp_threads ws ++ [c] |} (length (rp_threads ws)) c o e')
    as (ws' & Hs & E); [by apply list_lookup_middle|exact He|].
  exists ws'. split; [|exact E]. eapply rtc_l; [apply replica_trade|exact Hs].
Qed.

(** C3: the replicas on the wires.  Whatever the deployed replicas do - any number of
    trade requests and fill events under any configurations, their requests to the vault,
    the exchange, Redis and the services interleaved at will, database statements that fail
    or panic before or after taking effect, threads that die half way - there is a state of
    the system of single calls with the same table, in which the broker executed, one by
    one, the orders the HTTP requests stand for that the exchange executed: each was signed for the
    symbol, side, cut quantity and trade intent of a valid request.  As long as the exchange's
    acknowledgements are not lost, no two of them were for the same intent, nor for the
    same tenant and non-empty idempotency key, and each has its row, with the data of the
    request. *)
Theorem replicas_on_the_wire ws :
  replicas_reach ws ->
  exists sys, reachable lossy sys /\ sys_orders sys = rp_orders ws /\
    Forall2 order_of_request (sys_executed sys) (rp_executed ws) /\
    (lossy = false ->
     NoDup (map request_intent (sys_executed sys)) /\
     NoDup (omap request_key (sys_executed sys)) /\
     forall req, req ∈ sys_executed sys ->
       exists id r, rp_orders ws !! id = Some r /\ row_of_request req r).
Proof.
  intros (sys & Hreach & Hr)%replicas_simulated. exists sys. split; [done|].
  split; [apply Hr|]. split; [apply Hr|]. intros ->.
  destruct (reachable_ok sys Hreach) as [phases Hok].
  rewrite <- (rf_orders _ _ Hr).
  split; [apply Hok|]. split; [apply Hok|]. intros req. by eapply executed_row.
Qed.
End Replicas.
