(* ===== verification/Bodies.v ===== *)
(** * Response bodies

    An answer of the exchange or of the vault carries a body that the client has to
    close.  The bodies a run holds open are a stack: an answer pushes its body, a close
    pops it.  Every program of the deployed system leaves the stack as it found it,
    whatever its calls answer and whichever of them panics. *)

From stdpp Require Import base tactics list strings gmap.
From Stdlib Require Import ZArith.
From S2P Require Import Prelude Exec Link GoStrings Json Decimal Http Vault VaultClient Clients.
From S2P Require Import Binance Effects Service Startup System.

#[local] Open Scope string_scope.
#[local] Open Scope Z_scope.
#[local] Open Scope go_scope.

(** ** Brackets

    A signature in which an answer may open a resource that another call closes. *)

Class Brackets {Op : Type} (Res : Op -> Type) (K : Type) := {
  opened : forall op, Res op -> option K;
  closed : Op -> option K;
}.

(** The open resources, the last one opened in front.  Only that one can be closed; a
    closing call that panics has closed as well. *)
Definition brackets {Op : Type} (Res : Op -> Type) {K : Type} `{!EqDecision K, !Brackets Res K}
    : protocol Res := {|
  phase := list K;
  permits op held :=
    match closed op with Some b => bool_decide (head held = Some b) | None => true end;
  answers _ _ := True;
  next op held r :=
    match closed op with Some _ => tail held | None => option_list (opened op r) ++ held end;
  unwinding op held := match closed op with Some _ => tail held | None => held end;
|}%list.

Section Balanced.
Context {Op : Type} {Res : Op -> Type} {K : Type} `{!EqDecision K, !Brackets Res K}.

Abbreviation bracket_wp :=
  (pwp (protocol_env (brackets Res)) (protocol_panics (brackets Res))
     (protocol_allowed (brackets Res))).

(** On every way out the stack is the one of the beginning. *)
Definition balanced {A} (p : prog Res A) : Prop :=
  forall held, bracket_wp p (fun _ held' => held' = held) held.

(** A call without resources. *)
Definition plain (op : Op) : Prop := closed op = None /\ forall r, opened op r = None.

Lemma balanced_ret {A} (a : A) : balanced (Ret (Res := Res) a).
Proof. done. Qed.

Lemma balanced_or_panic {A} msg (o : option A) : balanced (or_panic (Res := Res) msg o).
Proof. by destruct o. Qed.

Lemma balanced_bind {A B} (p : prog Res A) (f : A -> prog Res B) :
  balanced p -> (forall a, balanced (f a)) -> balanced (bind p f).
Proof.
  intros Hp Hf held. apply pwp_bind. eapply pwp_mono; [apply Hp|].
  intros [a|] held' ->; [apply Hf|done].
Qed.

Lemma pwp_defer_balanced {A} (f : prog Res unit) (p : prog Res A) held held' :
  balanced p -> bracket_wp f (fun _ h => h = held') held ->
  bracket_wp (defer f p) (fun _ h => h = held') held.
Proof.
  intros Hp Hf. apply pwp_defer. eapply pwp_mono; [apply Hp|]. by intros o h ->.
Qed.

Lemma balanced_defer {A} (f : prog Res unit) (p : prog Res A) :
  balanced f -> balanced p -> balanced (defer f p).
Proof. intros Hf Hp held. by apply pwp_defer_balanced. Qed.

Lemma balanced_call op : plain op -> balanced (call op).
Proof.
  intros [Hc Ho] held. split; [split|].
  - unfold protocol_allowed. simpl. by rewrite Hc.
  - intros h ->. simpl. by rewrite Hc.
  - intros r h [_ ->]. simpl. by rewrite Hc, Ho.
Qed.

(** A call that opens, answered for by a deferred close. *)
Lemma balanced_open {A} op (f : Res op -> prog Res A) :
  closed op = None ->
  (forall r held, bracket_wp (f r) (fun _ held' => held' = held)
     (option_list (opened op r) ++ held)%list) ->
  balanced (bind (call op) f).
Proof.
  intros Hc Hf held. split; [split|].
  - unfold protocol_allowed. simpl. by rewrite Hc.
  - intros h ->. simpl. by rewrite Hc.
  - intros r h [_ ->]. simpl. rewrite Hc. apply Hf.
Qed.

Lemma pwp_closing {A} op b (p : prog Res A) held :
  closed op = Some b -> balanced p ->
  bracket_wp (defer (call op ;;; Ret tt) p) (fun _ held' => held' = held) (b :: held).
Proof.
  intros Hc Hp. apply pwp_defer_balanced; [done|]. split; [split|].
  - unfold protocol_allowed. simpl. rewrite Hc. by apply bool_decide_eq_true_2.
  - intros h ->. simpl. by rewrite Hc.
  - intros r h [_ ->]. simpl. by rewrite Hc.
Qed.

(** A signature without resources. *)
Lemma balanced_plain {A} (p : prog Res A) : (forall op, plain op) -> balanced p.
Proof.
  intros Hop. induction p as [a|m|op k IH u IHu]; [done..|]. intros held.
  destruct (Hop op) as [Hc Ho]. split; [split|].
  - unfold protocol_allowed. simpl. by rewrite Hc.
  - intros h ->. simpl. rewrite Hc. apply IHu.
  - intros r h [_ ->]. simpl. rewrite Hc, Ho. apply IH.
Qed.
End Balanced.

(** ** Linked programs *)

Section Linked.
Context {Op1 : Type} {Res1 : Op1 -> Type} {Op2 : Type} {Res2 : Op2 -> Type}.
Context {K : Type} `{!EqDecision K, !Brackets Res1 K, !Brackets Res2 K}.

Lemma balanced_embed (f : Op1 -> Op2) (res : forall op, Res2 (f op) -> Res1 op)
    {A} (p : prog Res1 A) :
  (forall op, closed (f op) = closed op) ->
  (forall op r, opened (f op) r = opened op (res op r)) ->
  balanced p -> balanced (embed f res p).
Proof.
  intros Hc Ho Hp held. eapply pwp_embed, Hp.
  - intros op w. unfold protocol_allowed. simpl. by rewrite Hc.
  - intros op w w' ->. unfold protocol_panics. simpl. by rewrite Hc.
  - intros op w r w' [_ ->]. split; [done|]. simpl. by rewrite Hc, Ho.
Qed.

Context (h : forall op, prog Res2 (Res1 op)).

Lemma balanced_interp {A} (p : prog Res1 A) :
  (forall op, balanced (h op)) -> balanced (interp h p).
Proof.
  intros Hh. induction p as [a|m|op k IH u IHu]; [done..|]. intros held.
  apply pwp_catching. eapply pwp_mono; [apply Hh|]. intros [r|] held' ->; [apply IH|].
  eapply pwp_mono; [apply IHu|]. done.
Qed.
End Linked.

(** ** The bodies of the deployed system *)

Inductive OpenBody := ExchangeBody (k : BodyKind) | VaultBody (k : DecryptKind).

#[local] Instance BodyKind_dec : EqDecision BodyKind.
Proof. solve_decision. Defined.
#[local] Instance DecryptKind_dec : EqDecision DecryptKind.
Proof. solve_decision. Defined.
#[export] Instance OpenBody_dec : EqDecision OpenBody.
Proof. solve_decision. Defined.

#[export] Instance exchange_bodies : Brackets HttpRes OpenBody := {|
  opened op :=
    match op return HttpRes op -> option OpenBody with
    | DoRequest k _ => fun r => if is_ok r then Some (ExchangeBody k) else None
    | _ => fun _ => None
    end;
  closed op := match op with CloseBody k => Some (ExchangeBody k) | _ => None end;
|}.

#[export] Instance vault_bodies : Brackets VaultRes OpenBody := {|
  opened op :=
    match op return VaultRes op -> option OpenBody with
    | VDo k _ => fun r => if is_ok r then Some (VaultBody k) else None
    | _ => fun _ => None
    end;
  closed op := match op with VClose k => Some (VaultBody k) | _ => None end;
|}.

(** Redis and the gRPC clients have no bodies to close. *)
Definition no_bodies {Op : Type} (Res : Op -> Type) : Brackets Res OpenBody :=
  {| opened _ _ := None; closed _ := None |}.

#[export] Instance system_bodies : Brackets SysRes OpenBody := {|
  opened op :=
    match op return SysRes op -> option OpenBody with
    | ToVault op => opened op
    | ToExchange op => opened op
    | _ => fun _ => None
    end;
  closed op :=
    match op with ToVault op => closed op | ToExchange op => closed op | _ => None end;
|}.

Create HintDb balanced.
#[export] Hint Resolve balanced_ret balanced_or_panic balanced_bind balanced_defer
  balanced_call : balanced.
#[export] Hint Extern 2 (plain _) => split; [reflexivity|done] : balanced.
#[export] Hint Extern 3 (balanced (match ?x with _ => _ end)) => destruct x : balanced.

Section Clients.
Context `{GoUnicode} `{JsonUnicode} `{Hmac}.

Lemma send_balanced {A} k r m1 m2 (handle : Response (Body k) -> http (Result A)) :
  (forall resp, balanced (handle resp)) -> balanced (send k r m1 m2 handle).
Proof.
  intros Hh. apply balanced_bind; [auto with balanced|]. intros [[]|e]; [|auto with balanced].
  apply balanced_open; [done|]. intros [resp|e] held; [|done].
  by apply (pwp_closing (CloseBody k)).
Qed.

Lemma with_credentials_balanced {A} creds msg (body : list Z -> list Z -> http (Result A)) :
  (forall key secret, balanced (body key secret)) -> balanced (with_credentials creds msg body).
Proof. intros Hb. unfold with_credentials, http_do. auto 9 with balanced. Qed.

#[local] Hint Resolve send_balanced with_credentials_balanced : balanced.

Context (c : binanceClient).

Lemma GetBookTickers_balanced symbols : balanced (GetBookTickers c symbols).
Proof. unfold GetBookTickers. auto 12 with balanced. Qed.

Lemma ValidateSymbols_balanced symbols : balanced (ValidateSymbols c symbols).
Proof. unfold ValidateSymbols. auto 12 with balanced. Qed.

Lemma PlaceMarketOrder_balanced creds req : balanced (PlaceMarketOrder c creds req).
Proof. unfold PlaceMarketOrder, place_order, http_do. auto 14 with balanced. Qed.

Lemma GetAccountBalances_balanced creds : balanced (GetAccountBalances c creds).
Proof. unfold GetAccountBalances, http_do. auto 12 with balanced. Qed.

Context (v : openBaoTransitClient).

Lemma base64_decode_balanced s : balanced (base64_decode s).
Proof. unfold base64_decode, vault_do. auto 9 with balanced. Qed.

Lemma new_creds_balanced key secret : balanced (new_creds key secret).
Proof. apply balanced_call. by split. Qed.

#[local] Hint Resolve base64_decode_balanced new_creds_balanced : balanced.

Lemma Decrypt_balanced ct : balanced (Decrypt v ct).
Proof.
  unfold Decrypt. destruct (String.eqb (TrimSpace ct) ""); [done|].
  apply balanced_bind; [unfold vault_do; auto with balanced|]. intros [[]|e]; [|done].
  apply balanced_open; [done|]. intros [resp|e] held; [|done].
  apply (pwp_closing (VClose SingleDecrypt)); [done|]. auto 9 with balanced.
Qed.

#[local] Hint Resolve Decrypt_balanced : balanced.

Lemma decrypt_each_balanced ct1 ct2 : balanced (decrypt_each v ct1 ct2).
Proof. unfold decrypt_each, vault_do. auto 12 with balanced. Qed.

Lemma decrypt_batch_balanced resp : balanced (decrypt_batch resp).
Proof. unfold decrypt_batch. auto 14 with balanced. Qed.

#[local] Hint Resolve decrypt_each_balanced decrypt_batch_balanced : balanced.

Lemma DecryptCredentials_balanced ct1 ct2 : balanced (DecryptCredentials v ct1 ct2).
Proof.
  unfold DecryptCredentials.
  apply balanced_bind; [unfold vault_do; auto with balanced|]. intros [[]|e]; [|auto with balanced].
  apply balanced_open; [done|].
  intros [resp|e] held; [|apply decrypt_each_balanced].
  apply (pwp_closing (VClose BatchDecrypt)); [done|]. auto 9 with balanced.
Qed.

End Clients.

(** ** The deployed service *)

Section Deployed.
Context `{GoUnicode} `{JsonUnicode} `{Hmac}.
Context (d : Deployment).

Lemma over_exchange_balanced {A} (p : http A) : balanced p -> balanced (over_exchange p).
Proof. by apply balanced_embed. Qed.

Lemma over_vault_balanced {A} (p : transit A) : balanced p -> balanced (over_vault p).
Proof. by apply balanced_embed. Qed.

(** The clients of the other collaborators. *)
Lemma bodiless_balanced {Op1 : Type} {Res1 : Op1 -> Type} (f : Op1 -> SysOp)
    (res : forall op, SysRes (f op) -> Res1 op) {A} (p : prog Res1 A) :
  (forall op, plain (f op)) -> balanced (embed f res p).
Proof.
  intros Hf. pose (no_bodies Res1) as Hno. eapply (balanced_embed (Brackets0 := Hno)).
  - intros op. by destruct (Hf op).
  - intros op r. by destruct (Hf op).
  - by apply balanced_plain.
Qed.

Lemma native_balanced op : balanced (native d op).
Proof. unfold native. destruct (_ && _); [done|]. by apply (balanced_call (Res := SysRes)). Qed.

#[local] Hint Resolve GetBookTickers_balanced ValidateSymbols_balanced
  PlaceMarketOrder_balanced GetAccountBalances_balanced DecryptCredentials_balanced : balanced.

Lemma deploy_balanced op : balanced (deploy d op).
Proof.
  destruct op; first
    [ exact (native_balanced _)
    | apply over_exchange_balanced; auto with balanced; fail
    | apply over_vault_balanced; auto with balanced; fail
    | by apply bodiless_balanced ].
Qed.
End Deployed.

(** C15: no response body is leaked.  In a run of any program of the deployed service -
    every handler and the fill processor - whatever its calls answer and whichever of
    them panics, each body received from the exchange or the vault is closed exactly once:
    a close is that of the body received last and not yet closed, and at the end of the
    run, a panic included, none is open. *)
Theorem bodies_closed `{GoUnicode} `{JsonUnicode} `{Hmac} d {A} (p : service A) tr out :
  runs (deployed d p) tr out -> follow_run (brackets SysRes) [] tr = Some [].
Proof.
  intros Hr. destruct (pwp_follow (brackets SysRes) _ (fun _ held => held = []) [] tr out
    (balanced_interp _ p (deploy_balanced d) [])) as (held & Hf & ->); [done| |done].
  by apply Forall_true.
Qed.
