(* ===== verification/Demo.v ===== *)
(** * Concrete collaborators

    A rounding [NUMERIC] column, a request, a server, and collaborators that answer in a
    fixed way: the inputs on which the theorems of the library are evaluated. *)

From stdpp Require Import base tactics list strings gmap.
From Stdlib Require Import Ascii ZArith QArith Lia Lqa.
From S2P Require Import Prelude Exec GoStrings Uuid Broker Vault Decimal DecimalSpec Db Clients.
From S2P Require Import Cache Effects Worker Service TradeProtocol CredsSafety Concurrency.
From S2P Require Import Liveness.

#[local] Open Scope string_scope.
#[local] Open Scope Z_scope.

#[export] Existing Instance ascii_only.

(** ** Columns *)

(** [v / k] rounded to the nearest integer, ties away from zero. *)
Definition round_div (v k : Z) : Z := Z.sgn v * ((2 * Z.abs v + k) / (2 * k)).

(** [d * 10 ^ s] rounded to an integer. *)
Definition scaled (s : Z) (d : Decimal) : Z :=
  let e := d_exp d + s in
  if 0 <=? e then d_value d * 10 ^ e else round_div (d_value d) (10 ^ (- e)).

(** The first [n] characters, when only spaces follow. *)
Fixpoint cut (n : nat) (s : string) : option string :=
  match n, s with
  | _, "" => Some ""
  | O, s => if str_forallb (Ascii.eqb " "%char) s then Some "" else None
  | S n, String c s => option_map (String c) (cut n s)
  end.

#[export] Instance demo_types : PgTypes := {|
  numeric p s d :=
    if (0 <=? s) && (s <=? p) && (p <=? 1000) then
      if Z.abs (scaled s d) <? 10 ^ p then Some (mkDecimal (scaled s d) (- s)) else None
    else None;
  character limit s :=
    if plain_text s then match limit with Some n => cut (Z.to_nat n) s | None => Some s end else None;
  timestamptz t := t / 1000 * 1000;
|}.

Lemma cut_fits n s : (String.length s <= n)%nat -> cut n s = Some s.
Proof.
  revert n. induction s as [|c s IH]; intros [|n]; simpl; try done; [lia|]. intros Hl.
  by rewrite IH by lia.
Qed.

Lemma cut_length n s s' : cut n s = Some s' -> (String.length s' <= n)%nat.
Proof.
  revert n s'. induction s as [|c s IH]; intros [|n] s'; simpl; try (intros [= <-]; simpl; lia).
  - destruct (_ && _); [|done]. intros [= <-]. simpl. lia.
  - destruct (cut n s) as [t|] eqn:E; [|done]. intros [= <-]. simpl. apply IH in E. lia.
Qed.

Lemma cut_plain n s s' : cut n s = Some s' -> plain_text s = true -> plain_text s' = true.
Proof.
  unfold plain_text. revert n s'. induction s as [|c s IH]; intros [|n] s'; simpl; try by intros [= <-].
  - destruct (_ && _); [|done]. by intros [= <-].
  - destruct (cut n s) as [t|] eqn:E; [|done]. intros [= <-]. simpl.
    intros [-> Hs]%andb_true_iff. by eapply IH.
Qed.

Lemma demo_numeric_eq p s d :
  0 <= s <= p -> p <= 1000 ->
  numeric p s d = if Z.abs (scaled s d) <? 10 ^ p then Some (mkDecimal (scaled s d) (- s)) else None.
Proof.
  intros Hs Hp. unfold numeric, demo_types.
  rewrite !(proj2 (Z.leb_le _ _)) by lia. done.
Qed.

Lemma round_div_spec v k : 0 < k -> rounds_half_away (inject_Z v / inject_Z k) (round_div v k).
Proof.
  intros Hk. unfold round_div. set (m := (2 * Z.abs v + k) / (2 * k)).
  pose proof (Z_div_mod_eq_full (2 * Z.abs v + k) (2 * k)) as Hd.
  pose proof (Z.mod_pos_bound (2 * Z.abs v + k) (2 * k) ltac:(lia)) as Hm. fold m in Hd.
  set (r := (2 * Z.abs v + k) mod (2 * k)) in *.
  assert (0 <= m) as Hm0 by (apply Z.div_pos; lia).
  assert (2 * (m * k - Z.abs v) = k - r) as Hdiff by lia.
  assert (Z.sgn v * m * k - v = Z.sgn v * (m * k - Z.abs v)) as Hs.
  { rewrite <- (Z.abs_sgn v) at 2. ring. }
  apply rounds_half_away_frac; [lia|..]; rewrite Hs, Z.abs_mul, (Z.abs_eq k) by lia;
    destruct (Z.sgn_spec v) as [[? E]|[[? E]|[? E]]]; rewrite E; simpl Z.abs at 1;
    rewrite ?Z.abs_mul; try lia; nia.
Qed.

Lemma scaled_rounds s d : rounds_half_away (dval d * p10 s) (scaled s d).
Proof.
  unfold scaled, dval. rewrite <- Qmult_assoc, <- p10_add.
  destruct (Z.leb_spec 0 (d_exp d + s)) as [He|He].
  - rewrite p10_Z, <- inject_Z_mult by done. apply rounds_half_away_int.
  - assert (inject_Z (d_value d) * p10 (d_exp d + s)
      == inject_Z (d_value d) / inject_Z (10 ^ (- (d_exp d + s))))%Q as ->.
    { rewrite <- p10_Z by lia. rewrite p10_inv. reflexivity. }
    apply round_div_spec. apply pow10_pos. lia.
Qed.

Lemma demo_character limit s s' :
  character limit s = Some s' ->
  plain_text s' = true /\ match limit with Some n => Z.of_nat (String.length s') <= Z.max 0 n | None => True end.
Proof.
  simpl. destruct (plain_text s) eqn:E; [|done]. destruct limit as [n|]; [|by intros [= <-]].
  intros Hc. split; [by eapply cut_plain|]. apply cut_length in Hc. lia.
Qed.

#[export] Instance demo_types_laws : PgTypesLaws.
Proof.
  split.
  - intros p s d d' Hs Hp. rewrite demo_numeric_eq by done.
    destruct (Z.ltb_spec (Z.abs (scaled s d)) (10 ^ p)); [|done].
    intros [= <-]. eexists. split; [apply scaled_rounds|]. split; [done|]. reflexivity.
  - intros p s d n Hs Hp Hr Hn. rewrite demo_numeric_eq by done.
    rewrite (rounds_half_away_unique _ _ _ (scaled_rounds s d) Hr).
    destruct (Z.ltb_spec (Z.abs n) (10 ^ p)); [eauto|lia].
  - intros p s d d' Hs Hp. rewrite demo_numeric_eq by done.
    destruct (_ <? _); [|done]. intros [= <-]. simpl. lia.
  - intros n s Hp Hl. simpl. rewrite Hp. apply cut_fits. lia.
  - intros limit s s' [Hp Hl]%demo_character. simpl. rewrite Hp.
    destruct limit as [n|]; [|done]. apply cut_fits. lia.
  - intros limit s s' [Hp _]%demo_character. simpl. by rewrite Hp.
  - intros n s Hn. simpl. destruct (plain_text s); [|done].
    destruct (Z.to_nat n) as [|k] eqn:E; [lia|]. destruct s as [|c s]; [done|]. simpl.
    by destruct (cut k s).
Qed.

(** ** A request and a server *)

Definition demo_request : ExecuteTradeRequest := {|
  et_TradeIntentId := "6ba7b810-9dad-11d1-80b4-00c04fd430c8";
  et_TenantId := "tenant-1";
  et_UserId := "user-1";
  et_Provider := "";
  et_Symbol := "btcusdt";
  et_Side := ExecuteTradeRequest_BUY;
  et_Quantity := "0.5";
  et_IdempotencyKey := "key-1";
  et_PortfolioId := "portfolio-1";
  et_LivroHoldId := "" |}.

Definition demo_uuid : UUID := mkUUID (replicate 16 7).
Definition other_uuid : UUID := mkUUID (replicate 16 9).

Definition demo_server : PregaoServer :=
  NewPregaoServer {| sp_DefaultBroker := 0; sp_LivroClient := true;
    sp_FillProcessor := Some (ProcessFill (NewFillProcessor true false)) |}.

#[export] Instance demo_server_ok : ServerOk demo_server.
Proof. intros f [= <-]. apply _. Defined.

Definition demo_result : OrderResult := {|
  or_ProviderOrderID := "4242";
  or_Status := StatusFilled;
  or_ExecutedQuantity := New 5 (-1);
  or_CumulativeQuoteQuantity := New 30000 0;
  or_AveragePrice := New 60000 0 |}.

(** The order as the table would hold it. *)
Definition demo_order : BrokerOrder := {|
  bo_ID := demo_uuid;
  bo_TradeIntentID := other_uuid;
  bo_TenantID := "tenant-1";
  bo_UserID := "user-1";
  bo_Provider := "BINANCE";
  bo_ProviderOrderID := "4242";
  bo_Symbol := "BTCUSDT";
  bo_Side := SideBuy;
  bo_TargetQuantity := New 5 (-1);
  bo_Status := StatusSubmitted;
  bo_FilledQuantity := New 2 (-1);
  bo_AverageFillPrice := New 59000 0;
  bo_IdempotencyKey := "key-1";
  bo_PortfolioID := "portfolio-1";
  bo_LivroHoldID := "";
  bo_CreatedAt := 1;
  bo_UpdatedAt := 1 |}.

Definition demo_fill : FillEvent := {|
  fe_Provider := "BINANCE";
  fe_ProviderOrderID := "4242";
  fe_Symbol := "BTCUSDT";
  fe_Side := SideBuy;
  fe_Status := StatusPartial;
  fe_ExecutedQuantity := New 1 (-1);
  fe_FillPrice := New 60000 0 |}.

(** ** Collaborators that answer the same every time *)

Definition failure {A} : Result A := Err (ErrMsg "unavailable").

Definition demo_answer (op : Op) : Res op :=
  match op return Res op with
  | TimeNow => 1
  | UuidNew => demo_uuid
  | SelectDoneOrAfter _ => None
  | CredsZero _ => tt
  | OrdersReserve o => (reserve_prepare demo_uuid 1 o, Ok true)
  | OrdersGetByIntent _ | OrdersGetByIdempotencyKey _ _
  | OrdersGetByProviderOrderID _ _ => Ok demo_order
  | OrdersConfirm _ _ _ _ _ | OrdersRelease _ | OrdersUpdateFill _ _ _ _ _ => Ok tt
  | CredentialsGet tenant provider => Ok {|
      bc_ID := demo_uuid; bc_TenantID := tenant; bc_Provider := provider;
      bc_APIKeyCiphertext := "vault:v1:a"; bc_APISecretCiphertext := "vault:v1:b";
      bc_CreatedAt := 1 |}
  | VaultDecryptCredentials _ _ => Ok 0%nat
  | BrokerGetBookTickers _ => failure
  | BrokerValidateSymbols _ => failure
  | BrokerPlaceMarketOrder _ _ => Ok demo_result
  | BrokerGetAccountBalances _ => Ok {["USD" := New 100 0]}
  | CacheGetQuotes _ symbols => (∅, symbols, None)
  | CacheSetQuotes _ _ _ => Ok tt
  | CacheGetStaleQuotes _ _ => Ok {["BTCUSDT" := {|
      cq_Symbol := "BTCUSDT"; cq_Price := New 60000 0; cq_Timestamp := 1;
      cq_IsStaleCache := true |}]}
  | LivroCaptureHold _ | LivroCredit _ => Ok tt
  | LivroGetBalance _ => Ok (New 99 0)
  | LivroGetOrCreateBrokerAccount _ => Ok "clearing"
  | AtivosSyncBrokerExecution _ => Ok tt
  end.

(** The same, with the reservation taken by someone who has settled. *)
Definition taken_answer (op : Op) : Res op :=
  match op return Res op with
  | OrdersReserve o => (reserve_prepare demo_uuid 1 o, Ok false)
  | op => demo_answer op
  end.

Lemma demo_answers_ok s req op : answers (trade_protocol s req) op (demo_answer op).
Proof. destruct op; simpl; eauto. Qed.

Lemma taken_answers_ok s req op : answers (trade_protocol s req) op (taken_answer op).
Proof. destruct op; simpl; eauto. Qed.

(** The exchange client panics on the order. *)
Definition panicking_answer (op : Op) : option (Res op) :=
  match op return option (Res op) with
  | BrokerPlaceMarketOrder _ _ => None
  | op => Some (demo_answer op)
  end.

Lemma panicking_answers_ok s req op r :
  panicking_answer op = Some r -> answers (trade_protocol s req) op r.
Proof.
  intros E. assert (Some (demo_answer op) = Some r) as [= <-] by by destruct op.
  apply demo_answers_ok.
Qed.

(** ** A heap of credentials *)

(** The vault hands out the buffers 0 and 1 once. *)
Definition heap_answer (op : Op) (w : CredWorld) : Res op * CredWorld :=
  match op return Res op * CredWorld with
  | CredsZero p => (tt, {| cw_heap := Vault.Zero (Some p) (cw_heap w); cw_handed := cw_handed w |})
  | VaultDecryptCredentials _ _ =>
      let h := cw_heap w in
      match structs h !! 0%nat, buffers h !! 0%nat, buffers h !! 1%nat with
      | None, None, None =>
          (Ok 0%nat, {|
             cw_heap := {|
               structs := <[0%nat := {| APIKey := Some 0%nat; APISecret := Some 1%nat |}]> (structs h);
               buffers := <[0%nat := [11; 12; 13]]> (<[1%nat := [21; 22]]> (buffers h)) |};
             cw_handed := 0%nat :: 1%nat :: cw_handed w |})
      | _, _, _ => (failure, w)
      end
  | op => (demo_answer op, w)
  end.

Definition empty_heap : CredWorld :=
  {| cw_heap := {| structs := ∅; buffers := ∅ |}; cw_handed := [] |}.

Lemma heap_answer_env op w : cred_env op w (heap_answer op w).1 (heap_answer op w).2.
Proof.
  destruct op; simpl; try (split; [apply tame_refl|done]); [done|].
  destruct (structs (cw_heap w) !! 0%nat) eqn:E1, (buffers (cw_heap w) !! 0%nat) eqn:E2,
    (buffers (cw_heap w) !! 1%nat) eqn:E3; simpl; try (split; [apply tame_refl|done]).
  exists {| APIKey := Some 0%nat; APISecret := Some 1%nat |}.
  split; [|split; [done|split; [|split; [|done]]]].
  - apply alloc_tame; simpl; [by apply insert_subseteq|].
    etrans; [by apply insert_subseteq|]. apply insert_subseteq.
    etrans; [by apply lookup_insert_ne|done].
  - apply lookup_insert_eq.
  - repeat constructor; simpl.
    + eexists. apply lookup_insert_eq.
    + eexists. etrans; [by apply lookup_insert_ne|apply lookup_insert_eq].
Qed.

Definition panicking_heap (op : Op) (w : CredWorld) : option (Res op) * CredWorld :=
  match op return option (Res op) * CredWorld with
  | BrokerPlaceMarketOrder _ _ => (None, w)
  | op => let '(r, w') := heap_answer op w in (Some r, w')
  end.

Lemma panicking_heap_env op w :
  match (panicking_heap op w).1 with
  | Some r => cred_env op w r (panicking_heap op w).2
  | None => cred_panics op w (panicking_heap op w).2
  end.
Proof.
  pose proof (heap_answer_env op w) as Hh.
  destruct op; try exact Hh.
  unfold panicking_heap. by destruct (heap_answer _ w).
Qed.

(** ** A clock *)

Definition clock_env (op : Op) : Z -> Res op -> Z -> Prop :=
  match op return Z -> Res op -> Z -> Prop with
  | TimeNow => fun w t w' => t = w /\ w' = w
  | SelectDoneOrAfter d => fun w _ w' => w' = w + Z.max 0 d
  | _ => fun w _ w' => w' = w
  end.

Definition clock_answer (op : Op) (w : Z) : Res op * Z :=
  match op return Res op * Z with
  | TimeNow => (w, w)
  | SelectDoneOrAfter d => (None, w + Z.max 0 d)
  | op => (demo_answer op, w)
  end.

#[export] Instance demo_clock : ClockEnv clock_env (fun w => w).
Proof.
  split.
  - intros w t w' [-> ->]. lia.
  - intros op w r w' Hr. destruct op; simpl in Hr; solve [lia | destruct Hr; lia].
  - intros d w w' Hr. simpl in Hr. lia.
  - intros op w. exists (clock_answer op w).1, (clock_answer op w).2. by destruct op.
Defined.

(** The same clock, with the answers of [demo_answer]. *)
Definition answered_env (op : Op) (w : Z) (r : Res op) (w' : Z) : Prop := (r, w') = clock_answer op w.

#[export] Instance answered_clock : ClockEnv answered_env (fun w => w).
Proof.
  split.
  - intros w t w' [= -> ->]. lia.
  - intros op w r w' Hr. unfold answered_env in Hr. destruct op; simpl in Hr; injection Hr; lia.
  - intros d w w' [= ->]. lia.
  - intros op w. exists (clock_answer op w).1, (clock_answer op w).2.
    unfold answered_env. by destruct (clock_answer op w).
Defined.

#[export] Instance answered_amounts : PlainAmounts answered_env.
Proof.
  split.
  - intros creds mo w r w' [= -> _]. by vm_compute.
  - intros provider pid w o w' [= -> _]. by vm_compute.
Defined.

(** ** The shared table *)

(** A database without faults, and a broker whose answer is given. *)
Definition table_answer (placed : Result OrderResult) (executes : bool)
    (op : Op) (e : OrderTable * list ExecuteTradeRequest)
    : Res op * (OrderTable * list ExecuteTradeRequest) :=
  let '(t, executed) := e in
  match op return Res op * (OrderTable * list ExecuteTradeRequest) with
  | OrdersReserve o =>
      let '(o', r, t') := ReserveOrder NoFault demo_uuid 1 o t in ((o', r), (t', executed))
  | OrdersGetByIntent i => (GetOrderByIntentID NoFault 0 i t, e)
  | OrdersGetByIdempotencyKey tenant key => (GetOrderByIdempotencyKey NoFault 0 tenant key t, e)
  | OrdersGetByProviderOrderID provider pid => (GetOrderByProviderOrderID NoFault 0 provider pid t, e)
  | OrdersConfirm id pid status q p =>
      let '(r, t') := ConfirmOrder NoFault 2 id pid status q p t in (r, (t', executed))
  | OrdersRelease id => let '(r, t') := ReleaseOrder NoFault id t in (r, (t', executed))
  | OrdersUpdateFill provider pid status q p =>
      let '(r, t') := UpdateOrderFill NoFault 3 provider pid status q p t in (r, (t', executed))
  | BrokerPlaceMarketOrder _ _ =>
      (placed, (t, if executes then demo_request :: executed else executed))
  | op => (demo_answer op, e)
  end.

Lemma table_answer_env lossy req placed executes op e :
  executes = is_ok placed || lossy -> (executes = true -> req = Some demo_request) ->
  shared_env lossy req op e
    (table_answer placed executes op e).1 (table_answer placed executes op e).2.
Proof.
  destruct e as [t executed]. intros -> Hreq.
  destruct op; simpl; try done; try (by exists NoFault, 0%nat).
  - destruct (ReserveOrder NoFault demo_uuid 1 o t) as [[o' r] t'] eqn:E.
    exists NoFault, demo_uuid, 1. done.
  - destruct (ConfirmOrder NoFault 2 _ _ _ _ _ t) as [r t'] eqn:E. by exists NoFault, 2.
  - destruct (ReleaseOrder NoFault id t) as [r t'] eqn:E. by exists NoFault.
  - destruct (UpdateOrderFill NoFault 3 _ _ _ _ _ t) as [r t'] eqn:E. by exists NoFault, 3.
  - split; [done|]. destruct placed, lossy; simpl; rewrite ?Hreq by done; simpl; auto.
Qed.

(** ** A duplicate request *)

(** The order of [demo_request], and the table before and after it is confirmed. *)
Definition reserved_order : BrokerOrder :=
  match validate_trade demo_request with
  | Ok (intent, qty) => new_order demo_uuid intent "BINANCE" qty demo_request
  | Err _ => demo_order
  end.
Definition demo_intent : UUID := bo_TradeIntentID reserved_order.
Definition pending_table : OrderTable := (ReserveOrder NoFault demo_uuid 1 reserved_order ∅).2.
Definition settled_table : OrderTable :=
  (ConfirmOrder NoFault 2 demo_uuid "4242" StatusFilled (New 5 (-1)) (New 60000 0) pending_table).2.

(** Another request settles the order five seconds from now. *)
Definition settle_time : Z := 5 * Second.
Definition contended_table (now : Z) : OrderTable :=
  if now <? settle_time then pending_table else settled_table.

Definition contended_env (op : Op) : Z -> Res op -> Z -> Prop :=
  match op return Z -> Res op -> Z -> Prop with
  | TimeNow => fun w t w' => t = w /\ w' = w
  | SelectDoneOrAfter d => fun w r w' => r = None /\ w' = w + Z.max 0 d
  | OrdersReserve o => fun w r w' => r = (o, Ok false) /\ w' = w
  | OrdersGetByIntent i => fun w r w' => r = GetOrderByIntentID NoFault 0 i (contended_table w) /\ w' = w
  | _ => fun w _ w' => w' = w
  end.

Definition contended_answer (op : Op) (w : Z) : Res op * Z :=
  match op return Res op * Z with
  | OrdersReserve o => ((o, Ok false), w)
  | OrdersGetByIntent i => (GetOrderByIntentID NoFault 0 i (contended_table w), w)
  | op => clock_answer op w
  end.

#[export] Instance contended_clock : ClockEnv contended_env (fun w => w).
Proof.
  split.
  - intros w t w' [-> ->]. lia.
  - intros op w r w' Hr. destruct op; simpl in Hr; solve [lia | destruct Hr; lia].
  - intros d w w' Hr. simpl in Hr. lia.
  - intros op w. exists (contended_answer op w).1, (contended_answer op w).2. by destruct op.
Defined.

(** The row of the settled order, as the lookup returns it. *)
Definition settled_order : BrokerOrder :=
  match GetOrderByIntentID NoFault 0 demo_intent settled_table with
  | Ok o => o
  | Err _ => demo_order
  end.

Lemma contended_settles :
  SettlesAt contended_env (fun w => w) demo_intent settled_order settle_time 0.
Proof.
  split.
  - vm_compute. congruence.
  - intros op w r w' Hop Hr. destruct op; simpl in Hr; try done; solve [lia | destruct Hr; lia].
  - by intros o w r w' Ho [-> ->].
  - intros w r w' [-> ->]. unfold contended_table. destruct (Z.ltb_spec w settle_time).
    + right. split; [done|]. eexists. by split; [vm_compute; reflexivity|].
    + left. vm_compute. reflexivity.
  - by intros d w r w' [-> _].
Qed.

(** ** The value of a run *)

Definition is_answer {A} (o : option (Result A)) : bool :=
  match o with Some (Ok _) => true | _ => false end.

Definition answer_of {A} (d : A) (o : option (Result A)) : A :=
  match o with Some (Ok a) => a | _ => d end.

Lemma answer_of_run {A} (d : A) o : is_answer o = true -> o = Some (Ok (answer_of d o)).
Proof. by destruct o as [[a|e]|]. Qed.
