(* ===== verification/Witnesses.v ===== *)
(** * The theorems on concrete inputs

    Each theorem of the library that has hypotheses, applied to inputs on which they
    hold, and the scenario of a lost acknowledgement. *)

From stdpp Require Import base tactics list strings gmap relations.
From Stdlib Require Import ZArith QArith Lia Lqa.
From S2P Require Import Prelude Exec GoStrings Uuid Broker Vault Decimal DecimalSpec.
From S2P Require Import DecimalText DecimalTheorems Db DbSpec DbTheorems Clients Cache Effects.
From S2P Require Import Worker WorkerSpec Service TradeProtocol TradeTheorems Json Http Url Binance.
From S2P Require Import BinanceSpec BinanceQueries CredsSafety Concurrency OrderRows FillHistory Liveness ServiceTheorems Demo.

#[local] Open Scope string_scope.
#[local] Open Scope Z_scope.

(** ** One request *)

Definition accepted_run := run_trace demo_answer (ExecuteTrade 1 demo_server demo_request).
Definition replayed_run := run_trace taken_answer (ExecuteTrade 1 demo_server demo_request).
Definition panicked_run := run_calls panicking_answer (ExecuteTrade 1 demo_server demo_request).

Lemma ExecuteTrade_protocol_witness :
  accepted_run.2 = Some (Ok {| er_ProviderOrderId := "4242"; er_Status := "FILLED" |}) /\
  exists ph, follow_run (trade_protocol demo_server demo_request) Idle (map Answered accepted_run.1)
      = Some ph /\
    trade_ends demo_request accepted_run.2 ph.
Proof.
  split; [vm_compute; reflexivity|].
  apply (ExecuteTrade_protocol 1 demo_server demo_request).
  - apply traces_runs, run_trace_traces.
  - rewrite answers_in_all. apply run_trace_answered, demo_answers_ok.
Defined.

(** The call to the broker panics: the reservation is given back. *)
Lemma ExecuteTrade_reservation_balance_witness :
  count placed panicked_run.1 = 1%nat /\ count released panicked_run.1 = 1%nat /\
  panicked_run.2 = None /\
  (length (acks_in panicked_run.1) <= count placed panicked_run.1
     <= count reserved panicked_run.1)%nat /\
  (count released panicked_run.1 <= count reserved panicked_run.1 <= 1)%nat /\
  (count released (panicked_run.1 ++ []) + length (acks_in (panicked_run.1 ++ []))
     = count reserved (panicked_run.1 ++ []))%nat.
Proof.
  do 3 (split; [vm_compute; reflexivity|]).
  apply (ExecuteTrade_reservation_balance 1 demo_server demo_request _ _ panicked_run.2);
    rewrite app_nil_r.
  - apply run_calls_runs.
  - apply run_calls_answered, panicking_answers_ok.
Defined.

Lemma ExecuteTrade_replay_witness :
  count placed (map Answered replayed_run.1) = 0%nat /\
  count reserved (map Answered replayed_run.1) = 0%nat /\
  exists e, Exists (fun v => found_order v = Some e) (answers_in (map Answered replayed_run.1)) /\
    bo_Status e <> StatusPending /\
    {| er_ProviderOrderId := "4242"; er_Status := "SUBMITTED" |}
      = {| er_ProviderOrderId := bo_ProviderOrderID e; er_Status := bo_Status e |}.
Proof.
  apply (ExecuteTrade_replay 1 demo_server demo_request).
  - assert (replayed_run.2 = Some (Ok {| er_ProviderOrderId := "4242"; er_Status := "SUBMITTED" |}))
      as <- by (vm_compute; reflexivity).
    apply traces_runs, run_trace_traces.
  - rewrite answers_in_all. apply run_trace_answered, taken_answers_ok.
  - vm_compute. reflexivity.
Defined.

Lemma ExecuteTrade_accepted_witness :
  length accepted_run.1 = 12%nat /\
  concluded demo_server demo_request demo_result accepted_run.1 accepted_run.2.
Proof.
  split; [vm_compute; reflexivity|].
  apply (ExecuteTrade_accepted 1 demo_server demo_request).
  - apply run_trace_traces.
  - vm_compute. left.
Defined.

(** ** Credentials *)

(** The call to the broker panics, and the plaintext is wiped. *)
Definition panicked_heap := run_panics panicking_heap (ExecuteTrade 1 demo_server demo_request) empty_heap.

Lemma ExecuteTrade_wipes_witness :
  panicked_heap.1 = None /\ cw_handed panicked_heap.2 = [0%nat; 1%nat] /\ all_wiped panicked_heap.2.
Proof.
  split; [vm_compute; reflexivity|]. split; [vm_compute; reflexivity|].
  apply (ExecuteTrade_wipes 1 demo_server demo_request empty_heap panicked_heap.1).
  - constructor.
  - apply run_panics_pexec, panicking_heap_env.
Defined.

(** ** Termination *)

Lemma reserveOrder_returns_witness :
  reserve_fuel demo_server = 301%nat /\
  ((exists r w', exec clock_env (reserveOrder (reserve_fuel demo_server) demo_server demo_order) 0
      (Some r) w') /\
   (forall o w', exec clock_env (reserveOrder (reserve_fuel demo_server) demo_server demo_order) 0 o w' ->
      is_Some o /\
      exec clock_env (reserveOrder (7 + reserve_fuel demo_server) demo_server demo_order) 0 o w')).
Proof.
  split; [vm_compute; reflexivity|].
  apply (reserveOrder_returns clock_env (fun w => w) demo_server demo_order 0 7); vm_compute; congruence.
Defined.

Definition plain_server : PregaoServer :=
  NewPregaoServer {| sp_DefaultBroker := 1; sp_LivroClient := false; sp_FillProcessor := None |}.

(** A server with the processor that settles with Livro; the exchange fills the order. *)
Definition settling_server : PregaoServer :=
  NewPregaoServer {| sp_DefaultBroker := 1; sp_LivroClient := true;
    sp_FillProcessor := Some (ProcessFill (NewFillProcessor true false)) |}.

Lemma ExecuteTrade_returns_witness :
  IsPositive (or_ExecutedQuantity demo_result) = true /\
  (exists resp w', exec answered_env
     (ExecuteTrade (reserve_fuel settling_server) settling_server demo_request) 0 (Some resp) w') /\
  (forall o w', exec answered_env
     (ExecuteTrade (reserve_fuel settling_server) settling_server demo_request) 0 o w' -> is_Some o).
Proof.
  split; [reflexivity|].
  apply (ExecuteTrade_returns answered_env (fun w => w) settling_server
    (Some (NewFillProcessor true false))).
  - reflexivity.
  - vm_compute. congruence.
  - vm_compute. congruence.
Defined.

Lemma duplicate_is_answered_witness :
  let answer := {| er_ProviderOrderId := "4242"; er_Status := "FILLED" |} in
  (exists w', exec contended_env (ExecuteTrade (reserve_fuel plain_server) plain_server demo_request) 0
     (Some (Ok answer)) w') /\
  (forall o w', exec contended_env (ExecuteTrade (reserve_fuel plain_server) plain_server demo_request) 0
     o w' -> o = Some (Ok answer)).
Proof.
  refine (duplicate_is_answered contended_env (fun w => w) demo_intent settled_order settle_time 0
    (SettlesAt0 := contended_settles) plain_server demo_request (New 5 (-1)) 0 _ _ _ _).
  - vm_compute. congruence.
  - vm_compute. congruence.
  - vm_compute. reflexivity.
  - vm_compute. congruence.
Defined.

(** ** Concurrency *)

Definition table_run (placed : Result OrderResult) (executes : bool)
    (e : OrderTable * list ExecuteTradeRequest) : OrderTable * list ExecuteTradeRequest :=
  (run (table_answer placed executes) (th_code (trade_thread 1 demo_server demo_request)) e).2.

(** A system in which [demo_request] has been served. *)
Definition served (sys : System) : Prop :=
  sys_executed sys = [demo_request] /\ exists r, sys_orders sys !! demo_uuid = Some r.

Lemma served_reachable : exists sys, reachable false sys /\ served sys.
Proof.
  destruct (request_runs false initial 1 demo_server demo_request
    (run (table_answer (Ok demo_result) true) (th_code (trade_thread 1 demo_server demo_request))
      (∅, [])).1 (table_run (Ok demo_result) true (∅, []))) as (sys & Hr & Ho & Hx).
  - apply _.
  - apply run_exec. intros op w. by apply table_answer_env.
  - exists sys. split; [exact Hr|]. unfold served. rewrite Hx, Ho. split.
    + vm_compute. reflexivity.
    + vm_compute. eexists. reflexivity.
Qed.

Lemma at_most_one_order_witness :
  exists sys, served sys /\
    NoDup (map request_intent (sys_executed sys)) /\ NoDup (omap request_key (sys_executed sys)).
Proof.
  destruct served_reachable as (sys & Hr & Hs). exists sys. split; [exact Hs|].
  exact (at_most_one_order sys Hr).
Defined.

Lemma executed_orders_on_record_witness :
  exists sys, served sys /\ table_ok (sys_orders sys) /\
    (false = false -> forall req, req ∈ sys_executed sys ->
       exists id r, sys_orders sys !! id = Some r /\ row_of_request req r).
Proof.
  destruct served_reachable as (sys & Hr & Hs). exists sys. split; [exact Hs|].
  exact (executed_orders_on_record false sys Hr).
Defined.

Lemma rows_are_typed_witness :
  exists sys r, served sys /\ row_id r = demo_uuid /\ row_typed r /\
    (exists i th req, sys_threads sys !! i = Some th /\ th_request th = Some req /\ row_of_request req r) /\
    (row_provider_order_id r = None -> as_reserved r).
Proof.
  destruct served_reachable as (sys & Hr & Hs & r & Hrow). exists sys, r.
  split; [split; eauto|]. exact (rows_are_typed false sys demo_uuid r Hr Hrow).
Defined.

(** The retry that the released reservation invites can trade twice.  When the broker
    executes an order and the acknowledgement is lost, [ExecuteTrade] reports an error
    and deletes the reservation; the same request, sent again, is executed again. *)
Theorem lost_acknowledgement_trades_twice :
  exists sys, reachable true sys /\ sys_executed sys = [demo_request; demo_request] /\
    ~ NoDup (map request_intent (sys_executed sys)).
Proof.
  set (e1 := table_run failure true (∅, [])).
  destruct (request_runs true initial 1 demo_server demo_request
    (run (table_answer failure true) (th_code (trade_thread 1 demo_server demo_request)) (∅, [])).1
    e1) as (sys1 & Hr1 & Ho1 & Hx1).
  { apply _. } { apply run_exec. intros op w. by apply table_answer_env. }
  set (e2 := table_run (Ok demo_result) true e1).
  destruct (request_runs true sys1 1 demo_server demo_request
    (run (table_answer (Ok demo_result) true) (th_code (trade_thread 1 demo_server demo_request)) e1).1
    e2) as (sys2 & Hr2 & _ & Hx2).
  { apply _. }
  { rewrite Ho1, Hx1. destruct e1 as [t x]. apply run_exec. intros op w. by apply table_answer_env. }
  exists sys2. split; [unfold reachable; by etrans|].
  assert (sys_executed sys2 = [demo_request; demo_request]) as He.
  { rewrite Hx2. vm_compute. reflexivity. }
  split; [exact He|]. rewrite He. intros Hd. inversion Hd as [|? ? Hn _]; subst.
  apply Hn. simpl. left.
Qed.

(** ** The life of an order *)

(** An order the exchange has taken and not executed. *)
Definition open_result : OrderResult := {|
  or_ProviderOrderID := "4242"; or_Status := StatusSubmitted;
  or_ExecutedQuantity := Zero; or_CumulativeQuoteQuantity := Zero; or_AveragePrice := Zero |}.

(** One call of each thread in turn. *)
Definition turn_answer (req : option ExecuteTradeRequest) (op : Op) :=
  match req with
  | Some _ => table_answer (Ok open_result) true op
  | None => table_answer failure false op
  end.

Fixpoint schedule (turns : list nat) (sys : System) : System :=
  match turns with
  | [] => sys
  | i :: turns =>
      schedule turns
        match sys_threads sys !! i with
        | Some {| th_request := req; th_code := Call op k u |} =>
            let '(r, (t, x)) := turn_answer req op (sys_orders sys, sys_executed sys) in
            {| sys_orders := t; sys_executed := x;
               sys_threads := <[i := {| th_request := req; th_code := k r |}]> (sys_threads sys) |}
        | _ => sys
        end
  end.

Definition demo_threads (sys : System) : Prop :=
  Forall (fun th => th_request th = None \/ th_request th = Some demo_request) (sys_threads sys).

Lemma schedule_steps turns sys : demo_threads sys -> rtc (step false) sys (schedule turns sys).
Proof.
  revert sys. induction turns as [|i turns IH]; intros sys Hd; simpl; [done|].
  destruct (sys_threads sys !! i) as [[req [a|m|op k u]]|] eqn:E; try by apply IH.
  assert (req = None \/ req = Some demo_request) as Hreq by apply (Forall_lookup_1 _ _ _ _ Hd E).
  assert (shared_env false req op (sys_orders sys, sys_executed sys)
    (turn_answer req op (sys_orders sys, sys_executed sys)).1
    (turn_answer req op (sys_orders sys, sys_executed sys)).2) as He
    by (destruct Hreq as [->| ->]; by apply table_answer_env).
  destruct (turn_answer req op _) as [r [t x]]. eapply rtc_l; [|apply IH].
  - by apply (step_call false sys i req op k u r (t, x)).
  - by apply Forall_insert.
Qed.

(** A request and two fills of its order. *)
Definition second_fill : FillEvent := {|
  fe_Provider := "BINANCE"; fe_ProviderOrderID := "4242"; fe_Symbol := "BTCUSDT";
  fe_Side := SideBuy; fe_Status := StatusPartial;
  fe_ExecutedQuantity := New 2 (-1); fe_FillPrice := New 61000 0 |}.

Definition ledger_processor : fillProcessor := NewFillProcessor true false.

Definition of_threads (ths : list Thread) : System :=
  {| sys_orders := ∅; sys_executed := []; sys_threads := ths |}.

Definition the_request : Thread := trade_thread 1 demo_server demo_request.
Definition fill_of (event : FillEvent) : Thread := fill_thread (ProcessFill ledger_processor) event.

Definition two_fills : System := of_threads [the_request; fill_of demo_fill; fill_of second_fill].

Lemma two_fills_reachable turns : reachable false (schedule turns two_fills).
Proof.
  unfold reachable. etrans; [|apply schedule_steps].
  - eapply rtc_l; [by apply (step_trade false initial 1 demo_server demo_request), _|].
    eapply rtc_l; [apply (step_fill false (of_threads [the_request]) (ProcessFill ledger_processor) demo_fill), _|].
    apply rtc_once, (step_fill false (of_threads [the_request; fill_of demo_fill])
      (ProcessFill ledger_processor) second_fill), _.
  - apply Forall_cons; split; [by right|]. repeat (apply Forall_cons; split; [by left|]). done.
Qed.

(** The order is taken; the first fill reads it, the second does, both are settled and
    both record their sum. *)
Definition racing_turns : list nat := (replicate 8 0 ++ [1; 2; 1; 1; 1; 2; 2; 2])%nat%list.
Definition in_turn : list nat := (replicate 8 0 ++ [1; 1; 1; 1; 2; 2; 2; 2])%nat%list.

Definition filled_by (turns : list nat) : option Decimal :=
  row_filled_quantity <$> (sys_orders (schedule turns two_fills) !! demo_uuid).
Definition finished (th : Thread) : bool :=
  match th_code th with Ret _ => true | _ => false end.

(** Two fills of one order whose steps interleave: both are settled with the ledger and
    both are recorded, and the order has the quantity of the second alone.  [ProcessFill]
    reads the row, adds to it and writes the sum back, and nothing serialises this. *)
Theorem concurrent_fills_lose_one :
  exists sys r, reachable false sys /\ forallb finished (sys_threads sys) = true /\
    sys_orders sys !! demo_uuid = Some r /\
    (dval (row_filled_quantity r) == dval (fe_ExecutedQuantity second_fill))%Q.
Proof.
  assert (filled_by racing_turns = Some (New 20000000 (-8))) as Hf by (vm_compute; reflexivity).
  assert (forallb finished (sys_threads (schedule racing_turns two_fills)) = true) as Hd
    by (vm_compute; reflexivity).
  revert Hd Hf. unfold filled_by. generalize (two_fills_reachable racing_turns).
  generalize (schedule racing_turns two_fills). intros sys Hr Hd Hf.
  destruct (sys_orders sys !! demo_uuid) as [r|] eqn:E; [|done].
  exists sys, r. do 3 (split; [assumption|]). injection Hf as ->. reflexivity.
Qed.

(** Taken in turn, they add up. *)
Example fills_in_turn : filled_by in_turn = Some (New 30000000 (-8)).
Proof. vm_compute. reflexivity. Qed.

(** The confirmed order, its two fills and one that is refused. *)
Definition open_row : OrderRow := {|
  row_id := demo_uuid; row_trade_intent_id := demo_intent; row_tenant_id := "tenant-1";
  row_user_id := "user-1"; row_provider := "BINANCE"; row_provider_order_id := Some "4242";
  row_symbol := "BTCUSDT"; row_side := SideBuy; row_target_quantity := New 50000000 (-8);
  row_status := StatusSubmitted; row_filled_quantity := New 0 (-8);
  row_average_fill_price := New 0 (-4); row_idempotency_key := Some "key-1";
  row_portfolio_id := Some "portfolio-1"; row_livro_hold_id := Some "";
  row_created_at := 0; row_updated_at := 2 |}.
Definition open_table : OrderTable := {[demo_uuid := open_row]}.

Definition empty_fill : FillEvent := {|
  fe_Provider := "BINANCE"; fe_ProviderOrderID := "4242"; fe_Symbol := "BTCUSDT";
  fe_Side := SideBuy; fe_Status := StatusPartial;
  fe_ExecutedQuantity := Zero; fe_FillPrice := New 61000 0 |}.

Lemma open_order : order_row "BINANCE" "4242" open_table demo_uuid open_row.
Proof.
  split.
  - apply lookup_singleton_eq.
  - vm_compute. reflexivity.
  - intros i r' Hi _. unfold open_table in Hi. by apply lookup_singleton_Some in Hi as [<- _].
Qed.

Lemma open_typed : row_typed open_row.
Proof.
  split;
    lazymatch goal with
    | |- of_varchar _ _ => vm_compute; reflexivity
    | |- nullable _ _ => intros x [= <-]; vm_compute; reflexivity
    | |- of_numeric _ _ ?d =>
        split; [vm_compute; split; congruence|exists (d_value d); split; vm_compute; reflexivity]
    end.
Qed.

Definition deliver (event : FillEvent) (t : OrderTable) :=
  run (table_answer failure false) (ProcessFill ledger_processor event) (t, []).

Lemma deliver_runs event t :
  (deliver event t).2.2 = [] -> fill_runs ledger_processor event t (deliver event t).1 (deliver event t).2.1.
Proof.
  intros Hx. unfold fill_runs.
  assert (((deliver event t).2.1, []) = (deliver event t).2) as -> by (rewrite <- Hx; by destruct (deliver event t).2).
  apply exec_pexec. apply run_exec. intros op w. by apply table_answer_env.
Qed.

Fixpoint deliveries (events : list FillEvent) (t : OrderTable)
    : list (FillEvent * option (Result unit)) * OrderTable :=
  match events with
  | [] => ([], t)
  | event :: events =>
      let '(log, t') := deliveries events (deliver event t).2.1 in
      ((event, (deliver event t).1) :: log, t')
  end.

(** The broker's log stays as it is. *)
Fixpoint quiet_deliveries (events : list FillEvent) (t : OrderTable) : bool :=
  match events with
  | [] => true
  | event :: events =>
      match (deliver event t).2.2 with
      | [] => quiet_deliveries events (deliver event t).2.1
      | _ :: _ => false
      end
  end.

Lemma deliveries_history events t :
  quiet_deliveries events t = true ->
  fill_history ledger_processor "BINANCE" "4242" t (deliveries events t).1 (deliveries events t).2.
Proof.
  revert t. induction events as [|e events IH]; intros t; simpl; [constructor|].
  destruct ((deliver e t).2.2) eqn:E; [|done]. intros Hq%IH.
  destruct (deliveries events _) as [log t']. eapply history_fill; [by apply deliver_runs|exact Hq].
Qed.

Lemma delivered_events events t event out :
  (event, out) ∈ (deliveries events t).1 -> event ∈ events.
Proof.
  revert t. induction events as [|e events IH]; intros t; simpl; [by intros ?%elem_of_nil|].
  specialize (IH (deliver e t).2.1). destruct (deliveries events _) as [log t'].
  intros [[= -> _]|Hin]%elem_of_cons; [left|right; by apply IH].
Qed.

Definition demo_events : list FillEvent := [demo_fill; empty_fill; second_fill].

Lemma demo_events_plain : Forall plain_fill demo_events.
Proof.
  repeat (apply Forall_cons; split); [..|done]; (split; [|split; vm_compute; split; congruence]).
  - exists 10000000. vm_compute. reflexivity.
  - exists 0. vm_compute. reflexivity.
  - exists 20000000. vm_compute. reflexivity.
Qed.

Lemma fills_accumulate_witness :
  exists log t' r' events,
    map snd log = [Some (Ok tt); Some (Err (ErrMsg "invalid executed quantity")); Some (Ok tt)] /\
    counts "BINANCE" "4242" log events /\ order_row "BINANCE" "4242" t' demo_uuid r' /\
    Forall valid_fill events /\ row_after events open_row r'.
Proof.
  exists (deliveries demo_events open_table).1, (deliveries demo_events open_table).2.
  enough (exists r' fills, counts "BINANCE" "4242" (deliveries demo_events open_table).1 fills /\
    order_row "BINANCE" "4242" (deliveries demo_events open_table).2 demo_uuid r' /\
    Forall valid_fill fills /\ row_after fills open_row r') as (r' & fills & Hfills).
  { exists r', fills. split; [vm_compute; reflexivity|exact Hfills]. }
  apply (fills_accumulate ledger_processor "BINANCE" "4242" demo_uuid open_table).
  - exact open_order.
  - exact open_typed.
  - vm_compute. congruence.
  - intros event out Hin _. apply delivered_events in Hin.
    exact (proj1 (Forall_forall _ _) demo_events_plain event Hin).
  - apply deliveries_history; vm_compute; reflexivity.
Defined.

(** ** Fills *)

Lemma fill_update_exact_witness :
  exists u, fill_update demo_order demo_fill = Some u /\
    (dval (fu_exactFiatValue u)
       == dval (fe_ExecutedQuantity demo_fill) * dval (fe_FillPrice demo_fill))%Q /\
    (dval (fu_newFilledQty u)
       == dval (bo_FilledQuantity demo_order) + dval (fe_ExecutedQuantity demo_fill))%Q /\
    ((dval (bo_FilledQuantity demo_order) == 0)%Q -> fu_newAvgPrice u = fe_FillPrice demo_fill) /\
    ((0 < dval (bo_FilledQuantity demo_order))%Q ->
       d_exp (fu_newAvgPrice u) = -16 /\
       rounds_half_away (vwap demo_order demo_fill * p10 16) (d_value (fu_newAvgPrice u))) /\
    (fu_newStatus u = StatusFilled <->
       EqualFold (fe_Status demo_fill) StatusFilled = true \/
       (dval (bo_TargetQuantity demo_order)
          <= dval (bo_FilledQuantity demo_order) + dval (fe_ExecutedQuantity demo_fill))%Q) /\
    (fu_newStatus u = StatusFilled \/ fu_newStatus u = StatusPartial).
Proof.
  apply (fill_update_exact demo_order demo_fill).
  - repeat split; vm_compute; congruence.
  - vm_compute. reflexivity.
  - vm_compute. congruence.
Defined.

Definition demo_processor : fillProcessor := NewFillProcessor true true.
Definition fill_run := run_trace demo_answer (ProcessFill demo_processor demo_fill).

(** A ledger that is down. *)
Definition broken_answer (op : Op) : Res op :=
  match op return Res op with
  | AtivosSyncBrokerExecution _ => failure
  | op => demo_answer op
  end.

Definition failed_fill_run := run_trace broken_answer (ProcessFill demo_processor demo_fill).

Lemma ProcessFill_failure_witness :
  Forall (fun v => negb (is_update (ev_op v)) = true) failed_fill_run.1 \/
  exists tr0 provider pid st q pr e,
    failed_fill_run.1 = (tr0 ++ [ev (OrdersUpdateFill provider pid st q pr) (Err e)])%list /\
    failed_fill_run.2 = Some (Err (ErrWrap "failed to update broker_orders record" e)).
Proof.
  apply (ProcessFill_failure demo_processor demo_fill).
  - apply run_trace_traces.
  - vm_compute. congruence.
Defined.

(** [demo_order] after [demo_fill] has been recorded. *)
Definition order_after (q p : Decimal) : BrokerOrder := {|
  bo_ID := bo_ID demo_order;
  bo_TradeIntentID := bo_TradeIntentID demo_order;
  bo_TenantID := bo_TenantID demo_order;
  bo_UserID := bo_UserID demo_order;
  bo_Provider := bo_Provider demo_order;
  bo_ProviderOrderID := bo_ProviderOrderID demo_order;
  bo_Symbol := bo_Symbol demo_order;
  bo_Side := bo_Side demo_order;
  bo_TargetQuantity := bo_TargetQuantity demo_order;
  bo_Status := StatusPartial;
  bo_FilledQuantity := q;
  bo_AverageFillPrice := p;
  bo_IdempotencyKey := bo_IdempotencyKey demo_order;
  bo_PortfolioID := bo_PortfolioID demo_order;
  bo_LivroHoldID := bo_LivroHoldID demo_order;
  bo_CreatedAt := 1;
  bo_UpdatedAt := 2 |}.

Definition demo_update : FillUpdate := {|
  fu_exactFiatValue := New 60000 (-1);
  fu_newFilledQty := New 3 (-1);
  fu_newAvgPrice := New 593333333333333333333 (-16);
  fu_newStatus := StatusPartial |}.

Lemma fill_key_injective_witness :
  (dval (fu_newFilledQty demo_update) == dval (fu_newFilledQty
    {| fu_exactFiatValue := New 1 0; fu_newFilledQty := New 300 (-3);
       fu_newAvgPrice := New 1 0; fu_newStatus := StatusFilled |}))%Q.
Proof.
  apply (fill_key_injective "cap-" demo_order (order_after (New 3 (-1)) (New 1 0))).
  - reflexivity.
  - reflexivity.
  - vm_compute. split; congruence.
  - vm_compute. split; congruence.
  - vm_compute. reflexivity.
Defined.

(** ** The exchange *)

#[local] Instance demo_json : JsonUnicode := fun s => s.
#[local] Instance demo_hmac : Hmac := fun payload secret => (take 4 payload ++ secret)%list.

Definition demo_client : binanceClient := NewClient "" 0.
Definition demo_market_order : MarketOrderRequest := market_order (New 12345678 (-8)) demo_request.

Lemma order_quantity_witness :
  exists step q s n d,
    GetDefaultStepSize "BTCUSDT" = Some step /\ (0 < dval step)%Q /\
    TruncateToStepSize (New 12345678 (-8)) step = Some (q, s) /\ 0 <= n /\
    (dval q == inject_Z n * dval step)%Q /\
    (dval q <= dval (New 12345678 (-8)))%Q /\ (dval (New 12345678 (-8)) < dval q + dval step)%Q /\
    NewFromString s = Ok d /\ deq d q.
Proof.
  apply (order_quantity "BTCUSDT" (New 12345678 (-8))).
  - vm_compute. split; congruence.
  - vm_compute. congruence.
  - vm_compute. reflexivity.
Defined.

Definition demo_ticker : RawBookTicker := {|
  rb_Symbol := "BTCUSDT"; rb_BidPrice := "60000.10"; rb_BidQty := "1.5";
  rb_AskPrice := "60000.15"; rb_AskQty := "2" |}.

Lemma parseBookTicker_exact_witness :
  exists t, parseBookTicker demo_ticker = Some (Ok t) /\
    bt_Symbol t = "BTCUSDT" /\ bt_BidPrice t = New 6000010 (-2) /\ bt_BidQty t = New 15 (-1) /\
    bt_AskPrice t = New 6000015 (-2) /\ bt_AskQty t = New 2 0 /\
    (dval (bt_MidPrice t) == (dval (New 6000010 (-2)) + dval (New 6000015 (-2))) / 2)%Q /\
    ((dval (New 6000010 (-2)) <= dval (New 6000015 (-2)))%Q ->
     (dval (New 6000010 (-2)) <= dval (bt_MidPrice t) <= dval (New 6000015 (-2)))%Q).
Proof.
  apply (parseBookTicker_exact demo_ticker (New 6000010 (-2)) (New 15 (-1))
    (New 6000015 (-2)) (New 2 0)); try (vm_compute; reflexivity); vm_compute; try split; congruence.
Defined.

Definition demo_order_response : Response OrderResponse := {|
  rs_Status := 200;
  rs_Body := Ok (Ok {| od_OrderID := 4242; od_ExecutedQty := "0.5";
    od_CummulativeQuoteQty := "30000.25"; od_Status := "FILLED"; od_Code := 0; od_Msg := "" |}) |}.

Definition exchange_answer (op : HttpOp) : HttpRes op :=
  match op return HttpRes op with
  | UnixMilli => 1700000000000
  | CredsLoad _ => ([1; 2], [3; 4])
  | CredsWipe _ => tt
  | NewRequest _ => Ok tt
  | CloseBody _ => tt
  | DoRequest k _ =>
      match k return Result (Response (Body k)) with
      | OrderBody => Ok demo_order_response
      | BookTickersBody => Ok {| rs_Status := 200; rs_Body := Ok (Ok [demo_ticker]) |}
      | ExchangeInfoBody => Ok {| rs_Status := 200; rs_Body := Ok (Ok {| ei_Symbols :=
          [{| ei_Symbol := "BTCUSDT"; ei_Status := "TRADING" |};
           {| ei_Symbol := "LUNAUSDT"; ei_Status := "BREAK" |}] |}) |}
      | AccountBody => Ok {| rs_Status := 200; rs_Body := Ok (Ok {| ac_Balances :=
          [{| ab_Asset := "USDT"; ab_Free := "100.5" |}] |}) |}
      | _ => failure
      end
  end.

Definition place_run := run_trace exchange_answer
  (PlaceMarketOrder demo_client (Some 0%nat) demo_market_order).

Lemma signed_operations_wipe_witness :
  exists key secret rest, place_run.1 = ev (CredsLoad 0%nat) (key, secret) :: rest /\
    ((key = [] \/ secret = []) /\ rest = [] \/
     key <> [] /\ secret <> [] /\ exists body, rest = (body ++ [ev (CredsWipe 0%nat) tt])%list).
Proof.
  apply (signed_operations_wipe demo_client 0%nat demo_market_order place_run.1).
  left. exists place_run.2. apply run_trace_traces.
Defined.

Definition tickers_run :=
  run_trace exchange_answer (GetBookTickers demo_client ["BTCUSDT"; "ETHUSDT"]).

Definition tickers_found := answer_of ∅ tickers_run.2.

Lemma GetBookTickers_result_witness :
  tickers_run.2 = Some (Ok tickers_found) /\ is_Some (tickers_found !! "BTCUSDT") /\
  (["BTCUSDT"; "ETHUSDT"] = [] /\ tickers_run.1 = [] /\ tickers_found = ∅ \/
   exists query raws,
     carries query [("symbols", json_strings ["BTCUSDT"; "ETHUSDT"])] /\
     ticker_reply {| hr_Method := "GET";
                     hr_URL := bn_baseURL demo_client +:+ "/api/v3/ticker/bookTicker?" +:+ query;
                     hr_APIKey := None |} raws tickers_run.1 /\
     forall sym, tickers_found !! sym = last (omap (ticker_of sym) raws)).
Proof.
  assert (tickers_run.2 = Some (Ok tickers_found)) as Hr by (apply answer_of_run; vm_compute; reflexivity).
  split; [exact Hr|]. do 1 (split; [vm_compute; eauto|]).
  apply (GetBookTickers_result demo_client ["BTCUSDT"; "ETHUSDT"]).
  rewrite <- Hr. apply run_trace_traces.
Defined.

Definition symbols_run :=
  run_trace exchange_answer (ValidateSymbols demo_client ["btcusdt"; "LUNAUSDT"]).

Definition symbols_found := answer_of ∅ symbols_run.2.

Lemma ValidateSymbols_result_witness :
  symbols_run.2 = Some (Ok symbols_found) /\
    symbols_found !! "btcusdt" = Some true /\ symbols_found !! "LUNAUSDT" = Some false /\
  (["btcusdt"; "LUNAUSDT"] = [] /\ symbols_run.1 = [] /\ symbols_found = ∅ \/
   exists resp info,
     (let r := {| hr_Method := "GET"; hr_URL := bn_baseURL demo_client +:+ "/api/v3/exchangeInfo";
                  hr_APIKey := None |} in
      symbols_run.1 = exchange_of ExchangeInfoBody r (Ok resp)) /\
     rs_Status resp <> 429 /\ rs_Status resp <> 418 /\ rs_Body resp = Ok (Ok info) /\
     forall s, (is_Some (symbols_found !! s) <-> s ∈ ["btcusdt"; "LUNAUSDT"]) /\
       (symbols_found !! s = Some true <-> s ∈ ["btcusdt"; "LUNAUSDT"] /\
          exists i, i ∈ ei_Symbols info /\ EqualFold (ei_Status i) "TRADING" = true /\
            ToUpper (ei_Symbol i) = ToUpper s)).
Proof.
  assert (symbols_run.2 = Some (Ok symbols_found)) as Hr by (apply answer_of_run; vm_compute; reflexivity).
  split; [exact Hr|]. do 2 (split; [vm_compute; eauto|]).
  apply (ValidateSymbols_result demo_client ["btcusdt"; "LUNAUSDT"]).
  rewrite <- Hr. apply run_trace_traces.
Defined.

Lemma order_response_accepted_witness :
  exists r, order_response demo_order_response = Some (Ok r) /\
  rs_Status demo_order_response = StatusOK /\
  exists o, rs_Body demo_order_response = Ok (Ok o) /\
    or_ProviderOrderID r = FormatInt (od_OrderID o) /\
    or_Status r = mapOrderStatus (od_Status o) /\
    or_ExecutedQuantity r = parse_or_zero (od_ExecutedQty o) /\
    or_CumulativeQuoteQuantity r = parse_or_zero (od_CummulativeQuoteQty o) /\
    (moderate (or_ExecutedQuantity r) -> moderate (or_CumulativeQuoteQuantity r) ->
     (0 < dval (or_ExecutedQuantity r))%Q ->
     d_exp (or_AveragePrice r) = -16 /\
     rounds_half_away
       (dval (or_CumulativeQuoteQuantity r) / dval (or_ExecutedQuantity r) * p10 16)
       (d_value (or_AveragePrice r))).
Proof.
  eexists. split; [vm_compute; reflexivity|].
  apply (order_response_accepted demo_order_response). vm_compute. reflexivity.
Defined.

(** ** Tables *)

Definition reserved_table : OrderTable := (ReserveOrder NoFault demo_uuid 1 demo_order ∅).2.

(** Another intent under the same tenant and idempotency key. *)
Definition retried_order : BrokerOrder := {|
  bo_ID := Nil; bo_TradeIntentID := demo_uuid; bo_TenantID := "tenant-1"; bo_UserID := "user-2";
  bo_Provider := "BINANCE"; bo_ProviderOrderID := ""; bo_Symbol := "ETHUSDT"; bo_Side := SideSell;
  bo_TargetQuantity := New 1 0; bo_Status := ""; bo_FilledQuantity := New 0 0;
  bo_AverageFillPrice := New 0 0; bo_IdempotencyKey := "key-1"; bo_PortfolioID := "";
  bo_LivroHoldID := ""; bo_CreatedAt := 0; bo_UpdatedAt := 0 |}.

Lemma ReserveOrder_gate_witness :
  (ReserveOrder NoFault demo_uuid 1 demo_order ∅).1.2 = Ok true /\
  (ReserveOrder NoFault other_uuid 1 retried_order reserved_table).1.2 = Ok false /\
  let o' := reserve_prepare other_uuid 1 retried_order in
  let '(order, r, t') := ReserveOrder NoFault other_uuid 1 retried_order reserved_table in
  order = o' /\
  match r with
  | Ok true => inserted o' reserved_table t'
  | Ok false => refused o' reserved_table t'
  | Err _ => (NoFault <> NoFault \/ ~ fits o') /\
      (t' = reserved_table \/ NoFault = FailAfter /\ inserted o' reserved_table t')
  end.
Proof.
  do 2 (split; [vm_compute; reflexivity|]).
  pose proof (ReserveOrder_gate NoFault other_uuid 1 retried_order reserved_table) as Hgate.
  exact Hgate.
Defined.

Lemma reserve_then_lookup_witness :
  exists e, GetOrderByIntentID NoFault 5 (bo_TradeIntentID demo_order) reserved_table = Ok e /\
    bo_Status e = StatusPending /\ bo_ProviderOrderID e = "" /\
    as_columns {|
      bo_ID := demo_uuid; bo_TradeIntentID := other_uuid; bo_TenantID := "tenant-1";
      bo_UserID := "user-1"; bo_Provider := "BINANCE"; bo_ProviderOrderID := "";
      bo_Symbol := "BTCUSDT"; bo_Side := "BUY"; bo_TargetQuantity := New 5 (-1);
      bo_Status := StatusPending; bo_FilledQuantity := New 2 (-1);
      bo_AverageFillPrice := New 59000 0; bo_IdempotencyKey := "key-1";
      bo_PortfolioID := "portfolio-1"; bo_LivroHoldID := ""; bo_CreatedAt := 1;
      bo_UpdatedAt := 1 |} e.
Proof.
  apply (reserve_then_lookup NoFault demo_uuid 1 demo_order ∅
    (reserve_prepare demo_uuid 1 demo_order)).
  - apply table_ok_empty.
  - vm_compute. reflexivity.
Defined.

Definition confirmed_table : OrderTable :=
  (ConfirmOrder NoFault 2 demo_uuid "4242" StatusFilled (New 5 (-1)) (New 60000 0) reserved_table).2.

Lemma confirm_settles_witness :
  ReleaseOrder NoFault demo_uuid confirmed_table = (Ok tt, confirmed_table) /\
  (forall now' pid' st' q' p', exists e,
     ConfirmOrder NoFault now' demo_uuid pid' st' q' p' confirmed_table = (Err e, confirmed_table)).
Proof.
  apply (confirm_settles 2 demo_uuid "4242" StatusFilled (New 5 (-1)) (New 60000 0) reserved_table).
  - apply (ReserveOrder_ok NoFault demo_uuid 1 demo_order ∅), table_ok_empty.
  - vm_compute. congruence.
  - vm_compute. reflexivity.
Defined.

Lemma UpdateOrderFill_records_witness :
  let t' := (UpdateOrderFill NoFault 3 "BINANCE" "4242" StatusPartial (New 3 (-1))
    (New 593333333 (-4)) confirmed_table).2 in
  (exists i r, confirmed_table !! i = Some r /\ with_provider_order "BINANCE" "4242" r = true) /\
  forall i r, confirmed_table !! i = Some r -> exists r', t' !! i = Some r' /\
    if with_provider_order "BINANCE" "4242" r
    then varchar 32 StatusPartial = Some (row_status r') /\ same_keys r r' /\
         (Qabs.Qabs (dval (row_filled_quantity r') - dval (New 3 (-1))) <= (1 # 2) * p10 (- (8)))%Q /\
         (Qabs.Qabs (dval (row_average_fill_price r') - dval (New 593333333 (-4)))
            <= (1 # 2) * p10 (- (4)))%Q
    else r' = r.
Proof.
  apply (UpdateOrderFill_records 3 "BINANCE" "4242" StatusPartial (New 3 (-1)) (New 593333333 (-4))
    confirmed_table).
  vm_compute. reflexivity.
Defined.

Definition demo_credential : BrokerCredential := {|
  bc_ID := Nil; bc_TenantID := "tenant-1"; bc_Provider := "BINANCE";
  bc_APIKeyCiphertext := "vault:v1:a"; bc_APISecretCiphertext := "vault:v1:b"; bc_CreatedAt := 0 |}.

Lemma SaveCredentials_upserts_witness :
  let '(cred', _, t') := SaveCredentials NoFault demo_uuid 1 demo_credential ∅ in
  exists tenant provider,
    varchar 64 "tenant-1" = Some tenant /\ varchar 32 "BINANCE" = Some provider /\
    (exists c, GetCredentials NoFault tenant provider t' = Ok c /\
       text "vault:v1:a" = Some (bc_APIKeyCiphertext c) /\
       text "vault:v1:b" = Some (bc_APISecretCiphertext c) /\
       bc_ID c = match (∅ : CredTable) !! (tenant, provider) with
                 | Some old => bc_ID old | None => bc_ID cred' end) /\
    (forall tenant' provider', (tenant', provider') <> (tenant, provider) ->
       GetCredentials NoFault tenant' provider' t' = GetCredentials NoFault tenant' provider' ∅).
Proof. apply (SaveCredentials_upserts demo_uuid 1 demo_credential ∅). vm_compute. reflexivity. Defined.

(** ** Market data *)

Definition demo_quotes : GetQuotesRequest :=
  {| gq_Symbols := [" btcusdt"; "BTCUSDT"; ""]; gq_Provider := "" |}.
Definition quotes_run := run_trace demo_answer (GetQuotes demo_server demo_quotes).

Lemma GetQuotes_answers_witness :
  exists m, quotes_run.2 = Some (Ok m) /\ quotes_served demo_quotes quotes_run.1 m.
Proof. apply (GetQuotes_answers demo_server demo_quotes), run_trace_traces. Defined.

(** ** Numbers and identifiers *)

Lemma Div_accuracy_witness :
  exists q, Div (New 1 0) (New 3 0) = Some q /\
    (Qabs.Qabs (dval q - dval (New 1 0) / dval (New 3 0)) <= (1 # 2) * p10 (- (16)))%Q /\
    (forall n, (dval (New 1 0) / dval (New 3 0) == inject_Z n * p10 (- (16)))%Q ->
       (dval q == dval (New 1 0) / dval (New 3 0))%Q).
Proof.
  apply (Div_accuracy (New 1 0) (New 3 0)).
  - vm_compute. split; congruence.
  - vm_compute. split; congruence.
  - vm_compute. congruence.
Defined.

Lemma decimal_text_roundtrip_witness :
  (exists d', NewFromString (to_String (New (-12345) (-3))) = Ok d' /\ deq d' (New (-12345) (-3))) /\
  (exists r, NewFromString (StringFixed (New (-12345) (-3)) 2) = Ok r /\ d_exp r = - (2) /\
     rounds_half_away (dval (New (-12345) (-3)) * p10 2) (d_value r)).
Proof.
  apply (decimal_text_roundtrip (New (-12345) (-3)) 2); vm_compute; split; congruence.
Defined.

Lemma decimal_arithmetic_exact_witness :
  (dval (Add (New 1 (-1)) (New 2 (-30))) == dval (New 1 (-1)) + dval (New 2 (-30)))%Q /\
  (dval (Sub (New 1 (-1)) (New 2 (-30))) == dval (New 1 (-1)) - dval (New 2 (-30)))%Q /\
  (forall m, Mul (New 1 (-1)) (New 2 (-30)) = Some m ->
     (dval m == dval (New 1 (-1)) * dval (New 2 (-30)))%Q) /\
  (LessThan (New 1 (-1)) (New 2 (-30)) = true <-> (dval (New 1 (-1)) < dval (New 2 (-30)))%Q) /\
  (LessThanOrEqual (New 1 (-1)) (New 2 (-30)) = true
     <-> (dval (New 1 (-1)) <= dval (New 2 (-30)))%Q) /\
  (Equal (New 1 (-1)) (New 2 (-30)) = true <-> (dval (New 1 (-1)) == dval (New 2 (-30)))%Q) /\
  (IsZero (Sub (New 1 (-1)) (New 2 (-30))) = Equal (New 1 (-1)) (New 2 (-30))).
Proof. apply (decimal_arithmetic_exact (New 1 (-1)) (New 2 (-30))). Defined.
