(* ===== verification/ClientWitnesses.v ===== *)
(** * The client theorems on concrete inputs

    A vault that opens every ciphertext to three bytes, and a Redis that is reachable:
    the theorems about the clients behind the service's interfaces, applied there. *)

From stdpp Require Import base tactics list strings gmap.
From Stdlib Require Import ZArith Lia.
From S2P Require Import Prelude Exec GoStrings Json Http Base64 Decimal DecimalSpec Cache Vault.
From S2P Require Import VaultClient Effects CredsSafety VaultSpec Redis RedisSpec Demo.
From S2P Require Import Float64 Worker WorkerSpec Webhook WebhookSpec Config Clients Db Service.
From S2P Require Import Broker Uuid Startup Link Binance BinanceSpec System SystemSpec.
From S2P Require Import TradeProtocol TradeTheorems TradeWire ServiceTheorems BinanceQueries QuotesWire SyncWire ReportWire.
From S2P Require Import DbSpec Concurrency Replicas Bodies.

#[local] Open Scope string_scope.
#[local] Open Scope Z_scope.

(** Text beyond ASCII does not occur here. *)
#[local] Instance client_json : JsonUnicode := fun s => s.

(** ** The vault *)

Definition demo_transit : openBaoTransitClient := NewTransitClient "http://bao:8200/" "token" "".
Definition demo_open (ciphertext : string) : list Z := [1; 2; 3].
Definition demo_ok {B} (body : B) : Response B := {| rs_Status := 200; rs_Body := Ok (Ok body) |}.

(** No batch support: the fallback is taken. *)
Definition demo_vault_answer (k : DecryptKind) : Result (Response (DecryptBody k)) :=
  match k return Result (Response (DecryptBody k)) with
  | SingleDecrypt =>
      Ok (demo_ok {| dr_Plaintext := EncodeToString [1; 2; 3]; dr_Errors := [] |})
  | BatchDecrypt => Err (ErrMsg "timeout")
  end.

Definition demo_reply : Replies := fun k _ resp => resp = demo_vault_answer k.

Lemma demo_replies base key token : VaultReplies base key token demo_open demo_reply.
Proof.
  split.
  - intros ct. repeat constructor; unfold is_byte; lia.
  - intros r ct resp d _ Hr _ Hb _. unfold demo_reply, demo_vault_answer in Hr.
    injection Hr as ->. simpl in Hb. injection Hb as <-. done.
  - intros r ct1 ct2 resp d r1 r2 _ Hr. done.
Qed.

(** The pointers are the next free ones. *)
Definition demo_vault_step (op : VaultOp) : Heap -> VaultRes op * Heap :=
  match op return Heap -> VaultRes op * Heap with
  | VNewRequest _ => fun h => (Ok tt, h)
  | VDo k _ => fun h => (demo_vault_answer k, h)
  | VAlloc bytes => fun h =>
      (fresh (dom (buffers h)), alloc (fresh (dom (buffers h))) bytes h)
  | VClose _ => fun h => (tt, h)
  | VWipe b => fun h => (tt, {| structs := structs h; buffers := wipe b (buffers h) |})
  | VNewCreds c => fun h =>
      (fresh (dom (structs h)), new_struct (fresh (dom (structs h))) c h)
  end.

Lemma demo_vault_step_ok op h :
  vault_env demo_reply op h (demo_vault_step op h).1 (demo_vault_step op h).2.
Proof.
  destruct op; simpl; try done.
  - split; [|done]. apply not_elem_of_dom, is_fresh.
  - split; [|done]. apply not_elem_of_dom, is_fresh.
Qed.

Definition bare_heap : Heap := {| structs := ∅; buffers := ∅ |}.
Definition demo_decryption :=
  run demo_vault_step (DecryptCredentials demo_transit "vault:v1:key" "vault:v1:secret") bare_heap.

(** A vault that answers the batch request as well. *)
Definition batching_answer (k : DecryptKind) : Result (Response (DecryptBody k)) :=
  match k return Result (Response (DecryptBody k)) with
  | SingleDecrypt => demo_vault_answer SingleDecrypt
  | BatchDecrypt =>
      let item := {| bi_Plaintext := EncodeToString [1; 2; 3]; bi_Error := "" |} in
      Ok (demo_ok {| br_BatchResults := [item; item]; br_Errors := [] |})
  end.

Definition batching_reply : Replies := fun k _ resp => resp = batching_answer k.

Lemma batching_replies base key token : VaultReplies base key token demo_open batching_reply.
Proof.
  split.
  - intros ct. repeat constructor; unfold is_byte; lia.
  - intros r ct resp d _ Hr _ Hb _. unfold batching_reply in Hr.
    injection Hr as ->. simpl in Hb. injection Hb as <-. done.
  - intros r ct1 ct2 resp d r1 r2 _ Hr _ Hb Hl _ _. unfold batching_reply in Hr.
    injection Hr as ->. simpl in Hb. injection Hb as <-. by injection Hl as <- <-.
Qed.

Definition batching_step (op : VaultOp) : Heap -> VaultRes op * Heap :=
  match op return Heap -> VaultRes op * Heap with
  | VDo k _ => fun h => (batching_answer k, h)
  | op => demo_vault_step op
  end.

Lemma batching_step_ok op h :
  vault_env batching_reply op h (batching_step op h).1 (batching_step op h).2.
Proof. destruct op; simpl; try done; (split; [apply not_elem_of_dom, is_fresh|done]). Qed.

Definition batch_decryption :=
  run batching_step (DecryptCredentials demo_transit "vault:v1:key" "vault:v1:secret") bare_heap.

(** What the theorem says of a run that has ended so. *)
Definition refined (d : option (Result CredPtr) * Heap) : Prop :=
  exists r handed', d.1 = Some r /\
    cred_env (VaultDecryptCredentials "vault:v1:key" "vault:v1:secret")
      {| cw_heap := bare_heap; cw_handed := [] |} r
      {| cw_heap := d.2; cw_handed := handed' |} /\
    match r with
    | Ok p => exists b1 b2,
        structs d.2 !! p = Some {| APIKey := Some b1; APISecret := Some b2 |} /\
        buffers d.2 !! b1 = Some [1; 2; 3] /\ buffers d.2 !! b2 = Some [1; 2; 3]
    | Err _ => forall b bytes, buffers bare_heap !! b = None ->
        buffers d.2 !! b = Some bytes -> wiped bytes
    end.

(** The batch is used, and without one the fallback. *)
Lemma DecryptCredentials_refines_witness :
  batch_decryption.1 = Some (Ok 0%nat) /\ refined batch_decryption /\
  demo_decryption.1 = Some (Ok 0%nat) /\ refined demo_decryption.
Proof.
  split; [vm_compute; reflexivity|]. split; [|split; [vm_compute; reflexivity|]].
  - apply (DecryptCredentials_refines "http://bao:8200/" "token" "" demo_open batching_reply
      (VaultReplies0 := batching_replies _ _ _)).
    apply (run_exec (vault_env batching_reply)), batching_step_ok.
  - apply (DecryptCredentials_refines "http://bao:8200/" "token" "" demo_open demo_reply
      (VaultReplies0 := demo_replies _ _ _)).
    apply (run_exec (vault_env demo_reply)), demo_vault_step_ok.
Defined.

(** ** The quotes cache *)

Definition demo_redis (op : RedisOp) : RedisStore -> RedisRes op * RedisStore :=
  match op return RedisStore -> RedisRes op * RedisStore with
  | RMGet keys => fun w => (Ok (map (fun k => value_reply (live w k)) keys), w)
  | RGet key => fun w =>
      (match live w key with Some d => GetText (Some d) | None => GetNil end, w)
  | RExec pipe => fun w =>
      (Ok tt, {| rd_now := rd_now w; rd_data := foldl (apply_set (rd_now w)) (rd_data w) pipe |})
  end.

Lemma demo_redis_ok op w : redis_env op w (demo_redis op w).1 (demo_redis op w).2.
Proof.
  destruct op; simpl; try done. split; [done|]. destruct (live w key); simpl; eauto.
Qed.

Definition demo_prices : list (string * Decimal) := [("BTCUSDT", New 600001 (-1)); ("ETHUSDT", New 3 3)].
Definition empty_store : RedisStore := {| rd_now := 1000; rd_data := ∅ |}.
Definition filled_store : RedisStore :=
  (run demo_redis (SetQuotes (NewRedisQuotesCache 0 0) "BINANCE" demo_prices 1700000000) empty_store).2.

Lemma cached_quote_life_witness :
  let c := NewRedisQuotesCache 0 0 in
  let w := empty_store in let w1 := filled_store in
  (exists hits, (run demo_redis (Redis.GetQuotes "BINANCE" ["btcusdt"]) filled_store).1
     = Some (hits, [], None) /\ hits !! "btcusdt" <> None) /\
  0 < freshTTL c /\ 0 < staleTTL c /\
  (forall sym price, (sym, price) ∈ demo_prices -> in_i32 (d_exp price) ->
     exists price', deq price' price /\
       let q stale := {| cq_Symbol := sym; cq_Price := price'; cq_Timestamp := 1700000000;
                         cq_IsStaleCache := stale |} in
       forall t asked s, s ∈ asked -> ToUpper s = ToUpper sym ->
         reads_as "BINANCE" w1 t asked s
           (if t <? rd_now w + freshTTL c then Some (q false) else None)
           (if t <? rd_now w + staleTTL c then Some (q true) else None) /\
         (forall r w2,
            exec redis_env (GetStaleQuote "BINANCE" s) (at_time t w1) (Some r) w2 ->
            (exists e, r = Err (ErrWrap "failed to get stale quote" e)) \/
            r = if t <? rd_now w + staleTTL c then Ok (q true) else Err (ErrSentinel ErrCacheMiss))) /\
  (forall t asked other, other ∈ asked -> ToUpper other ∉ map (fun sp => ToUpper sp.1) demo_prices ->
     exists fresh stale, reads_as "BINANCE" w1 t asked other fresh stale /\
       reads_as "BINANCE" w t asked other fresh stale).
Proof.
  intros c w w1. split; [eexists; split; [vm_compute; reflexivity|done]|].
  apply (cached_quote_life 0 0 "BINANCE" demo_prices 1700000000 empty_store filled_store).
  - reflexivity.
  - apply (bool_decide_unpack (NoDup _)). vm_compute. exact I.
  - assert ((run demo_redis (SetQuotes (NewRedisQuotesCache 0 0) "BINANCE" demo_prices 1700000000)
      empty_store).1 = Some (Ok tt)) as <- by (vm_compute; reflexivity).
    apply (run_exec redis_env), demo_redis_ok.
Defined.

(** ** The webhook *)

(** The report of the integration guide, with the members [C], [Q] and [I] Binance adds: they
    fold onto [c], [q] and [i]. *)
Definition demo_members : list (string * json) :=
  [("e", JStr "executionReport"); ("E", JNum false 1727254800000 0); ("s", JStr "BTCUSDT");
   ("S", JStr "BUY"); ("o", JStr "MARKET"); ("x", JStr "TRADE"); ("X", JStr "FILLED");
   ("c", JStr "7b1f"); ("C", JStr ""); ("q", JStr "0.05000000"); ("Q", JStr "0.00000000");
   ("i", JNum false 1001 0); ("I", JNum false 3407 0); ("l", JStr "0.05000000"); ("L", JStr "64250.0000");
   ("n", JStr "0.00003750"); ("N", JStr "BNB"); ("T", JNum false 1727254800000 0)].

Definition demo_report : RawBinanceExecutionReport := {|
  EventType := "executionReport"; EventTime := 1727254800000; Symbol := "BTCUSDT";
  ClientOrderID := "7b1f"; Side := "BUY"; OrderType := "MARKET"; OriginalQuantity := "0.05000000";
  Price := ""; ExecutionType := "TRADE"; OrderStatus := "FILLED"; OrderID := 1001;
  LastExecutedQuantity := "0.05000000"; CumulativeFilledQty := "";
  LastExecutedPrice := "64250.0000"; CumulativeQuoteQuantity := "" |}.

Ltac clean_document :=
  apply (bool_decide_unpack (map_Forall _ _)); vm_compute; exact I.

Lemma demo_report_document : report_document (decode_map demo_members) demo_report.
Proof.
  split; [reflexivity|]. split; [by eexists|]. split; [clean_document|].
  repeat split; solve [left; vm_compute; reflexivity | right; split; vm_compute; reflexivity
                      | left; split; vm_compute; reflexivity].
Qed.

(** The same report with its order time. *)
Definition timed_members : list (string * json) :=
  (demo_members ++ [("O", JNum false 1727254799990 0)])%list.

Lemma native_report_delivered_witness :
  let s := NewServer (ProcessFill (NewFillProcessor false true)) in
  let reply := handleBinanceOrderWebhook s "POST" (Ok demo_members) in
  ((~ execution demo_report -> reply = http_reply 200 (status_document "ignored")) /\
   (execution demo_report -> (forall q, ~ quantity_of demo_report q) ->
    reply = http_reply 400 "invalid execution quantity") /\
   (forall q, execution demo_report -> quantity_of demo_report q -> moderate q ->
    (forall c, NewFromString (CumulativeQuoteQuantity demo_report) = Ok c -> moderate c) ->
    exists p, price_of demo_report q p /\
      reply = process s {|
        fe_Provider := "BINANCE"; fe_ProviderOrderID := "1001"; fe_Symbol := "BTCUSDT";
        fe_Side := "BUY"; fe_Status := "FILLED"; fe_ExecutedQuantity := q; fe_FillPrice := p |})) /\
  handleBinanceOrderWebhook s "POST" (Ok timed_members)
    = http_reply 400 "invalid binance execution report".
Proof.
  split.
  - apply (native_report_delivered _ demo_members).
    + vm_compute. reflexivity.
    + reflexivity.
    + by eexists.
    + apply demo_report_document.
  - apply (native_report_delivered _ timed_members) with (neg := false) (c := 1727254799990%N) (p := 0).
    + vm_compute. reflexivity.
    + reflexivity.
    + by eexists.
    + reflexivity.
Defined.

Definition demo_event : FillEvent := {|
  fe_Provider := "BINANCE"; fe_ProviderOrderID := "998877"; fe_Symbol := "ETHUSDT";
  fe_Side := "SELL"; fe_Status := "FILLED";
  fe_ExecutedQuantity := New 15 (-1); fe_FillPrice := New 320050 (-2) |}.

Definition demo_event_members : list (string * json) :=
  [("provider", JStr "BINANCE"); ("provider_order_id", JStr "998877"); ("symbol", JStr "ETHUSDT");
   ("side", JStr "SELL"); ("status", JStr "FILLED"); ("executed_quantity", JStr "1.5");
   ("fill_price", JStr "3200.5")].

Lemma fill_event_delivered_witness :
  exists q p, deq q (New 15 (-1)) /\ deq p (New 320050 (-2)) /\
    handleBinanceOrderWebhook (NewServer (ProcessFill (NewFillProcessor true false))) "POST"
      (Ok demo_event_members) =
    process (NewServer (ProcessFill (NewFillProcessor true false))) {|
      fe_Provider := "BINANCE"; fe_ProviderOrderID := "998877"; fe_Symbol := "ETHUSDT";
      fe_Side := "SELL"; fe_Status := "FILLED"; fe_ExecutedQuantity := q; fe_FillPrice := p |}.
Proof.
  apply (fill_event_delivered _ demo_event_members demo_event).
  - vm_compute. reflexivity.
  - split; [reflexivity|]. split; [clean_document|].
    repeat split; solve [left; vm_compute; reflexivity | vm_compute; reflexivity].
  - vm_compute. split; congruence.
  - vm_compute. split; congruence.
Defined.

Definition webhook_run := run_trace demo_answer
  (ServeHTTP (NewServer (ProcessFill (NewFillProcessor true false))) "/webhooks/binance/order"
     "POST" (Ok demo_members)).

Lemma webhook_reply_witness :
  webhook_run.2 = Some processed_reply /\
  (("/webhooks/binance/order" = "/healthz" -> rp_Status processed_reply = 200 /\ webhook_run.1 = []) /\
   ("/webhooks/binance/order" <> "/healthz" ->
    "/webhooks/binance/order" <> "/webhooks/binance/order" -> rp_Status processed_reply = 404 /\ webhook_run.1 = []) /\
   ("/webhooks/binance/order" = "/webhooks/binance/order" ->
    ("POST" <> "POST" -> rp_Status processed_reply = 405) /\
    ((refusal processed_reply /\ webhook_run.1 = []) \/
     (exists members event, @Ok (list (string * json)) demo_members = Ok members /\
        delivers members event /\
        ((processed_reply = processed_reply /\ valid_fill event /\
          settled_run (NewFillProcessor true false) event webhook_run.1) \/
         (rp_Status processed_reply = 500 /\ exists e,
            traces (ProcessFill (NewFillProcessor true false) event) webhook_run.1
              (Some (Err e)))))))).
Proof.
  assert (webhook_run.2 = Some processed_reply) as Hr by (vm_compute; reflexivity).
  split; [exact Hr|].
  apply (webhook_reply (NewFillProcessor true false) "/webhooks/binance/order" "POST"
    (Ok demo_members)).
  rewrite <- Hr. apply run_trace_traces.
Defined.

(** ** The deployed system *)

Definition demo_environ (key : string) : string :=
  if String.eqb key "REDIS_PASSWORD" then ""
  else if String.eqb key "BINANCE_BASE_URL" then "https://api.binance.com/"
  else if String.eqb key "OPENBAO_ADDR" then "http://bao:8200"
  else if String.eqb key "DEFAULT_BROKER" then " binance "
  else key.

Definition no_config : Config := {|
  GRPCPort := ""; HTTPPort := ""; DatabaseURL := ""; RedisAddr := ""; RedisPassword := "";
  RedisDB := 0; OpenBaoAddr := ""; OpenBaoToken := ""; OpenBaoTransitKey := "";
  BinanceBaseURL := ""; LivroGRPCAddr := ""; AtivosGRPCAddr := ""; cf_DefaultBroker := 0;
  CacheFreshTTL := 0; CacheStaleTTL := 0; BinanceRecvWindow := 0; BinanceHTTPTimeout := 0 |}.

Definition demo_config : Config := default no_config (run (environ demo_environ) Load tt).1.

Example demo_config_loaded :
  BinanceBaseURL demo_config = "https://api.binance.com" /\ cf_DefaultBroker demo_config = 1.
Proof. vm_compute. done. Qed.

(** Standalone mode: Ativos could not be reached. *)
Definition demo_deployment : Deployment :=
  {| dp_config := demo_config; dp_pool := true; dp_livro := true; dp_ativos := false |}.

(** No signature and no exchange are needed here. *)
#[local] Instance client_hmac : Hmac := fun _ _ => [].

Definition demo_wire (op : SysOp) : SysRes op :=
  match op return SysRes op with
  | Native op => demo_answer op
  | ToVault op => (demo_vault_step op bare_heap).1
  | ToExchange UnixMilli => 0
  | ToExchange (CredsLoad _) => ([], [])
  | ToExchange (CredsWipe _) => tt
  | ToExchange (NewRequest _) => Ok tt
  | ToExchange (DoRequest _ _) => failure
  | ToExchange (CloseBody _) => tt
  | ToRedis (RMGet _) => failure
  | ToRedis (RGet _) => GetNil
  | ToRedis (RExec _) => failure
  | ToLivro (Livro.RpcCaptureHold _) => Ok tt
  | ToLivro (Livro.RpcCredit _) => Ok tt
  | ToLivro (Livro.RpcGetBalance _) => Ok "0"
  | ToLivro (Livro.RpcInitializeAccount _) => failure
  | ToLivro (Livro.RpcGetAccount _) => Ok (Some (Some "acc-1"))
  | ToAtivos _ => Ok tt
  end.

Definition wire_fill : FillEvent := {|
  fe_Provider := "BINANCE"; fe_ProviderOrderID := "4242"; fe_Symbol := "BTCUSDT";
  fe_Side := "BUY"; fe_Status := "FILLED";
  fe_ExecutedQuantity := New 5 (-1); fe_FillPrice := New 6000012345 (-5) |}.

Definition wire_run :=
  run_trace demo_wire (deployed demo_deployment (fill_processor demo_deployment wire_fill)).

Lemma settlement_on_the_wire_witness :
  wire_run.2 = Some (Ok tt) /\
  settled_calls demo_deployment wire_fill wire_run.1.
Proof.
  assert (wire_run.2 = Some (Ok tt)) as Hr by (vm_compute; reflexivity).
  split; [exact Hr|].
  apply (settlement_on_the_wire demo_deployment wire_fill).
  - vm_compute. split; congruence.
  - vm_compute. split; congruence.
  - rewrite <- Hr. apply run_trace_traces.
Defined.

(** The vault hands out memory, the exchange client wipes it. *)
Definition demo_system (op : SysOp) : Heap -> SysRes op * Heap :=
  match op return Heap -> SysRes op * Heap with
  | Native (CredsZero p) => fun h => (tt, Vault.Zero (Some p) h)
  | ToVault op => demo_vault_step op
  | ToExchange (CredsLoad p) => fun h => (loaded h p, h)
  | ToExchange (CredsWipe p) => fun h => (tt, Vault.Zero (Some p) h)
  | op => fun h => (demo_wire op, h)
  end.

Definition deployed_run :=
  run demo_system (deployed demo_deployment (ExecuteTrade 1 (pregao_server demo_deployment) demo_request))
    bare_heap.

(** The system's memory behaves as the environment says: a run of the deployed service
    from an empty heap, the pair decrypted, used and wiped. *)
Lemma demo_system_ok op h :
  sys_env demo_reply op h (demo_system op h).1 (demo_system op h).2.
Proof.
  destruct op as [op|op|op|op|r|r]; try done; [by destruct op|apply demo_vault_step_ok|by destruct op].
Qed.

Definition deployed_answer : Result ExecuteTradeResponse :=
  Err (ErrStatus Unavailable "broker rejected order execution").

Lemma deployed_leaves_no_plaintext_witness :
  deployed_run.1 = Some deployed_answer /\
  (exists b, buffers deployed_run.2 !! b = Some [0; 0; 0]) /\
  (forall b bytes, buffers bare_heap !! b = None -> buffers deployed_run.2 !! b = Some bytes ->
     wiped bytes).
Proof.
  split; [vm_compute; reflexivity|]. split; [exists 0%nat; vm_compute; reflexivity|].
  apply (deployed_leaves_no_plaintext demo_deployment demo_open demo_reply
    (VaultReplies0 := demo_replies _ _ _)).
  left. exists 1%nat, demo_request, deployed_run.1.
  apply (run_exec (sys_env demo_reply)), demo_system_ok.
Defined.

(** The exchange fills the order. *)
Definition demo_fill_reply : Response OrderResponse := demo_ok {|
  od_OrderID := 4242; od_ExecutedQty := "0.5"; od_CummulativeQuoteQty := "30000";
  od_Status := "FILLED"; od_Code := 0; od_Msg := "" |}.

Definition trade_wire (op : SysOp) : SysRes op :=
  match op return SysRes op with
  | ToExchange (CredsLoad _) => ([1; 2], [3; 4])
  | ToExchange (DoRequest k _) =>
      match k return Result (Response (Body k)) with
      | OrderBody => Ok demo_fill_reply
      | _ => failure
      end
  | op => demo_wire op
  end.

Definition trade_run :=
  run_trace trade_wire (deployed demo_deployment (ExecuteTrade 1 (pregao_server demo_deployment) demo_request)).

Definition trade_answer : Result ExecuteTradeResponse :=
  Ok {| er_ProviderOrderId := "4242"; er_Status := "FILLED" |}.

(** The runtime and the database keep their side in any run with these answers. *)
Lemma trade_wire_answered {A} s req (p : system A) :
  answered (trade_protocol s req) (native_calls (run_trace trade_wire p).1).
Proof.
  induction p as [a|m|op k IH u IHu]; simpl; [constructor..|]. specialize (IH (trade_wire op)).
  destruct (run_trace trade_wire (k (trade_wire op))) as [tr o]. simpl in *.
  destruct op as [op| | | | |]; try done. unfold native_calls in *. simpl.
  constructor; [apply demo_answers_ok|done].
Qed.

(** Memory runs out while the vault's answer is read. *)
Definition exhausted (op : SysOp) : option (SysRes op) :=
  match op return option (SysRes op) with
  | ToVault (VAlloc _) => None
  | op => Some (trade_wire op)
  end.

Definition exhausted_run := run_calls exhausted
  (deployed demo_deployment (ExecuteTrade 1 (pregao_server demo_deployment) demo_request)).

Definition is_alloc (c : call_event SysRes) : bool :=
  match c with Panicked (ToVault (VAlloc _)) => true | _ => false end.
Definition is_close (c : call_event SysRes) : bool :=
  match c with Answered (ev (ToVault (VClose SingleDecrypt)) _) => true | _ => false end.

Lemma bodies_closed_witness :
  exhausted_run.2 = None /\ existsb is_alloc exhausted_run.1 = true /\
  existsb is_close exhausted_run.1 = true /\
  follow_run (brackets SysRes) [] exhausted_run.1 = Some [].
Proof.
  do 3 (split; [vm_compute; reflexivity|]).
  apply (bodies_closed demo_deployment
    (ExecuteTrade 1 (pregao_server demo_deployment) demo_request) _ exhausted_run.2).
  apply run_calls_runs.
Defined.

Lemma trade_on_the_wire_witness :
  trade_run.2 = Some trade_answer /\ length (exchanged trade_run.1) = 1%nat /\
  (nothing_sent trade_run.1 trade_run.2 \/
   exists pre post intent qty creds key secret now r answer,
     trade_run.1 = (pre ++ ev (ToExchange (DoRequest OrderBody r)) answer :: post)%list /\
     exchanged pre = [] /\ exchanged post = [] /\
     Exists (fun v => is_reserved v = true) (native_calls pre) /\
     valid_trade demo_request = Some (intent, qty) /\
     ev (ToExchange (CredsLoad creds)) (key, secret) ∈ pre /\
     order_on_wire (broker_client demo_deployment) (market_order_of demo_request qty) key secret now r /\
     forall resp, trade_run.2 = Some resp -> order_answered answer resp).
Proof.
  split; [vm_compute; reflexivity|]. split; [vm_compute; reflexivity|].
  apply (trade_on_the_wire demo_deployment 1 demo_request).
  - apply run_trace_traces.
  - apply trade_wire_answered.
Defined.

(** ** Replicas *)

(** A database without faults, and an exchange that fills every order. *)
Definition replica_answer (op : SysOp) (e : OrderTable * list HttpRequest)
    : SysRes op * (OrderTable * list HttpRequest) :=
  match op return SysRes op * (OrderTable * list HttpRequest) with
  | Native op =>
      let '(r, (t, _)) := table_answer failure false op (e.1, []) in (r, (t, e.2))
  | ToExchange (DoRequest OrderBody hr) => (Ok demo_fill_reply, (e.1, hr :: e.2))
  | op => (trade_wire op, e)
  end.

Lemma replica_answer_env op e :
  replica_env false op e (replica_answer op e).1 (replica_answer op e).2.
Proof.
  destruct e as [t executed], op as [op| |[| | | |[] hr|]| | |]; try done.
  2: { split; [done|]. exists true. split; [|done]. split; [done|]. intros _ _.
       eexists. split; [by eexists; split; [reflexivity|]|]. split; intros d [= <-]; done. }
  pose proof (table_answer_env false None failure false op (t, []) eq_refl ltac:(done)) as Ht.
  unfold replica_answer. cbn [fst snd].
  destruct (table_answer failure false op (t, [])) as [r [t' x]] eqn:E. cbn [fst snd] in *.
  assert (x = []) as ->.
  { destruct op; simpl in E; try congruence;
      repeat match type of E with context [let '_ := ?y in _] => destruct y end; congruence. }
  by split.
Qed.

Definition replica_run :=
  run replica_answer (deployed demo_deployment
    (ExecuteTrade 1 (pregao_server demo_deployment) demo_request ;;; Ret tt)%go) (∅, []).

Lemma replicas_on_the_wire_witness :
  exists ws, length (rp_executed ws) = 1%nat /\ is_Some (rp_orders ws !! demo_uuid) /\
    exists sys, reachable false sys /\ sys_orders sys = rp_orders ws /\
      Forall2 order_of_request (sys_executed sys) (rp_executed ws) /\
      (false = false ->
       NoDup (map request_intent (sys_executed sys)) /\
       NoDup (omap request_key (sys_executed sys)) /\
       forall req, req ∈ sys_executed sys ->
         exists id r, rp_orders ws !! id = Some r /\ row_of_request req r).
Proof.
  destruct (replica_request_runs false no_replicas demo_deployment 1 demo_request replica_run.1 replica_run.2)
    as (ws & Hs & Ho & Hx).
  - apply run_exec, replica_answer_env.
  - exists ws. rewrite Hx, Ho. split; [vm_compute; reflexivity|].
    split; [vm_compute; eexists; reflexivity|]. rewrite <- Hx, <- Ho.
    apply (replicas_on_the_wire false ws). exact Hs.
Defined.

(** ** Quotes *)

(** An exchange that lists one ticker, and a Redis store. *)
Definition market_answer (up : bool) (op : SysOp) (w : RedisStore) : SysRes op * RedisStore :=
  match op return SysRes op * RedisStore with
  | ToRedis op => demo_redis op w
  | ToExchange (DoRequest k _) =>
      (match k return Result (Response (Body k)) with
       | BookTickerBody =>
           if up then Ok (demo_ok {| rb_Symbol := "BTCUSDT"; rb_BidPrice := "60000"; rb_BidQty := "1";
                                     rb_AskPrice := "60000.02"; rb_AskQty := "2" |})
           else failure
       | _ => failure
       end, w)
  | op => (demo_wire op, w)
  end.

Lemma market_answer_env up op w :
  market_env up op w (market_answer up op w).1 (market_answer up op w).2.
Proof.
  destruct op as [op|op|op|op|r|r]; try done.
  - destruct op as [| | | |k r|]; try done. split; [by destruct k|].
    destruct up; [|by destruct k].
    destruct k; simpl; try done; intros resp b [= <-]. by intros [= <-].
  - pose proof (demo_redis_ok op w) as Hr. by destruct op.
Qed.

Definition quote_request : GetQuotesRequest := {| gq_Symbols := [" btcusdt"]; gq_Provider := "" |}.

Definition market_run (up : bool) (w : RedisStore) :=
  run (market_answer up) (deployed demo_deployment (GetQuotes (pregao_server demo_deployment) quote_request)) w.

Definition first_quotes : gmap string Quote := answer_of ∅ (market_run true empty_store).1.
Definition kept_store : RedisStore := (market_run true empty_store).2.
Definition outage_quotes (t : Z) : gmap string Quote := answer_of ∅ (market_run false (at_time t kept_store)).1.

Lemma quotes_survive_an_outage_witness :
  outage_quotes 1001 !! "BTCUSDT" = Some (quote "BTCUSDT" (New 6000001 (-2)) (time_Unix 0) false) /\
  exists price price' unix, quote "BTCUSDT" (New 6000001 (-2)) (time_Unix 0) false
      = quote "BTCUSDT" price unix false /\ deq price' price /\
    forall t req' m' w2, (exists y, y ∈ gq_Symbols req' /\ "BTCUSDT" = cleaned y) ->
      exec (market_env false) (deployed demo_deployment (GetQuotes (pregao_server demo_deployment) req'))
        (at_time t kept_store) (Some (Ok m')) w2 ->
      m' !! "BTCUSDT" =
        if t <? rd_now empty_store + Redis.freshTTL (quotes_cache demo_deployment)
        then Some (quote "BTCUSDT" price' unix false)
        else if t <? rd_now empty_store + Redis.staleTTL (quotes_cache demo_deployment)
        then Some (quote "BTCUSDT" price' unix true) else None.
Proof.
  split; [vm_compute; reflexivity|].
  apply (quotes_survive_an_outage demo_deployment true quote_request empty_store first_quotes).
  - assert ((market_run true empty_store).1 = Some (Ok first_quotes)) as <-
      by (apply answer_of_run; vm_compute; reflexivity).
    apply (run_exec (market_env true)), market_answer_env.
  - vm_compute. reflexivity.
  - vm_compute. reflexivity.
  - reflexivity.
  - done.
Defined.

(** ** Reconciliation *)

Definition account_wire_answer (op : SysOp) : SysRes op :=
  match op return SysRes op with
  | ToExchange (DoRequest k _) =>
      match k return Result (Response (Body k)) with
      | AccountBody => Ok (demo_ok {| ac_Balances := [{| ab_Asset := "BTC"; ab_Free := "2" |};
                                                      {| ab_Asset := "USDC"; ab_Free := "10.5" |}] |})
      | _ => failure
      end
  | op => trade_wire op
  end.

Definition sync_request : SyncBrokerBalancesRequest :=
  {| sb_TenantId := "tenant-1"; sb_UserId := "user-1"; sb_Provider := "" |}.

Definition sync_wire_run :=
  run_trace account_wire_answer
    (deployed demo_deployment (SyncBrokerBalances (pregao_server demo_deployment) sync_request)).

Definition sync_response : SyncBrokerBalancesResponse :=
  {| sr_InSync := false; sr_NetFiatAdjustment := "10.5000" |}.

Lemma reconciliation_on_the_wire_witness :
  length (exchanged sync_wire_run.1) = 1%nat /\
  exists pre account ledger_wire post creds balances fiat ledger,
    sync_wire_run.1 = (pre ++ account ++ ledger_wire ++ post)%list /\
    exchanged pre = [] /\ exchanged ledger_wire = [] /\ exchanged post = [] /\
    account_on_wire demo_deployment creds account balances /\
    first_of ["USDT"; "USD"; "BUSD"; "USDC"] balances fiat /\
    ledger_on_wire demo_deployment sync_request ledger_wire ledger /\
    reconciled fiat ledger sync_response.
Proof.
  split; [vm_compute; reflexivity|].
  apply (reconciliation_on_the_wire demo_deployment sync_request).
  assert (sync_wire_run.2 = Some (Ok sync_response)) as <- by (vm_compute; reflexivity).
  apply run_trace_traces.
Defined.

(** ** A report *)

Lemma demo_report_moderate : report_moderate demo_report.
Proof.
  intros text n Hin.
  assert (text = "0.05000000" \/ text = "") as [-> | ->].
  { simpl in Hin. rewrite !elem_of_cons in Hin.
    destruct Hin as [->|[->|[->|Hin]]]; auto. by apply elem_of_nil in Hin. }
  - assert (NewFromString "0.05000000" = Ok (New 5000000 (-8))) as -> by (vm_compute; reflexivity).
    intros [= <-]. unfold moderate. simpl d_exp. lia.
  - assert (is_ok (NewFromString "") = false) as Hr by (vm_compute; reflexivity).
    intros E. by rewrite E in Hr.
Qed.

Definition report_run :=
  run_trace demo_wire (deployed demo_deployment
    (ServeHTTP (webhook_server demo_deployment) "/webhooks/binance/order" "POST" (Ok demo_members))).

Lemma report_on_the_wire_witness :
  report_run.2 = Some processed_reply /\
  execution demo_report /\
  exists q p, quantity_of demo_report q /\ price_of demo_report q p /\
    settled_calls demo_deployment (report_fill demo_report q p) report_run.1.
Proof.
  assert (report_run.2 = Some processed_reply) as Hr by (vm_compute; reflexivity).
  split; [exact Hr|]. apply (report_on_the_wire demo_deployment demo_members demo_report).
  - vm_compute. reflexivity.
  - apply demo_report_document.
  - apply demo_report_moderate.
  - rewrite <- Hr. apply run_trace_traces.
Defined.
